(* ===== verification/_CoqProject ===== *)
-Q . S2P
Prelude.v
Query.v
Schema.v
Layout.v
NodeMeta.v
Oid.v
External.v
ObjAlloc.v
AllocStack.v
OidArray.v
CacheInner.v
ClockCache.v
CacheMachine.v
CacheSim.v
Table.v
Capacity.v
Reset.v
UnitTests.v
Updates.v
CacheTests.v
CacheThreads.v
Guarded.v
Txn.v
TxnView.v
LoadLog.v
TxnRoom.v
SpecTable.v
TxnReset.v
AsyncTask.v
AsyncBench.v
Logger.v
LogMachine.v
LogTests.v
InsertOnly.v
Metric.v
Mmap.v
Drops.v
TpccTables.v
TpccSchemas.v
TpccUtils.v
Results.v
Float64.v
TpccTxn.v
TpccLoad.v
TpccView.v
NewOrder.v
Payment.v
TpccReads.v
Delivery.v
TpccDemo.v
TpccRuns.v
TpccRows.v
TpccLoading.v
TpccReal.v
TpccLoaded.v
TpccNew.v
TpccRoom.v
TpccBuilt.v
TpccReset.v
TpccGen.v
TpccTasks.v
