(* ===== verification/Prelude.v ===== *)
(** * Alchemy: a verification of the record cache, its tables and their benchmark

    Alchemy (src/src) is an in-memory table that keeps the hot columns of its
    records in a cache of slots and whole tuples in a larger, slower storage.
    Every record has an id ([Rid]); the 64-bit word of the id (its OID) holds a
    lock, and says whether the record is in a slot or only in storage.  The
    TPC-C benchmark (src/benchmark) runs on such tables; src/metric counts.
    This development models that code as executable Rocq functions and proves
    what each part promises the next.

    ** Conventions

    Operations return an [outcome]: a value, a panic (failed assertion,
    [unwrap], index out of range, arithmetic overflow with overflow checks on),
    undefined behaviour (a raw access outside its object), or [Spin], a loop
    still running when its fuel is used up.  Rust's [Result] is [result] inside
    an [outcome].  A theorem [op s = Ret r] thus excludes panics, undefined
    behaviour and non-termination.  Integers are [Z] with their width in [chk]
    (checked), [wrap] (atomics, casts) and [fits].  Structs that the code
    accesses through raw pointers are lists of bytes, with the field offsets
    computed from repr(C) layouts.  Shared state is passed explicitly.  What the
    scheduler, the random number generator and the operating system decide
    (values observed by atomic loads, spurious failures of weak exchanges,
    draws, addresses) is an argument, universally quantified in the theorems.

    ** Files, in dependency order

    The store:
    - [Prelude]: outcomes, machine integers, bit fields, byte objects, the
      tactics [runm], [inv_ret], [zdiv] and the hint database [alchemy].
    - [Query] (query.rs): fields, field lists, update queries and their iterator.
    - [Schema] (error.rs, attribute_cache/mod.rs, macro_utils): the [Schema]
      trait as a class, and the class [SchemaLaws] that states what the cache
      needs of a schema: cached fields agree with the tuple they were made from,
      a field written in the slot is the tuple's after [write_back].
    - [Layout]: repr(C) layouts, and two ways to make lawful schemas (the tuple
      itself, or a copy of some columns), with a decidable check of the laws.
    - [NodeMeta] (clock_cache/node_meta.rs): hotness, dirty and reference bits.
    - [Oid] (clock_cache/oid.rs): the OID word, its lock and its guards.  Module
      [LockMachine] is a step relation with one atomic access per step and any
      number of threads, the second load in [try_read]'s debug assertion
      included; its invariant gives mutual exclusion.
    - [External]: interfaces of the crates the program calls (concurrent map,
      random booleans), as classes with laws and a [gmap] instance.
    - [ObjAlloc] (utils/obj_alloc.rs): the lock-free free list, thread-local
      arenas and the heap array on top.  Module [AllocMachine] interleaves
      allocations of many threads; [AllocStack] specifies the allocations and
      deallocations of one owner as a stack.
    - [OidArray] (storage/oid_array.rs, table_storage.rs): record ids and tuples.
    - [CacheInner] (clock_cache/cache_inner.rs): the slots and the probe for a
      victim, with the invariants that link slots and OID words.
    - [ClockCache] (clock_cache/mod.rs, value access of attribute_cache/mod.rs):
      insert, read, promote, write, lock.  [record_value] abstracts a cache to a
      map from record ids to tuples; each operation is a step on that map.
    - [CacheMachine], [CacheSim]: the same operations cut at their shared
      accesses, interleaved by any number of threads, and the simulation of a map
      under reader-writer locks.  Runs have fewer than [MAX_READER] read guards
      per record, which the blocking [read] does not enforce.
    - [Table] (index/mod.rs, table.rs): indexes as a class with laws, tables and
      their builder; requests on a table refine requests on a finite map from
      keys to tuples.
    - [Capacity], [Reset]: how many records a table has room for, when new and
      after [reset].
    - [UnitTests], [CacheTests] (the tests next to the code, utils/test_gen.rs);
      [CacheThreads]: the tests of the cache that start threads, which take the
      steps of [CacheMachine] in any order;
      [Updates]: update queries on cached structs and on tuples.
    - [AsyncTask], [AsyncBench] (async_task): futures, [block_on], the
      round-robin executor; the list traversals it is measured with.
    - [Logger], [LogMachine], [LogTests] (log/mod.rs, utils/backoff.rs): the two
      log buffers, one operation at a time and with copies in flight.
    - [InsertOnly] (the rest of table.rs, utils/nt_copy.rs): the insert-only
      table with its per-thread pages.
    - [Metric] (src/metric): counters, histograms, timers, their sums and how
      they are written out.
    - [Mmap] (utils/mmap.rs, storage/pm_heap.rs): mappings and pool files.
    - [Drops]: the [Drop] implementations over a ledger of what is allocated.

    Transactions in general:
    - [Guarded]: the interface [GuardedTable] with its laws, which [DbTable]
      implements; [SpecTable] is another implementation, by maps.
    - [Txn]: programs over guarded tables, their runs and a weakest-precondition
      logic; [TxnView]: that logic on plain maps from ids to tuples.
    - [LoadLog] (programs that only insert, interleaved), [TxnRoom] (programs
      that do not run out of record ids), [TxnReset] (resetting a table, a
      thread's clock hands, what a program leaves alone).

    The benchmark (src/benchmark):
    - [TpccTables], [TpccSchemas] (tpcc/tables.rs, schemas.rs): tuple layouts,
      key packing and the fifteen schemas.
    - [TpccUtils] (utils.rs), [Float64], [Results] (results, choice of the next
      transaction).
    - [TpccTxn] (tpcc/query): the five transactions, call by call; [TpccView],
      [NewOrder], [Payment], [TpccReads], [Delivery]: what they do on maps;
      [TpccDemo], [TpccRuns]: what runs of them do on any guarded tables.
    - [TpccLoad], [TpccRows], [TpccLoading], [TpccLoaded] (tpcc/workload.rs,
      [load]): the loader with its 32 threads and what it establishes.
    - [TpccReal]: the benchmark's tables as [DbTable]s; [TpccNew], [TpccRoom],
      [TpccBuilt], [TpccReset] ([new], [thread_init], [reset_order]): the memory
      [new] computes, whether loading fits it, and reloading the orders.
    - [TpccGen], [TpccTasks] (the [gen] functions of tpcc/query): the inputs a
      task draws, and what the transactions do with them on a loaded database.

    ** What is proved

    - The table and its cache: [Table.table_refines_map] says that a table
      answers like a plain map whatever is cached, promoted or evicted; the
      theorems at the end of [ClockCache] give the same per operation, for every
      record at once.  They rest on [CacheInner]'s link invariant (slot and word
      name each other) and on [SchemaLaws], which [TpccSchemas] discharges for
      the schemas of the benchmark.
    - Concurrency: [CacheSim.cache_refines_locked_map] says that threads whose
      shared accesses interleave in any way observe a map of records under locks;
      no step of theirs fails but the assertion of a [try_read] that a writer
      overtook ([cache_steps_return]), plain memory is never
      raced for ([cache_race_free]), and nothing is lost once all guards are
      dropped ([cache_quiescent_state]).  [LockMachine] and [AllocMachine] do the
      same for the words and the allocator below.
    - Memory: fresh ids, disjoint blocks, pool frames with files of their own;
      a table never runs out of the ids it was built for, new or reset
      ([Reset.reset_serves_capacity]); what is allocated is given back with its
      layout when a table is dropped ([Drops.table_frees_all]).
    - Transactions: the effect of each of the five on every table and index,
      aborts included, for every run on guarded tables ([TpccRuns]).
    - Their database: creating it gives enough memory, or demonstrably not
      ([TpccBuilt]); loading it, in every interleaving, makes exactly the records
      of the draws ([TpccRows.all_records]), reached through their keys, and
      establishes what the transactions assume ([TpccLoaded.load_prepares]), the
      discount of a payment's customer aside, which the loader may draw outside
      what payment asserts; [reset_order] brings the orders and lines back
      ([TpccReset]); the inputs a task draws meet the transactions' assumptions
      ([TpccTasks.task_runs_on_loaded]).
    - The log, for entries of any sizes: with copies that finish before their
      buffer is flushed the file is a prefix of the log and only a reservation
      that is too long or does not fit its buffer fails
      ([LogMachine.flush_keeps_log_prefix]); without, a run that loses an entry
      is shown.  Insert-only pages keep every tuple.
    - Termination: loops have fuel, and the theorems give results, so the fuel
      is enough.  [alloc_loop] needs one round when no other thread interferes,
      [append_loop] two (a new arena is not empty), [get_tls_page] two; the
      probe runs [probe_len] rounds like the code; the executor is given the
      [(K + 1) * N] polls that [AsyncTask.executor_runs_all] proves sufficient;
      spin loops end with the first success among the given observations.
    - Metrics and results of several threads add up to those of one, and what is
      written out has every event's value under the event's name.
    - The unit tests pass, for all draws, addresses and orders ([UnitTests],
      [CacheTests], [AsyncBench]); those of the cache that start threads in every
      interleaving of the threads' accesses, and they can always come to their
      end ([CacheThreads.multi_test_passes]).
    - Where the code does something its authors cannot have meant, a theorem
      states what it does: [Oid.reader_overflow_sets_writer],
      [Oid.LockMachine.try_read_may_panic], [AsyncTask.executor_of_256],
      [Logger.log_buffer_overflow], [TpccSchemas.stock_dist10_write_lost],
      [TpccTables.order_key_collision], [AsyncTask.executor_underfull_spins],
      [Mmap.fallback_is_anonymous], [TpccUtils.last_name_overwrites],
      [LogMachine.flush_may_lose_entry], [Drops.CacheInner_drop_truncated],
      [TpccBuilt.new_too_small], [TpccGen.gen_w_id_crowded], and the examples of
      [TpccRuns] on aborted payments and deliveries.

    ** Not modelled

    Transactions whose calls interleave with those of other transactions (a
    transaction runs against locks that others hold throughout; the cache below
    it is interleaved access by access in [CacheMachine]); memory reclamation of
    the maps, prefetch instructions and sanitizer annotations, which have no
    effect on values; weak memory orderings (atomic accesses are sequentially
    consistent); the normalisation of results by time and their printing; the
    derive macros (what they generate is modelled); the drivers of the
    benchmarks, which measure. *)

From stdpp Require Export base tactics option list numbers strings gmap relations.
From Stdlib Require Export ZArith Lia.
Global Open Scope Z_scope.
Global Set Default Goal Selector "!".

(** ** Outcomes

    A Rust computation returns a value or panics ([unwrap]/[expect] on a
    failure, [assert!], [debug_assert!], an out-of-range index, arithmetic
    overflow with overflow checks on).  The unsafe parts can also leave the
    language: [Undef] is undefined behaviour (a raw read or write outside its
    object).  [Spin] is a loop still running when its fuel ends.  [Result]
    values of the source are ordinary sums ([result] below) inside an
    [outcome], so a theorem [op s = Ret r] excludes panics, undefined behaviour
    and non-termination. *)
Inductive outcome (A : Type) : Type :=
| Ret (a : A)
| Panic
| Undef
| Spin.
Arguments Ret {A} a.
Arguments Panic {A}.
Arguments Undef {A}.
Arguments Spin {A}.

#[export] Instance outcome_ret : MRet outcome := fun A => Ret.
#[export] Instance outcome_bind : MBind outcome :=
  fun A B f m => match m with Ret a => f a | Panic => Panic | Undef => Undef | Spin => Spin end.
#[export] Instance outcome_fmap : FMap outcome :=
  fun A B f m => match m with Ret a => Ret (f a) | Panic => Panic | Undef => Undef | Spin => Spin end.

(** Rust's [Result]. *)
Inductive result (A E : Type) : Type :=
| Ok (a : A)
| Err (e : E).
Arguments Ok {A E} a.
Arguments Err {A E} e.

(** [assert!(b)] and [debug_assert!(b)]. *)
Definition rassert (b : bool) : outcome unit := if b then Ret tt else Panic.

(** [opt.unwrap()] and [opt.expect(..)]. *)
Definition unwrap {A} (o : option A) : outcome A :=
  match o with Some a => Ret a | None => Panic end.

(** [res.unwrap()] and [res.expect(..)]. *)
Definition unwrap_ok {A E} (r : result A E) : outcome A :=
  match r with Ok a => Ret a | Err _ => Panic end.

(** A raw access that must stay inside its object. *)
Definition in_bounds (b : bool) : outcome unit := if b then Ret tt else Undef.

(** [Layout::from_size_align(size, align).unwrap()]: the size, rounded up to
    the alignment, must not exceed [isize::MAX]. *)
Definition layout_ok (size align : Z) : outcome unit :=
  rassert (size <=? 2 ^ 63 - align).

(** The value an array index expression reads; out of range panics. *)
Definition index {A} (l : list A) (i : Z) : outcome A :=
  if 0 <=? i then unwrap (l !! Z.to_nat i) else Panic.

(** ** Machine integers

    A [w]-bit unsigned integer is a [Z] in [0, 2^w).  [chk w] is the overflow
    check of [+], [-], [*]; [wrap w] is the wrap-around of [wrapping_*], of the
    atomic [fetch_*] operations and of [as] casts. *)
Definition fits (w z : Z) : Prop := 0 <= z < 2 ^ w.

Definition wrap (w z : Z) : Z := z mod 2 ^ w.

Definition chk (w z : Z) : outcome Z :=
  if (0 <=? z) && (z <? 2 ^ w) then Ret z else Panic.

(** Bitwise complement [!m] of a [w]-bit integer. *)
Definition unot (w m : Z) : Z := 2 ^ w - 1 - m.

Abbreviation u16_MAX := 65535 (only parsing).
Abbreviation u32_MAX := 4294967295 (only parsing).

(** The bits [lo, lo + n) of a word, in place. *)
Definition field_mask (lo n : Z) : Z := Z.shiftl (Z.ones n) lo.

Lemma bind_ret {A B} (a : A) (f : A -> outcome B) : (x ← Ret a; f x) = f a.
Proof. reflexivity. Qed.

Lemma bind_Ret_inv {A B} (m : outcome A) (f : A -> outcome B) b :
  (x ← m; f x) = Ret b -> exists a, m = Ret a /\ f a = Ret b.
Proof. destruct m; [eauto|discriminate..]. Qed.

Lemma rassert_Ret b u : rassert b = Ret u -> b = true.
Proof. by destruct b. Qed.

Lemma unwrap_Ret {A} (o : option A) a : unwrap o = Ret a <-> o = Some a.
Proof. destruct o; simpl; naive_solver. Qed.

Lemma index_Ret {A} (l : list A) i a :
  index l i = Ret a <-> 0 <= i /\ l !! Z.to_nat i = Some a.
Proof.
  unfold index. destruct (Z.leb_spec 0 i).
  - rewrite unwrap_Ret. tauto.
  - split; [done|lia].
Qed.

Lemma chk_ok w z : fits w z -> chk w z = Ret z.
Proof.
  intros [H1 H2]. unfold chk.
  by rewrite (proj2 (Z.leb_le _ _) H1), (proj2 (Z.ltb_lt _ _) H2).
Qed.

Lemma chk_Ret w z r : chk w z = Ret r -> r = z /\ fits w z.
Proof.
  unfold chk, fits. destruct (Z.leb_spec 0 z), (Z.ltb_spec z (2 ^ w));
    simpl; intros; simplify_eq; split; auto; lia.
Qed.

Lemma chk_panic w z : ~ fits w z -> chk w z = Panic.
Proof.
  intros H. unfold chk, fits in *.
  destruct (Z.leb_spec 0 z), (Z.ltb_spec z (2 ^ w)); simpl; auto. lia.
Qed.

Lemma wrap_small w z : fits w z -> wrap w z = z.
Proof. apply Z.mod_small. Qed.

Lemma wrap_fits w z : 0 <= w -> fits w (wrap w z).
Proof. intros. apply Z.mod_pos_bound. lia. Qed.

(** Computes the monadic head of the goal: binds of a returned value and the
    assertions whose condition is decided. *)
Ltac runm :=
  cbn [mbind outcome_bind mret outcome_ret fmap outcome_fmap rassert unwrap unwrap_ok
       in_bounds negb andb Z.eqb fst snd].

(** Steps through a monadic equation [m = Ret r] from the outside in. *)
Ltac inv_ret :=
  repeat match goal with
  | H : (_ ← _; _) = Ret _ |- _ =>
      let a := fresh "x" in let E := fresh "E" in
      apply bind_Ret_inv in H as (a & E & H)
  | H : mret _ = Ret _ |- _ => unfold mret, outcome_ret in H
  | H : Ret _ = Ret _ |- _ => injection H as H
  | H : Panic = Ret _ |- _ => discriminate H
  | H : Undef = Ret _ |- _ => discriminate H
  | H : Spin = Ret _ |- _ => discriminate H
  | H : rassert _ = Ret _ |- _ => apply rassert_Ret in H
  | H : unwrap _ = Ret _ |- _ => apply unwrap_Ret in H
  end.

(** ** Bit fields as quotients and remainders

    Masking, setting and clearing a contiguous field becomes division by a
    constant, which [lia] understands. *)
Lemma land_field z lo n :
  0 <= lo -> 0 <= n ->
  Z.land z (field_mask lo n) = (z / 2 ^ lo) mod 2 ^ n * 2 ^ lo.
Proof.
  intros. unfold field_mask.
  rewrite <-Z.land_ones, <-Z.shiftr_div_pow2, <-Z.shiftl_mul_pow2 by lia.
  apply Z.bits_inj'. intros i Hi.
  rewrite Z.land_spec, !Z.shiftl_spec by lia.
  destruct (decide (i < lo)).
  - rewrite !(Z.testbit_neg_r _ (i - lo)) by lia. by rewrite andb_false_r.
  - rewrite Z.land_spec, Z.shiftr_spec by lia.
    by replace (i - lo + lo) with i by lia.
Qed.

Lemma testbit_high w z i : fits w z -> 0 <= w <= i -> Z.testbit z i = false.
Proof.
  intros Hz Hi. rewrite <-(wrap_small w z) by done.
  apply Z.mod_pow2_bits_high. lia.
Qed.

Lemma unot_ldiff w m : fits w m -> 0 <= w -> unot w m = Z.ldiff (Z.ones w) m.
Proof.
  intros Hm Hw. rewrite <-Z.sub_nocarry_ldiff.
  - rewrite Z.ones_equiv. unfold unot. lia.
  - apply Z.bits_inj'. intros i Hi. rewrite Z.ldiff_spec, Z.bits_0.
    destruct (decide (i < w)).
    + rewrite Z.ones_spec_low by lia. apply andb_false_r.
    + by rewrite (testbit_high w) by (auto; lia).
Qed.

Lemma land_unot w z m :
  fits w z -> fits w m -> 0 <= w -> Z.land z (unot w m) = z - Z.land z m.
Proof.
  intros Hz Hm Hw. rewrite unot_ldiff by done.
  rewrite Z.sub_nocarry_ldiff.
  - apply Z.bits_inj'. intros i Hi.
    rewrite Z.land_spec, !Z.ldiff_spec, Z.land_spec.
    destruct (decide (i < w)).
    + rewrite Z.ones_spec_low by lia. by destruct (Z.testbit z i), (Z.testbit m i).
    + by rewrite (testbit_high w z) by (auto; lia).
  - apply Z.bits_inj'. intros i Hi. rewrite Z.ldiff_spec, Z.land_spec, Z.bits_0.
    by destruct (Z.testbit z i), (Z.testbit m i).
Qed.

Lemma lor_land z m : Z.lor z m = z + m - Z.land z m.
Proof. pose proof (Z.add_lor_land z m). lia. Qed.

(** Or-ing a small value into zeroed low bits is addition. *)
Lemma lor_low k z m : 0 <= k -> z mod 2 ^ k = 0 -> fits k m -> Z.lor z m = z + m.
Proof.
  intros Hk Hz Hm. rewrite lor_land. enough (Z.land z m = 0) by lia.
  apply Z.bits_inj'. intros i Hi. rewrite Z.land_spec, Z.bits_0.
  destruct (decide (i < k)).
  - rewrite <-(Z.mod_pow2_bits_low z k i) by lia. by rewrite Hz, Z.bits_0.
  - rewrite (testbit_high k m) by (auto; lia). apply andb_false_r.
Qed.

(** [lia] with division and remainder by constants. *)
Ltac zdiv := unfold fits, wrap in *; Z.div_mod_to_equations; lia.

(** ** Objects as bytes

    The source reads and writes tuples and cached structs through raw byte
    pointers, so a struct value is its object representation: a list of bytes
    ([Z] in [0, 256)).  [load o off n] is an [n]-byte read at offset [off],
    [store o off bs] a write. *)
Abbreviation obj := (list Z) (only parsing).

Definition load (o : obj) (off n : nat) : obj := take n (drop off o).

Definition store (o : obj) (off : nat) (bs : obj) : obj := list_inserts off bs o.

(** A raw [read]/[ptr::copy_nonoverlapping] source and a raw write, bounds
    included: outside the object they are undefined behaviour. *)
Definition raw_read (o : obj) (off n : Z) : outcome obj :=
  _ ← in_bounds ((0 <=? off) && (0 <=? n) && (off + n <=? Z.of_nat (length o)));
  Ret (load o (Z.to_nat off) (Z.to_nat n)).

Definition raw_write (o : obj) (off : Z) (bs : obj) : outcome obj :=
  _ ← in_bounds ((0 <=? off) && (off + Z.of_nat (length bs) <=? Z.of_nat (length o)));
  Ret (store o (Z.to_nat off) bs).

(** Little-endian encoding of an [n]-byte integer. *)
Fixpoint le_bytes (n : nat) (z : Z) : obj :=
  match n with
  | O => []
  | S n => z mod 256 :: le_bytes n (z / 256)
  end.

Fixpoint le_word (bs : obj) : Z :=
  match bs with
  | [] => 0
  | b :: bs => b + 256 * le_word bs
  end.

Lemma length_le_bytes n z : length (le_bytes n z) = n.
Proof. revert z. induction n; simpl; auto. Qed.

Lemma le_word_bytes n z : le_word (le_bytes n z) = z mod 2 ^ (8 * Z.of_nat n).
Proof.
  revert z. induction n as [|n IH]; intros z; cbn [le_bytes le_word].
  { by rewrite Z.mod_1_r. }
  rewrite IH. replace (8 * Z.of_nat (S n)) with (8 + 8 * Z.of_nat n) by lia.
  rewrite Z.pow_add_r by lia. change (2 ^ 8) with 256.
  rewrite Z.rem_mul_r by lia. done.
Qed.

Lemma le_word_bytes_id n z : fits (8 * Z.of_nat n) z -> le_word (le_bytes n z) = z.
Proof. intros. rewrite le_word_bytes. by apply wrap_small. Qed.

Lemma length_load o off n : (off + n <= length o)%nat -> length (load o off n) = n.
Proof. intros. unfold load. rewrite length_take, length_drop. lia. Qed.

Lemma length_store o off bs : length (store o off bs) = length o.
Proof. apply length_inserts. Qed.

Lemma lookup_load o off n i :
  load o off n !! i = if decide (i < n)%nat then o !! (off + i)%nat else None.
Proof.
  unfold load. case_decide.
  - by rewrite lookup_take_lt, lookup_drop by done.
  - by rewrite lookup_take_ge by lia.
Qed.

Lemma lookup_store o off bs i :
  store o off bs !! i =
    if decide (off <= i < off + length bs /\ i < length o)%nat
    then bs !! (i - off)%nat else o !! i.
Proof.
  unfold store. case_decide as H.
  - destruct H as [[H1 H2] H3]. by apply list_lookup_inserts.
  - destruct (decide (i < off)%nat); [by apply list_lookup_inserts_lt|].
    destruct (decide (off + length bs <= i)%nat); [by apply list_lookup_inserts_ge|].
    rewrite !lookup_ge_None_2; [done|lia|]. rewrite length_inserts. lia.
Qed.

Lemma load_store_same o off bs :
  (off + length bs <= length o)%nat -> load (store o off bs) off (length bs) = bs.
Proof.
  intros H. apply list_eq. intros i. rewrite lookup_load.
  case_decide; [|by rewrite lookup_ge_None_2 by lia].
  rewrite lookup_store, decide_True by lia. f_equal. lia.
Qed.

Lemma load_store_disjoint o off1 n off2 bs :
  (off1 + n <= off2 \/ off2 + length bs <= off1)%nat ->
  load (store o off2 bs) off1 n = load o off1 n.
Proof.
  intros H. apply list_eq. intros i. rewrite !lookup_load.
  case_decide; [|done]. rewrite lookup_store, decide_False by lia. done.
Qed.

Lemma store_load o off n : store o off (load o off n) = o.
Proof.
  apply list_eq. intros i. rewrite lookup_store. case_decide as H; [|done].
  rewrite lookup_load. unfold load in H. rewrite length_take, length_drop in H.
  rewrite decide_True by lia. f_equal. lia.
Qed.

Lemma store_store_same o off bs bs' :
  length bs = length bs' -> store (store o off bs) off bs' = store o off bs'.
Proof.
  intros H. apply list_eq. intros i. rewrite !lookup_store, length_store, H.
  by repeat case_decide.
Qed.

Lemma store_store_comm o off1 bs1 off2 bs2 :
  (off1 + length bs1 <= off2 \/ off2 + length bs2 <= off1)%nat ->
  store (store o off1 bs1) off2 bs2 = store (store o off2 bs2) off1 bs1.
Proof.
  intros H. apply list_eq. intros i. rewrite !lookup_store, !length_store.
  repeat case_decide; auto; lia.
Qed.

Lemma raw_read_ok o off n :
  0 <= off -> 0 <= n -> off + n <= Z.of_nat (length o) ->
  raw_read o off n = Ret (load o (Z.to_nat off) (Z.to_nat n)).
Proof.
  intros. unfold raw_read, in_bounds.
  by rewrite !(proj2 (Z.leb_le _ _)) by lia.
Qed.

Lemma raw_write_ok o off bs :
  0 <= off -> off + Z.of_nat (length bs) <= Z.of_nat (length o) ->
  raw_write o off bs = Ret (store o (Z.to_nat off) bs).
Proof.
  intros. unfold raw_write, in_bounds.
  by rewrite !(proj2 (Z.leb_le _ _)) by lia.
Qed.

Lemma take_load o off n m : take m (load o off n) = load o off (m `min` n).
Proof. unfold load. by rewrite take_take. Qed.

(** ** Hint databases *)
Create HintDb alchemy.
Create Rewrite HintDb alchemy.
#[export] Hint Rewrite length_le_bytes length_store : alchemy.
#[export] Hint Resolve wrap_fits : alchemy.
