(* ===== verification/Query.v ===== *)
(** * Query descriptions (src/query.rs)

    Fields as byte ranges of a tuple, the list of fields a query names, and
    the update query whose iterator pairs every field with the position of its
    new bytes in the payload. *)

From S2P Require Import Prelude.

(** ** [Field]: the byte range [begin, end) of a tuple, as two [u16]s *)
Record Field := mkField { f_begin : Z; f_end : Z }.

#[export] Instance Field_eq_dec : EqDecision Field.
Proof. solve_decision. Defined.

Definition Field_wf (f : Field) : Prop := fits 16 (f_begin f) /\ fits 16 (f_end f).

Definition Field_default : Field := mkField 0 0.

Definition Field_new (begin end_ : Z) : Field := mkField begin end_.

(** [span.start as u16], [span.end as u16]: the casts truncate. *)
Definition Field_from_span (span : Z * Z) : Field :=
  mkField (wrap 16 span.1) (wrap 16 span.2).

(** [(self.end - self.begin) as usize], a [u16] subtraction. *)
Definition Field_size (f : Field) : outcome Z := chk 16 (f_end f - f_begin f).

(** ** [FieldsMeta<N>]: the array of the [N] fields a query names *)
Record FieldsMeta := mkFieldsMeta { fields : list Field }.

Definition FieldsMeta_new (fs : list Field) : FieldsMeta := mkFieldsMeta fs.

(** [from_spans] starts from [N] default fields and overwrites each in turn. *)
Definition FieldsMeta_from_spans (spans : list (Z * Z)) : FieldsMeta :=
  mkFieldsMeta (imap (fun idx _ => Field_from_span (default (0, 0) (spans !! idx)))
                     (replicate (length spans) Field_default)).

(** [self.fields.iter().fold(0, |a, b| a + b.size())]. *)
Fixpoint size_from (acc : Z) (fs : list Field) : outcome Z :=
  match fs with
  | [] => Ret acc
  | f :: fs =>
      n ← Field_size f;
      acc' ← chk 64 (acc + n);
      size_from acc' fs
  end.

Definition FieldsMeta_size (m : FieldsMeta) : outcome Z := size_from 0 (fields m).

(** ** [UpdateQuery] and its iterator

    The payload is the slice [uq_data]; the pointer an item carries is the
    offset of its first byte in that slice. *)
Record UpdateQuery := mkUpdateQuery { uq_meta : FieldsMeta; uq_data : obj }.

Definition UpdateQuery_from_meta (m : FieldsMeta) (data : obj) : UpdateQuery :=
  mkUpdateQuery m data.

Definition UpdateQuery_new (fs : list Field) (data : obj) : UpdateQuery :=
  UpdateQuery_from_meta (FieldsMeta_new fs) data.

Record UpdateIter := mkUpdateIter { cur_idx : Z; ptr_off : Z; query : UpdateQuery }.

Definition UpdateQuery_iter (q : UpdateQuery) : UpdateIter := mkUpdateIter 0 0 q.

(** [UpdateIter::next]: the item and the advanced iterator, or [None]. *)
Definition UpdateIter_next (it : UpdateIter) : outcome (option ((Field * Z) * UpdateIter)) :=
  let n := Z.of_nat (length (fields (uq_meta (query it)))) in
  if cur_idx it =? n then Ret None
  else
    let idx := cur_idx it in
    let off := ptr_off it in
    idx' ← chk 64 (idx + 1);
    field ← unwrap (fields (uq_meta (query it)) !! Z.to_nat idx);
    sz ← Field_size field;
    off' ← chk 64 (off + sz);
    Ret (Some ((field, off), mkUpdateIter idx' off' (query it))).

(** The [for] loop over an iterator: [fuel] bounds the number of [next] calls;
    [None] is "still running". *)
Fixpoint UpdateIter_collect (fuel : nat) (it : UpdateIter) : outcome (option (list (Field * Z))) :=
  match fuel with
  | O => Ret None
  | S fuel =>
      r ← UpdateIter_next it;
      match r with
      | None => Ret (Some [])
      | Some (item, it') =>
          rest ← UpdateIter_collect fuel it';
          Ret (option_map (cons item) rest)
      end
  end.

(** ** [FieldsValue]: the answer, one pointer per queried field *)
Record FieldsValue := mkFieldsValue { fv_data : list Z }.

Definition FieldsValue_new (values : list Z) : FieldsValue := mkFieldsValue values.

(** [get]: the debug assertion is the range check. *)
Definition FieldsValue_get (v : FieldsValue) (idx : Z) : outcome Z :=
  _ ← rassert (idx <? Z.of_nat (length (fv_data v)));
  index (fv_data v) idx.

(** ** Properties *)

(** A field that can be sized: [begin <= end], both [u16]. *)
Definition Field_ok (f : Field) : Prop := Field_wf f /\ f_begin f <= f_end f.

Definition Field_len (f : Field) : Z := f_end f - f_begin f.

Lemma Field_size_ok f : Field_ok f -> Field_size f = Ret (Field_len f).
Proof. intros [[H1 H2] H3]. apply chk_ok. unfold fits, Field_len in *. lia. Qed.

Lemma Field_len_bound f : Field_ok f -> 0 <= Field_len f < 65536.
Proof. intros [[H1 H2] H3]. unfold fits, Field_len in *. lia. Qed.

Definition total_len (fs : list Field) : Z := foldr (fun f acc => Field_len f + acc) 0 fs.

Lemma total_len_bound fs :
  Forall Field_ok fs -> 0 <= total_len fs <= 65536 * Z.of_nat (length fs).
Proof.
  induction 1 as [|f fs Hf _ IH]; simpl; [lia|].
  pose proof (Field_len_bound f Hf). lia.
Qed.

Lemma size_from_ok fs acc :
  Forall Field_ok fs -> 0 <= acc -> acc + 65536 * Z.of_nat (length fs) < 2 ^ 64 ->
  size_from acc fs = Ret (acc + total_len fs).
Proof.
  intros Hfs. revert acc. induction Hfs as [|f fs Hf Hfs IH]; intros acc Ha Hb.
  { simpl. f_equal. lia. }
  pose proof (Field_len_bound f Hf). cbn [length total_len foldr] in *.
  cbn [size_from]. rewrite Field_size_ok by done. rewrite bind_ret.
  rewrite chk_ok by (unfold fits; lia). rewrite bind_ret, IH by lia.
  f_equal. unfold total_len. lia.
Qed.

(** The fields with the running offsets of their payload bytes. *)
Fixpoint with_offsets (off : Z) (fs : list Field) : list (Field * Z) :=
  match fs with
  | [] => []
  | f :: fs => (f, off) :: with_offsets (off + Field_len f) fs
  end.

Lemma UpdateIter_collect_ok q pre suf off fuel :
  fields (uq_meta q) = pre ++ suf -> Forall Field_ok suf ->
  0 <= off -> off + 65536 * Z.of_nat (length suf) < 2 ^ 64 ->
  Z.of_nat (length (pre ++ suf)) < 2 ^ 64 ->
  (length suf < fuel)%nat ->
  UpdateIter_collect fuel (mkUpdateIter (Z.of_nat (length pre)) off q)
    = Ret (Some (with_offsets off suf)).
Proof.
  intros Hq Hok. revert pre off fuel Hq.
  induction Hok as [|f suf Hf Hsuf IH]; intros pre off fuel Hq Hoff Hb Hlen Hfuel;
    (destruct fuel as [|fuel]; [lia|]).
  - cbn [UpdateIter_collect]. unfold UpdateIter_next. cbn [cur_idx query].
    rewrite Hq, app_nil_r, Z.eqb_refl. done.
  - pose proof (Field_len_bound f Hf). rewrite length_app in Hlen. cbn [length] in *.
    cbn [UpdateIter_collect]. unfold UpdateIter_next. cbn [cur_idx ptr_off query].
    rewrite (proj2 (Z.eqb_neq _ _)) by (rewrite Hq, length_app; cbn [length]; lia).
    rewrite chk_ok by (unfold fits; lia). rewrite bind_ret, Nat2Z.id.
    rewrite Hq, list_lookup_middle by done. cbn [unwrap].
    rewrite bind_ret, Field_size_ok, bind_ret by done.
    rewrite chk_ok by (unfold fits; lia). rewrite !bind_ret. cbv beta iota.
    replace (Z.of_nat (length pre) + 1) with (Z.of_nat (length (pre ++ [f])))
      by (rewrite length_app; simpl; lia).
    rewrite IH; [done|by rewrite <-app_assoc|lia|lia| |lia].
    rewrite !length_app. cbn [length]. lia.
Qed.

(** The update iterator visits every field exactly once, in the order of the
    query, and gives each the payload offset equal to the sizes of the fields
    before it; it stops after [N] items. *)
Theorem UpdateIter_visits_all fs data fuel :
  Forall Field_ok fs -> Z.of_nat (length fs) < 2 ^ 32 -> (length fs < fuel)%nat ->
  UpdateIter_collect fuel (UpdateQuery_iter (UpdateQuery_new fs data))
    = Ret (Some (with_offsets 0 fs)) /\
  FieldsMeta_size (FieldsMeta_new fs) = Ret (total_len fs).
Proof.
  intros Hok Hlen Hfuel. split.
  - apply (UpdateIter_collect_ok _ [] fs); simpl; auto; lia.
  - unfold FieldsMeta_size. rewrite size_from_ok; simpl; auto; lia.
Qed.

Lemma UpdateIter_visits_all_witness :
  UpdateIter_collect 3
    (UpdateQuery_iter (UpdateQuery_new [Field_new 24 32; Field_new 0 4] [1;2;3;4;5;6;7;8;9;9;9;9]))
    = Ret (Some [(Field_new 24 32, 0); (Field_new 0 4, 8)]).
Proof.
  apply (UpdateIter_visits_all [Field_new 24 32; Field_new 0 4] [1;2;3;4;5;6;7;8;9;9;9;9] 3).
  - repeat constructor; simpl; lia.
  - simpl. lia.
  - simpl. lia.
Defined.

Lemma from_spans_map spans :
  fields (FieldsMeta_from_spans spans) = Field_from_span <$> spans.
Proof.
  apply list_eq. intros i. simpl.
  rewrite list_lookup_imap, list_lookup_fmap.
  destruct (spans !! i) as [s|] eqn:E.
  - rewrite lookup_replicate_2 by eauto using lookup_lt_Some. done.
  - rewrite lookup_ge_None_2; [done|]. rewrite length_replicate.
    by apply lookup_ge_None_1.
Qed.
