(* ===== verification/Schema.v ===== *)
(** * Errors, record ids, schemas and query values

    src/error.rs, src/attribute_cache/mod.rs and the [Tuple] derive macro of
    src/macro_utils/src/tuple.rs. *)

From S2P Require Import Prelude Query.

(** ** Errors (src/error.rs) *)
Inductive SystemError :=
| FileAlloc
| MmapFail
| MmapMismatchAddr
| ArrayAllocatorOutOfMemory.

Inductive TransactionError :=
| ReadLockBusy
| WriteLockBusy
| UpgradeLockBusy
| IndexNotFound
| LockBusy
| UserAbort.

#[export] Instance TransactionError_eq_dec : EqDecision TransactionError.
Proof. solve_decision. Defined.

(** ** Record ids: a [u32] offset into the table storage; [u32::MAX] is the
    sentinel of an empty cache slot. *)
Abbreviation Rid := Z (only parsing).

Definition Rid_from_u32 (id : Z) : outcome Rid :=
  _ ← rassert (negb (id =? u32_MAX));
  Ret id.

(** [From<usize> for Rid]: the cast truncates to 32 bits first. *)
Definition Rid_from_usize (id : Z) : outcome Rid := Rid_from_u32 (wrap 32 id).

Definition Rid_ok (r : Rid) : Prop := 0 <= r < u32_MAX.

Lemma Rid_from_u32_ok r : Rid_ok r -> Rid_from_u32 r = Ret r.
Proof.
  intros H. unfold Rid_from_u32, Rid_ok in *.
  by rewrite (proj2 (Z.eqb_neq _ _)) by lia.
Qed.

(** ** The [Schema] trait

    [to_cached] builds the cached struct of a tuple, [write_back] stores a
    cached struct into a tuple, [to_cached_field] maps a byte range of the
    tuple to the byte range of the cached struct that holds it. *)
Class Schema := {
  tuple_size : nat;
  field_size : nat;
  to_cached : obj -> obj;
  write_back : obj -> obj -> obj;
  key : obj -> outcome Z;
  to_cached_field : Field -> option Field;
}.

(** [Schema::matches], the default method: every queried field is cached. *)
Fixpoint matches_fields `{Schema} (fs : list Field) : bool :=
  match fs with
  | [] => true
  | f :: fs => match to_cached_field f with
               | None => false
               | Some _ => matches_fields fs
               end
  end.

Definition matches `{Schema} (q : FieldsMeta) : bool := matches_fields (fields q).

(** [Schema::update_cached], the default method: for every field of the query
    that is cached, copy [f.size()] payload bytes over it. *)
Fixpoint update_cached_items `{Schema} (items : list (Field * Z)) (data field : obj)
    : outcome obj :=
  match items with
  | [] => Ret field
  | (i, v) :: items =>
      match to_cached_field i with
      | Some f =>
          n ← Field_size f;
          bs ← raw_read data v n;
          field' ← raw_write field (f_begin f) bs;
          update_cached_items items data field'
      | None => update_cached_items items data field
      end
  end.

Definition update_cached `{Schema} (field : obj) (q : UpdateQuery) : outcome obj :=
  items ← UpdateIter_collect (S (length (fields (uq_meta q)))) (UpdateQuery_iter q);
  match items with
  | Some items => update_cached_items items (uq_data q) field
  | None => Ret field
  end.

(** ** The derived [Tuple] implementation (macro_utils) *)

(** [offset]/[offset_mut]: a pointer is its offset; the debug assertion is
    [offset < size_of::<Self>()]. *)
Definition tuple_offset (t : obj) (offset : Z) : outcome Z :=
  _ ← rassert (offset <? Z.of_nat (length t));
  Ret offset.

Fixpoint tuple_update_items (items : list (Field * Z)) (data t : obj) : outcome obj :=
  match items with
  | [] => Ret t
  | (idx, val) :: items =>
      ptr ← tuple_offset t (f_begin idx);
      n ← Field_size idx;
      bs ← raw_read data val n;
      t' ← raw_write t ptr bs;
      tuple_update_items items data t'
  end.

Definition tuple_update (t : obj) (q : UpdateQuery) : outcome obj :=
  items ← UpdateIter_collect (S (length (fields (uq_meta q)))) (UpdateQuery_iter q);
  match items with
  | Some items => tuple_update_items items (uq_data q) t
  | None => Ret t
  end.

(** [to_query_values]: one pointer (offset) per queried field. *)
Definition to_query_values (q : FieldsMeta) : FieldsValue :=
  FieldsValue_new (f_begin <$> fields q).

(** ** [QueryValue]: references into the cache slot and the stored tuple

    [qv_field] is the cache slot, [qv_tuple] the record in the storage. *)
Record QueryValue := mkQueryValue { qv_field : option Z; qv_tuple : option Rid }.

Definition QueryValue_new (field : option Z) (tuple : option Rid) : QueryValue :=
  mkQueryValue field tuple.

Definition cached_hit (v : QueryValue) : bool := bool_decide (is_Some (qv_field v)).

Definition has_field (v : QueryValue) : bool := bool_decide (is_Some (qv_field v)).

Definition has_tuple (v : QueryValue) : bool := bool_decide (is_Some (qv_tuple v)).

(** The address [get_value] and [get_value_mut] compute: a byte offset in a
    cache slot's value or in a stored tuple. *)
Inductive place :=
| InCache (slot : Z) (off : Z)
| InTuple (rid : Rid) (off : Z).

Definition value_place `{Schema} (v : QueryValue) (field : Field) : outcome place :=
  let cached_field := to_cached_field field in
  if bool_decide (is_Some cached_field) && bool_decide (is_Some (qv_field v)) then
    cached ← unwrap (qv_field v);
    cf ← unwrap cached_field;
    Ret (InCache cached (f_begin cf))
  else
    tuple ← unwrap (qv_tuple v);
    Ret (InTuple tuple (f_begin field)).

(** ** What the cache relies on in a schema

    The laws are stated for the columns of a table (the byte ranges of the
    tuple's fields) and for those among them that transactions write. *)
Definition load_field (o : obj) (f : Field) : obj :=
  load o (Z.to_nat (f_begin f)) (Z.to_nat (Field_len f)).

Definition store_field (o : obj) (f : Field) (bs : obj) : obj :=
  store o (Z.to_nat (f_begin f)) bs.

Definition in_object (f : Field) (size : nat) : Prop :=
  Field_ok f /\ f_end f <= Z.of_nat size.

(** [agree c t]: the cached struct [c] of the stored tuple [t] shows, through
    [to_cached_field], the columns of the record [write_back c t]. *)
Definition agree `{Schema} (columns : list Field) (c t : obj) : Prop :=
  length c = field_size /\ length t = tuple_size /\
  forall f cf, f ∈ columns -> to_cached_field f = Some cf ->
    load_field c cf = load_field (write_back c t) f.

Class SchemaLaws (S : Schema) (columns mut_columns : list Field) := {
  mut_columns_sub : mut_columns ⊆ columns;
  columns_in_tuple : forall f, f ∈ columns -> in_object f tuple_size;
  cached_in_field : forall f cf, f ∈ columns -> to_cached_field f = Some cf ->
    in_object cf field_size /\ Field_len cf = Field_len f;
  to_cached_length : forall t, length t = tuple_size -> length (to_cached t) = field_size;
  write_back_length : forall c t, length c = field_size -> length t = tuple_size ->
    length (write_back c t) = tuple_size;
  (** Writing back an unmodified copy changes nothing. *)
  write_back_to_cached : forall t, length t = tuple_size -> write_back (to_cached t) t = t;
  to_cached_read : forall t f cf, length t = tuple_size -> f ∈ columns ->
    to_cached_field f = Some cf -> load_field (to_cached t) cf = load_field t f;
  (** Columns that are not cached are read from the stored tuple. *)
  uncached_read : forall c t f, f ∈ columns -> to_cached_field f = None ->
    length c = field_size -> length t = tuple_size ->
    load_field (write_back c t) f = load_field t f;
  (** A write to a cached column reaches the record and keeps the agreement. *)
  cached_write : forall c t f cf bs, f ∈ mut_columns -> to_cached_field f = Some cf ->
    agree columns c t -> length bs = Z.to_nat (Field_len f) ->
    write_back (store_field c cf bs) t = store_field (write_back c t) f bs /\
    agree columns (store_field c cf bs) t;
  (** So does a write to an uncached column of the stored tuple. *)
  uncached_write : forall c t f bs, f ∈ mut_columns -> to_cached_field f = None ->
    agree columns c t -> length bs = Z.to_nat (Field_len f) ->
    write_back c (store_field t f bs) = store_field (write_back c t) f bs /\
    agree columns c (store_field t f bs);
}.

Lemma matches_fields_spec {S : Schema} fs :
  matches_fields fs = true <-> forall f, f ∈ fs -> is_Some (to_cached_field f).
Proof.
  induction fs as [|f fs IH]; simpl; [set_solver|].
  destruct (to_cached_field f) eqn:E.
  - rewrite IH. split; intros H g Hg.
    + apply elem_of_cons in Hg as [->|Hg]; [eauto|auto].
    + apply H. set_solver.
  - split; [done|]. intros H. destruct (H f ltac:(set_solver)). congruence.
Qed.

Section laws.
Context {S : Schema} {columns mut_columns : list Field} {L : SchemaLaws S columns mut_columns}.

Lemma to_cached_agree t : length t = tuple_size -> agree columns (to_cached t) t.
Proof.
  intros Ht. split; [by apply to_cached_length|]. split; [done|]. intros f cf Hf Hcf.
  rewrite write_back_to_cached by done. by apply to_cached_read.
Qed.

End laws.

Lemma length_store_field o f bs : length (store_field o f bs) = length o.
Proof. apply length_store. Qed.

Lemma length_load_field o f n :
  in_object f n -> length o = n -> length (load_field o f) = Z.to_nat (Field_len f).
Proof.
  intros [[[H1 H2] H3] H4] <-. apply length_load.
  unfold Field_len, fits in *. lia.
Qed.

Lemma raw_read_field o f n :
  in_object f n -> length o = n -> raw_read o (f_begin f) (Field_len f) = Ret (load_field o f).
Proof.
  intros [[[Hf1 Hf2] Hf3] Hf4] Hl. unfold Field_len, fits in *. apply raw_read_ok; lia.
Qed.

Lemma raw_write_field o f n bs :
  in_object f n -> length o = n -> length bs = Z.to_nat (Field_len f) ->
  raw_write o (f_begin f) bs = Ret (store_field o f bs).
Proof.
  intros [[[Hf1 Hf2] Hf3] Hf4] Hl Hb. unfold Field_len, fits in *. apply raw_write_ok; lia.
Qed.

(** The columns that can be read through a value obtained with query [q]: if
    every field of [q] is cached there may be no tuple to fall back on. *)
Definition covers `{Schema} (q : FieldsMeta) (f : Field) : Prop :=
  matches q = true -> is_Some (to_cached_field f).

Lemma covers_query `{Schema} q f : f ∈ fields q -> covers q f.
Proof. intros Hf Hm. unfold matches in Hm. rewrite matches_fields_spec in Hm. by apply Hm. Qed.

(** [v] points to a record [r], in slot [i] if it is cached. *)
Definition points_to `{Schema} (q : FieldsMeta) (v : QueryValue) (cached : bool) (i : Z) (r : Rid) : Prop :=
  if cached
  then qv_field v = Some i /\ (qv_tuple v = Some r \/ (qv_tuple v = None /\ matches q = true))
  else qv_field v = None /\ qv_tuple v = Some r.

Lemma value_place_points `{Schema} q v cached i r f :
  points_to q v cached i r -> covers q f ->
  value_place v f = Ret
    match to_cached_field f with
    | Some cf => if cached then InCache i (f_begin cf) else InTuple r (f_begin f)
    | None => InTuple r (f_begin f)
    end.
Proof.
  intros Hc Hf. unfold value_place, points_to, covers in *.
  destruct (to_cached_field f) as [cf|]; simpl.
  - destruct cached; destruct Hc as [Ec Et]; rewrite Ec; simpl; [done|by rewrite Et].
  - destruct cached; destruct Hc as [Ec Et]; [|by rewrite Et].
    destruct Et as [Et|[_ Hm]]; [by rewrite Et|]. by destruct (Hf Hm).
Qed.

#[export] Hint Rewrite length_store_field : alchemy.
