(* ===== verification/Layout.v ===== *)
(** * Struct layouts and schemas that copy fields

    [#[repr(C)]] layouts and the [offset_of!]/[span_of!] macros the program
    computes fields with, and two ways to build a [Schema]: the whole tuple
    cached as it is, and a cached struct that copies some of the tuple's
    fields.  Both are shown to meet the cache's laws; for the second the laws
    follow from a decidable check of the field lists. *)

From S2P Require Import Prelude Query Schema.

(** ** [repr(C)]: a struct is the list of its fields' names, sizes and
    alignments, laid out in order. *)
Abbreviation layout := (list (string * (Z * Z))) (only parsing).

Definition u64 : Z * Z := (8, 8).
Definition f64 : Z * Z := (8, 8).
Definition u32 : Z * Z := (4, 4).

Definition round_up (off al : Z) : Z := (off + al - 1) / al * al.

(** The name, offset and end of every field. *)
Fixpoint spans_from (off : Z) (l : layout) : list (string * (Z * Z)) :=
  match l with
  | [] => []
  | (name, (sz, al)) :: l =>
      let b := round_up off al in
      (name, (b, b + sz)) :: spans_from (b + sz) l
  end.

Definition struct_align (l : layout) : Z := foldr (fun f a => Z.max f.2.2 a) 1 l.

Definition struct_end (l : layout) : Z := foldl (fun _ s => s.2.2) 0 (spans_from 0 l).

Definition size_of (l : layout) : Z := round_up (struct_end l) (struct_align l).

Fixpoint assoc {A} (k : string) (l : list (string * A)) : option A :=
  match l with
  | [] => None
  | (k', a) :: l => if String.eqb k k' then Some a else assoc k l
  end.

(** [span_of!(T, field)], [offset_of!(T, field)] and the [Field] made of it
    ([mk_field!], [Field::from_span]). *)
Definition span_of (l : layout) (name : string) : Z * Z := default (0, 0) (assoc name (spans_from 0 l)).

Definition offset_of (l : layout) (name : string) : Z := (span_of l name).1.

Definition mk_field (l : layout) (name : string) : Field := Field_from_span (span_of l name).

(** All fields of a struct. *)
Definition columns_of (l : layout) : list Field := (fun s => Field_from_span s.2) <$> spans_from 0 l.

(** ** Copying fields: [dst.g = src.f] for each pair [(f, g)], in order *)
Definition copy_fields (plan : list (Field * Field)) (src dst : obj) : obj :=
  foldl (fun d p => store_field d p.2 (load_field src p.1)) dst plan.

(** ** The whole tuple as the cached struct *)
Definition whole_schema (l : layout) (k : obj -> outcome Z) : Schema := {|
  tuple_size := Z.to_nat (size_of l);
  field_size := Z.to_nat (size_of l);
  to_cached := fun tuple => tuple;
  write_back := fun field tuple => field;
  key := k;
  to_cached_field := fun f => Some f;
|}.

(** ** A cached struct with copies of some fields

    [reads] are the pairs (tuple field, cached field) [to_cached] fills in,
    [writes] those [write_back] stores. *)
Definition copy_schema (tl cl : layout) (k : obj -> outcome Z) (tcf : Field -> option Field)
    (reads writes : list (Field * Field)) : Schema := {|
  tuple_size := Z.to_nat (size_of tl);
  field_size := Z.to_nat (size_of cl);
  to_cached := fun tuple => copy_fields reads tuple (replicate (Z.to_nat (size_of cl)) 0);
  write_back := fun field tuple => copy_fields ((fun p => (p.2, p.1)) <$> writes) field tuple;
  key := k;
  to_cached_field := tcf;
|}.

(** ** The laws *)

Definition Field_okb (f : Field) : bool :=
  (0 <=? f_begin f) && (f_begin f <? 2 ^ 16) && (0 <=? f_end f) && (f_end f <? 2 ^ 16) &&
  (f_begin f <=? f_end f).

Definition in_objectb (f : Field) (size : Z) : bool := Field_okb f && (f_end f <=? size).

(** The same field, or fields without a common byte. *)
Definition apart (f g : Field) : Prop := f_end f <= f_begin g \/ f_end g <= f_begin f.

Definition apartb (f g : Field) : bool := (f_end f <=? f_begin g) || (f_end g <=? f_begin f).

Definition all_apart (fs : list Field) : bool :=
  forallb (fun f => forallb (fun g => bool_decide (f = g) || apartb f g) fs) fs.

Lemma Field_okb_ok f : Field_okb f = true -> Field_ok f.
Proof.
  unfold Field_okb, Field_ok, Field_wf, fits. rewrite !andb_true_iff, !Z.leb_le, !Z.ltb_lt. lia.
Qed.

Lemma in_objectb_ok f size : in_objectb f size = true -> in_object f (Z.to_nat size).
Proof.
  unfold in_objectb, in_object. rewrite andb_true_iff, Z.leb_le. intros [Hf Hs].
  apply Field_okb_ok in Hf. split; [done|]. destruct Hf as [[[? ?] [? ?]] ?]. lia.
Qed.

Lemma apartb_ok f g : apartb f g = true -> apart f g.
Proof. unfold apartb, apart. rewrite orb_true_iff, !Z.leb_le. done. Qed.

Lemma all_apart_ok fs f g : all_apart fs = true -> f ∈ fs -> g ∈ fs -> f = g \/ apart f g.
Proof.
  unfold all_apart. rewrite forallb_forall. intros H Hf Hg. apply list_elem_of_In in Hf, Hg.
  specialize (H f Hf). rewrite forallb_forall in H.
  specialize (H g Hg). apply orb_true_iff in H as [H|H].
  - left. by apply bool_decide_eq_true_1 in H.
  - right. by apply apartb_ok.
Qed.

Lemma apart_sym f g : apart f g -> apart g f.
Proof. unfold apart. tauto. Qed.

(** Loads and stores of fields. *)
Lemma load_store_field_same o f n bs :
  in_object f n -> length o = n -> length bs = Z.to_nat (Field_len f) ->
  load_field (store_field o f bs) f = bs.
Proof.
  intros [[[? ?] ?] ?] Hl Hb. unfold load_field, store_field, fits, Field_len in *.
  rewrite <-Hb. apply load_store_same. lia.
Qed.

Lemma load_store_field_apart o f g bs :
  apart f g -> Field_ok f -> Field_ok g -> length bs = Z.to_nat (Field_len f) ->
  load_field (store_field o f bs) g = load_field o g.
Proof.
  intros Ha [[[? ?] [? ?]] ?] [[[? ?] [? ?]] ?] Hb. unfold load_field, store_field, apart, Field_len in *.
  apply load_store_disjoint. lia.
Qed.

Lemma store_field_comm o f g bs bs' :
  apart f g -> Field_ok f -> Field_ok g ->
  length bs = Z.to_nat (Field_len f) -> length bs' = Z.to_nat (Field_len g) ->
  store_field (store_field o f bs) g bs' = store_field (store_field o g bs') f bs.
Proof.
  intros Ha [[[? ?] [? ?]] ?] [[[? ?] [? ?]] ?] Hb Hb'. unfold store_field, apart, Field_len in *.
  apply store_store_comm. lia.
Qed.

Lemma store_field_overwrite o f bs bs' :
  length bs = length bs' -> store_field (store_field o f bs) f bs' = store_field o f bs'.
Proof. apply store_store_same. Qed.

Lemma store_load_field o f : store_field o f (load_field o f) = o.
Proof. apply store_load. Qed.

(** ** Whole-tuple schemas meet the laws *)
Definition columns_ok (size : Z) (columns mut_columns : list Field) : bool :=
  forallb (fun f => in_objectb f size) columns &&
  forallb (fun f => bool_decide (f ∈ columns)) mut_columns.

Lemma columns_ok_spec size columns mut_columns :
  columns_ok size columns mut_columns = true ->
  (forall f, f ∈ columns -> in_object f (Z.to_nat size)) /\ mut_columns ⊆ columns.
Proof.
  unfold columns_ok. rewrite andb_true_iff, !forallb_forall. intros [Hc Hm]. split.
  - intros f Hf. by apply in_objectb_ok, Hc, list_elem_of_In.
  - intros f Hf. apply list_elem_of_In, Hm in Hf. by apply bool_decide_eq_true_1 in Hf.
Qed.

Lemma whole_laws l k columns mut_columns :
  columns_ok (size_of l) columns mut_columns = true ->
  SchemaLaws (whole_schema l k) columns mut_columns.
Proof.
  intros [Hc Hm]%columns_ok_spec. split; simpl; try done.
  - intros f cf Hf [= <-]. split; [by apply Hc|done].
  - intros t f cf Ht Hf [= <-]. done.
  - intros c t f cf bs Hf [= <-] (Hl1 & Hl2 & Hag) Hb. split; [done|].
    split; [by rewrite length_store_field|]. split; [done|]. simpl. intros g cg Hg [= <-]. done.
Qed.

(** ** Copying schemas meet the laws *)

Lemma length_copy_fields plan src dst : length (copy_fields plan src dst) = length dst.
Proof.
  revert dst. induction plan as [|p plan IH]; intros dst; simpl; [done|].
  rewrite IH. apply length_store_field.
Qed.

Section copy.
(** Source and destination fields of the plan. *)
Variables (n m : nat).

Definition plan_ok (plan : list (Field * Field)) : Prop :=
  forall p, p ∈ plan -> in_object p.1 n /\ in_object p.2 m /\ Field_len p.1 = Field_len p.2.

Lemma plan_ok_cons p plan : plan_ok (p :: plan) -> plan_ok plan.
Proof. intros H q Hq. apply H. by right. Qed.

Lemma plan_load_length p plan src :
  plan_ok plan -> p ∈ plan -> length src = n -> length (load_field src p.1) = Z.to_nat (Field_len p.2).
Proof.
  intros H Hp Hs. destruct (H p Hp) as (H1 & H2 & <-). by eapply length_load_field.
Qed.

(** A field of the destination that the plan does not touch. *)
Lemma load_copy_apart plan src dst g :
  plan_ok plan -> length src = n -> Field_ok g -> (forall p, p ∈ plan -> apart p.2 g) ->
  load_field (copy_fields plan src dst) g = load_field dst g.
Proof.
  revert dst. induction plan as [|p plan IH]; intros dst Hok Hs Hg Ha; simpl; [done|].
  rewrite IH; [|by eapply plan_ok_cons|done|done|intros; apply Ha; by right].
  destruct (Hok p) as (_ & [? _] & _); [by left|].
  apply load_store_field_apart; [apply Ha; by left|done|done|].
  eapply plan_load_length; [done|by left|done].
Qed.

(** A field the plan copies. *)
Lemma load_copy_in plan src dst f g :
  plan_ok plan -> length src = n -> length dst = m -> (f, g) ∈ plan ->
  (forall p, p ∈ plan -> p = (f, g) \/ apart p.2 g) ->
  load_field (copy_fields plan src dst) g = load_field src f.
Proof.
  revert dst. induction plan as [|p plan IH]; intros dst Hok Hs Hd Hin Ha; [by apply elem_of_nil in Hin|].
  cbn [copy_fields foldl].
  destruct (decide ((f, g) ∈ plan)) as [Hp|Hp].
  - apply IH; [by eapply plan_ok_cons|done|by rewrite length_store_field|done|].
    intros q Hq. apply Ha. by right.
  - apply elem_of_cons in Hin as [<-|?]; [|done]. destruct (Hok (f, g)) as (? & [Hg ?] & ?); [by left|].
    fold (copy_fields plan src (store_field dst (f, g).2 (load_field src (f, g).1))).
    rewrite load_copy_apart; [|by eapply plan_ok_cons|done|done|].
    + apply (load_store_field_same _ _ m); [done|done|].
      apply (plan_load_length (f, g) ((f, g) :: plan)); [done|by left|done].
    + intros q Hq. destruct (Ha q) as [->|?]; [by right|done|done].
Qed.

(** A store to an untouched field of the destination commutes with the copy. *)
Lemma copy_store_apart plan src dst g bs :
  plan_ok plan -> length src = n -> Field_ok g -> length bs = Z.to_nat (Field_len g) ->
  (forall p, p ∈ plan -> apart p.2 g) ->
  copy_fields plan src (store_field dst g bs) = store_field (copy_fields plan src dst) g bs.
Proof.
  revert dst. induction plan as [|p plan IH]; intros dst Hok Hs Hg Hb Ha; simpl; [done|].
  rewrite <-IH; [|by eapply plan_ok_cons|done|done|done|intros; apply Ha; by right].
  f_equal. destruct (Hok p) as (_ & [? _] & _); [by left|].
  apply store_field_comm; [apply apart_sym, Ha; by left|done|done|done|].
  eapply plan_load_length; [done|by left|done].
Qed.

(** A store to a source field outside the plan has no effect. *)
Lemma copy_src_apart plan src dst f bs :
  plan_ok plan -> Field_ok f -> length bs = Z.to_nat (Field_len f) ->
  (forall p, p ∈ plan -> apart f p.1) ->
  copy_fields plan (store_field src f bs) dst = copy_fields plan src dst.
Proof.
  revert dst. induction plan as [|p plan IH]; intros dst Hok Hf Hb Ha; simpl; [done|].
  rewrite IH; [|by eapply plan_ok_cons|done|done|intros; apply Ha; by right].
  destruct (Hok p) as ([? _] & _); [by left|].
  rewrite load_store_field_apart; [done|apply Ha; by left|done|done|done].
Qed.

(** A store to a source field of the plan shows in the destination. *)
Lemma copy_src_in plan src dst f g bs :
  NoDup plan -> plan_ok plan -> length src = n -> length dst = m ->
  length bs = Z.to_nat (Field_len f) -> (f, g) ∈ plan ->
  (forall p, p ∈ plan -> p = (f, g) \/ (apart f p.1 /\ apart p.2 g)) ->
  copy_fields plan (store_field src f bs) dst = store_field (copy_fields plan src dst) g bs.
Proof.
  intros Hnd. revert dst. induction Hnd as [|p plan Hp Hnd IH]; intros dst Hok Hs Hd Hb Hin Ha;
    [by apply elem_of_nil in Hin|].
  destruct (Hok (f, g) Hin) as (Hf & Hg & Hlen). simpl in *.
  pose proof (Hok p ltac:(by left)) as (Hp1 & Hp2 & Hpl).
  apply elem_of_cons in Hin as [<-|Hin]; simpl.
  - assert (Ha' : forall q, q ∈ plan -> apart f q.1 /\ apart q.2 g).
    { intros q Hq. destruct (Ha q) as [->|?]; [by right|done|done]. }
    rewrite (load_store_field_same _ _ n) by done.
    rewrite copy_src_apart; [|by eapply plan_ok_cons|apply Hf|done|intros; by apply Ha'].
    rewrite <-copy_store_apart; [|by eapply plan_ok_cons|done|apply Hg|congruence|intros; by apply Ha'].
    f_equal. symmetry. apply store_field_overwrite. rewrite Hb. by eapply length_load_field.
  - destruct (Ha p ltac:(by left)) as [->|[Ha1 Ha2]]; [done|].
    destruct Hp1 as [? _], Hf as [? _]. rewrite load_store_field_apart by done.
    apply IH; [by eapply plan_ok_cons|done|by rewrite length_store_field|done|done|].
    intros q Hq. apply Ha. by right.
Qed.

(** Copying back what was copied changes nothing. *)
Lemma copy_back plan src dst :
  (forall p, p ∈ plan -> load_field src p.1 = load_field dst p.2) ->
  copy_fields plan src dst = dst.
Proof.
  induction plan as [|p plan IH]; intros H; simpl; [done|].
  rewrite (H p) by (by left). rewrite store_load_field. apply IH. intros q Hq. apply H. by right.
Qed.
End copy.

(** The check of a copying schema: [reads] pairs each cached column with its
    place, [writes] is part of it, fields do not overlap, [to_cached_field]
    answers with the pairs of [reads], and the columns transactions write are
    not cached or are written back. *)
Definition copy_ok (tl cl : layout) (tcf : Field -> option Field)
    (reads writes : list (Field * Field)) (columns mut_columns : list Field) : bool :=
  columns_ok (size_of tl) columns mut_columns && all_apart columns && all_apart (reads.*2) &&
  forallb (fun p => bool_decide (p.1 ∈ columns) && in_objectb p.2 (size_of cl) &&
                    (Field_len p.1 =? Field_len p.2)) reads &&
  forallb (fun p => forallb (fun q => bool_decide (p.1 = q.1 <-> p.2 = q.2)) reads) reads &&
  bool_decide (NoDup writes) && forallb (fun p => bool_decide (p ∈ reads)) writes &&
  forallb (fun f => match tcf f with
                    | Some cf => bool_decide ((f, cf) ∈ reads)
                    | None => forallb (fun p => negb (bool_decide (p.1 = f))) writes
                    end) columns &&
  forallb (fun f => match tcf f with
                    | Some cf => bool_decide ((f, cf) ∈ writes)
                    | None => true
                    end) mut_columns.

Lemma forallb_elem {A} (P : A -> bool) l x : forallb P l = true -> x ∈ l -> P x = true.
Proof. rewrite forallb_forall. intros H Hx. by apply H, list_elem_of_In. Qed.

Section copy_laws.
Context (tl cl : layout) (k : obj -> outcome Z) (tcf : Field -> option Field)
  (reads writes : list (Field * Field)) (columns mut_columns : list Field).
Hypothesis Hok : copy_ok tl cl tcf reads writes columns mut_columns = true.

Let tsz := Z.to_nat (size_of tl).
Let csz := Z.to_nat (size_of cl).
Let swap := fun p : Field * Field => (p.2, p.1).

(** What the check says. *)
Record copy_facts : Prop := {
  cf_cols : forall f, f ∈ columns -> in_object f tsz;
  cf_mut : mut_columns ⊆ columns;
  cf_reads : forall p, p ∈ reads -> p.1 ∈ columns /\ in_object p.2 csz /\ Field_len p.1 = Field_len p.2;
  cf_pairs : forall p q, p ∈ reads -> q ∈ reads -> p = q \/ (apart p.1 q.1 /\ apart p.2 q.2);
  cf_cols_apart : forall f g, f ∈ columns -> g ∈ columns -> f = g \/ apart f g;
  cf_nodup : NoDup writes;
  cf_sub : writes ⊆ reads;
  cf_some : forall f cf, f ∈ columns -> tcf f = Some cf -> (f, cf) ∈ reads;
  cf_none : forall f p, f ∈ columns -> tcf f = None -> p ∈ writes -> p.1 <> f;
  cf_write : forall f cf, f ∈ mut_columns -> tcf f = Some cf -> (f, cf) ∈ writes;
}.

Lemma copy_ok_facts : copy_facts.
Proof.
  pose proof Hok as H. unfold copy_ok in H. rewrite !andb_true_iff in H.
  destruct H as [[[[[[[[H1 H2] H3] H4] H5] H6] H7] H8] H9].
  apply columns_ok_spec in H1 as [Hc Hm].
  assert (Hr : forall p, p ∈ reads -> p.1 ∈ columns /\ in_object p.2 csz /\ Field_len p.1 = Field_len p.2).
  { intros p Hp. pose proof (forallb_elem _ _ _ H4 Hp) as E. rewrite !andb_true_iff in E.
    destruct E as [[E1 E2] E3]. apply bool_decide_eq_true_1 in E1. apply Z.eqb_eq in E3.
    split_and!; [done|by apply in_objectb_ok|done]. }
  split; try done.
  - intros p q Hp Hq. pose proof (forallb_elem _ _ _ H5 Hp) as E. cbv beta in E.
    pose proof (forallb_elem _ _ _ E Hq) as E'. apply bool_decide_eq_true_1 in E' as [Ef Eb].
    destruct (all_apart_ok _ p.1 q.1 H2) as [E1|E1]; [by apply Hr..| |].
    + left. rewrite (surjective_pairing p), (surjective_pairing q). f_equal; auto.
    + destruct (all_apart_ok _ p.2 q.2 H3) as [E2|E2]; [by apply list_elem_of_fmap_2..| |by right].
      left. rewrite (surjective_pairing p), (surjective_pairing q). f_equal; auto.
  - intros f g. by apply all_apart_ok.
  - by apply bool_decide_eq_true_1 in H6.
  - intros p Hp. pose proof (forallb_elem _ _ _ H7 Hp) as E. by apply bool_decide_eq_true_1 in E.
  - intros f cf Hf E. pose proof (forallb_elem _ _ _ H8 Hf) as E'. cbv beta in E'. rewrite E in E'.
    by apply bool_decide_eq_true_1 in E'.
  - intros f p Hf E Hp. pose proof (forallb_elem _ _ _ H8 Hf) as E'. cbv beta in E'. rewrite E in E'.
    pose proof (forallb_elem _ _ _ E' Hp) as E''. cbv beta in E''.
    apply negb_true_iff, bool_decide_eq_false_1 in E''. done.
  - intros f cf Hf E. pose proof (forallb_elem _ _ _ H9 Hf) as E'. cbv beta in E'. rewrite E in E'.
    by apply bool_decide_eq_true_1 in E'.
Qed.

Lemma reads_plan_ok : plan_ok tsz csz reads.
Proof.
  destruct copy_ok_facts. intros p Hp. destruct (cf_reads0 p Hp) as (? & ? & ?).
  split_and!; [by apply cf_cols0|done|done].
Qed.

Lemma writes_plan_ok : plan_ok csz tsz (swap <$> writes).
Proof.
  destruct copy_ok_facts. intros p Hp. apply list_elem_of_fmap in Hp as (q & -> & Hq).
  destruct (reads_plan_ok q) as (? & ? & ?); [by apply cf_sub0|]. by split_and!.
Qed.

Lemma swap_elem f cf : (f, cf) ∈ writes -> (cf, f) ∈ swap <$> writes.
Proof. intros H. by apply (list_elem_of_fmap_2 swap) in H. Qed.

(** The other pairs of the write-back plan stay away from a pair of [reads]. *)
Lemma writes_apart f cf p :
  (f, cf) ∈ reads -> p ∈ swap <$> writes -> p = (cf, f) \/ (apart cf p.1 /\ apart p.2 f).
Proof.
  destruct copy_ok_facts. intros Hf Hp. apply list_elem_of_fmap in Hp as (q & -> & Hq).
  destruct (cf_pairs0 (f, cf) q) as [<-|[? ?]]; [done|by apply cf_sub0|by left|].
  right. split; [done|by apply apart_sym].
Qed.

Lemma write_untouched f :
  f ∈ columns -> tcf f = None ->
  (forall p, p ∈ swap <$> writes -> apart p.2 f).
Proof.
  destruct copy_ok_facts. intros Hf E p Hp. apply list_elem_of_fmap in Hp as (q & -> & Hq).
  destruct (cf_reads0 q) as (? & _); [by apply cf_sub0|].
  destruct (cf_cols_apart0 q.1 f) as [E'|?]; [done|done| |done]. by eapply cf_none0 in E'.
Qed.

Lemma to_cached_load t f cf :
  length t = tsz -> (f, cf) ∈ reads ->
  load_field (copy_fields reads t (replicate csz 0)) cf = load_field t f.
Proof.
  intros Ht Hf. destruct copy_ok_facts.
  apply (load_copy_in tsz csz); [apply reads_plan_ok|done|apply length_replicate|done|].
  intros p Hp. destruct (cf_pairs0 p (f, cf)) as [->|[? ?]]; [done|done|by left|by right].
Qed.

Lemma copy_laws :
  SchemaLaws (copy_schema tl cl k tcf reads writes) columns mut_columns.
Proof.
  pose proof copy_ok_facts as []. pose proof writes_plan_ok as Hw. split; simpl; fold tsz csz swap; try done.
  - intros f cf Hf E. destruct (cf_reads0 (f, cf)) as (_ & ? & E'); [by apply cf_some0|].
    split; [done|]. simpl in E'. by rewrite E'.
  - intros t Ht. by rewrite length_copy_fields, length_replicate.
  - intros c t Hc Ht. by rewrite length_copy_fields.
  - intros t Ht. apply copy_back. intros p Hp.
    apply list_elem_of_fmap in Hp as (q & -> & Hq). simpl. apply to_cached_load; [done|].
    destruct q. by apply cf_sub0.
  - intros t f cf Ht Hf E. apply to_cached_load; [done|by apply cf_some0].
  - intros c t f Hf E Hc Ht. apply (load_copy_apart csz tsz); [done|done|by apply cf_cols0|].
    by eapply write_untouched.
  - intros c t f cf bs Hf E (Hc & Ht & Hag) Hb. simpl in Hc, Ht, Hag |- *. fold tsz csz swap in Hc, Ht, Hag |- *.
    assert (Hcol : f ∈ columns) by (by apply cf_mut0).
    assert (Hr : (f, cf) ∈ reads) by (by apply cf_some0).
    destruct (cf_reads0 _ Hr) as (_ & Hcin & Elen). simpl in Hcin, Elen.
    assert (Ewb : copy_fields (swap <$> writes) (store_field c cf bs) t
                = store_field (copy_fields (swap <$> writes) c t) f bs).
    { apply (copy_src_in csz tsz); [|done|done|done|congruence|by apply swap_elem, cf_write0|].
      - apply NoDup_fmap_2; [|done]. intros [] []. by intros [= -> ->].
      - intros p Hp. by apply writes_apart. }
    split; [done|]. split; [by rewrite length_store_field|]. split; [done|].
    simpl. fold swap. intros g cg Hg Eg. rewrite Ewb. pose proof (cf_some0 g cg Hg Eg) as Hgr.
    destruct (cf_reads0 _ Hgr) as (_ & Hcg & Eleng). simpl in Hcg, Eleng.
    destruct (cf_pairs0 (f, cf) (g, cg) Hr Hgr) as [[= <- <-]|[? ?]].
    + rewrite (load_store_field_same _ _ csz), (load_store_field_same _ _ tsz);
        [done|by apply cf_cols0|by rewrite length_copy_fields|done|done|done|congruence].
    + destruct (cf_cols0 f Hcol), (cf_cols0 g Hg), Hcin, Hcg.
      rewrite !load_store_field_apart by (done || congruence). by apply Hag.
  - intros c t f bs Hf E (Hc & Ht & Hag) Hb. simpl in Hc, Ht, Hag |- *. fold tsz csz swap in Hc, Ht, Hag |- *.
    assert (Hcol : f ∈ columns) by (by apply cf_mut0). destruct (cf_cols0 f Hcol) as [Hfok ?].
    assert (Ewb : copy_fields (swap <$> writes) c (store_field t f bs)
                = store_field (copy_fields (swap <$> writes) c t) f bs).
    { apply (copy_store_apart csz tsz); [done..|]. by eapply write_untouched. }
    split; [done|]. split; [done|]. split; [by rewrite length_store_field|].
    simpl. fold swap. intros g cg Hg Eg. rewrite Ewb, (Hag g cg Hg Eg).
    destruct (cf_cols0 g Hg) as [Hgok ?].
    destruct (cf_cols_apart0 f g Hcol Hg) as [<-|Ha]; [congruence|].
    by rewrite load_store_field_apart.
Qed.
End copy_laws.
