(* ===== verification/NodeMeta.v ===== *)
(** * Per-slot metadata word (src/attribute_cache/clock_cache/node_meta.rs)

    A [u32]: the hotness counter in the top byte, a dirty bit and the clock's
    reference bit below it. *)

From S2P Require Import Prelude.

Definition HOTNESS_MASK : Z := 0xff000000.
Definition HOTNESS_SHIFT : Z := 24.
Definition DIRTY_MASK : Z := 0x00100000.
Definition REF_MASK : Z := 0x00010000.

Definition NodeMeta_new : Z := 0.

Definition hotness (data : Z) : Z := Z.shiftr data HOTNESS_SHIFT.

Definition is_dirty (data : Z) : bool := Z.land data DIRTY_MASK >? 0.

Definition set_dirty (data : Z) : Z := Z.lor data DIRTY_MASK.

Definition meta_set_ref (data : Z) : Z := Z.lor data REF_MASK.

Definition clear_ref (data : Z) : Z := Z.land data (unot 32 REF_MASK).

(** Returns whether the reference bit was set, and clears it. *)
Definition clear_if_set (data : Z) : bool * Z :=
  if Z.land data REF_MASK >? 0
  then (true, Z.land data (unot 32 REF_MASK))
  else (false, data).

Definition is_refed (data : Z) : bool := Z.land data REF_MASK >? 0.

(** [fetch_add] of [amount << 24] (the shift drops the high bits, the addition
    wraps); returns the old hotness. *)
Definition inc_hotness (data amount : Z) : Z * Z :=
  (Z.shiftr data HOTNESS_SHIFT, wrap 32 (data + wrap 32 (Z.shiftl amount HOTNESS_SHIFT))).

(** [weak] is a failure of the [compare_exchange_weak], whose result the code
    ignores. *)
Definition try_dec_hotness (data amount : Z) (weak : bool) : bool * Z :=
  let amount_shifted := wrap 32 (Z.shiftl amount HOTNESS_SHIFT) in
  let old := data in
  if old >=? amount_shifted then
    let hot := old - amount_shifted in
    let new := Z.lor (Z.land old (unot 32 HOTNESS_MASK)) hot in
    (true, if weak then data else new)
  else (false, data).

(** ** The word as separate fields *)

Lemma HOTNESS_MASK_field : HOTNESS_MASK = field_mask 24 8.
Proof. reflexivity. Qed.
Lemma DIRTY_MASK_field : DIRTY_MASK = field_mask 20 1.
Proof. reflexivity. Qed.
Lemma REF_MASK_field : REF_MASK = field_mask 16 1.
Proof. reflexivity. Qed.

(** Everything but the hotness byte. *)
Definition flags (data : Z) : Z := data mod 2 ^ 24.

Lemma hotness_div data : hotness data = data / 2 ^ 24.
Proof. unfold hotness, HOTNESS_SHIFT. by rewrite Z.shiftr_div_pow2. Qed.

Lemma is_dirty_div data : is_dirty data = ((data / 2 ^ 20) mod 2 =? 1).
Proof.
  unfold is_dirty. rewrite DIRTY_MASK_field, land_field by lia.
  change (2 ^ 1) with 2. pose proof (Z.mod_pos_bound (data / 2 ^ 20) 2 ltac:(lia)).
  rewrite Z.gtb_ltb.
  destruct (Z.ltb_spec 0 ((data / 2 ^ 20) mod 2 * 2 ^ 20)),
    (Z.eqb_spec ((data / 2 ^ 20) mod 2) 1); lia.
Qed.

Lemma is_refed_div data : is_refed data = ((data / 2 ^ 16) mod 2 =? 1).
Proof.
  unfold is_refed. rewrite REF_MASK_field, land_field by lia.
  change (2 ^ 1) with 2. pose proof (Z.mod_pos_bound (data / 2 ^ 16) 2 ltac:(lia)).
  rewrite Z.gtb_ltb.
  destruct (Z.ltb_spec 0 ((data / 2 ^ 16) mod 2 * 2 ^ 16)),
    (Z.eqb_spec ((data / 2 ^ 16) mod 2) 1); lia.
Qed.

Lemma is_refed_bit data : is_refed data = Z.testbit data 16.
Proof. rewrite is_refed_div. by rewrite Z.testbit_eqb by lia. Qed.

Lemma is_dirty_bit data : is_dirty data = Z.testbit data 20.
Proof. rewrite is_dirty_div. by rewrite Z.testbit_eqb by lia. Qed.

(** The word after a decrement that is allowed. *)
Lemma try_dec_value data amount :
  fits 32 data -> 0 <= amount < 256 -> amount <= hotness data ->
  try_dec_hotness data amount false = (true, data - amount * 2 ^ 24).
Proof.
  intros Hd Ha Hle. rewrite hotness_div in Hle. unfold try_dec_hotness, HOTNESS_SHIFT.
  rewrite Z.shiftl_mul_pow2, wrap_small by (unfold fits; lia).
  rewrite Z.geb_leb, (proj2 (Z.leb_le _ _)) by zdiv. f_equal.
  rewrite land_unot by (unfold fits, HOTNESS_MASK in *; lia).
  rewrite HOTNESS_MASK_field, land_field by lia.
  assert (Hm : (data / 2 ^ 24) mod 2 ^ 8 = data / 2 ^ 24) by zdiv. rewrite Hm.
  rewrite Z.lor_comm.
  (* the new hotness byte and the flags do not overlap *)
  assert (Hlow : forall i, 24 <= i ->
    Z.testbit (data - data / 2 ^ 24 * 2 ^ 24) i = false).
  { intros i Hi. apply (testbit_high 24); [zdiv|lia]. }
  apply Z.bits_inj'. intros i Hi. rewrite Z.lor_spec.
  destruct (decide (i < 24)).
  - replace (Z.testbit (data - data / 2 ^ 24 * 2 ^ 24) i)
      with (Z.testbit (data - amount * 2 ^ 24) i); [by destruct (Z.testbit _ _)|].
    rewrite <-(Z.mod_pow2_bits_low _ 24 i), <-(Z.mod_pow2_bits_low (data - data / _ * _) 24 i) by lia.
    f_equal. zdiv.
  - rewrite Hlow by lia. apply orb_false_r.
Qed.

Lemma set_dirty_fits data : fits 32 data -> fits 32 (set_dirty data).
Proof.
  intros Hd. unfold set_dirty. rewrite lor_land, DIRTY_MASK_field, land_field by lia.
  change (2 ^ 1) with 2. change (field_mask 20 1) with (2 ^ 20).
  destruct (decide ((data / 2 ^ 20) mod 2 = 1)); zdiv.
Qed.

(** ** Properties *)

(** Raising the hotness by [amount] adds modulo 256, as the comment in the
    source says, and touches neither the dirty bit nor the reference bit. *)
Theorem inc_hotness_spec data amount :
  fits 32 data -> 0 <= amount ->
  let '(old, data') := inc_hotness data amount in
  fits 32 data' /\ old = hotness data /\
  hotness data' = (hotness data + amount) mod 256 /\
  is_dirty data' = is_dirty data /\ is_refed data' = is_refed data.
Proof.
  intros Hd Ha. unfold inc_hotness. rewrite !hotness_div, !is_dirty_div, !is_refed_div.
  unfold HOTNESS_SHIFT. rewrite Z.shiftl_mul_pow2, Z.shiftr_div_pow2 by lia.
  assert (E : wrap 32 (data + wrap 32 (amount * 2 ^ 24))
            = (hotness data + amount) mod 256 * 2 ^ 24 + flags data).
  { rewrite hotness_div. unfold flags. zdiv. }
  rewrite E, hotness_div. unfold flags. split_and!; [zdiv|done|zdiv| |]; f_equal; zdiv.
Qed.

Lemma inc_hotness_spec_witness :
  fits 32 (3 * 2 ^ 24 + REF_MASK) /\
  hotness (snd (inc_hotness (3 * 2 ^ 24 + REF_MASK) 254)) = 1.
Proof.
  split; [unfold fits, REF_MASK; lia|].
  pose proof (inc_hotness_spec (3 * 2 ^ 24 + REF_MASK) 254
                ltac:(unfold fits, REF_MASK; lia) ltac:(lia)) as H.
  destruct H as (_ & _ & H & _). exact H.
Defined.

(** Lowering the hotness succeeds exactly when the counter is large enough,
    subtracts the amount, and leaves the flag bits alone. *)
Theorem try_dec_hotness_spec data amount :
  fits 32 data -> 0 <= amount < 256 ->
  let '(ok, data') := try_dec_hotness data amount false in
  ok = bool_decide (amount <= hotness data) /\ fits 32 data' /\
  hotness data' = (if ok then hotness data - amount else hotness data) /\
  is_dirty data' = is_dirty data /\ is_refed data' = is_refed data.
Proof.
  intros Hd Ha. destruct (decide (amount <= hotness data)) as [Hle|Hgt].
  - rewrite try_dec_value by done. rewrite bool_decide_eq_true_2 by done.
    rewrite !is_dirty_div, !is_refed_div, !hotness_div in *.
    split_and!; [done|zdiv|zdiv| |]; f_equal; zdiv.
  - unfold try_dec_hotness, HOTNESS_SHIFT. rewrite hotness_div in Hgt.
    rewrite Z.shiftl_mul_pow2, wrap_small by (unfold fits; lia).
    rewrite Z.geb_leb, (proj2 (Z.leb_gt _ _)) by zdiv.
    rewrite bool_decide_eq_false_2 by (rewrite hotness_div; done). done.
Qed.

Lemma try_dec_hotness_spec_witness :
  fits 32 (3 * 2 ^ 24) /\ hotness (snd (try_dec_hotness (3 * 2 ^ 24) 1 false)) = 2.
Proof.
  split; [unfold fits; lia|].
  pose proof (try_dec_hotness_spec (3 * 2 ^ 24) 1 ltac:(unfold fits; lia) ltac:(lia))
    as (_ & _ & H & _). exact H.
Defined.

(** The clock's second chance: [clear_if_set] reports the reference bit and
    clears that bit only. *)
Lemma clear_if_set_spec data :
  fits 32 data ->
  let '(was, data') := clear_if_set data in
  was = is_refed data /\ is_refed data' = false /\ fits 32 data' /\
  (forall i, i <> 16 -> 0 <= i -> Z.testbit data' i = Z.testbit data i).
Proof.
  intros Hd. unfold clear_if_set. fold (is_refed data). destruct (is_refed data) eqn:E.
  - rewrite land_unot by (unfold fits, REF_MASK in *; lia).
    rewrite is_refed_div in E. apply Z.eqb_eq in E.
    assert (V : data - Z.land data REF_MASK = Z.clearbit data 16).
    { rewrite REF_MASK_field, land_field by lia. change (2 ^ 1) with 2. rewrite E.
      rewrite Z.clearbit_spec'. rewrite <-Z.sub_nocarry_ldiff; [lia|].
      apply Z.bits_inj'. intros i Hi. rewrite Z.ldiff_spec, Z.bits_0, Z.pow2_bits_eqb by lia.
      destruct (Z.eqb_spec 16 i) as [<-|]; [|done].
      by rewrite Z.testbit_eqb, E by lia. }
    rewrite V. split_and!; [done| | |].
    + by rewrite is_refed_bit, Z.clearbit_eq.
    + rewrite <-V, REF_MASK_field, land_field by lia. change (2 ^ 1) with 2.
      rewrite E. zdiv.
    + intros. by rewrite Z.clearbit_neq by lia.
  - split_and!; auto.
Qed.

Lemma set_ref_refed data : is_refed (meta_set_ref data) = true.
Proof. rewrite is_refed_bit. unfold meta_set_ref. by rewrite Z.lor_spec, orb_true_r. Qed.
