(* ===== verification/Oid.v ===== *)
(** * The locked object id (src/attribute_cache/clock_cache/oid.rs)

    One 64-bit atomic word holds a reader-writer lock (top byte), the tag that
    says whether the id is a cache slot or a record id (next byte), and the
    32-bit id itself.  The first part translates the operations on the word;
    the second relates them to an abstract lock with an id; the third is the
    step relation of threads sharing one word. *)

From S2P Require Import Prelude Query Schema.

Definition LOCK_MASK : Z := 0xff00000000000000.
Definition LOCK_WRITER : Z := 0x8000000000000000.
Definition LOCK_READER : Z := 0x0100000000000000.
Definition MAX_READER : Z := (LOCK_MASK - LOCK_WRITER) / LOCK_READER.
Definition IS_CACHED : Z := 0x00ff000000000000.
Definition ID_MASK : Z := 0x00000000ffffffff.

(** [compare_exchange_weak(old, new)] on a word holding [mem]; [weak] is a
    spurious failure. *)
Definition cas_weak (mem old new : Z) (weak : bool) : result Z Z * Z :=
  if (mem =? old) && negb weak then (Ok old, new) else (Err mem, mem).

(** ** [LockedOid] *)

Definition LockedOid_from_rid (idx : Rid) : Z := idx.

Definition LockedOid_from_cache (index : Z) : outcome Z :=
  _ ← rassert (Z.land index IS_CACHED =? 0);
  Ret (Z.lor index IS_CACHED).

Definition write_locked (w : Z) : bool := negb (Z.land w LOCK_WRITER =? 0).

Definition read_lock_cnt (w : Z) : Z := Z.land w LOCK_MASK / LOCK_READER.

Definition is_cached (w : Z) : bool := negb (Z.land w IS_CACHED =? 0).

Definition is_rid (w : Z) : bool := negb (is_cached w).

(** Non-blocking read, access by access: the first load sees [val], the debug
    assertion loads again and sees [seen], the exchange finds [mem].  Alone on
    the word the three are the same; other threads may come between. *)
Definition try_read_load (val : Z) : result Z TransactionError :=
  let locked := negb (Z.land val LOCK_WRITER =? 0) in
  if locked then Err ReadLockBusy else Ok val.

Definition try_read_check (seen : Z) : outcome unit :=
  rassert (read_lock_cnt seen + 1 <? MAX_READER).

(** The exchange of [try_read] and of the blocking [read]. *)
Definition read_exchange (val mem : Z) (weak : bool) : result Z Z * Z :=
  cas_weak mem val (wrap 64 (val + LOCK_READER)) weak.

Definition try_read_at (val seen mem : Z) (weak : bool)
    : outcome (result unit TransactionError * Z) :=
  match try_read_load val with
  | Err e => Ret (Err e, mem)
  | Ok val =>
      _ ← try_read_check seen;
      match read_exchange val mem weak with
      | (Ok _, mem') => Ret (Ok tt, mem')
      | (Err _, mem') => Ret (Err LockBusy, mem')
      end
  end.

Definition try_read (w : Z) (weak : bool) : outcome (result unit TransactionError * Z) :=
  try_read_at w w w weak.

(** [read_unlock]: the debug assertion, then [fetch_sub]. *)
Definition read_unlock (w : Z) : outcome Z :=
  _ ← rassert (negb (negb (Z.land w LOCK_WRITER =? 0)));
  _ ← rassert (Z.land w LOCK_MASK / LOCK_READER >? 0);
  Ret (wrap 64 (w - LOCK_READER)).

Definition try_write_at (val mem : Z) (weak : bool) : result unit TransactionError * Z :=
  let has_lock := negb (Z.land val LOCK_MASK =? 0) in
  if has_lock then (Err WriteLockBusy, mem)
  else
    match cas_weak mem val (Z.lor val LOCK_WRITER) weak with
    | (Ok _, mem') => (Ok tt, mem')
    | (Err _, mem') => (Err LockBusy, mem')
    end.

Definition try_write (w : Z) (weak : bool) : result unit TransactionError * Z :=
  try_write_at w w weak.

Definition write_unlock (w : Z) : outcome Z :=
  _ ← rassert (Z.land w LOCK_MASK =? LOCK_WRITER);
  Ret (wrap 64 (w - LOCK_WRITER)).

Definition to_cache_index (w : Z) : outcome Z :=
  _ ← rassert (is_cached w);
  let data := Z.land w (unot 64 LOCK_MASK) in
  Ret (Z.land data (unot 64 IS_CACHED)).

Definition to_rid (w : Z) : outcome Rid :=
  _ ← rassert (is_rid w);
  let data := Z.land w (unot 64 LOCK_MASK) in
  Rid_from_u32 (wrap 32 (Z.land data ID_MASK)).

(** The blocking loops.  Every element of [env] is what one iteration of the
    loop finds in memory, with the spurious failure of its exchange; [None]
    means still spinning when [env] ends. *)
Fixpoint read_loop (val : Z) (env : list (Z * bool)) : option Z :=
  match env with
  | [] => None
  | (mem, weak) :: env =>
      if negb (Z.land val LOCK_WRITER =? 0) then read_loop mem env
      else match read_exchange val mem weak with
           | (Ok _, mem') => Some mem'
           | (Err v, _) => read_loop v env
           end
  end.

Definition oid_read (env : list (Z * bool)) : option Z :=
  match env with
  | [] => None
  | (mem, _) :: env => read_loop mem env
  end.

Fixpoint write_loop (val : Z) (env : list (Z * bool)) : option Z :=
  match env with
  | [] => None
  | (mem, weak) :: env =>
      if negb (Z.land val LOCK_MASK =? 0) then write_loop mem env
      else match cas_weak mem val (Z.lor val LOCK_WRITER) weak with
           | (Ok _, mem') => Some mem'
           | (Err v, _) => write_loop v env
           end
  end.

Definition oid_write (env : list (Z * bool)) : option Z :=
  match env with
  | [] => None
  | (mem, _) :: env => write_loop mem env
  end.

(** ** Guards

    A guard is the word it locks; dropping it unlocks. *)

Definition OidReadGuard_drop (w : Z) : outcome Z := read_unlock w.

Definition OidWriteGuard_drop (w : Z) : outcome Z := write_unlock w.

(** [get_index] of a read guard repeats [to_cache_index]. *)
Definition OidReadGuard_get_index (w : Z) : outcome Z :=
  _ ← rassert (is_cached w);
  let data := Z.land w (unot 64 LOCK_MASK) in
  Ret (Z.land data (unot 64 IS_CACHED)).

Definition store_rid (w : Z) (rid : Rid) : Z :=
  let data := Z.land w (unot 64 ID_MASK) in
  let data := Z.land data (unot 64 IS_CACHED) in
  Z.lor data rid.

Definition store_index (w : Z) (new : Z) : Z :=
  let data := Z.land w (unot 64 ID_MASK) in
  let data := Z.lor data IS_CACHED in
  Z.lor data new.

(** [OidGuard::upgrade] of a read guard: [Err] gives the read guard back. *)
Definition upgrade_at (val mem : Z) (weak : bool) : outcome (result unit unit * Z) :=
  let locked := negb (Z.land val LOCK_WRITER =? 0) in
  _ ← rassert (negb locked);
  let read_locked_cnt := Z.land val LOCK_MASK / LOCK_READER in
  if read_locked_cnt >? 1 then Ret (Err tt, mem)
  else
    _ ← rassert (read_locked_cnt =? 1);
    let write_lock := Z.lor (Z.land val (unot 64 LOCK_MASK)) LOCK_WRITER in
    match cas_weak mem val write_lock weak with
    | (Ok _, mem') => Ret (Ok tt, mem')
    | (Err _, mem') => Ret (Err tt, mem')
    end.

Definition upgrade (w : Z) (weak : bool) : outcome (result unit unit * Z) :=
  upgrade_at w w weak.

(** [upgrade] of a write guard gives the guard back. *)
Definition OidWriteGuard_upgrade (w : Z) : result unit unit * Z := (Ok tt, w).

(** ** The abstract object id *)

(** [lk] is 0 for free, the number of readers up to 127, and 128 for a
    writer. *)
Record oid_view := mkView { lk : Z; ov_cached : bool; ov_id : Z }.

Definition view_wf (v : oid_view) : Prop :=
  0 <= lk v <= 128 /\ 0 <= ov_id v < 2 ^ 32.

Definition encode (v : oid_view) : Z :=
  lk v * 2 ^ 56 + (if ov_cached v then 255 * 2 ^ 48 else 0) + ov_id v.

Lemma LOCK_MASK_field : LOCK_MASK = field_mask 56 8. Proof. reflexivity. Qed.
Lemma LOCK_WRITER_field : LOCK_WRITER = field_mask 63 1. Proof. reflexivity. Qed.
Lemma IS_CACHED_field : IS_CACHED = field_mask 48 8. Proof. reflexivity. Qed.
Lemma ID_MASK_field : ID_MASK = field_mask 0 32. Proof. reflexivity. Qed.

Ltac masks :=
  rewrite ?LOCK_MASK_field, ?LOCK_WRITER_field, ?IS_CACHED_field, ?ID_MASK_field;
  rewrite ?land_field by lia.

Lemma encode_fits v : view_wf v -> fits 64 (encode v).
Proof. intros [H1 H2]. unfold encode, fits. destruct (ov_cached v); lia. Qed.

Section view.
Context (v : oid_view) (Hv : view_wf v).

Lemma encode_lock : Z.land (encode v) LOCK_MASK = lk v * 2 ^ 56.
Proof using Hv.
  destruct Hv. masks. unfold encode. destruct (ov_cached v); zdiv.
Qed.

Lemma encode_writer : Z.land (encode v) LOCK_WRITER = if lk v =? 128 then LOCK_WRITER else 0.
Proof using Hv.
  destruct Hv. masks. unfold encode.
  destruct (Z.eqb_spec (lk v) 128), (ov_cached v);
    change (field_mask 63 1) with (2 ^ 63); zdiv.
Qed.

Lemma encode_tag : Z.land (encode v) IS_CACHED = if ov_cached v then IS_CACHED else 0.
Proof using Hv.
  destruct Hv. masks. unfold encode. destruct (ov_cached v);
    change (field_mask 48 8) with (255 * 2 ^ 48); zdiv.
Qed.

Lemma encode_id : Z.land (encode v) ID_MASK = ov_id v.
Proof using Hv.
  destruct Hv. masks. unfold encode. destruct (ov_cached v); zdiv.
Qed.
End view.

(** Every operation of the word is the operation of the view it encodes. *)
Lemma write_locked_view v : view_wf v -> write_locked (encode v) = (lk v =? 128).
Proof. intros Hv. unfold write_locked. rewrite encode_writer by done. by case_match. Qed.

Lemma read_lock_cnt_view v : view_wf v -> read_lock_cnt (encode v) = lk v.
Proof.
  intros Hv. unfold read_lock_cnt. rewrite encode_lock by done.
  change LOCK_READER with (2 ^ 56). by rewrite Z.div_mul by lia.
Qed.

Lemma is_cached_view v : view_wf v -> is_cached (encode v) = ov_cached v.
Proof. intros Hv. unfold is_cached. rewrite encode_tag by done. by case_match. Qed.

Lemma is_rid_view v : view_wf v -> is_rid (encode v) = negb (ov_cached v).
Proof. intros Hv. unfold is_rid. by rewrite is_cached_view. Qed.

Lemma land_unot_lock v :
  view_wf v -> Z.land (encode v) (unot 64 LOCK_MASK) = encode (mkView 0 (ov_cached v) (ov_id v)).
Proof.
  intros Hv. rewrite land_unot; [|by apply encode_fits|unfold fits, LOCK_MASK; lia|lia].
  rewrite encode_lock by done. unfold encode. simpl. lia.
Qed.

Lemma land_unot_cached v :
  view_wf v -> Z.land (encode v) (unot 64 IS_CACHED) = encode (mkView (lk v) false (ov_id v)).
Proof.
  intros Hv. rewrite land_unot; [|by apply encode_fits|unfold fits, IS_CACHED; lia|lia].
  rewrite encode_tag by done. unfold encode. simpl.
  destruct (ov_cached v); [|lia]. change IS_CACHED with (255 * 2 ^ 48). lia.
Qed.

Lemma land_unot_id v :
  view_wf v -> Z.land (encode v) (unot 64 ID_MASK) = encode (mkView (lk v) (ov_cached v) 0).
Proof.
  intros Hv. rewrite land_unot; [|by apply encode_fits|unfold fits, ID_MASK; lia|lia].
  rewrite encode_id by done. unfold encode. simpl. lia.
Qed.

Lemma lor_cached v :
  view_wf v -> Z.lor (encode v) IS_CACHED = encode (mkView (lk v) true (ov_id v)).
Proof.
  intros Hv. rewrite lor_land, encode_tag by done. unfold encode. simpl.
  change IS_CACHED with (255 * 2 ^ 48). destruct (ov_cached v); lia.
Qed.

Lemma lor_writer v :
  view_wf v -> lk v = 0 -> Z.lor (encode v) LOCK_WRITER = encode (mkView 128 (ov_cached v) (ov_id v)).
Proof.
  intros Hv H0. rewrite lor_land, encode_writer by done. rewrite H0. unfold encode. simpl.
  change LOCK_WRITER with (128 * 2 ^ 56). rewrite H0. lia.
Qed.

Lemma lor_id v n :
  view_wf v -> ov_id v = 0 -> 0 <= n < 2 ^ 32 ->
  Z.lor (encode v) n = encode (mkView (lk v) (ov_cached v) n).
Proof.
  intros [H1 H2] H0 Hn. rewrite (lor_low 32); [|lia| |done].
  - unfold encode. rewrite H0. simpl. lia.
  - unfold encode. rewrite H0. destruct (ov_cached v); zdiv.
Qed.

Lemma to_cache_index_view v :
  view_wf v -> ov_cached v = true -> to_cache_index (encode v) = Ret (ov_id v).
Proof.
  intros Hv Hc. unfold to_cache_index. rewrite is_cached_view, Hc by done. runm.
  rewrite land_unot_lock by done. rewrite land_unot_cached.
  - unfold encode. simpl. done.
  - destruct Hv. split; simpl; lia.
Qed.

Lemma to_rid_view v :
  view_wf v -> ov_cached v = false -> ov_id v <> u32_MAX -> to_rid (encode v) = Ret (ov_id v).
Proof.
  intros Hv Hc Hm. unfold to_rid. rewrite is_rid_view, Hc by done. runm.
  rewrite land_unot_lock by done.
  destruct Hv as [H1 H2]. rewrite encode_id by (split; simpl; lia). cbn [ov_id].
  rewrite wrap_small by done. apply Rid_from_u32_ok. unfold Rid_ok. lia.
Qed.

Lemma store_rid_view v r :
  view_wf v -> 0 <= r < 2 ^ 32 -> store_rid (encode v) r = encode (mkView (lk v) false r).
Proof.
  intros [H1 H2] Hr. unfold store_rid. rewrite land_unot_id by (split; simpl; lia).
  rewrite land_unot_cached by (split; simpl; lia). rewrite lor_id by (try split; simpl; lia).
  done.
Qed.

Lemma store_index_view v i :
  view_wf v -> 0 <= i < 2 ^ 32 -> store_index (encode v) i = encode (mkView (lk v) true i).
Proof.
  intros [H1 H2] Hr. unfold store_index. rewrite land_unot_id by (split; simpl; lia).
  rewrite lor_cached by (split; simpl; lia). rewrite lor_id by (try split; simpl; lia).
  done.
Qed.

Lemma reader_word v :
  view_wf v -> lk v < 128 ->
  wrap 64 (encode v + LOCK_READER) = encode (mkView (lk v + 1) (ov_cached v) (ov_id v)).
Proof.
  intros [H1 H2] Hl. change LOCK_READER with (2 ^ 56). unfold encode. simpl.
  rewrite wrap_small; [lia|]. unfold fits. destruct (ov_cached v); lia.
Qed.

Lemma drop_reader_word v :
  view_wf v -> 1 <= lk v ->
  wrap 64 (encode v - LOCK_READER) = encode (mkView (lk v - 1) (ov_cached v) (ov_id v)).
Proof.
  intros [H1 H2] Hl. change LOCK_READER with (2 ^ 56). unfold encode. simpl.
  rewrite wrap_small; [lia|]. unfold fits. destruct (ov_cached v); lia.
Qed.

Lemma drop_writer_word v :
  view_wf v -> lk v = 128 ->
  wrap 64 (encode v - LOCK_WRITER) = encode (mkView 0 (ov_cached v) (ov_id v)).
Proof.
  intros [H1 H2] Hl. change LOCK_WRITER with (128 * 2 ^ 56). unfold encode. simpl.
  rewrite Hl. rewrite wrap_small; [lia|]. unfold fits. destruct (ov_cached v); lia.
Qed.

Lemma cas_weak_same w new weak :
  cas_weak w w new weak = if weak then (Err w, w) else (Ok w, new).
Proof. unfold cas_weak. rewrite Z.eqb_refl. by destruct weak. Qed.

(** [set_lk v l]: the same id under another lock state. *)
Definition set_lk (v : oid_view) (l : Z) : oid_view := mkView l (ov_cached v) (ov_id v).

Lemma set_lk_wf v l : view_wf v -> 0 <= l <= 128 -> view_wf (set_lk v l).
Proof. intros [H1 H2] H. split; simpl; lia. Qed.

Lemma try_write_view v weak :
  view_wf v ->
  try_write (encode v) weak =
    if decide (lk v = 0)
    then (if weak then (Err LockBusy, encode v) else (Ok tt, encode (set_lk v 128)))
    else (Err WriteLockBusy, encode v).
Proof.
  intros Hv. unfold try_write, try_write_at. rewrite encode_lock by done.
  case_decide as H0.
  - rewrite H0, Z.mul_0_l. simpl. rewrite cas_weak_same, lor_writer by done. by destruct weak.
  - destruct (Z.eqb_spec (lk v * 2 ^ 56) 0); [lia|done].
Qed.

Lemma write_unlock_view v :
  view_wf v -> lk v = 128 -> write_unlock (encode v) = Ret (encode (set_lk v 0)).
Proof.
  intros Hv H. unfold write_unlock. rewrite encode_lock, H by done. simpl.
  by rewrite drop_writer_word.
Qed.

Lemma read_unlock_view v :
  view_wf v -> 1 <= lk v <= 127 -> read_unlock (encode v) = Ret (encode (set_lk v (lk v - 1))).
Proof.
  intros Hv H. unfold read_unlock. rewrite encode_writer, encode_lock by done.
  rewrite (proj2 (Z.eqb_neq (lk v) 128)) by lia. runm.
  change LOCK_READER with (2 ^ 56). rewrite Z.div_mul by lia.
  rewrite Z.gtb_ltb, (proj2 (Z.ltb_lt _ _)) by lia. runm.
  change (2 ^ 56) with LOCK_READER. by rewrite drop_reader_word by (auto; lia).
Qed.

Lemma try_read_load_view v :
  view_wf v -> try_read_load (encode v) = if decide (lk v = 128) then Err ReadLockBusy else Ok (encode v).
Proof.
  intros Hv. unfold try_read_load. rewrite encode_writer by done.
  destruct (Z.eqb_spec (lk v) 128); [by rewrite decide_True|by rewrite decide_False].
Qed.

Lemma try_read_check_view v :
  view_wf v -> try_read_check (encode v) = if decide (lk v + 1 < MAX_READER) then Ret tt else Panic.
Proof.
  intros Hv. unfold try_read_check. rewrite read_lock_cnt_view by done.
  case_decide; [by rewrite (proj2 (Z.ltb_lt _ _))|by rewrite (proj2 (Z.ltb_ge _ _)) by lia].
Qed.

Lemma read_exchange_view v weak :
  view_wf v -> lk v < 128 ->
  read_exchange (encode v) (encode v) weak =
    if weak then (Err (encode v), encode v) else (Ok (encode v), encode (set_lk v (lk v + 1))).
Proof. intros Hv Hl. unfold read_exchange. rewrite cas_weak_same. by rewrite reader_word. Qed.

Lemma try_read_view v weak :
  view_wf v -> lk v + 1 < 127 \/ lk v = 128 ->
  try_read (encode v) weak = Ret (
    if decide (lk v = 128) then (Err ReadLockBusy, encode v)
    else if weak then (Err LockBusy, encode v) else (Ok tt, encode (set_lk v (lk v + 1)))).
Proof.
  intros Hv H. unfold try_read, try_read_at. rewrite try_read_load_view by done.
  case_decide as H0; [done|]. rewrite try_read_check_view by done. change MAX_READER with 127.
  rewrite decide_True by lia. runm.
  rewrite read_exchange_view by (done || (destruct Hv; lia)). by destruct weak.
Qed.

Lemma upgrade_view v weak :
  view_wf v -> 1 <= lk v <= 127 ->
  upgrade (encode v) weak = Ret (
    if decide (lk v = 1) then
      (if weak then (Err tt, encode v) else (Ok tt, encode (set_lk v 128)))
    else (Err tt, encode v)).
Proof.
  intros Hv H. unfold upgrade, upgrade_at. rewrite encode_writer, encode_lock by done.
  rewrite (proj2 (Z.eqb_neq (lk v) 128)) by lia. runm.
  change LOCK_READER with (2 ^ 56). rewrite Z.div_mul, Z.gtb_ltb by lia. case_decide as H1.
  - rewrite H1. runm. rewrite cas_weak_same, land_unot_lock by done.
    rewrite lor_writer; [|destruct Hv; split; simpl; lia|done]. by destruct weak.
  - by rewrite (proj2 (Z.ltb_lt _ _)) by lia.
Qed.

(** ** Threads sharing one word

    Loads, exchanges, [fetch_sub]s and stores are single steps, so the steps of
    different threads interleave between the load and the exchange of one
    acquisition.  A live guard that no operation is using is counted in
    [readers] or [writers]; an acquisition, upgrade or id update in flight is
    in [pend] with the word it loaded (or is about to store).  [try_read] is
    [try_load], [try_check] or [try_fail] (its debug assertion loads the word
    again, and a thread that fails it unwinds without a guard), [read_cas]; the
    blocking [read] asserts nothing: [read_load], [read_cas], again if it
    must.  The steps put no bound on the readers. *)
Module LockMachine.

Inductive pending :=
| PTry (val : Z)
| PRead (val : Z)
| PWrite (val : Z)
| PUpgrade (val : Z)
| PStore (data : Z).

Record lstate := mkL { word : Z; readers : nat; writers : nat; pend : list pending }.

Definition succ_if {A E} (r : result A E) (n : nat) : nat :=
  match r with Ok _ => S n | Err _ => n end.

Definition succ_unless {A E} (r : result A E) (n : nat) : nat :=
  match r with Ok _ => n | Err _ => S n end.

Inductive lstep : lstate -> lstate -> Prop :=
| read_load w r n p :
    Z.land w LOCK_WRITER = 0 ->
    lstep (mkL w r n p) (mkL w r n (PRead w :: p))
| try_load w r n p val :
    try_read_load w = Ok val ->
    lstep (mkL w r n p) (mkL w r n (PTry val :: p))
| try_check w r n p1 val p2 :
    try_read_check w = Ret tt ->
    lstep (mkL w r n (p1 ++ PTry val :: p2)) (mkL w r n (p1 ++ PRead val :: p2))
| try_fail w r n p1 val p2 :
    try_read_check w = Panic ->
    lstep (mkL w r n (p1 ++ PTry val :: p2)) (mkL w r n (p1 ++ p2))
| read_cas w r n p1 val p2 weak res w' :
    read_exchange val w weak = (res, w') ->
    lstep (mkL w r n (p1 ++ PRead val :: p2)) (mkL w' (succ_if res r) n (p1 ++ p2))
| write_load w r n p :
    Z.land w LOCK_MASK = 0 ->
    lstep (mkL w r n p) (mkL w r n (PWrite w :: p))
| write_cas w r n p1 val p2 weak res w' :
    cas_weak w val (Z.lor val LOCK_WRITER) weak = (res, w') ->
    lstep (mkL w r n (p1 ++ PWrite val :: p2)) (mkL w' r (succ_if res n) (p1 ++ p2))
| read_drop w r n p :
    lstep (mkL w (S r) n p) (mkL (wrap 64 (w - LOCK_READER)) r n p)
| write_drop w r n p :
    lstep (mkL w r (S n) p) (mkL (wrap 64 (w - LOCK_WRITER)) r n p)
| upgrade_load w r n p :
    Z.land w LOCK_MASK / LOCK_READER <= 1 ->
    lstep (mkL w (S r) n p) (mkL w r n (PUpgrade w :: p))
| upgrade_cas w r n p1 val p2 weak res w' :
    cas_weak w val (Z.lor (Z.land val (unot 64 LOCK_MASK)) LOCK_WRITER) weak = (res, w') ->
    lstep (mkL w r n (p1 ++ PUpgrade val :: p2))
          (mkL w' (succ_unless res r) (succ_if res n) (p1 ++ p2))
| store_rid_load w r n p rid :
    0 <= rid < 2 ^ 32 ->
    lstep (mkL w r (S n) p) (mkL w r n (PStore (store_rid w rid) :: p))
| store_index_load w r n p i :
    0 <= i < 2 ^ 32 ->
    lstep (mkL w r (S n) p) (mkL w r n (PStore (store_index w i) :: p))
| store_commit w r n p1 data p2 :
    lstep (mkL w r n (p1 ++ PStore data :: p2)) (mkL data r (S n) (p1 ++ p2)).

Definition upgrading (x : pending) : nat := match x with PUpgrade _ => 1%nat | _ => 0%nat end.
Definition storing (x : pending) : nat := match x with PStore _ => 1%nat | _ => 0%nat end.
Fixpoint count (f : pending -> nat) (p : list pending) : nat :=
  match p with [] => 0 | x :: p => f x + count f p end%nat.

(** All live read guards and write guards, those in flight included. *)
Definition read_guards (s : lstate) : nat := readers s + count upgrading (pend s).
Definition write_guards (s : lstate) : nat := writers s + count storing (pend s).

(** Runs from an unlocked word in which fewer than [MAX_READER] read guards
    are ever alive at the same time.  Nothing in [read] keeps to that bound:
    see [reader_overflow_sets_writer] for what happens beyond it. *)
Inductive reachable : lstate -> Prop :=
| reach_init c i :
    0 <= i < 2 ^ 32 -> reachable (mkL (encode (mkView 0 c i)) 0 0 [])
| reach_step s s' :
    reachable s -> lstep s s' -> Z.of_nat (read_guards s') < MAX_READER -> reachable s'.

Definition has_lk (w : Z) (P : Z -> Prop) : Prop :=
  exists v, w = encode v /\ view_wf v /\ P (lk v).

Definition pend_ok (x : pending) : Prop :=
  match x with
  | PTry val | PRead val => has_lk val (fun l => l < 128)
  | PWrite val => has_lk val (fun l => l = 0)
  | PUpgrade val => has_lk val (fun l => l = 1)
  | PStore data => has_lk data (fun l => l = 128)
  end.

Definition lock_inv (s : lstate) : Prop :=
  Forall pend_ok (pend s) /\
  has_lk (word s) (fun l =>
    (write_guards s = 0%nat /\ l = Z.of_nat (read_guards s) /\ l < 127) \/
    (write_guards s = 1%nat /\ read_guards s = 0%nat /\ l = 128)).

Lemma count_app f p1 p2 : count f (p1 ++ p2) = (count f p1 + count f p2)%nat.
Proof. induction p1; simpl; lia. Qed.

Lemma count_cons f x p : count f (x :: p) = (f x + count f p)%nat.
Proof. done. Qed.

Lemma cas_weak_inv mem old new weak r w' :
  cas_weak mem old new weak = (r, w') ->
  (exists a, r = Ok a /\ mem = old /\ w' = new) \/ (exists e, r = Err e /\ w' = mem).
Proof.
  unfold cas_weak. destruct (Z.eqb_spec mem old); destruct weak; simpl;
    intros [= <- <-]; eauto 6.
Qed.

Lemma encode_lk_inj v v' : view_wf v -> view_wf v' -> encode v = encode v' -> lk v = lk v'.
Proof.
  intros H H' E. rewrite <-(read_lock_cnt_view v), <-(read_lock_cnt_view v') by done. by rewrite E.
Qed.

(** Splits the invariant of a state given by its components. *)
Ltac open_inv H :=
  destruct H as [Hp (v & Ew & Hv & Hl)]; unfold write_guards, read_guards in *;
  cbn [word readers writers pend] in *; subst;
  rewrite ?count_app, ?count_cons in *; cbn [upgrading storing] in *.

Lemma pend_ok_remove p1 x p2 :
  Forall pend_ok (p1 ++ x :: p2) -> pend_ok x /\ Forall pend_ok (p1 ++ p2).
Proof. rewrite !Forall_app, Forall_cons. tauto. Qed.

(** The word is unchanged, or now encodes [u]. *)
Ltac same_word v := exists v; split_and!; [done|done|lia].
Ltac new_word u Hv := exists u; split_and!; [done|destruct Hv; split; simpl; lia|simpl; lia].

Lemma lstep_inv s s' :
  lock_inv s -> lstep s s' -> Z.of_nat (read_guards s') < MAX_READER -> lock_inv s'.
Proof.
  change MAX_READER with 127.
  intros Hi Hs. destruct Hs as [w r n p Hw|w r n p val Hw|w r n p1 val p2 Hw|w r n p1 val p2 Hw
    |w r n p1 val p2 weak res w' Hc|w r n p Hw
    |w r n p1 val p2 weak res w' Hc|w r n p|w r n p|w r n p Hw|w r n p1 val p2 weak res w' Hc
    |w r n p rid Hr|w r n p i Hr|w r n p1 data p2]; open_inv Hi; intros Hb;
    try apply pend_ok_remove in Hp as [Hx Hp];
    (split; [try (by assumption); try (apply Forall_cons; split; [|by assumption])|]);
    unfold has_lk; cbn [pend word]; unfold write_guards, read_guards; cbn [word readers writers pend];
    rewrite ?count_app, ?count_cons; cbn [upgrading storing]; try same_word v;
    try (apply cas_weak_inv in Hc as [(a & -> & E & ->)|(e & -> & ->)];
         cbn [succ_if succ_unless] in *; [|by same_word v];
         destruct Hx as (v' & -> & Hv' & Hx');
         apply encode_lk_inj in E as E'; [|done|done]; rewrite <-E).
  - (* read_load *) rewrite encode_writer in Hw by done. exists v. split_and!; [done|done|].
    destruct (Z.eqb_spec (lk v) 128); [done|]. destruct Hv; lia.
  - (* try_load *) rewrite try_read_load_view in Hw by done. case_decide; [done|].
    injection Hw as <-. exists v. split_and!; [done|done|]. destruct Hv; lia.
  - (* try_check *) apply Forall_app in Hp as [Hp1 Hp2]. rewrite Forall_app, Forall_cons. by split_and!.
  - (* read_cas *) rewrite reader_word by (done || lia).
    new_word (set_lk v (lk v + 1)) Hv.
  - (* write_load *) rewrite encode_lock in Hw by done. same_word v.
  - (* write_cas *) rewrite lor_writer by (done || lia). new_word (set_lk v 128) Hv.
  - (* read_drop *) rewrite drop_reader_word by (done || lia).
    new_word (set_lk v (lk v - 1)) Hv.
  - (* write_drop *) rewrite drop_writer_word by (done || lia). new_word (set_lk v 0) Hv.
  - (* upgrade_load *) fold (read_lock_cnt (encode v)) in Hw.
    rewrite read_lock_cnt_view in Hw by done. same_word v.
  - (* upgrade_cas *) rewrite land_unot_lock, lor_writer by (done || (destruct Hv; split; simpl; lia)).
    new_word (set_lk v 128) Hv.
  - (* store_rid *) rewrite store_rid_view by done. new_word (mkView (lk v) false rid) Hv.
  - (* store_index *) rewrite store_index_view by done. new_word (mkView (lk v) true i) Hv.
  - (* store_commit *) destruct Hx as (v' & -> & Hv' & Hx'). same_word v'.
Qed.

Lemma reachable_inv s : reachable s -> lock_inv s.
Proof.
  induction 1 as [c i Hi|s s' _ IH Hs Hb].
  - split; [constructor|]. exists (mkView 0 c i). split_and!; [done|split; simpl; lia|].
    left. done.
  - by eapply lstep_inv.
Qed.

(** C12: However loads, exchanges, drops, upgrades and id updates of any number of
    threads interleave, at most one write guard is alive, never together with a
    read guard, and the word tells: its writer bit is set exactly when a write
    guard is alive, and otherwise its reader count is the number of live read
    guards. *)
Theorem lock_mutual_exclusion s :
  reachable s ->
  (write_guards s <= 1)%nat /\
  (write_guards s = 1%nat -> read_guards s = 0%nat) /\
  write_locked (word s) = bool_decide (write_guards s = 1%nat) /\
  (write_guards s = 0%nat -> read_lock_cnt (word s) = Z.of_nat (read_guards s)).
Proof.
  intros [_ (v & -> & Hv & Hl)]%reachable_inv. cbv beta in Hl.
  rewrite write_locked_view, read_lock_cnt_view by done.
  split_and!; [lia|lia| |lia].
  destruct (Z.eqb_spec (lk v) 128);
    [rewrite bool_decide_eq_true_2|rewrite bool_decide_eq_false_2]; auto; lia.
Qed.

(** A reader and then a rejected writer: one read guard, no write guard. *)
Definition one_reader : lstate := mkL (encode (mkView 1 false 7)) 1 0 [].

Lemma one_reader_reachable : reachable one_reader.
Proof.
  apply (reach_step (mkL (encode (mkView 0 false 7)) 0 0 ([] ++ [PRead 7]))).
  - apply (reach_step (mkL (encode (mkView 0 false 7)) 0 0 [])); [by apply reach_init| |done].
    by apply (read_load (encode (mkView 0 false 7))).
  - by apply (read_cas (encode (mkView 0 false 7)) 0 0 [] 7 [] false (Ok 7)).
  - done.
Qed.

Lemma lock_mutual_exclusion_witness :
  reachable one_reader /\ write_locked (word one_reader) = false.
Proof.
  split; [exact one_reader_reachable|].
  exact (proj1 (proj2 (proj2 (lock_mutual_exclusion one_reader one_reader_reachable)))).
Defined.

(** C33: In every interleaving in which fewer than [MAX_READER] (127) read guards
    are alive at a time: dropping a live guard never trips the debug assertions
    of [read_unlock] and [write_unlock], a read guard may always ask for an
    upgrade, and the debug assertion of [try_read], which loads the word again
    after the first load found no writer, fails exactly when a write guard has
    come alive in between or 126 readers hold the word. *)
Theorem guard_drops_never_panic s :
  reachable s ->
  ((0 < readers s)%nat ->
     (exists w, read_unlock (word s) = Ret w) /\
     forall weak, exists r w, upgrade (word s) weak = Ret (r, w)) /\
  ((0 < writers s)%nat -> exists w, write_unlock (word s) = Ret w) /\
  try_read_check (word s) =
    (if decide (write_guards s = 0%nat /\ Z.of_nat (read_guards s) + 1 < MAX_READER)
     then Ret tt else Panic).
Proof.
  intros [_ (v & -> & Hv & Hl)]%reachable_inv. cbv beta in Hl.
  split; [intros Hr; split; [|intros weak]|split; [intros Hw|]].
  - unfold read_guards, write_guards in Hl. rewrite read_unlock_view by (done || lia). eauto.
  - unfold read_guards, write_guards in Hl. rewrite upgrade_view by (done || lia).
    repeat case_match; eauto.
  - unfold read_guards, write_guards in Hl. rewrite write_unlock_view by (done || lia). eauto.
  - rewrite try_read_check_view by done. change MAX_READER with 127.
    repeat case_decide; (done || lia).
Qed.

(** A [try_read] finds the word free, a writer takes it, and the assertion then
    reads the writer's bit as 128 readers. *)
Definition reader_overtaken : lstate := mkL (encode (mkView 128 false 7)) 0 1 [PTry 7].

Lemma reader_overtaken_reachable : reachable reader_overtaken.
Proof.
  apply (reach_step (mkL 7 0 0 ([] ++ PWrite 7 :: [PTry 7]))).
  - apply (reach_step (mkL 7 0 0 [PTry 7])); [|by apply (write_load 7)|done].
    apply (reach_step (mkL 7 0 0 [])); [by apply (reach_init false 7)|by apply (try_load 7)|done].
  - by apply (write_cas 7 0 0 [] 7 [PTry 7] false (Ok 7)).
  - done.
Qed.

Lemma try_read_may_panic :
  reachable reader_overtaken /\ pend reader_overtaken = [PTry 7] /\
  try_read_load 7 = Ok 7 /\ try_read_check (word reader_overtaken) = Panic.
Proof. split_and!; [exact reader_overtaken_reachable|done..]. Qed.

Lemma guard_drops_never_panic_witness :
  reachable one_reader /\ exists w, read_unlock (word one_reader) = Ret w.
Proof.
  split; [exact one_reader_reachable|].
  apply (proj1 (guard_drops_never_panic one_reader one_reader_reachable)). simpl. lia.
Defined.

End LockMachine.

(** ** The id part of the word *)

(** C36: Updating the id under the write lock: the new slot (or record id) reads
    back, the tag says which of the two it is, and the lock bits stay. *)
Theorem store_id_roundtrip v i :
  view_wf v -> Rid_ok i ->
  let wi := store_index (encode v) i in
  let wr := store_rid (encode v) i in
  is_cached wi = true /\ to_cache_index wi = Ret i /\ read_lock_cnt wi = lk v /\
  is_rid wr = true /\ to_rid wr = Ret i /\ read_lock_cnt wr = lk v.
Proof.
  intros Hv Hi. unfold Rid_ok in Hi. cbv zeta.
  rewrite store_index_view, store_rid_view by (done || lia).
  assert (view_wf (mkView (lk v) true i) /\ view_wf (mkView (lk v) false i)) as [H1 H2].
  { destruct Hv. split; split; simpl; lia. }
  rewrite is_cached_view, is_rid_view, !read_lock_cnt_view by done.
  rewrite to_cache_index_view, to_rid_view by (done || (simpl; lia)). done.
Qed.

Lemma store_id_roundtrip_witness :
  to_cache_index (store_index (encode (mkView 128 false 9)) 41) = Ret 41.
Proof.
  apply (store_id_roundtrip (mkView 128 false 9) 41); [split; simpl; lia|unfold Rid_ok; lia].
Defined.

(** ** Blocking acquisition *)

Lemma write_loop_free v env :
  view_wf v -> lk v = 0 ->
  write_loop (encode v) ((encode v, false) :: env) = Some (encode (set_lk v 128)).
Proof.
  intros Hv H0. cbn [write_loop]. rewrite encode_lock, H0 by done. simpl.
  by rewrite cas_weak_same, lor_writer.
Qed.

Definition valid_words (env : list (Z * bool)) : Prop :=
  Forall (fun mk => exists u, mk.1 = encode u /\ view_wf u) env.

Lemma write_loop_acquires pre v env val :
  valid_words pre -> view_wf v -> lk v = 0 -> view_wf val ->
  exists u, write_loop (encode val) (pre ++ (encode v, false) :: (encode v, false) :: env)
              = Some (encode (set_lk u 128)) /\ view_wf u /\ lk u = 0 /\
            (encode u, false) ∈ pre ++ [(encode v, false)].
Proof.
  intros Hpre Hv H0. revert val. induction Hpre as [|[m k] pre (u & Em & Hu) Hpre IH];
    intros val Hval; [|simpl in Em; subst m].
  - exists v. cbn [app]. split_and!; [|done|done|by left].
    destruct (decide (encode v = encode val)) as [<-|Hne]; [by apply write_loop_free|].
    cbn [write_loop]. destruct (Z.land (encode val) LOCK_MASK =? 0); simpl.
    + unfold cas_weak at 1. rewrite (proj2 (Z.eqb_neq _ _)) by done. simpl.
      by apply write_loop_free.
    + by apply write_loop_free.
  - simpl. rewrite encode_lock by done. destruct (Z.eqb_spec (lk val * 2 ^ 56) 0); simpl.
    + unfold cas_weak at 1. destruct (Z.eqb_spec (encode u) (encode val)) as [E|]; destruct k; simpl.
      2:{ exists u. rewrite <-E, lor_writer; [|done|].
          - split_and!; [done|done| |by left].
            apply LockMachine.encode_lk_inj in E; [lia|done|done].
          - apply LockMachine.encode_lk_inj in E; [lia|done|done]. }
      all: destruct (IH u Hu) as (u' & -> & Hu' & Hl & Hin); exists u';
        split_and!; [done..|by right].
    + destruct (IH u Hu) as (u' & -> & Hu' & Hl & Hin). exists u'. split_and!; [done..|by right].
Qed.

(** C35: However long other threads keep the word locked or disturb the exchange,
    once the word is free for two consecutive iterations the blocking [write]
    has returned: it holds the write lock on a word that it found free, with
    that word's id and tag. *)
Theorem blocking_write_acquires pre v env :
  valid_words pre -> view_wf v -> lk v = 0 ->
  exists u, oid_write (pre ++ (encode v, false) :: (encode v, false) :: env)
              = Some (encode (set_lk u 128)) /\ view_wf u /\ lk u = 0 /\
            (encode u, false) ∈ pre ++ [(encode v, false)].
Proof.
  intros Hpre Hv H0. destruct Hpre as [|[m k] pre (u & Em & Hu) Hpre]; [|simpl in Em; subst m].
  - exists v. split_and!; [by apply write_loop_free|done|done|by left].
  - simpl. destruct (write_loop_acquires pre v env u Hpre Hv H0 Hu) as (u' & -> & ? & ? & ?).
    exists u'. split_and!; [done..|by right].
Qed.

Lemma blocking_write_acquires_witness :
  exists u, oid_write [(encode (mkView 3 true 5), false); (encode (mkView 0 true 5), true);
                       (encode (mkView 0 true 5), false); (encode (mkView 0 true 5), false)]
            = Some (encode (set_lk u 128)).
Proof.
  destruct (blocking_write_acquires
              [(encode (mkView 3 true 5), false); (encode (mkView 0 true 5), true)]
              (mkView 0 true 5) []) as (u & H & _).
  - repeat constructor; [exists (mkView 3 true 5)|exists (mkView 0 true 5)];
      (split; [reflexivity|split; simpl; lia]).
  - split; simpl; lia.
  - reflexivity.
  - exists u. exact H.
Defined.

(** The reader count has no guard in the blocking [read] (nor, in a release
    build, in [try_read]): the 128th reader carries into the writer bit, and
    the word then reads as write-locked with no writer. *)
Theorem reader_overflow_sets_writer c i :
  0 <= i < 2 ^ 32 ->
  let w := encode (mkView MAX_READER c i) in
  oid_read [(w, false); (w, false)] = Some (encode (mkView 128 c i)) /\
  write_locked (encode (mkView 128 c i)) = true /\
  try_read w false = Panic.
Proof.
  intros Hi. cbv zeta. change MAX_READER with 127.
  assert (Hv : view_wf (mkView 127 c i)) by (split; simpl; lia).
  split_and!.
  - cbn [oid_read read_loop]. rewrite encode_writer by done. simpl.
    by rewrite read_exchange_view.
  - rewrite write_locked_view by (split; simpl; lia). done.
  - unfold try_read, try_read_at. rewrite try_read_load_view by done. simpl.
    by rewrite try_read_check_view.
Qed.

Lemma reader_overflow_sets_writer_witness :
  write_locked (encode (mkView 128 true 5)) = true.
Proof. apply (reader_overflow_sets_writer true 5). lia. Defined.
