(* ===== verification/External.v ===== *)
(** * Interfaces of the third-party code the program calls

    The concurrent hash map of the flurry crate, the per-thread slot of the
    thread_local crate and the random number generator of the rand crate are
    not part of the repository.  Each is an argument of the model: operations
    as a class, and a second class with the documented behaviour the program
    relies on.  The [gmap] instance shows that the laws can hold. *)

From S2P Require Import Prelude.
From Stdlib Require Import QArith.
Open Scope Z_scope.

(** ** [flurry::HashMap<u64, V>], and [ThreadLocal<V>] keyed by thread *)
Class KvMap (V M : Type) := {
  kv_empty : M;
  kv_get : M -> Z -> option V;
  kv_insert : M -> Z -> V -> M;
  kv_remove : M -> Z -> M;
}.

Class KvMapLaws (V M : Type) `{KvMap V M} := {
  kv_get_empty : forall k, kv_get kv_empty k = None;
  kv_get_insert : forall m k v k',
    kv_get (kv_insert m k v) k' = if decide (k = k') then Some v else kv_get m k';
  kv_get_remove : forall m k k',
    kv_get (kv_remove m k) k' = if decide (k = k') then None else kv_get m k';
}.

#[export] Instance gmap_kv V : KvMap V (gmap Z V) := {
  kv_empty := ∅;
  kv_get m k := m !! k;
  kv_insert m k v := <[k := v]> m;
  kv_remove m k := delete k m;
}.

#[export] Instance gmap_kv_laws V : KvMapLaws V (gmap Z V).
Proof.
  split; simpl.
  - intros. apply lookup_empty.
  - intros m k v k'. case_decide; [subst; apply lookup_insert_eq|by apply lookup_insert_ne].
  - intros m k k'. case_decide; [subst; apply lookup_delete_eq|by apply lookup_delete_ne].
Qed.

Section kv.
Context {V M : Type} `{KvMapLaws V M}.

Lemma kv_get_insert_eq m k v : kv_get (kv_insert m k v) k = Some v.
Proof. rewrite kv_get_insert. by rewrite decide_True. Qed.

Lemma kv_get_insert_ne m k v k' : k <> k' -> kv_get (kv_insert m k v) k' = kv_get m k'.
Proof. intros. rewrite kv_get_insert. by rewrite decide_False. Qed.
End kv.

(** ** [Rng::gen_bool(p)]

    [u] is the draw, uniform in [0, 1); a probability outside [0, 1] panics. *)
Definition gen_bool (p u : Q) : outcome bool :=
  if Qle_bool 0 p && Qle_bool p 1 then Ret (negb (Qle_bool p u)) else Panic.

(** What [gen_bool] promises of a draw. *)
Definition draw_ok (u : Q) : Prop := (0 <= u)%Q /\ (u < 1)%Q.

Definition prob_ok (p : Q) : Prop := (0 <= p)%Q /\ (p <= 1)%Q.

Lemma gen_bool_ok p u : prob_ok p -> exists b, gen_bool p u = Ret b.
Proof.
  intros [H0 H1]. apply Qle_bool_iff in H0, H1. unfold gen_bool. rewrite H0, H1. eauto.
Qed.

Lemma gen_bool_one u : draw_ok u -> gen_bool 1 u = Ret true.
Proof.
  intros [_ H]. unfold gen_bool. simpl.
  destruct (Qle_bool 1 u) eqn:E; [|done]. apply Qle_bool_iff in E.
  exfalso. by apply (Qlt_not_le u 1).
Qed.

Lemma gen_bool_zero u : draw_ok u -> gen_bool 0 u = Ret false.
Proof.
  intros [H _]. unfold gen_bool. simpl. by apply Qle_bool_iff in H as ->.
Qed.
