(* ===== verification/ObjAlloc.v ===== *)
(** * Object allocators (src/utils/obj_alloc.rs)

    The intrusive free list over an array of blocks, the thread-local arenas
    built on it, and the array of object ids they serve.  Memory is a map from
    the address of an aligned 8-byte word to its value; a null pointer is 0. *)

From S2P Require Import Prelude Query Schema External.

Abbreviation wmem := (gmap Z Z) (only parsing).

(** [size + align - 1] and [align - 1] with their overflow checks. *)
Definition align_up (size align : Z) : outcome Z :=
  s ← chk 64 (size + align);
  s ← chk 64 (s - 1);
  m ← chk 64 (align - 1);
  Ret (Z.land s (unot 64 m)).

(** ** [ArrayAllocator<T>]

    [sz] and [al] are [size_of::<T>()] and [align_of::<T>()]. *)
Record ArrayAllocator := mkArrayAllocator { aa_cap : Z; aa_start : Z; aa_list_node : Z }.

(** A free block's first word is an [AtomicListNode], the address of the next
    free block; a default node is zeroed. *)
Definition AtomicListNode_new : Z := 0.

Definition NODE_SIZE : Z := 8.

(** The initialisation loop shared by [new] and [reset]: [n] blocks from index
    [i], [node_n] the link to write next. *)
Fixpoint link_blocks (n : nat) (data sz i node_n : Z) (mem : wmem) : outcome (Z * wmem) :=
  match n with
  | O => Ret (node_n, mem)
  | S n =>
      off ← chk 64 (i * sz);
      let block_start := data + off in
      link_blocks n data sz (i + 1) block_start (<[block_start := node_n]> mem)
  end.

Definition ArrayAllocator_new (sz al cap data : Z) (mem : wmem)
    : outcome (ArrayAllocator * wmem) :=
  _ ← rassert (sz >=? NODE_SIZE);
  _ ← rassert (al >=? NODE_SIZE);
  '(new_node, mem) ← link_blocks (Z.to_nat cap) data sz 0 AtomicListNode_new mem;
  Ret (mkArrayAllocator cap data new_node, mem).

Definition ArrayAllocator_reset (sz : Z) (a : ArrayAllocator) (mem : wmem)
    : outcome (ArrayAllocator * wmem) :=
  '(new_node, mem) ←
    link_blocks (Z.to_nat (aa_cap a)) (aa_start a) sz 0 AtomicListNode_new mem;
  Ret (mkArrayAllocator (aa_cap a) (aa_start a) new_node, mem).

(** A raw read of a word. *)
Definition word_read (mem : wmem) (addr : Z) : outcome Z :=
  match mem !! addr with Some w => Ret w | None => Undef end.

(** One iteration of the loop of [alloc]: [node] is the head the thread last
    saw, [head] the one its exchange finds. *)
Inductive attempt :=
| AFull
| AWon (node next : Z)
| ALost (v : Z).

Definition alloc_attempt (node head : Z) (mem : wmem) : outcome attempt :=
  if node =? 0 then Ret AFull
  else
    next ← word_read mem node;
    Ret (if head =? node then AWon node next else ALost head).

(** [alloc] by one thread: no other thread moves the head between the load and
    the exchange. *)
Fixpoint alloc_loop (fuel : nat) (sz node : Z) (a : ArrayAllocator) (mem : wmem)
    : outcome (result (Z * Z) SystemError * ArrayAllocator) :=
  match fuel with
  | O => Spin
  | S fuel =>
      r ← alloc_attempt node (aa_list_node a) mem;
      match r with
      | AFull => Ret (Err ArrayAllocatorOutOfMemory, a)
      | AWon node next =>
          d ← chk 64 (node - aa_start a);
          Ret (Ok (d / sz, node), mkArrayAllocator (aa_cap a) (aa_start a) next)
      | ALost v => alloc_loop fuel sz v a mem
      end
  end.

Definition ArrayAllocator_alloc (sz : Z) (a : ArrayAllocator) (mem : wmem)
    : outcome (result (Z * Z) SystemError * ArrayAllocator) :=
  alloc_loop 1 sz (aa_list_node a) a mem.

Definition get_by_index (sz : Z) (a : ArrayAllocator) (idx : Z) : outcome Z :=
  _ ← rassert (idx <? aa_cap a);
  Ret (aa_start a + idx * sz).

(** [dealloc] by one thread; [weak] lists the spurious failures of its
    [compare_exchange_weak]. *)
Fixpoint dealloc_loop (weak : list bool) (ptr next : Z) (a : ArrayAllocator) (mem : wmem)
    : outcome (ArrayAllocator * wmem) :=
  let mem := <[ptr := next]> mem in
  match weak with
  | true :: weak => dealloc_loop weak ptr (aa_list_node a) a mem
  | _ => if aa_list_node a =? next
         then Ret (mkArrayAllocator (aa_cap a) (aa_start a) ptr, mem)
         else Spin
  end.

Definition ArrayAllocator_dealloc (weak : list bool) (a : ArrayAllocator) (ptr : Z) (mem : wmem)
    : outcome (ArrayAllocator * wmem) :=
  dealloc_loop weak ptr (aa_list_node a) a mem.

(** ** Thread-local allocators of object ids

    The only instance in the program is [HeapArray<LockedOid, 64>]: [T] is one
    word, and [N] items make an arena. *)
Definition OID_SIZE : Z := 8.

Definition TlsFreeList_pop (head : Z) (mem : wmem) : outcome (option Z * Z) :=
  if head =? 0 then Ret (None, head)
  else
    next ← word_read mem head;
    Ret (Some head, next).

Definition TlsFreeList_insert (head ptr : Z) (mem : wmem) : Z * wmem :=
  (ptr, <[ptr := head]> mem).

Definition TlsArena_new (cap ptr : Z) (mem : wmem) : outcome (ArrayAllocator * wmem) :=
  ArrayAllocator_new OID_SIZE OID_SIZE cap ptr mem.

Record TlsAllocator := mkTls { tl_arena : ArrayAllocator; tl_free : Z }.

Definition TlsAllocator_new (arena : ArrayAllocator) : TlsAllocator := mkTls arena 0.

Definition TlsAllocator_alloc (t : TlsAllocator) (mem : wmem)
    : outcome (result Z SystemError * TlsAllocator) :=
  '(popped, free) ← TlsFreeList_pop (tl_free t) mem;
  match popped with
  | Some ptr => Ret (Ok ptr, mkTls (tl_arena t) free)
  | None =>
      '(r, arena) ← ArrayAllocator_alloc OID_SIZE (tl_arena t) mem;
      match r with
      | Ok (_, ptr) => Ret (Ok ptr, mkTls arena free)
      | Err e => Ret (Err e, mkTls arena free)
      end
  end.

Definition update_arena (t : TlsAllocator) (arena : ArrayAllocator) : TlsAllocator :=
  mkTls arena (tl_free t).

Definition TlsAllocator_dealloc (t : TlsAllocator) (ptr : Z) (mem : wmem) : TlsAllocator * wmem :=
  let '(head, mem) := TlsFreeList_insert (tl_free t) ptr mem in
  (mkTls (tl_arena t) head, mem).

Section heap_array.
Context {M : Type} `{KvMap TlsAllocator M}.
(** [N], the items of an arena. *)
Variable N : Z.

Record HeapArray := mkHeapArray { ha_heap : ArrayAllocator; ha_tls : M }.

Definition ARENA_SIZE : Z := N * OID_SIZE.

Definition HeapArray_new (arena_cnt ptr : Z) (mem : wmem) : outcome (HeapArray * wmem) :=
  '(heap, mem) ← ArrayAllocator_new ARENA_SIZE OID_SIZE arena_cnt ptr mem;
  Ret (mkHeapArray heap kv_empty, mem).

Definition new_arena (h : HeapArray) (mem : wmem)
    : outcome (result ArrayAllocator SystemError * HeapArray * wmem) :=
  '(r, heap) ← ArrayAllocator_alloc ARENA_SIZE (ha_heap h) mem;
  let h := mkHeapArray heap (ha_tls h) in
  match r with
  | Err e => Ret (Err e, h, mem)
  | Ok (_, ptr) =>
      '(arena, mem) ← TlsArena_new (ARENA_SIZE / OID_SIZE) ptr mem;
      Ret (Ok arena, h, mem)
  end.

Definition get_tls_allocator (tid : Z) (h : HeapArray) (mem : wmem)
    : outcome (result TlsAllocator SystemError * HeapArray * wmem) :=
  match kv_get (ha_tls h) tid with
  | Some v => Ret (Ok v, h, mem)
  | None =>
      '(r, h, mem) ← new_arena h mem;
      match r with
      | Err e => Ret (Err e, h, mem)
      | Ok arena =>
          let h := mkHeapArray (ha_heap h) (kv_insert (ha_tls h) tid (TlsAllocator_new arena)) in
          v ← unwrap (kv_get (ha_tls h) tid);
          Ret (Ok v, h, mem)
      end
  end.

Definition HeapArray_capacity (h : HeapArray) : outcome Z := chk 64 (aa_cap (ha_heap h) * N).

Definition ptr_to_index (h : HeapArray) (ptr : Z) : outcome Z :=
  distance ← chk 64 (ptr - aa_start (ha_heap h));
  let idx := distance / OID_SIZE in
  cap ← HeapArray_capacity h;
  _ ← rassert (idx <? cap);
  _ ← rassert (idx <? u32_MAX);
  Ret (wrap 32 idx).

Definition index_to_ptr (h : HeapArray) (idx : Z) : outcome Z :=
  cap ← HeapArray_capacity h;
  _ ← rassert (idx <? cap);
  Ret (aa_start (ha_heap h) + idx * OID_SIZE).

Definition put_tls (h : HeapArray) (tid : Z) (t : TlsAllocator) : HeapArray :=
  mkHeapArray (ha_heap h) (kv_insert (ha_tls h) tid t).

(** The loop of [append]: allocate from the thread's arena, or take a new
    arena and try again.  The allocator is shared by reference, so its update
    is an update of the map's entry. *)
Fixpoint append_loop (fuel : nat) (tid item : Z) (t : TlsAllocator) (h : HeapArray) (mem : wmem)
    : outcome (result Z SystemError * HeapArray * wmem) :=
  match fuel with
  | O => Spin
  | S fuel =>
      '(r, t) ← TlsAllocator_alloc t mem;
      let h := put_tls h tid t in
      match r with
      | Ok allocated =>
          let mem := <[allocated := item]> mem in
          idx ← ptr_to_index h allocated;
          Ret (Ok idx, h, mem)
      | Err _ =>
          '(a, h, mem) ← new_arena h mem;
          match a with
          | Err e => Ret (Err e, h, mem)
          | Ok arena =>
              let t := update_arena t arena in
              append_loop fuel tid item t (put_tls h tid t) mem
          end
      end
  end.

(** Two rounds are enough: a new arena is not empty (proved below). *)
Definition append (tid item : Z) (h : HeapArray) (mem : wmem)
    : outcome (result Z SystemError * HeapArray * wmem) :=
  '(r, h, mem) ← get_tls_allocator tid h mem;
  match r with
  | Err e => Ret (Err e, h, mem)
  | Ok t => append_loop 2 tid item t h mem
  end.

Definition HeapArray_delete (tid idx : Z) (h : HeapArray) (mem : wmem)
    : outcome (HeapArray * wmem) :=
  ptr ← index_to_ptr h idx;
  '(r, h, mem) ← get_tls_allocator tid h mem;
  t ← unwrap_ok r;
  let '(t, mem) := TlsAllocator_dealloc t ptr mem in
  Ret (put_tls h tid t, mem).
End heap_array.
Arguments HeapArray M : clear implicits.

(** ** Alignment *)

(** For a power-of-two alignment [align_up] returns the least multiple of it
    that is at least [size]; it panics only when [size + align] overflows. *)
Lemma align_up_ok size k :
  0 <= size -> 0 <= k < 64 -> size + 2 ^ k < 2 ^ 64 ->
  exists r, align_up size (2 ^ k) = Ret r /\
    size <= r < size + 2 ^ k /\ r mod 2 ^ k = 0.
Proof.
  intros Hs Hk Hb. assert (Hp : 0 < 2 ^ k) by lia.
  unfold align_up. rewrite !chk_ok by (unfold fits; lia). rewrite bind_ret.
  rewrite chk_ok by (unfold fits; lia). rewrite !bind_ret.
  eexists. split; [done|].
  rewrite land_unot by (unfold fits; lia).
  replace (2 ^ k - 1) with (Z.ones k) by (rewrite Z.ones_equiv; lia).
  rewrite Z.land_ones by lia.
  set (s := size + 2 ^ k - 1). pose proof (Z.mod_pos_bound s (2 ^ k) Hp).
  split; [unfold s in *; lia|].
  rewrite (Z.div_mod s (2 ^ k)) at 1 by lia.
  replace (2 ^ k * (s / 2 ^ k) + s mod 2 ^ k - s mod 2 ^ k) with (s / 2 ^ k * 2 ^ k) by lia.
  apply Z.mod_mul. lia.
Qed.

(** ** The free list of an allocator that only allocates

    Blocks are handed out from the highest index down, so the free blocks are
    those below [remaining], each linking to the one below it. *)
Definition block_link (start sz i : Z) : Z := if i =? 0 then 0 else start + (i - 1) * sz.

Definition remaining (sz : Z) (a : ArrayAllocator) : Z :=
  if aa_list_node a =? 0 then 0 else (aa_list_node a - aa_start a) / sz + 1.

Definition aa_inv (sz : Z) (mem : wmem) (a : ArrayAllocator) : Prop :=
  let k := remaining sz a in
  0 <= k <= aa_cap a /\ 0 < aa_start a /\ aa_start a + aa_cap a * sz < 2 ^ 64 /\
  aa_list_node a = block_link (aa_start a) sz k /\
  forall i, 0 <= i < k -> mem !! (aa_start a + i * sz) = Some (block_link (aa_start a) sz i).

Lemma remaining_link sz cap start k :
  0 < sz -> 0 < start -> 0 <= k ->
  remaining sz (mkArrayAllocator cap start (block_link start sz k)) = k.
Proof.
  intros Hsz Hst Hk. unfold remaining, block_link. simpl.
  destruct (Z.eqb_spec k 0) as [->|]; [done|].
  destruct (Z.eqb_spec (start + (k - 1) * sz) 0); [nia|].
  replace (start + (k - 1) * sz - start) with ((k - 1) * sz) by lia.
  rewrite Z.div_mul by lia. lia.
Qed.

Lemma aa_inv_frame sz mem mem' a :
  aa_inv sz mem a ->
  (forall i, 0 <= i < remaining sz a -> mem' !! (aa_start a + i * sz) = mem !! (aa_start a + i * sz)) ->
  aa_inv sz mem' a.
Proof.
  intros (H1 & H2 & H3 & H4 & H5) H. split_and!; try done; try lia.
  intros i Hi. rewrite H by done. auto.
Qed.

Lemma link_blocks_ok n data sz i mem :
  0 < sz -> 0 < data -> 0 <= i -> data + (i + Z.of_nat n) * sz < 2 ^ 64 ->
  exists mem', link_blocks n data sz i (block_link data sz i) mem
                 = Ret (block_link data sz (i + Z.of_nat n), mem') /\
    (forall j, i <= j < i + Z.of_nat n -> mem' !! (data + j * sz) = Some (block_link data sz j)) /\
    (forall addr, (forall j, i <= j < i + Z.of_nat n -> addr <> data + j * sz) ->
       mem' !! addr = mem !! addr).
Proof.
  intros Hsz Hd. revert i mem. induction n as [|n IH]; intros i mem Hi Hb.
  { exists mem. cbn [link_blocks]. replace (i + Z.of_nat 0) with i by lia.
    split_and!; [done|intros; lia|done]. }
  cbn [link_blocks]. rewrite chk_ok by (unfold fits; nia). rewrite bind_ret. cbv zeta.
  assert (E : data + i * sz = block_link data sz (i + 1)).
  { unfold block_link. destruct (Z.eqb_spec (i + 1) 0); [lia|]. f_equal. f_equal. lia. }
  destruct (IH (i + 1) (<[data + i * sz := block_link data sz i]> mem)) as (mem' & Hr & H1 & H2);
    [lia|lia|].
  exists mem'. rewrite E at 1. rewrite Hr. split_and!.
  - do 3 f_equal. lia.
  - intros j Hj. destruct (decide (j = i)) as [->|].
    + rewrite H2 by (intros; nia). apply lookup_insert_eq.
    + apply H1. lia.
  - intros addr Ha. rewrite H2 by (intros; apply Ha; lia).
    apply lookup_insert_ne. intros Ei. apply (Ha i); [lia|done].
Qed.

Lemma ArrayAllocator_new_ok sz al cap data mem :
  8 <= sz -> 8 <= al -> 0 <= cap -> 0 < data -> data + cap * sz < 2 ^ 64 ->
  exists a mem', ArrayAllocator_new sz al cap data mem = Ret (a, mem') /\
    aa_inv sz mem' a /\ remaining sz a = cap /\ aa_cap a = cap /\ aa_start a = data /\
    (forall addr, (forall j, 0 <= j < cap -> addr <> data + j * sz) -> mem' !! addr = mem !! addr).
Proof.
  intros Hsz Hal Hc Hd Hb.
  destruct (link_blocks_ok (Z.to_nat cap) data sz 0 mem) as (mem' & Hr & H1 & H2); [lia..|].
  rewrite Z.add_0_l, Z2Nat.id in Hr, H1, H2 by done.
  unfold ArrayAllocator_new, NODE_SIZE. rewrite !Z.geb_leb, !(proj2 (Z.leb_le _ _)) by lia. runm.
  change AtomicListNode_new with (block_link data sz 0). rewrite Hr. runm.
  assert (R : remaining sz (mkArrayAllocator cap data (block_link data sz cap)) = cap)
    by (apply remaining_link; lia).
  eexists _, _. split; [done|]. split_and!; try done.
  unfold aa_inv. rewrite R. simpl. split_and!; (done || lia).
Qed.

(** What one allocation does. *)
Lemma alloc_full sz a mem :
  aa_inv sz mem a -> remaining sz a = 0 ->
  ArrayAllocator_alloc sz a mem = Ret (Err ArrayAllocatorOutOfMemory, a).
Proof.
  intros (_ & _ & _ & H & _) R. rewrite R in H. unfold ArrayAllocator_alloc.
  cbn [alloc_loop]. by rewrite H.
Qed.

Lemma alloc_take sz a mem :
  8 <= sz -> aa_inv sz mem a -> 0 < remaining sz a ->
  let k := remaining sz a in
  let a' := mkArrayAllocator (aa_cap a) (aa_start a) (block_link (aa_start a) sz (k - 1)) in
  ArrayAllocator_alloc sz a mem = Ret (Ok (k - 1, aa_start a + (k - 1) * sz), a') /\
  aa_inv sz mem a' /\ remaining sz a' = k - 1.
Proof.
  intros Hsz (H1 & H2 & H3 & H4 & H5) R k a'.
  assert (Ra : remaining sz a' = k - 1) by (apply remaining_link; lia).
  split_and!; [|unfold aa_inv; rewrite Ra; simpl; split_and!; [lia|lia|done|done|done|]|done].
  - unfold ArrayAllocator_alloc. cbn [alloc_loop]. unfold alloc_attempt. rewrite H4.
    fold k in H5 |- *.
    assert (E : block_link (aa_start a) sz k = aa_start a + (k - 1) * sz).
    { unfold block_link. by rewrite (proj2 (Z.eqb_neq k 0)) by lia. }
    rewrite E, (proj2 (Z.eqb_neq _ 0)) by nia.
    unfold word_read. rewrite H5 by lia. runm. rewrite Z.eqb_refl. runm.
    rewrite chk_ok by (unfold fits; nia). runm.
    replace (aa_start a + (k - 1) * sz - aa_start a) with ((k - 1) * sz) by lia.
    by rewrite Z.div_mul by lia.
  - intros i Hi. apply H5. fold k. lia.
Qed.

(** ** Threads sharing one allocator

    The load of the head, the load of the block's link and the exchange are
    separate steps of a thread; an owner may overwrite its block at any time,
    its link word included, while slower threads still read it. *)
Module AllocMachine.
Section machine.
Variables (sz cap start : Z).
Hypothesis Hsz : 8 <= sz.
Hypothesis Hstart : 0 < start.

Inductive apend :=
| PHead (node : Z)
| PNext (node next : Z).

(** [handed] lists the blocks returned so far, latest first. *)
Record astate := mkA { a_mem : wmem; a_head : Z; a_pend : list apend; handed : list Z }.

Definition in_block (blk addr : Z) : Prop := blk <= addr < blk + sz.

Inductive astep : astate -> astate -> Prop :=
| a_start m h p d : astep (mkA m h p d) (mkA m h (PHead h :: p) d)
| a_oom m h p1 p2 d : astep (mkA m h (p1 ++ PHead 0 :: p2) d) (mkA m h (p1 ++ p2) d)
| a_next m h p1 node p2 d next :
    node <> 0 -> word_read m node = Ret next ->
    astep (mkA m h (p1 ++ PHead node :: p2) d) (mkA m h (p1 ++ PNext node next :: p2) d)
| a_won m p1 node next p2 d :
    astep (mkA m node (p1 ++ PNext node next :: p2) d) (mkA m next (p1 ++ p2) (node :: d))
| a_lost m h p1 node next p2 d :
    h <> node ->
    astep (mkA m h (p1 ++ PNext node next :: p2) d) (mkA m h (p1 ++ PHead h :: p2) d)
| a_user m h p d blk addr v :
    blk ∈ d -> in_block blk addr ->
    astep (mkA m h p d) (mkA (<[addr := v]> m) h p d).

(** Runs of any number of threads after [ArrayAllocator_new]. *)
Definition fresh_state (mem : wmem) : astate :=
  mkA mem (block_link start sz cap) [] [].

Inductive areach : astate -> Prop :=
| ar_init mem :
    aa_inv sz mem (mkArrayAllocator cap start (block_link start sz cap)) ->
    areach (fresh_state mem)
| ar_step s s' : areach s -> astep s s' -> areach s'.

Definition block (i : Z) : Z := start + i * sz.

(** [k] blocks are still free. *)
Definition pend_inv (k : Z) (x : apend) : Prop :=
  match x with
  | PHead node => exists i, 0 <= i <= cap /\ node = block_link start sz i
  | PNext node next =>
      exists i, 0 <= i < cap /\ node = block i /\ (i < k -> next = block_link start sz i)
  end.

Definition free_inv (k : Z) (s : astate) : Prop :=
  0 <= k <= cap /\ a_head s = block_link start sz k /\
  (forall i, 0 <= i < k -> a_mem s !! block i = Some (block_link start sz i)) /\
  handed s = (fun n => block (k + Z.of_nat n)) <$> seq 0 (Z.to_nat (cap - k)) /\
  Forall (pend_inv k) (a_pend s).

Lemma block_link_succ i : 0 <= i -> block_link start sz (i + 1) = block i.
Proof.
  intros. unfold block_link, block. rewrite (proj2 (Z.eqb_neq _ _)) by lia.
  f_equal. f_equal. lia.
Qed.

Lemma block_inj i j : block i = block j -> i = j.
Proof. unfold block. intros. nia. Qed.

Lemma block_link_inv i j : 0 <= i -> 0 <= j -> block_link start sz i = block j -> i = j + 1.
Proof.
  unfold block_link, block. intros Hi Hj. destruct (Z.eqb_spec i 0); nia.
Qed.

Lemma pend_inv_mono k k' x : k' <= k -> pend_inv k x -> pend_inv k' x.
Proof.
  intros Hk. destruct x as [|node next]; simpl; [done|].
  intros (i & Hi & E & H). exists i. split_and!; [lia|lia|done|]. intros. apply H. lia.
Qed.

Lemma handed_elem k blk :
  0 <= k <= cap ->
  blk ∈ ((fun n => block (k + Z.of_nat n)) <$> seq 0 (Z.to_nat (cap - k))) ->
  exists i, k <= i < cap /\ blk = block i.
Proof.
  intros Hk Hb. apply list_elem_of_fmap in Hb as (n & -> & Hn).
  apply elem_of_seq in Hn. exists (k + Z.of_nat n). split; [lia|done].
Qed.

Lemma pend_split k p1 x p2 :
  Forall (pend_inv k) (p1 ++ x :: p2) -> pend_inv k x /\ Forall (pend_inv k) (p1 ++ p2).
Proof. rewrite !Forall_app, Forall_cons. tauto. Qed.

Lemma pend_join k p1 x p2 :
  pend_inv k x -> Forall (pend_inv k) (p1 ++ p2) -> Forall (pend_inv k) (p1 ++ x :: p2).
Proof. rewrite !Forall_app, Forall_cons. tauto. Qed.

Lemma astep_inv k s s' :
  free_inv k s -> astep s s' -> exists k', k' <= k /\ free_inv k' s'.
Proof.
  intros (Hk & Hh & Hm & Hd & Hp) Hs.
  destruct Hs as [m h p d|m h p1 p2 d|m h p1 node p2 d next Hn Hr|m p1 node next p2 d
    |m h p1 node next p2 d Hne|m h p d blk addr v Hb Ha]; simpl in *;
    try apply pend_split in Hp as [Hx Hp].
  - exists k. split; [done|]. split_and!; simpl; try lia; try assumption.
    constructor; [|done]. exists k. by rewrite Hh.
  - exists k. split; [done|]. split_and!; simpl; try lia; assumption.
  - exists k. split; [done|]. split_and!; simpl; try lia; try assumption. apply pend_join; [|done].
    destruct Hx as (i & Hi & E). assert (i <> 0) by (intros ->; done).
    exists (i - 1). split; [lia|]. replace i with (i - 1 + 1) in E by lia.
    rewrite block_link_succ in E by lia. split; [done|]. intros Hlt.
    unfold word_read in Hr. rewrite E, Hm in Hr by lia. congruence.
  - destruct Hx as (i & Hi & E & Hnext). rewrite Hh in E. apply block_link_inv in E as Ek; [|lia..].
    exists i. split; [lia|]. split_and!; [lia..|apply Hnext; lia|intros; apply Hm; lia| |].
    + replace (Z.to_nat (cap - i)) with (S (Z.to_nat (cap - k))) by lia.
      cbn [seq fmap list_fmap handed]. f_equal.
      { rewrite Hh, E. by rewrite Z.add_0_r. }
      rewrite Hd, <-seq_shift, <-list_fmap_compose. apply list_fmap_ext.
      intros ? n _. simpl. f_equal. lia.
    + eapply Forall_impl; [done|]. intros x. apply pend_inv_mono. lia.
  - exists k. split; [done|]. split_and!; simpl; try lia; try assumption. apply pend_join; [|done].
    exists k. by rewrite Hh.
  - exists k. split; [done|]. split_and!; simpl; try lia; try assumption.
    intros i Hi. rewrite lookup_insert_ne; [by apply Hm|]. intros E.
    rewrite Hd in Hb. apply handed_elem in Hb as (j & Hj & ->); [|lia].
    unfold in_block, block in *. nia.
Qed.

Lemma areach_inv s : areach s -> exists k, free_inv k s.
Proof.
  induction 1 as [mem (H1 & H2 & H3 & H4 & H5)|s s' _ (k & IH) Hs].
  - rewrite remaining_link in * by (simpl in *; lia || (unfold remaining in H1; lia)).
    exists cap. split_and!; simpl in *; [lia..|done|done| |done].
    by rewrite Z.sub_diag.
  - destruct (astep_inv _ _ _ IH Hs) as (k' & _ & ?). eauto.
Qed.
End machine.

(** C20: However the loads, exchanges and block writes of any number of threads
    interleave, no block is handed out twice, every block handed out is one of
    the [cap] blocks of the array, a thread is told "out of memory" (the head
    is null) exactly when all blocks are out, and an exchange that succeeds
    leaves the head on a free block or on null. *)
Theorem alloc_blocks_disjoint sz cap start s :
  8 <= sz -> 0 < start -> 0 <= cap -> areach sz cap start s ->
  NoDup (handed s) /\
  (forall blk, blk ∈ handed s -> exists i, 0 <= i < cap /\ blk = start + i * sz) /\
  (a_head s = 0 <-> Z.of_nat (length (handed s)) = cap) /\
  a_head s ∉ handed s.
Proof.
  intros Hsz Hst Hc (k & Hk & Hh & Hm & Hd & Hp)%areach_inv; [|done..]. rewrite Hd, Hh.
  split_and!.
  - apply NoDup_fmap_2; [|apply NoDup_seq]. intros n n' E. apply block_inj in E; [lia|done].
  - intros blk Hb. apply handed_elem in Hb as (i & Hi & ->); [|lia..]. exists i. split; [lia|done].
  - rewrite length_fmap, length_seq. unfold block_link.
    destruct (Z.eqb_spec k 0); split; intros; try lia; nia.
  - intros Hb. apply handed_elem in Hb as (i & Hi & E); [|lia..].
    unfold block_link, block in E. destruct (Z.eqb_spec k 0); nia.
Qed.

(** Two threads load the head of a two-block array; one takes the block and
    writes to it, the other loses its exchange. *)
Definition two_blocks : wmem := {[64 := 0; 72 := 64]}.

Lemma two_blocks_reach :
  areach 8 2 64 (mkA (<[72 := 5]> two_blocks) 64 [PHead 64] [72]).
Proof.
  assert (H0 : areach 8 2 64 (fresh_state 8 2 64 two_blocks)).
  { apply ar_init. split_and!; [done..|]. intros i Hi. change (remaining _ _) with 2 in Hi.
    assert (i = 0 \/ i = 1) as [->| ->] by lia; reflexivity. }
  change (fresh_state 8 2 64 two_blocks) with (mkA two_blocks 72 [] []) in H0.
  pose proof (ar_step _ _ _ _ _ H0 (a_start _ _ _ _ _)) as H1.
  pose proof (ar_step _ _ _ _ _ H1 (a_start _ _ _ _ _)) as H2.
  change [PHead 72; PHead 72] with ([] ++ PHead 72 :: [PHead 72]) in H2.
  pose proof (ar_step _ _ _ _ _ H2 (a_next _ two_blocks _ [] 72 [PHead 72] _ 64 ltac:(done) eq_refl)) as H3.
  change ([] ++ PNext 72 64 :: [PHead 72]) with ([PNext 72 64] ++ PHead 72 :: []) in H3.
  pose proof (ar_step _ _ _ _ _ H3 (a_next _ two_blocks _ [PNext 72 64] 72 [] _ 64 ltac:(done) eq_refl)) as H4.
  change ([PNext 72 64] ++ PNext 72 64 :: []) with ([] ++ PNext 72 64 :: [PNext 72 64]) in H4.
  pose proof (ar_step _ _ _ _ _ H4 (a_won _ _ [] 72 64 [PNext 72 64] _)) as H5.
  pose proof (ar_step _ _ _ _ _ H5 (a_lost _ _ 64 [] 72 64 [] _ ltac:(lia))) as H6.
  refine (ar_step _ _ _ _ _ H6 (a_user _ _ _ _ _ 72 72 5 _ _)).
  - by left.
  - unfold in_block. lia.
Qed.

Lemma alloc_blocks_disjoint_witness :
  NoDup (handed (mkA (<[72 := 5]> two_blocks) 64 [PHead 64] [72])).
Proof.
  apply (alloc_blocks_disjoint 8 2 64 _ ltac:(lia) ltac:(lia) ltac:(lia) two_blocks_reach).
Defined.
End AllocMachine.

(** ** The heap of object ids, 64 to an arena

    An id is allocated when its arena has left the heap and, if the arena is
    still some thread's current one, when it lies above the arena's free
    blocks. *)
Section heap_inv.
Context {M : Type} `{KvMapLaws TlsAllocator M}.
Implicit Types (h : HeapArray M) (mem : wmem).

Definition arena_at h j (t : TlsAllocator) : Prop :=
  aa_start (tl_arena t) = aa_start (ha_heap h) + j * 512.

Definition tls_inv h mem (t : TlsAllocator) : Prop :=
  tl_free t = 0 /\ aa_cap (tl_arena t) = 64 /\ aa_inv 8 mem (tl_arena t) /\
  exists j, remaining 512 (ha_heap h) <= j < aa_cap (ha_heap h) /\ arena_at h j t.

Definition heap_inv h mem : Prop :=
  aa_inv 512 mem (ha_heap h) /\ aa_cap (ha_heap h) * 64 < u32_MAX /\
  (forall tid t, kv_get (ha_tls h) tid = Some t -> tls_inv h mem t) /\
  (forall tid tid' t t', kv_get (ha_tls h) tid = Some t -> kv_get (ha_tls h) tid' = Some t' ->
     aa_start (tl_arena t) = aa_start (tl_arena t') -> tid = tid').

Definition oid_addr h i : Z := aa_start (ha_heap h) + i * 8.

Definition heap_capacity h : Z := aa_cap (ha_heap h) * 64.

Definition allocated h i : Prop :=
  remaining 512 (ha_heap h) * 64 <= i < heap_capacity h /\
  forall tid t, kv_get (ha_tls h) tid = Some t -> arena_at h (i / 64) t ->
    remaining 8 (tl_arena t) <= i mod 64.

(** [tid] has no arena with room. *)
Definition exhausted h tid : Prop :=
  forall t, kv_get (ha_tls h) tid = Some t -> remaining 8 (tl_arena t) = 0.

(** Replacing a thread's allocator. *)
Lemma put_tls_inv h mem tid t :
  heap_inv h mem -> tls_inv h mem t ->
  (forall tid' t', kv_get (ha_tls h) tid' = Some t' -> tid' <> tid ->
     aa_start (tl_arena t) <> aa_start (tl_arena t')) ->
  heap_inv (put_tls h tid t) mem.
Proof.
  intros (H1 & H2 & H3 & H4) Ht Hd. split_and!; [done..| |]; simpl.
  - intros tid' t'. rewrite kv_get_insert. case_decide; [intros [= <-]; done|apply H3].
  - intros tid1 tid2 t1 t2. rewrite !kv_get_insert.
    repeat case_decide; intros; simplify_eq; eauto.
    + exfalso. eapply Hd; eauto.
    + exfalso. eapply Hd; eauto.
Qed.

Lemma new_arena_none h mem :
  heap_inv h mem -> remaining 512 (ha_heap h) = 0 ->
  new_arena 64 h mem = Ret (Err ArrayAllocatorOutOfMemory, h, mem).
Proof.
  intros (Ha & _) R. unfold new_arena. change (ARENA_SIZE 64) with 512.
  rewrite alloc_full by done. runm. by destruct h.
Qed.

(** The memory outside arena [j]. *)
Definition outside h j mem mem' : Prop :=
  forall addr, ~ (aa_start (ha_heap h) + j * 512 <= addr < aa_start (ha_heap h) + (j + 1) * 512) ->
    mem' !! addr = mem !! addr.

(** Taking a new arena for [tid], whose old one (if any) is used up, changes
    neither the set of allocated ids nor their words. *)
Lemma new_arena_some h mem tid :
  heap_inv h mem -> 0 < remaining 512 (ha_heap h) -> exhausted h tid ->
  exists arena h' mem', new_arena 64 h mem = Ret (Ok arena, h', mem') /\
    heap_inv (put_tls h' tid (mkTls arena 0)) mem' /\
    remaining 8 arena = 64 /\ ha_tls h' = ha_tls h /\
    aa_start (ha_heap h') = aa_start (ha_heap h) /\ aa_cap (ha_heap h') = aa_cap (ha_heap h) /\
    (forall i, allocated (put_tls h' tid (mkTls arena 0)) i <-> allocated h i) /\
    (forall i, allocated h i -> mem' !! oid_addr h i = mem !! oid_addr h i).
Proof.
  intros (Ha & Hc & Ht & Hd) R Hex. unfold new_arena. change (ARENA_SIZE 64) with 512.
  destruct (alloc_take 512 _ mem ltac:(lia) Ha R) as (-> & Ha' & R'). runm.
  set (k := remaining 512 (ha_heap h)) in *. set (st := aa_start (ha_heap h)) in *.
  pose proof Ha as (Hk & Hst & Hb & _ & _). fold k st in Hk, Hst, Hb.
  change (512 / OID_SIZE) with 64. unfold TlsArena_new.
  destruct (ArrayAllocator_new_ok OID_SIZE OID_SIZE 64 (st + (k - 1) * 512) mem)
    as (arena & mem' & -> & Hi & Hr & Hac & Has & Hframe); [unfold OID_SIZE; lia..|]. runm.
  change OID_SIZE with 8 in *.
  assert (Hout : outside h (k - 1) mem mem').
  { intros addr Hn. apply Hframe. fold st in Hn. intros; lia. }
  set (heap' := mkArrayAllocator _ _ _) in *. exists arena, (mkHeapArray heap' (ha_tls h)), mem'.
  assert (Hold : forall tid' t, kv_get (ha_tls h) tid' = Some t ->
            exists j, k <= j < aa_cap (ha_heap h) /\ arena_at h j t).
  { intros tid' t E. destruct (Ht _ _ E) as (_ & _ & _ & ?). done. }
  split; [done|]. split_and!; try done.
  - apply put_tls_inv.
    + split_and!; simpl; [|done| |done].
      * eapply aa_inv_frame; [done|]. rewrite R'. intros i Hi'. apply Hout. simpl. fold st. lia.
      * intros tid' t E. destruct (Ht _ _ E) as (F & C & I & j & Hj & Hat).
        split_and!; [done..| |].
        -- eapply aa_inv_frame; [done|]. intros i Hi'. apply Hout. fold st.
           unfold arena_at in Hat. fold st in Hat. destruct I as (I & _). rewrite Hat. lia.
        -- exists j. simpl. rewrite R'. split; [lia|done].
    + split_and!; try done. exists (k - 1). simpl. rewrite R'.
      split; [lia|done].
    + simpl. intros tid' t' E _. destruct (Hold _ _ E) as (j & Hj & Hat).
      unfold arena_at in Hat. fold st in Hat. rewrite Has, Hat. lia.
  - intros i. unfold allocated, heap_capacity, arena_at. simpl. rewrite R'. fold st k.
    split; intros [Hr1 Hr2]; (split; [|intros tid' t' E Hat]).
    + enough (k * 64 <= i) by lia. destruct (decide (k * 64 <= i)); [done|exfalso].
      specialize (Hr2 tid _ (kv_get_insert_eq _ _ _)). simpl in Hr2. rewrite Has in Hr2.
      assert (i / 64 = k - 1) as Ei by (Z.div_mod_to_equations; lia).
      rewrite Ei, Hr in Hr2. specialize (Hr2 eq_refl). pose proof (Z.mod_pos_bound i 64). lia.
    + destruct (decide (tid' = tid)) as [->|].
      * rewrite (Hex _ E). apply Z.mod_pos_bound. lia.
      * apply (Hr2 tid'); [by rewrite kv_get_insert_ne by done|done].
    + lia.
    + rewrite kv_get_insert in E. case_decide; simplify_eq; [|eauto].
      simpl in Hat. rewrite Has in Hat. Z.div_mod_to_equations; lia.
  - intros i [Hr1 _]. apply Hout. unfold oid_addr. fold st k in Hr1 |- *.
    unfold heap_capacity in Hr1. lia.
Qed.
Lemma tls_alloc_none h mem t :
  tls_inv h mem t -> remaining 8 (tl_arena t) = 0 ->
  TlsAllocator_alloc t mem = Ret (Err ArrayAllocatorOutOfMemory, t).
Proof.
  intros (Hf & _ & Hi & _) R. unfold TlsAllocator_alloc, TlsFreeList_pop. rewrite Hf. runm.
  change OID_SIZE with 8. rewrite alloc_full by done. runm. destruct t. simpl in *. by rewrite Hf.
Qed.

Lemma tls_alloc_some h mem t :
  tls_inv h mem t -> 0 < remaining 8 (tl_arena t) ->
  let k := remaining 8 (tl_arena t) in
  exists t', TlsAllocator_alloc t mem = Ret (Ok (aa_start (tl_arena t) + (k - 1) * 8), t') /\
    tls_inv h mem t' /\ aa_start (tl_arena t') = aa_start (tl_arena t) /\
    remaining 8 (tl_arena t') = k - 1.
Proof.
  intros (Hf & Hc & Hi & Hj) R k. unfold TlsAllocator_alloc, TlsFreeList_pop. rewrite Hf. runm.
  change OID_SIZE with 8.
  destruct (alloc_take 8 _ mem ltac:(lia) Hi R) as (-> & Hi' & R'). runm.
  eexists. split; [done|]. by split_and!.
Qed.

(** The words of allocated ids are their owners' to write. *)
Lemma heap_inv_write h mem i w :
  heap_inv h mem -> allocated h i -> heap_inv h (<[oid_addr h i := w]> mem).
Proof.
  intros (Ha & Hc & Ht & Hd) [Hr1 Hr2]. split_and!; [|done| |done].
  - eapply aa_inv_frame; [done|]. intros b Hb. apply lookup_insert_ne.
    unfold oid_addr. lia.
  - intros tid t E. destruct (Ht _ _ E) as (F & C & I & j & Hj & Hat).
    split_and!; [done..| |eauto]. eapply aa_inv_frame; [done|]. intros b Hb.
    apply lookup_insert_ne. unfold oid_addr. rewrite Hat. intros Ei.
    destruct I as (I & _). rewrite C in I.
    assert (i / 64 = j /\ i mod 64 = b) as [Ej Eb] by (Z.div_mod_to_equations; lia).
    specialize (Hr2 _ _ E). rewrite Ej in Hr2. specialize (Hr2 Hat). lia.
Qed.

(** The outcome of an append that found room. *)
Definition appended h mem item h' mem' i : Prop :=
  heap_inv h' mem' /\ 0 <= i < heap_capacity h /\ ~ allocated h i /\
  (forall i', allocated h' i' <-> i' = i \/ allocated h i') /\
  aa_start (ha_heap h') = aa_start (ha_heap h) /\ aa_cap (ha_heap h') = aa_cap (ha_heap h) /\
  mem' !! oid_addr h i = Some item /\
  (forall i', allocated h i' -> mem' !! oid_addr h i' = mem !! oid_addr h i').

Lemma heap_inv_bounds h mem :
  heap_inv h mem ->
  0 < aa_start (ha_heap h) /\ aa_start (ha_heap h) + heap_capacity h * 8 < 2 ^ 64 /\
  0 <= heap_capacity h < u32_MAX.
Proof. intros ((H1 & H2 & H3 & _) & H4 & _). unfold heap_capacity. lia. Qed.

Lemma ptr_to_index_ok h mem i :
  heap_inv h mem -> 0 <= i < heap_capacity h -> ptr_to_index 64 h (oid_addr h i) = Ret i.
Proof.
  intros Hb%heap_inv_bounds Hi. unfold ptr_to_index, HeapArray_capacity, oid_addr.
  fold (heap_capacity h). rewrite !chk_ok by (unfold fits; lia). runm. change OID_SIZE with 8.
  replace (_ + i * 8 - _) with (i * 8) by lia. rewrite Z.div_mul by lia.
  rewrite !(proj2 (Z.ltb_lt _ _)) by lia. runm. by rewrite wrap_small by (unfold fits; lia).
Qed.

Lemma index_to_ptr_ok h mem i :
  heap_inv h mem -> 0 <= i < heap_capacity h -> index_to_ptr 64 h i = Ret (oid_addr h i).
Proof.
  intros Hb%heap_inv_bounds Hi. unfold index_to_ptr, HeapArray_capacity. fold (heap_capacity h).
  rewrite chk_ok by (unfold fits; lia). runm. by rewrite (proj2 (Z.ltb_lt _ _)) by lia.
Qed.

(** Taking the top free block of a thread's arena allocates exactly its id. *)
Lemma put_tls_allocated h mem tid t t' j :
  heap_inv h mem -> kv_get (ha_tls h) tid = Some t -> 0 < remaining 8 (tl_arena t) <= 64 ->
  remaining 512 (ha_heap h) <= j < aa_cap (ha_heap h) -> arena_at h j t ->
  aa_start (tl_arena t') = aa_start (tl_arena t) ->
  remaining 8 (tl_arena t') = remaining 8 (tl_arena t) - 1 ->
  let i := j * 64 + (remaining 8 (tl_arena t) - 1) in
  ~ allocated h i /\ forall i', allocated (put_tls h tid t') i' <-> i' = i \/ allocated h i'.
Proof.
  intros (_ & _ & _ & Hd) Et Hk Hj Hat Hst R'. set (k := remaining 8 (tl_arena t)) in *. intros i.
  assert (i / 64 = j /\ i mod 64 = k - 1) as [Hij Him] by (unfold i; Z.div_mod_to_equations; lia).
  split.
  { intros [_ Hr2]. specialize (Hr2 _ _ Et). rewrite Hij in Hr2. specialize (Hr2 Hat).
    fold k in Hr2. lia. }
  intros i'. unfold allocated, heap_capacity, arena_at in *. simpl. split.
  - intros [Hr1 Hr2]. destruct (decide (i' = i)) as [->|Hne]; [by left|right].
    split; [done|]. intros tid' t'' E Hat'. destruct (decide (tid' = tid)) as [->|].
    + simplify_eq. specialize (Hr2 tid _ (kv_get_insert_eq _ _ _)).
      rewrite Hst, R' in Hr2. specialize (Hr2 Hat'). fold k.
      enough (i' mod 64 <> k - 1) by lia. intros Em. apply Hne. unfold i.
      Z.div_mod_to_equations; lia.
    + apply (Hr2 tid'); [by rewrite kv_get_insert_ne by done|done].
  - intros [->|[Hr1 Hr2]].
    + split; [unfold i; lia|]. intros tid' t''. rewrite kv_get_insert.
      case_decide; intros; simplify_eq; [lia|]. exfalso.
      assert (tid' = tid); [|done]. eapply Hd; [done|exact Et|]. rewrite Hat. by rewrite Hij in *.
    + split; [done|]. intros tid' t''. rewrite kv_get_insert. case_decide; intros E Hat'.
      * simplify_eq. rewrite Hst in Hat'. specialize (Hr2 _ _ Et Hat'). fold k in Hr2. lia.
      * apply (Hr2 tid'); done.
Qed.

Lemma append_loop_room n tid item t h mem :
  heap_inv h mem -> kv_get (ha_tls h) tid = Some t -> 0 < remaining 8 (tl_arena t) ->
  exists i h' mem', append_loop 64 (S n) tid item t h mem = Ret (Ok i, h', mem') /\
    appended h mem item h' mem' i.
Proof.
  intros Hinv Et R. pose proof Hinv as (_ & _ & Ht & Hd). cbn [append_loop].
  destruct (tls_alloc_some h mem t (Ht _ _ Et) R) as (t' & -> & Ht' & Hst & R'). runm.
  destruct (Ht _ _ Et) as (_ & Hcap & (Hk & _) & j & Hj & Hat). rewrite Hcap in Hk.
  destruct (put_tls_allocated h mem tid t t' j) as [Hna Hnew]; [done..|lia|done|done|done|done|].
  set (k := remaining 8 (tl_arena t)) in *. set (i := j * 64 + (k - 1)) in *.
  assert (Hi : 0 <= i < heap_capacity h).
  { destruct Hinv as ((? & _) & _). unfold i, heap_capacity. lia. }
  assert (Hinv' : heap_inv (put_tls h tid t') mem).
  { apply put_tls_inv; [done..|]. intros tid' t'' E Hne E'. apply Hne.
    eapply Hd; [done|exact Et|]. by rewrite <-E', Hst. }
  replace (aa_start (tl_arena t) + (k - 1) * 8) with (oid_addr (put_tls h tid t') i)
    by (unfold oid_addr, i; simpl; rewrite Hat; lia).
  rewrite (ptr_to_index_ok _ mem) by done. runm. do 3 eexists. split; [done|].
  split_and!; try done; try lia.
  - apply heap_inv_write; [done|]. apply Hnew. by left.
  - apply lookup_insert_eq.
  - intros i' Hi'. apply lookup_insert_ne. unfold oid_addr. simpl. intros E.
    apply Hna. by replace i with i' by lia.
Qed.

(** Chaining a new arena and an append into it. *)
Lemma appended_new_arena h mem h1 mem1 item h' mem' i :
  (forall i, allocated h1 i <-> allocated h i) ->
  (forall i, allocated h i -> mem1 !! oid_addr h i = mem !! oid_addr h i) ->
  aa_start (ha_heap h1) = aa_start (ha_heap h) -> aa_cap (ha_heap h1) = aa_cap (ha_heap h) ->
  appended h1 mem1 item h' mem' i -> appended h mem item h' mem' i.
Proof.
  intros Hal Hm Hs Hc (H1 & H2 & H3 & H4 & H5 & H6 & H7 & H8).
  unfold appended, oid_addr, heap_capacity in *. rewrite <-Hs, <-Hc. rewrite <-Hs in Hm.
  split_and!; try done; try lia.
  - by rewrite <-Hal.
  - intros i'. by rewrite <-Hal.
  - intros i' Hi'. rewrite H8 by (by apply Hal). auto.
Qed.

Lemma append_fresh_arena tid item h mem n :
  heap_inv h mem -> 0 < remaining 512 (ha_heap h) -> exhausted h tid ->
  exists arena h1 mem1, new_arena 64 h mem = Ret (Ok arena, h1, mem1) /\
    let t := mkTls arena 0 in
    exists i h' mem', append_loop 64 (S n) tid item t (put_tls h1 tid t) mem1 = Ret (Ok i, h', mem') /\
      appended h mem item h' mem' i.
Proof.
  intros Hinv R Hex.
  destruct (new_arena_some h mem tid Hinv R Hex)
    as (arena & h1 & mem1 & -> & Hi1 & R1 & Htls & Hs & Hc & Hal & Hm).
  do 3 eexists. split; [done|]. cbv zeta.
  destruct (append_loop_room n tid item (mkTls arena 0) _ _ Hi1) as (i & h' & mem' & E & Ha);
    [apply kv_get_insert_eq|simpl; lia|].
  exists i, h', mem'. split; [done|]. by eapply appended_new_arena.
Qed.

(** Two heaps are the same when their maps answer alike; inserting the entry
    a thread already has gives the same heap. *)
Definition heap_eq h h' : Prop :=
  ha_heap h = ha_heap h' /\ forall tid, kv_get (ha_tls h) tid = kv_get (ha_tls h') tid.

#[export] Instance heap_eq_equiv : Equivalence heap_eq.
Proof.
  split.
  - by intros h.
  - intros h h' [H1 H2]. by split.
  - intros h1 h2 h3 [H1 H2] [H3 H4]. split; [congruence|]. intros. by rewrite H2.
Qed.

#[export] Instance allocated_proper : Proper (heap_eq ==> eq ==> iff) allocated.
Proof.
  intros h h' [E1 E2] i ? <-. unfold allocated, heap_capacity, arena_at. rewrite E1.
  by setoid_rewrite E2.
Qed.

#[export] Instance heap_inv_proper : Proper (heap_eq ==> eq ==> iff) heap_inv.
Proof.
  intros h h' [E1 E2] mem ? <-. unfold heap_inv, tls_inv, arena_at. rewrite E1.
  by setoid_rewrite E2.
Qed.

#[export] Instance exhausted_proper : Proper (heap_eq ==> eq ==> iff) exhausted.
Proof. intros h h' [E1 E2] tid ? <-. unfold exhausted. by rewrite E2. Qed.

Lemma put_tls_same h tid t : kv_get (ha_tls h) tid = Some t -> heap_eq (put_tls h tid t) h.
Proof. intros E. split; [done|]. intros tid'. simpl. rewrite kv_get_insert. case_decide; by subst. Qed.

Definition append_post h mem tid item (r : result Z SystemError) h' mem' : Prop :=
  match r with
  | Ok i => appended h mem item h' mem' i
  | Err e => e = ArrayAllocatorOutOfMemory /\ remaining 512 (ha_heap h) = 0 /\ exhausted h tid /\
             heap_eq h' h /\ mem' = mem
  end.

Lemma append_existing tid item h mem t :
  heap_inv h mem -> kv_get (ha_tls h) tid = Some t ->
  exists r h' mem', append_loop 64 2 tid item t h mem = Ret (r, h', mem') /\
    append_post h mem tid item r h' mem'.
Proof.
  intros Hinv Et. pose proof Hinv as (_ & _ & Ht & _). pose proof (Ht _ _ Et) as Hti.
  pose proof Hti as (Hfree & _ & (Hk & _) & _).
  destruct (decide (0 < remaining 8 (tl_arena t))) as [R|R].
  { destruct (append_loop_room 1 tid item t h mem Hinv Et R) as (i & h' & mem' & E & Ha).
    by exists (Ok i), h', mem'. }
  assert (R0 : remaining 8 (tl_arena t) = 0) by lia.
  assert (Hex : exhausted h tid) by (intros ?; by rewrite Et; intros [= <-]).
  cbn [append_loop]. rewrite (tls_alloc_none h mem t) by done. runm.
  pose proof (put_tls_same h tid t Et) as Heq. set (h0 := put_tls h tid t) in *.
  assert (Hinv0 : heap_inv h0 mem) by (by rewrite Heq).
  destruct (decide (0 < remaining 512 (ha_heap h))) as [Rh|Rh].
  - destruct (append_fresh_arena tid item h0 mem 0 Hinv0) as (arena & h1 & mem1 & -> & Hloop);
      [done|by rewrite Heq|].
    cbv zeta in Hloop. destruct Hloop as (i & h' & mem' & E & Ha). runm.
    unfold update_arena. rewrite Hfree. exists (Ok i), h', mem'. split; [exact E|].
    eapply appended_new_arena; [..|exact Ha]; try done. intros i'. by rewrite Heq.
  - pose proof Hinv as ((Hkh & _) & _). rewrite new_arena_none by (done || (simpl; lia)). runm.
    do 3 eexists. split; [done|]. split_and!; try done. lia.
Qed.
End heap_inv.

(** [append] never panics: either it returns a fresh index below the capacity,
    stores the item there and leaves every allocated object id's word alone, or
    the heap has no arena left and the thread's own is used up, it returns the
    allocator's out-of-memory error, and nothing changes. *)
Lemma append_ok {M} `{KvMapLaws TlsAllocator M} tid item (h : HeapArray M) mem :
  heap_inv h mem ->
  exists r h' mem', append 64 tid item h mem = Ret (r, h', mem') /\
    append_post h mem tid item r h' mem'.
Proof.
  intros Hinv. unfold append, get_tls_allocator.
  destruct (kv_get (ha_tls h) tid) as [t|] eqn:Et; [by apply append_existing|].
  assert (Hex : exhausted h tid) by (intros t; congruence).
  destruct (decide (0 < remaining 512 (ha_heap h))) as [Rh|Rh].
  - destruct (append_fresh_arena tid item h mem 1 Hinv Rh Hex)
      as (arena & h1 & mem1 & -> & i & h' & mem' & E & Ha).
    runm. cbn [ha_tls]. rewrite kv_get_insert_eq. runm. exists (Ok i), h', mem'. by split.
  - pose proof Hinv as ((Hkh & _) & _). rewrite new_arena_none by (done || lia). runm.
    do 3 eexists. split; [done|]. split_and!; try done. lia.
Qed.

(** A heap of two arenas at address 4096. *)
Definition demo_heap : outcome (HeapArray (gmap Z TlsAllocator) * wmem) :=
  HeapArray_new 64 2 4096 ∅.

Lemma HeapArray_new_inv {M} `{KvMapLaws TlsAllocator M} cnt ptr mem :
  0 <= cnt -> cnt * 64 < u32_MAX -> 0 < ptr -> ptr + cnt * 512 < 2 ^ 64 ->
  exists h mem', HeapArray_new 64 cnt ptr mem = Ret (h, mem') /\ heap_inv h mem' /\
    aa_start (ha_heap h) = ptr /\ aa_cap (ha_heap h) = cnt /\ (forall i, ~ allocated h i) /\
    remaining 512 (ha_heap h) = cnt.
Proof.
  intros. unfold HeapArray_new. change (ARENA_SIZE 64) with 512.
  destruct (ArrayAllocator_new_ok 512 OID_SIZE cnt ptr mem)
    as (a & mem' & -> & Hi & R & Hc & Hs & _); [unfold OID_SIZE; lia..|].
  runm. do 2 eexists. split; [done|]. split_and!; try done.
  - split_and!; [done|simpl; lia| |]; simpl; intros *; rewrite kv_get_empty; done.
  - intros i [Hr _]. unfold heap_capacity in Hr. simpl in Hr. rewrite R, Hc in Hr. lia.
Qed.

Example append_first_index :
  (hm ← demo_heap; '(r, _, _) ← append 64 1 7 hm.1 hm.2; Ret r) = Ret (Ok 127).
Proof. vm_compute. reflexivity. Qed.
