(* ===== verification/AllocStack.v ===== *)
(** * The allocator of one owner is a stack of free blocks (src/utils/obj_alloc.rs)

    The operations of one [ArrayAllocator] in sequence: allocations,
    deallocations of blocks that are held, and writes of the owner to the
    blocks it holds.  The abstract state is the list of free blocks, the next
    one to be handed out first, and the list of held ones. *)

From S2P Require Import Prelude Query Schema External ObjAlloc.

(** The free list in memory. *)
Fixpoint chain (mem : wmem) (head : Z) (free : list Z) : Prop :=
  match free with
  | [] => head = 0
  | b :: free => head = b /\ b <> 0 /\ exists next, mem !! b = Some next /\ chain mem next free
  end.

Lemma chain_frame mem head free addr v :
  addr ∉ free -> chain mem head free -> chain (<[addr := v]> mem) head free.
Proof.
  revert head. induction free as [|b free IH]; intros head Ha; [done|].
  apply not_elem_of_cons in Ha as [Hne Ha]. cbn [chain]. intros (-> & Hb & next & Hn & Hc).
  split; [done|]. split; [done|]. exists next. rewrite lookup_insert_ne by done. auto.
Qed.

Section stack.
Variables (sz cap start : Z).
Hypothesis Hsz : 8 <= sz.
Hypothesis Hcap : 0 <= cap.
Hypothesis Hstart : 0 < start.
Hypothesis Hend : start + cap * sz < 2 ^ 64.

(** What a program does with its allocator; a block is named by its place in
    the list of held ones. *)
Inductive alloc_op :=
| OAlloc
| ODealloc (n : nat) (weak : list bool)
| OWrite (n : nat) (off v : Z).

Record owner := mkOwner { ow_alloc : ArrayAllocator; ow_mem : wmem; ow_held : list Z }.

Definition owner_step (op : alloc_op) (o : owner) : outcome owner :=
  match op with
  | OAlloc =>
      '(r, a) ← ArrayAllocator_alloc sz (ow_alloc o) (ow_mem o);
      match r with
      | Ok (_, ptr) => Ret (mkOwner a (ow_mem o) (ptr :: ow_held o))
      | Err _ => Ret (mkOwner a (ow_mem o) (ow_held o))
      end
  | ODealloc n weak =>
      match ow_held o !! n with
      | Some ptr =>
          '(a, mem) ← ArrayAllocator_dealloc weak (ow_alloc o) ptr (ow_mem o);
          Ret (mkOwner a mem (delete n (ow_held o)))
      | None => Ret o
      end
  | OWrite n off v =>
      match ow_held o !! n with
      | Some ptr =>
          _ ← in_bounds ((0 <=? off) && (off <? sz));
          Ret (mkOwner (ow_alloc o) (<[ptr + off := v]> (ow_mem o)) (ow_held o))
      | None => Ret o
      end
  end.

Definition write_in_block (op : alloc_op) : Prop :=
  match op with OWrite _ off _ => 0 <= off < sz | _ => True end.

(** The specification: the free blocks and the held ones. *)
Definition stack_step (op : alloc_op) (s : list Z * list Z) : list Z * list Z :=
  match op, s with
  | OAlloc, ([], held) => ([], held)
  | OAlloc, (b :: free, held) => (free, b :: held)
  | ODealloc n _, (free, held) =>
      match held !! n with Some ptr => (ptr :: free, delete n held) | None => (free, held) end
  | OWrite _ _ _, s => s
  end.

Definition all_blocks : list Z := (fun i => start + Z.of_nat i * sz) <$> seq 0 (Z.to_nat cap).

Definition stack_inv (o : owner) (free : list Z) : Prop :=
  aa_cap (ow_alloc o) = cap /\ aa_start (ow_alloc o) = start /\
  chain (ow_mem o) (aa_list_node (ow_alloc o)) free /\ free ++ ow_held o ≡ₚ all_blocks.

Lemma all_blocks_elem b : b ∈ all_blocks <-> exists i, 0 <= i < cap /\ b = start + i * sz.
Proof.
  unfold all_blocks. rewrite list_elem_of_fmap. split.
  - intros (i & -> & Hi). apply elem_of_seq in Hi. exists (Z.of_nat i). split; [lia|done].
  - intros (i & Hi & ->). exists (Z.to_nat i). rewrite Z2Nat.id by lia. split; [done|].
    apply elem_of_seq. lia.
Qed.

Lemma NoDup_all_blocks : NoDup all_blocks.
Proof. apply NoDup_fmap_2; [|apply NoDup_seq]. intros i j E. nia. Qed.

(** A write inside a held block is a write to no free one. *)
Lemma held_apart o free ptr off :
  stack_inv o free -> ptr ∈ ow_held o -> 0 <= off < sz -> ptr + off ∉ free.
Proof.
  intros (_ & _ & _ & Hp) Hh Hoff Hf. pose proof NoDup_all_blocks as Hn. rewrite <-Hp in Hn.
  apply NoDup_app in Hn as (_ & Hd & _).
  assert (H1 : ptr ∈ all_blocks) by (rewrite <-Hp; apply elem_of_app; by right).
  assert (H2 : ptr + off ∈ all_blocks) by (rewrite <-Hp; apply elem_of_app; by left).
  apply all_blocks_elem in H1 as (i & Hi & Ei), H2 as (j & Hj & Ej).
  assert (j = i) as -> by (destruct (Z.lt_total i j) as [|[|]]; nia). assert (off = 0) as -> by lia. rewrite Z.add_0_r in Hf. by apply (Hd ptr).
Qed.

Lemma stack_new al mem :
  8 <= al -> exists a mem', ArrayAllocator_new sz al cap start mem = Ret (a, mem') /\
    stack_inv (mkOwner a mem' []) (rev all_blocks).
Proof.
  intros Hal. destruct (ArrayAllocator_new_ok sz al cap start mem)
    as (a & mem' & E & (_ & _ & _ & Hn & Hl) & R & Hc & Hs & _); [done..|].
  exists a, mem'. split; [done|]. split; [done|]. split; [done|]. simpl. rewrite R, Hs in *. rewrite Hn.
  split; [|rewrite app_nil_r; symmetry; apply Permutation_rev].
  assert (Hk : forall k, (k <= Z.to_nat cap)%nat ->
    chain mem' (block_link start sz (Z.of_nat k)) (rev ((fun i => start + Z.of_nat i * sz) <$> seq 0 k))).
  { induction k as [|k IH]; intros Hk; [done|].
    rewrite seq_S, fmap_app, rev_app_distr. cbn [fmap list_fmap rev app Nat.add chain].
    split; [unfold block_link; rewrite (proj2 (Z.eqb_neq _ _)) by lia; lia|]. split; [nia|].
    eexists. split; [apply Hl; lia|]. apply IH. lia. }
  unfold all_blocks. specialize (Hk (Z.to_nat cap) (le_n _)). by rewrite Z2Nat.id in Hk by done.
Qed.

(** An allocation takes the first free block and gives its index. *)
Lemma stack_alloc o b free :
  stack_inv o (b :: free) ->
  exists i a, ArrayAllocator_alloc sz (ow_alloc o) (ow_mem o) = Ret (Ok (i, b), a) /\
    0 <= i < cap /\ b = start + i * sz /\ stack_inv (mkOwner a (ow_mem o) (b :: ow_held o)) free.
Proof.
  intros (Hc & Hs & (Hh & Hb & next & Hm & Hch) & Hp).
  assert (Hin : b ∈ all_blocks) by (rewrite <-Hp; by left).
  apply all_blocks_elem in Hin as (i & Hi & Eb). exists i.
  unfold ArrayAllocator_alloc. cbn [alloc_loop]. unfold alloc_attempt, word_read. rewrite Hh.
  rewrite (proj2 (Z.eqb_neq b 0)) by done. rewrite Hm. runm. rewrite Z.eqb_refl. runm.
  rewrite Hs, Eb, Z.add_simpl_l, chk_ok by (unfold fits; nia). runm. rewrite Z.div_mul by lia.
  eexists. split; [done|]. split; [done|]. split; [done|]. split; [done|]. split; [done|]. simpl.
  split; [done|]. rewrite <-Eb, <-Hp. symmetry. apply Permutation_middle.
Qed.

Lemma stack_full o :
  stack_inv o [] ->
  ArrayAllocator_alloc sz (ow_alloc o) (ow_mem o) = Ret (Err ArrayAllocatorOutOfMemory, ow_alloc o).
Proof.
  intros (_ & _ & Hh & _). cbn [chain] in Hh. unfold ArrayAllocator_alloc.
  cbn [alloc_loop]. by rewrite Hh.
Qed.

(** Whatever exchanges fail spuriously, a freed block becomes the next one. *)
Lemma stack_dealloc o free n ptr weak :
  stack_inv o free -> ow_held o !! n = Some ptr ->
  exists a mem, ArrayAllocator_dealloc weak (ow_alloc o) ptr (ow_mem o) = Ret (a, mem) /\
    stack_inv (mkOwner a mem (delete n (ow_held o))) (ptr :: free).
Proof.
  intros Hinv Hn. assert (Hh : ptr ∈ ow_held o) by by apply list_elem_of_lookup_2 in Hn.
  pose proof (held_apart o free ptr 0 Hinv Hh ltac:(lia)) as Hf. rewrite Z.add_0_r in Hf.
  destruct Hinv as (Hc & Hs & Hch & Hp).
  assert (Hp0 : ptr <> 0).
  { assert (Hin : ptr ∈ all_blocks) by (rewrite <-Hp; apply elem_of_app; by right).
    apply all_blocks_elem in Hin as (i & Hi & ->). nia. }
  assert (Hpush : forall mem, chain mem (aa_list_node (ow_alloc o)) free ->
    stack_inv (mkOwner (mkArrayAllocator (aa_cap (ow_alloc o)) (aa_start (ow_alloc o)) ptr)
                 (<[ptr := aa_list_node (ow_alloc o)]> mem) (delete n (ow_held o))) (ptr :: free)).
  { intros mem Hm. split; [done|]. split; [done|]. cbn [ow_mem ow_alloc aa_list_node chain ow_held]. split.
    - split; [done|]. split; [done|]. eexists. split; [apply lookup_insert_eq|]. by apply chain_frame.
    - rewrite <-Hp. cbn [app]. rewrite Permutation_middle. apply Permutation_app_head.
      symmetry. by apply delete_Permutation. }
  unfold ArrayAllocator_dealloc. generalize dependent (ow_mem o).
  induction weak as [|[] weak IH]; intros mem Hch; cbn [dealloc_loop];
    [|by apply IH, chain_frame|]; rewrite Z.eqb_refl; do 2 eexists; (split; [done|]); by apply Hpush.
Qed.

(** A write inside a held block. *)
Lemma stack_write o free ptr off v :
  stack_inv o free -> ptr ∈ ow_held o -> 0 <= off < sz ->
  stack_inv (mkOwner (ow_alloc o) (<[ptr + off := v]> (ow_mem o)) (ow_held o)) free.
Proof.
  intros Hinv Hh Hoff. pose proof (held_apart o free ptr off Hinv Hh Hoff) as Ha.
  destruct Hinv as (? & ? & ? & ?). split; [done|]. split; [done|]. split; [by apply chain_frame|done].
Qed.

Lemma owner_step_ok op o free :
  stack_inv o free -> write_in_block op ->
  exists o', owner_step op o = Ret o' /\
    stack_inv o' (fst (stack_step op (free, ow_held o))) /\
    ow_held o' = snd (stack_step op (free, ow_held o)).
Proof.
  intros Hinv Hw. destruct op as [|n weak|n off v]; cbn [owner_step stack_step].
  - destruct free as [|b free].
    + rewrite (stack_full o) by done. runm. eexists. by split.
    + destruct (stack_alloc o b free Hinv) as (i & a & -> & _ & _ & Hi). runm. eexists. by split.
  - destruct (ow_held o !! n) as [ptr|] eqn:E; [|eexists; by split].
    destruct (stack_dealloc o free n ptr weak Hinv E) as (a & mem & -> & Hi). runm. eexists. by split.
  - destruct (ow_held o !! n) as [ptr|] eqn:E; [|eexists; by split]. cbn [write_in_block] in Hw.
    rewrite (proj2 (Z.leb_le _ _)), (proj2 (Z.ltb_lt _ _)) by lia. runm. eexists. split; [done|].
    split; [|done]. apply stack_write; [done| |done]. by apply list_elem_of_lookup_2 in E.
Qed.

Fixpoint owner_run (ops : list alloc_op) (o : owner) : outcome owner :=
  match ops with
  | [] => Ret o
  | op :: ops =>
      o ← owner_step op o;
      owner_run ops o
  end.

Definition stack_run (ops : list alloc_op) (s : list Z * list Z) : list Z * list Z :=
  foldl (fun s op => stack_step op s) s ops.

Lemma owner_run_ok ops o free :
  stack_inv o free -> Forall write_in_block ops ->
  exists o', owner_run ops o = Ret o' /\
    stack_inv o' (fst (stack_run ops (free, ow_held o))) /\
    ow_held o' = snd (stack_run ops (free, ow_held o)).
Proof.
  intros Hinv Hw. revert o free Hinv. induction Hw as [|op ops Hop _ IH]; intros o free Hinv.
  { exists o. by split. }
  destruct (owner_step_ok op o free Hinv Hop) as (o1 & E & Hi1 & Hh1). cbn [owner_run]. rewrite E. runm.
  destruct (IH o1 _ Hi1) as (o' & -> & Hi' & Hh'). exists o'. split; [done|].
  unfold stack_run in *. cbn [foldl]. rewrite Hh1 in Hi', Hh'. by rewrite <-surjective_pairing in Hi', Hh'.
Qed.
End stack.

(** C11: A new allocator answers every sequence of allocations, deallocations of
    held blocks and writes inside held blocks as a stack of its blocks would:
    the last block freed is the first reused, an allocation fails only when all
    blocks are held, a write to a held block harms no free one, and no block is
    ever lost or held twice. *)
Theorem allocator_refines_stack sz al cap start mem ops :
  8 <= sz -> 8 <= al -> 0 <= cap -> 0 < start -> start + cap * sz < 2 ^ 64 ->
  Forall (write_in_block sz) ops ->
  exists a mem' o, ArrayAllocator_new sz al cap start mem = Ret (a, mem') /\
    owner_run sz ops (mkOwner a mem' []) = Ret o /\
    let '(free, held) := stack_run ops (rev (all_blocks sz cap start), []) in
    ow_held o = held /\ free ++ held ≡ₚ all_blocks sz cap start /\ NoDup (free ++ held) /\
    (free = [] <-> ArrayAllocator_alloc sz (ow_alloc o) (ow_mem o)
                   = Ret (Err ArrayAllocatorOutOfMemory, ow_alloc o)).
Proof.
  intros Hsz Hal Hcap Hst Hend Hw.
  destruct (stack_new sz cap start Hsz Hcap Hst Hend al mem Hal) as (a & mem' & -> & Hinv).
  destruct (owner_run_ok sz cap start Hsz Hcap Hst Hend ops (mkOwner a mem' []) _ Hinv Hw)
    as (o & Er & Hi & Hh).
  exists a, mem', o. split; [done|]. split; [done|].
  cbn [ow_held] in Hi, Hh. destruct (stack_run ops _) as [free held]. simpl in Hi, Hh. subst held.
  split; [done|]. split; [apply Hi|]. split.
  - destruct Hi as (_ & _ & _ & ->). by apply NoDup_all_blocks.
  - split; [intros ->; by eapply stack_full|]. intros E. destruct free as [|b free]; [done|].
    destruct (stack_alloc sz cap start Hsz Hcap Hst Hend o b free Hi) as (i & a' & E' & _). congruence.
Qed.

(** Two blocks: both are taken, a third allocation fails, the second block is
    freed through a spurious failure and handed out again. *)
Lemma allocator_refines_stack_witness :
  exists a mem' o, ArrayAllocator_new 8 8 2 64 ∅ = Ret (a, mem') /\
    owner_run 8 [OAlloc; OAlloc; OAlloc; OWrite 0 0 7; ODealloc 1 [true]; OAlloc]
      (mkOwner a mem' []) = Ret o /\ ow_held o = [72; 64].
Proof.
  destruct (allocator_refines_stack 8 8 2 64 ∅
              [OAlloc; OAlloc; OAlloc; OWrite 0 0 7; ODealloc 1 [true]; OAlloc])
    as (a & mem' & o & E & Er & Hh & _).
  - lia.
  - lia.
  - lia.
  - lia.
  - reflexivity.
  - repeat constructor; simpl; lia.
  - exists a, mem', o. split; [exact E|]. split; [exact Er|exact Hh].
Defined.
