(* ===== verification/OidArray.v ===== *)
(** * The object-id array and the tuple storage

    src/storage/oid_array.rs and src/storage/table_storage.rs: record [rid] has
    its locked object id in word [rid] of the array and its tuple in slot [rid]
    of the storage. *)

From S2P Require Import Prelude Query Schema External Oid ObjAlloc.

(** [n] zeroed words from address [ptr], over [mem]. *)
Fixpoint zero_words (n : nat) (ptr : Z) (mem : wmem) : wmem :=
  match n with
  | O => mem
  | S n => <[ptr := 0]> (zero_words n (ptr + 8) mem)
  end.

Section oid_array.
Context {M : Type} `{KvMap TlsAllocator M}.

(** The memory of the array is part of the state. *)
Record OidArray := mkOidArray { oa_heap : HeapArray M; oa_mem : wmem }.

(** [ptr] is the block [alloc_zeroed] returns. *)
Definition OidArray_new (cap ptr : Z) : outcome OidArray :=
  size ← chk 64 (cap * OID_SIZE);
  size ← chk 64 (size + ARENA_SIZE 64 * 128);
  size ← align_up size (ARENA_SIZE 64);
  _ ← layout_ok size 8;
  let mem := zero_words (Z.to_nat (size / 8)) ptr ∅ in
  '(heap, mem) ← HeapArray_new 64 (size / ARENA_SIZE 64) ptr mem;
  Ret (mkOidArray heap mem).

Definition OidArray_capacity (a : OidArray) : outcome Z := HeapArray_capacity 64 (oa_heap a).

Definition OidArray_reset (a : OidArray) : outcome OidArray :=
  let ptr := aa_start (ha_heap (oa_heap a)) in
  cap ← OidArray_capacity a;
  size ← chk 64 (cap * OID_SIZE);
  let mem := zero_words (Z.to_nat (size / 8)) ptr (oa_mem a) in
  '(heap, mem) ← HeapArray_new 64 (size / ARENA_SIZE 64) ptr mem;
  Ret (mkOidArray heap mem).

(** [get_sync], and [get] once its prefetch has completed: a reference to the
    word of [rid]. *)
Definition get_sync (a : OidArray) (rid : Rid) : outcome Z := index_to_ptr 64 (oa_heap a) rid.

(** Loading and storing the word behind such a reference. *)
Definition oid_load (a : OidArray) (rid : Rid) : outcome Z :=
  p ← get_sync a rid;
  word_read (oa_mem a) p.

Definition oid_store (a : OidArray) (rid : Rid) (w : Z) : outcome OidArray :=
  p ← get_sync a rid;
  Ret (mkOidArray (oa_heap a) (<[p := w]> (oa_mem a))).

(** [oid.write()] on a word no other thread uses; [weak] lists the spurious
    failures of its exchanges. *)
Definition write_alone (weak : list bool) (w : Z) : outcome Z :=
  match oid_write ((w, false) :: ((fun b => (w, b)) <$> weak)) with
  | Some w' => Ret w'
  | None => Spin
  end.

Definition alloc_rid (tid : Z) (weak : list bool) (a : OidArray) : outcome (Rid * OidArray) :=
  r0 ← Rid_from_u32 0;
  let oid := LockedOid_from_rid r0 in
  '(r, heap, mem) ← append 64 tid oid (oa_heap a) (oa_mem a);
  idx ← unwrap_ok r;
  rid ← Rid_from_u32 idx;
  let a := mkOidArray heap mem in
  w ← oid_load a rid;
  w ← write_alone weak w;
  a ← oid_store a rid (store_rid w rid);
  Ret (rid, a).
End oid_array.
Arguments OidArray M : clear implicits.

(** ** [Storage<T>]: [cap] tuples in a mapped file

    [init] is what the mapping holds at first. *)
Record Storage := mkStorage { sg_cap : Z; sg_heap : list obj }.

Definition Storage_new (tuple_size : nat) (cap : Z) (init : list obj) : outcome Storage :=
  _ ← chk 64 (cap * Z.of_nat tuple_size);
  Ret (mkStorage cap init).

Definition Storage_get (st : Storage) (rid : Rid) : outcome obj :=
  _ ← rassert (rid <? sg_cap st);
  match sg_heap st !! Z.to_nat rid with Some t => Ret t | None => Undef end.

(** [*get_mut(rid) = val]; [insert] writes through the same reference. *)
Definition Storage_get_mut (st : Storage) (rid : Rid) (val : obj) : outcome Storage :=
  _ ← rassert (rid <? sg_cap st);
  match sg_heap st !! Z.to_nat rid with
  | Some _ => Ret (mkStorage (sg_cap st) (<[Z.to_nat rid := val]> (sg_heap st)))
  | None => Undef
  end.

Definition Storage_insert (st : Storage) (rid : Rid) (val : obj) : outcome Storage :=
  Storage_get_mut st rid val.

(** ** Properties of the array *)
Section oid_inv.
Context {M : Type} `{KvMapLaws TlsAllocator M}.
Implicit Type a : OidArray M.

Definition oa_alloc a (rid : Rid) : Prop := allocated (oa_heap a) rid.

Definition oid_word a (rid : Rid) : option Z := oa_mem a !! oid_addr (oa_heap a) rid.

Definition oa_inv a : Prop :=
  heap_inv (oa_heap a) (oa_mem a) /\ forall rid, oa_alloc a rid -> is_Some (oid_word a rid).

Definition oa_cap a : Z := heap_capacity (oa_heap a).

Lemma allocated_range a rid : oa_inv a -> oa_alloc a rid -> 0 <= rid < oa_cap a /\ Rid_ok rid.
Proof.
  intros [Hi _] [Hr _]. pose proof (heap_inv_bounds _ _ Hi). destruct Hi as ((Hk & _) & _).
  unfold Rid_ok, oa_cap. lia.
Qed.

Lemma get_sync_ok a rid :
  oa_inv a -> 0 <= rid < oa_cap a -> get_sync a rid = Ret (oid_addr (oa_heap a) rid).
Proof. intros [Hi _] Hr. by eapply index_to_ptr_ok. Qed.

Lemma oid_load_ok a rid w :
  oa_inv a -> oa_alloc a rid -> oid_word a rid = Some w -> oid_load a rid = Ret w.
Proof.
  intros Hi Ha Hw. destruct (allocated_range a rid Hi Ha) as [Hr _].
  unfold oid_load. rewrite get_sync_ok by done. runm. unfold word_read.
  unfold oid_word in Hw. by rewrite Hw.
Qed.

(** Storing a word. *)
Lemma oid_store_ok a rid w :
  oa_inv a -> oa_alloc a rid ->
  exists a', oid_store a rid w = Ret a' /\ oa_inv a' /\ oa_heap a' = oa_heap a /\
    oid_word a' rid = Some w /\
    forall rid', rid' <> rid -> oid_word a' rid' = oid_word a rid'.
Proof.
  intros Hi Ha. destruct (allocated_range a rid Hi Ha) as [Hr _].
  unfold oid_store. rewrite get_sync_ok by done. runm. eexists. split; [done|].
  assert (Hne : forall rid', rid' <> rid ->
    <[oid_addr (oa_heap a) rid := w]> (oa_mem a) !! oid_addr (oa_heap a) rid'
    = oa_mem a !! oid_addr (oa_heap a) rid').
  { intros. apply lookup_insert_ne. unfold oid_addr. lia. }
  split_and!; [|done|apply lookup_insert_eq|done]. split; simpl.
  - apply heap_inv_write; [apply Hi|done].
  - intros rid' Ha'. unfold oid_word. simpl. destruct (decide (rid' = rid)) as [->|].
    + rewrite lookup_insert_eq. eauto.
    + rewrite Hne by done. by apply Hi.
Qed.

Lemma write_alone_ok weak v :
  view_wf v -> lk v = 0 ->
  write_alone (replicate weak true ++ [false]) (encode v) = Ret (encode (set_lk v 128)).
Proof.
  intros Hv Hl. unfold write_alone, oid_write.
  induction weak as [|n IH].
  - cbn [replicate app fmap list_fmap]. by rewrite write_loop_free.
  - cbn [replicate app fmap list_fmap write_loop].
    rewrite encode_lock, Hl by done. simpl. by rewrite cas_weak_same.
Qed.

(** The array after [alloc_rid] returned [rid]. *)
Definition rid_allocated a (rid : Rid) a' : Prop :=
  oa_inv a' /\ Rid_ok rid /\ 0 <= rid < oa_cap a /\ ~ oa_alloc a rid /\
  (forall r, oa_alloc a' r <-> r = rid \/ oa_alloc a r) /\
  aa_start (ha_heap (oa_heap a')) = aa_start (ha_heap (oa_heap a)) /\ oa_cap a' = oa_cap a /\
  oid_word a' rid = Some (encode (mkView 128 false rid)) /\
  (forall r, oa_alloc a r -> oid_word a' r = oid_word a r).

(** No arena is left for [tid]. *)
Definition out_of_rids a tid : Prop :=
  remaining 512 (ha_heap (oa_heap a)) = 0 /\ exhausted (oa_heap a) tid.

Lemma alloc_rid_ok tid n a :
  oa_inv a ->
  (exists rid a', alloc_rid tid (replicate n true ++ [false]) a = Ret (rid, a') /\
     rid_allocated a rid a') \/
  (alloc_rid tid (replicate n true ++ [false]) a = Panic /\ out_of_rids a tid).
Proof.
  intros [Hi Hw]. unfold alloc_rid. rewrite Rid_from_u32_ok by (unfold Rid_ok; lia). runm.
  change (LockedOid_from_rid 0) with (encode (mkView 0 false 0)).
  destruct (append_ok tid (encode (mkView 0 false 0)) _ _ Hi) as (r & h' & mem' & -> & Hp). runm.
  destruct r as [rid|e]; [left|right; destruct Hp as (_ & ? & ? & _); by split].
  destruct Hp as (Hi' & Hr & Hna & Hal & Hs & Hc & Hword & Hold).
  pose proof (heap_inv_bounds _ _ Hi) as Hb. runm.
  assert (HR : Rid_ok rid) by (unfold Rid_ok; lia).
  rewrite Rid_from_u32_ok by done. runm. set (a1 := mkOidArray h' mem').
  assert (Eaddr : forall r, oid_addr h' r = oid_addr (oa_heap a) r) by (intros; unfold oid_addr; by rewrite Hs).
  assert (W1 : oid_word a1 rid = Some (encode (mkView 0 false 0))).
  { unfold oid_word. simpl. by rewrite Eaddr. }
  assert (Hold1 : forall r, oa_alloc a r -> oid_word a1 r = oid_word a r).
  { intros r Ha. unfold oid_word. simpl. rewrite Eaddr. by apply Hold. }
  assert (Hi1 : oa_inv a1).
  { split; [done|]. intros r [->|Ha]%Hal; [by rewrite W1|]. rewrite Hold1 by done. auto. }
  assert (Ha1 : oa_alloc a1 rid) by (apply Hal; by left).
  rewrite (oid_load_ok _ _ _ Hi1 Ha1 W1). runm.
  rewrite write_alone_ok by (done || (split; simpl; lia)). runm.
  rewrite store_rid_view by (simpl; (split; simpl; lia) || (unfold Rid_ok in HR; lia)). simpl.
  destruct (oid_store_ok a1 rid (encode (mkView 128 false rid)) Hi1 Ha1)
    as (a2 & -> & Hi2 & Hh2 & Hw2 & Hf2). runm.
  do 2 eexists. split; [done|]. unfold rid_allocated, oa_alloc, oa_cap, heap_capacity in *.
  rewrite Hh2. simpl. split_and!; try done; try lia.
  intros r Ha. rewrite Hf2 by (intros ->; done). by apply Hold1.
Qed.
End oid_inv.

(** C21: [alloc_rid] returns a record id nobody has, below the capacity, with its
    word write-locked and tagged as a record id that names itself; the words of
    all other records are untouched.  The only alternative is the documented
    panic when the array has no arena left and the thread's own is used up. *)
Theorem alloc_rid_fresh {M} `{KvMapLaws TlsAllocator M} tid n (a : OidArray M) :
  oa_inv a ->
  (exists rid a', alloc_rid tid (replicate n true ++ [false]) a = Ret (rid, a') /\
     rid_allocated a rid a') \/
  (alloc_rid tid (replicate n true ++ [false]) a = Panic /\ out_of_rids a tid).
Proof. apply alloc_rid_ok. Qed.

(** A new array has room for [cap] records at least (every thread may waste
    part of an arena, so there is slack for 128 of them) and holds none. *)
Lemma OidArray_new_ok {M} `{KvMapLaws TlsAllocator M} cap ptr :
  0 <= cap -> cap + 128 * 64 + 64 < u32_MAX -> 0 < ptr < 2 ^ 63 ->
  exists a : OidArray M, OidArray_new cap ptr = Ret a /\ oa_inv a /\
    cap + 128 * 64 <= oa_cap a < cap + 129 * 64 /\
    OidArray_capacity a = Ret (oa_cap a) /\ (forall rid, ~ oa_alloc a rid) /\
    (forall tid, ~ out_of_rids a tid).
Proof.
  intros Hc Hb Hp. unfold OidArray_new, layout_ok. change (ARENA_SIZE 64) with 512. change OID_SIZE with 8.
  rewrite chk_ok by (unfold fits; lia). runm. rewrite chk_ok by (unfold fits; lia). runm.
  destruct (align_up_ok (cap * 8 + 512 * 128) 9) as (size & E & Hs & Hm); [lia..|].
  change (2 ^ 9) with 512 in E, Hs, Hm. rewrite E. runm.
  rewrite (proj2 (Z.leb_le _ _)) by lia. runm.
  assert (Hsz : size = size / 512 * 512) by (Z.div_mod_to_equations; lia).
  destruct (HeapArray_new_inv (M := M) (size / 512) ptr
              (zero_words (Z.to_nat (size / 8)) ptr ∅)) as (h & mem & -> & Hi & Hst & Hcap & Hna & Hrem);
    [lia..|]. runm.
  eexists. split; [done|].
  assert (Eh : oa_cap (mkOidArray h mem) = size / 512 * 64).
  { unfold oa_cap, heap_capacity. simpl. by rewrite Hcap. }
  split; [split; [exact Hi|]|rewrite Eh; split; [lia|split]].
  - intros rid Ha. by apply Hna in Ha.
  - unfold OidArray_capacity, HeapArray_capacity. simpl. rewrite Hcap, chk_ok; [done|].
    unfold fits. lia.
  - split; [done|]. intros tid [Hr _]. simpl in Hr. lia.
Qed.

(** ** Properties of the storage *)
Lemma Storage_get_ok st rid t :
  0 <= rid < sg_cap st -> sg_heap st !! Z.to_nat rid = Some t -> Storage_get st rid = Ret t.
Proof.
  intros Hr Ht. unfold Storage_get. rewrite (proj2 (Z.ltb_lt _ _)) by lia. runm. by rewrite Ht.
Qed.

Lemma Storage_insert_ok st rid t val :
  0 <= rid < sg_cap st -> sg_heap st !! Z.to_nat rid = Some t ->
  Storage_insert st rid val = Ret (mkStorage (sg_cap st) (<[Z.to_nat rid := val]> (sg_heap st))).
Proof.
  intros Hr Ht. unfold Storage_insert, Storage_get_mut.
  rewrite (proj2 (Z.ltb_lt _ _)) by lia. runm. by rewrite Ht.
Qed.

Lemma alloc_rid_fresh_witness :
  exists a : OidArray (gmap Z TlsAllocator), OidArray_new 10 4096 = Ret a /\
    ((exists rid a', alloc_rid 1 [true; false] a = Ret (rid, a') /\ rid_allocated a rid a') \/
     (alloc_rid 1 [true; false] a = Panic /\ out_of_rids a 1)).
Proof.
  destruct (OidArray_new_ok (M := gmap Z TlsAllocator) 10 4096) as (a & E & Hi & _); [lia..|].
  exists a. split; [exact E|]. exact (alloc_rid_fresh 1 1 a Hi).
Defined.
