(* ===== verification/CacheInner.v ===== *)
(** * The clock cache's slots (src/attribute_cache/clock_cache/cache_inner.rs)

    An array of nodes swept by a per-thread clock hand.  A probe looks at most
    at [probe_len] slots for one it may take: an empty slot, or an occupied one
    whose reference bit is clear and whose record it can write-lock. *)

From Stdlib Require Import QArith.
From S2P Require Import Prelude Query Schema External NodeMeta Oid ObjAlloc OidArray.
Open Scope Z_scope.

(** ** [ClockNode<T>] *)
Record ClockNode := mkNode { cn_rid : Z; cn_meta : Z; cn_val : obj }.

Definition ClockNode_new (val : obj) (rid : Rid) : ClockNode := mkNode rid NodeMeta_new val.

Definition ClockNode_rid (n : ClockNode) : outcome Rid :=
  _ ← rassert (negb (cn_rid n =? u32_MAX));
  Rid_from_u32 (cn_rid n).

(** [u] is the draw of [gen_bool]. *)
Definition ClockNode_set_ref (prob u : Q) (n : ClockNode) : outcome ClockNode :=
  b ← gen_bool prob u;
  Ret (if (b : bool) then mkNode (cn_rid n) (meta_set_ref (cn_meta n)) (cn_val n) else n).

Definition try_clear_ref (n : ClockNode) : bool * ClockNode :=
  let '(was, meta) := clear_if_set (cn_meta n) in
  (was, mkNode (cn_rid n) meta (cn_val n)).

Section inner.
Context {T M : Type} `{KvMap Z T} `{KvMap TlsAllocator M}.

(** [ci_tls] is the clock hand of each thread. *)
Record CacheInner := mkInner {
  ci_capacity : Z;
  ci_probe_len : Z;
  ci_probe_rng : Q;
  ci_tls : T;
  ci_entries : list ClockNode;
}.

Definition set_entries (ci : CacheInner) (es : list ClockNode) : CacheInner :=
  mkInner (ci_capacity ci) (ci_probe_len ci) (ci_probe_rng ci) (ci_tls ci) es.

Definition set_tls (ci : CacheInner) (t : T) : CacheInner :=
  mkInner (ci_capacity ci) (ci_probe_len ci) (ci_probe_rng ci) t (ci_entries ci).

(** The loop that marks the first [n] entries empty. *)
Fixpoint clear_rids (n : nat) (es : list ClockNode) : list ClockNode :=
  match n, es with
  | S n, e :: es => mkNode u32_MAX (cn_meta e) (cn_val e) :: clear_rids n es
  | _, _ => es
  end.

(** [node_size] is [size_of::<ClockNode<F>>()], [field_size] that of [F];
    the entries start zeroed. *)
Definition CacheInner_new_cap (node_size : Z) (field_size : nat)
    (cache_cnt probe_len : Z) (probe_rng : Q) : outcome CacheInner :=
  _ ← rassert (cache_cnt >? 0);
  entries_size ← chk 64 (cache_cnt * node_size);
  _ ← layout_ok entries_size 8;
  let zeroed := replicate (Z.to_nat cache_cnt) (mkNode 0 0 (replicate field_size 0)) in
  Ret (mkInner (wrap 32 cache_cnt) (wrap 32 probe_len) probe_rng kv_empty
         (clear_rids (Z.to_nat cache_cnt) zeroed)).

Definition CacheInner_new (node_size : Z) (field_size : nat)
    (cache_size : Z) (probe_rng : Q) (probe_len : Z) : outcome CacheInner :=
  let cap := cache_size / node_size in
  CacheInner_new_cap node_size field_size cap probe_len probe_rng.

Definition CacheInner_reset (ci : CacheInner) : CacheInner :=
  set_entries ci (clear_rids (Z.to_nat (ci_capacity ci)) (ci_entries ci)).

(** [rng_idx] is what [gen_range(0..capacity)] draws; an empty range panics. *)
Definition CacheInner_thread_init (tid rng_idx : Z) (ci : CacheInner) : outcome CacheInner :=
  match kv_get (ci_tls ci) tid with
  | Some _ => Ret ci
  | None =>
      _ ← rassert (0 <? ci_capacity ci);
      Ret (set_tls ci (kv_insert (ci_tls ci) tid rng_idx))
  end.

Definition get_index (tid : Z) (ci : CacheInner) : Z * CacheInner :=
  match kv_get (ci_tls ci) tid with
  | Some i => (i, ci)
  | None => (0, set_tls ci (kv_insert (ci_tls ci) tid 0))
  end.

Definition advance_index (tid : Z) (ci : CacheInner) : outcome (Z * CacheInner) :=
  let '(i, ci) := get_index tid ci in
  i ← chk 64 (i + 1);
  _ ← rassert (negb (ci_capacity ci =? 0));
  let idx := i mod ci_capacity ci in
  _ ← unwrap (kv_get (ci_tls ci) tid);
  Ret (idx, set_tls ci (kv_insert (ci_tls ci) tid (wrap 32 idx))).

(** [entries.add(index)], unchecked. *)
Definition get_entry (ci : CacheInner) (idx : Z) : outcome ClockNode :=
  match ci_entries ci !! Z.to_nat idx with Some n => Ret n | None => Undef end.

Definition put_entry (ci : CacheInner) (idx : Z) (n : ClockNode) : CacheInner :=
  set_entries ci (<[Z.to_nat idx := n]> (ci_entries ci)).

(** What a probe returns: the slot taken, and the node evicted from it with
    the write guard on its record. *)
Abbreviation probed := (option (Z * option (ClockNode * Rid))) (only parsing).

(** Loading, transforming and storing the word of a record under its guard. *)
Definition oid_update (oa : OidArray M) (rid : Rid) (f : Z -> outcome Z) : outcome (OidArray M) :=
  w ← oid_load oa rid;
  w ← f w;
  oid_store oa rid w.

(** One round of the probe loop for the record [oid] whose write guard the
    caller holds.  [weak] holds the spurious failures of the round's
    exchanges: on the slot's rid, and of the [try_write]. *)
Definition probe_round (tid : Z) (new_node : ClockNode) (rid oid : Rid) (weak : bool * bool)
    (ci : CacheInner) (oa : OidArray M) : outcome (probed * CacheInner * OidArray M) :=
  '(cur_index, ci) ← advance_index tid ci;
  cur_entry ← get_entry ci cur_index;
  let cur_rid := cn_rid cur_entry in
  if cur_rid =? u32_MAX then
    match cas_weak (cn_rid cur_entry) cur_rid rid weak.1 with
    | (Ok _, _) =>
        let ci := put_entry ci cur_index new_node in
        oa ← oid_update oa oid (fun w => Ret (store_index w cur_index));
        Ret (Some (cur_index, None), ci, oa)
    | (Err _, _) => Ret (None, ci, oa)
    end
  else
    let '(was, cur_entry) := try_clear_ref cur_entry in
    let ci := put_entry ci cur_index cur_entry in
    if was then Ret (None, ci, oa)
    else
      cur_rid ← Rid_from_u32 cur_rid;
      w ← oid_load oa cur_rid;
      match try_write w weak.2 with
      | (Err _, _) => Ret (None, ci, oa)
      | (Ok _, w) =>
          oa ← oid_store oa cur_rid w;
          match cas_weak (cn_rid cur_entry) cur_rid cur_rid weak.1 with
          | (Err _, _) =>
              oa ← oid_update oa cur_rid OidWriteGuard_drop;
              Ret (None, ci, oa)
          | (Ok _, _) =>
              entry_rid ← ClockNode_rid cur_entry;
              oa ← oid_update oa cur_rid (fun w => Ret (store_rid w entry_rid));
              let old := cur_entry in
              let ci := put_entry ci cur_index new_node in
              oa ← oid_update oa oid (fun w => Ret (store_index w cur_index));
              Ret (Some (cur_index, Some (old, cur_rid)), ci, oa)
          end
      end.

(** [for p in 0..self.probe_len]. *)
Fixpoint probe_loop (n : nat) (p : nat) (tid : Z) (new_node : ClockNode) (rid oid : Rid)
    (weak : nat -> bool * bool) (ci : CacheInner) (oa : OidArray M)
    : outcome (probed * CacheInner * OidArray M) :=
  match n with
  | O => Ret (None, ci, oa)
  | S n =>
      '(r, ci, oa) ← probe_round tid new_node rid oid (weak p) ci oa;
      match r with
      | Some r => Ret (Some r, ci, oa)
      | None => probe_loop n (S p) tid new_node rid oid weak ci oa
      end
  end.

Definition probe_and_replace_rng (tid : Z) (new_node : ClockNode) (rid oid : Rid)
    (probability u : Q) (weak : nat -> bool * bool) (ci : CacheInner) (oa : OidArray M)
    : outcome (probed * CacheInner * OidArray M) :=
  b ← gen_bool probability u;
  if negb b then Ret (None, ci, oa)
  else probe_loop (Z.to_nat (ci_probe_len ci)) 0 tid new_node rid oid weak ci oa.

Definition CacheInner_insert (tid : Z) (lock : Rid) (val : obj) (u : Q)
    (weak : nat -> bool * bool) (ci : CacheInner) (oa : OidArray M)
    : outcome (option (ClockNode * Rid) * CacheInner * OidArray M) :=
  w ← oid_load oa lock;
  _ ← rassert (is_rid w);
  rid ← to_rid w;
  let clock_node := ClockNode_new val rid in
  '(r, ci, oa) ← probe_and_replace_rng tid clock_node rid lock 1 u weak ci oa;
  Ret (match r with Some (_, evicted) => evicted | None => None end, ci, oa).

(** [read] through a guard on [oid]: the slot of the cached value, or the
    record id. *)
Definition CacheInner_read (oid : Rid) (u : Q) (ci : CacheInner) (oa : OidArray M)
    : outcome (result Z Rid * CacheInner) :=
  w ← oid_load oa oid;
  if is_cached w then
    i ← to_cache_index w;
    entry ← get_entry ci i;
    entry ← ClockNode_set_ref (ci_probe_rng ci) u entry;
    Ret (Ok i, put_entry ci i entry)
  else
    _ ← rassert (is_rid w);
    rid ← to_rid w;
    Ret (Err rid, ci).
End inner.
Arguments CacheInner T : clear implicits.

(** ** Invariants *)
Section inner_inv.
Context {T M : Type} `{KvMapLaws Z T} `{KvMapLaws TlsAllocator M}.
Implicit Types (ci : CacheInner T) (oa : OidArray M).

(** The word of a record, through the abstract lock-and-id view. *)
Definition has_view oa (r : Rid) (v : oid_view) : Prop :=
  oid_word oa r = Some (encode v) /\ view_wf v.

(** [oa'] is [oa] with the word of [r] set to [v]. *)
Definition word_set oa oa' (r : Rid) (v : oid_view) : Prop :=
  oa_inv oa' /\ oa_heap oa' = oa_heap oa /\ has_view oa' r v /\
  forall r', r' <> r -> oid_word oa' r' = oid_word oa r'.

Lemma oid_store_view oa r v :
  oa_inv oa -> oa_alloc oa r -> view_wf v ->
  exists oa', oid_store oa r (encode v) = Ret oa' /\ word_set oa oa' r v.
Proof.
  intros Hi Ha Hv. destruct (oid_store_ok oa r (encode v) Hi Ha) as (oa' & E & ? & ? & ? & ?).
  exists oa'. split; [done|]. split; [done|]. by split_and!.
Qed.

Lemma oid_load_view oa r v :
  oa_inv oa -> oa_alloc oa r -> has_view oa r v -> oid_load oa r = Ret (encode v).
Proof. intros ? ? [? _]. by apply oid_load_ok. Qed.

Lemma oid_update_view oa r v v' f :
  oa_inv oa -> oa_alloc oa r -> has_view oa r v -> f (encode v) = Ret (encode v') -> view_wf v' ->
  exists oa', oid_update oa r f = Ret oa' /\ word_set oa oa' r v'.
Proof.
  intros Hi Ha Hv Hf Hv'. unfold oid_update. rewrite (oid_load_view _ _ _ Hi Ha Hv). runm.
  rewrite Hf. runm. by apply oid_store_view.
Qed.

Lemma word_set_alloc oa oa' r v r' : word_set oa oa' r v -> oa_alloc oa' r' <-> oa_alloc oa r'.
Proof. intros (_ & E & _). unfold oa_alloc. by rewrite E. Qed.

Lemma word_set_other oa oa' r v r' v' :
  word_set oa oa' r v -> r' <> r -> has_view oa r' v' -> has_view oa' r' v'.
Proof. intros (_ & _ & _ & Ho) Hne [Hw Hv]. split; [|done]. by rewrite Ho. Qed.

Definition ci_inv ci : Prop :=
  ci_capacity ci = Z.of_nat (length (ci_entries ci)) /\ 0 < ci_capacity ci < 2 ^ 32 /\
  (forall tid i, kv_get (ci_tls ci) tid = Some i -> 0 <= i < ci_capacity ci) /\
  Forall (fun n => fits 32 (cn_meta n)) (ci_entries ci) /\ prob_ok (ci_probe_rng ci).

(** The parameters a run never changes. *)
Definition same_params ci ci' : Prop :=
  ci_capacity ci' = ci_capacity ci /\ ci_probe_len ci' = ci_probe_len ci /\
  ci_probe_rng ci' = ci_probe_rng ci.

(** Nodes up to their metadata word. *)
Definition node_sim (n n' : ClockNode) : Prop := cn_rid n = cn_rid n' /\ cn_val n = cn_val n'.

#[export] Instance node_sim_equiv : Equivalence node_sim.
Proof.
  split.
  - done.
  - intros ?? [? ?]. by split.
  - intros ??? [? ?] [? ?]. split; congruence.
Qed.

Definition entries_sim : relation (list ClockNode) := Forall2 node_sim.

#[export] Instance entries_sim_equiv : Equivalence entries_sim.
Proof. unfold entries_sim. apply _. Qed.

Lemma entries_sim_lookup es es' i n :
  entries_sim es es' -> es !! i = Some n -> exists n', es' !! i = Some n' /\ node_sim n n'.
Proof. intros. by eapply Forall2_lookup_l. Qed.

Lemma entries_sim_lookup_r es es' i n' :
  entries_sim es es' -> es' !! i = Some n' -> exists n, es !! i = Some n /\ node_sim n n'.
Proof. intros. by eapply Forall2_lookup_r. Qed.

Lemma entries_sim_insert es es' i n :
  entries_sim es es' -> entries_sim (<[i := n]> es) (<[i := n]> es').
Proof. intros. by apply Forall2_insert. Qed.

Lemma entries_sim_meta es i n n' :
  es !! i = Some n -> node_sim n n' -> entries_sim es (<[i := n']> es).
Proof.
  intros Hn Hs. rewrite <-(list_insert_id es i n) at 1 by done. by apply Forall2_insert.
Qed.

Lemma entries_sim_length es es' : entries_sim es es' -> length es = length es'.
Proof. apply Forall2_length. Qed.

Lemma ci_inv_put ci i n :
  ci_inv ci -> fits 32 (cn_meta n) -> ci_inv (put_entry ci i n).
Proof.
  intros (I1 & I2 & I3 & I4 & I5) Hn. split_and!; simpl; try done; try lia.
  - by rewrite length_insert.
  - by apply Forall_insert.
Qed.

Lemma get_entry_ok ci i :
  ci_inv ci -> 0 <= i < ci_capacity ci ->
  exists n, ci_entries ci !! Z.to_nat i = Some n /\ get_entry ci i = Ret n /\ fits 32 (cn_meta n).
Proof.
  intros (I1 & I2 & _ & I4 & _) Hi.
  destruct (lookup_lt_is_Some_2 (ci_entries ci) (Z.to_nat i)) as [n Hn]; [lia|].
  exists n. unfold get_entry. rewrite Hn. split_and!; [done..| |]; by eapply Forall_lookup_1 in I4.
Qed.

Lemma advance_index_ok tid ci :
  ci_inv ci ->
  exists idx ci', advance_index tid ci = Ret (idx, ci') /\ ci_inv ci' /\
    0 <= idx < ci_capacity ci /\ ci_entries ci' = ci_entries ci /\ same_params ci ci'.
Proof.
  intros (I1 & I2 & I3 & I4 & I5). unfold advance_index, get_index.
  assert (Hgen : forall t i, 0 <= i < ci_capacity ci -> is_Some (kv_get t tid) ->
    (forall tid' j, kv_get t tid' = Some j -> 0 <= j < ci_capacity ci) ->
    exists idx ci', (i0 ← chk 64 (i + 1);
      _ ← rassert (negb (ci_capacity ci =? 0));
      _ ← unwrap (kv_get t tid);
      Ret (i0 mod ci_capacity ci,
           set_tls (set_tls ci t) (kv_insert t tid (wrap 32 (i0 mod ci_capacity ci)))))
      = Ret (idx, ci') /\ ci_inv ci' /\
    0 <= idx < ci_capacity ci /\ ci_entries ci' = ci_entries ci /\ same_params ci ci').
  { intros t i Hi [x Hx] Ht. rewrite chk_ok by (unfold fits; lia). runm.
    rewrite (proj2 (Z.eqb_neq _ _)) by lia. runm. rewrite Hx. runm.
    pose proof (Z.mod_pos_bound (i + 1) (ci_capacity ci) ltac:(lia)) as Hm.
    do 2 eexists. split; [done|]. split; [|done].
    split_and!; simpl; try done; try lia; try apply I5.
    intros tid' j. rewrite kv_get_insert. case_decide; [|apply Ht].
    intros [= <-]. rewrite wrap_small by (unfold fits; lia). done. }
  destruct (kv_get (ci_tls ci) tid) as [i|] eqn:E.
  - destruct (Hgen (ci_tls ci) i) as (idx & ci' & Hr & Hrest); [eauto..|].
    exists idx, ci'. split; [|done]. rewrite E in Hr |- *. destruct ci. exact Hr.
  - destruct (Hgen (kv_insert (ci_tls ci) tid 0) 0) as (idx & ci' & Hr & Hrest); [lia| | |].
    + rewrite kv_get_insert_eq. eauto.
    + intros tid' j. rewrite kv_get_insert. case_decide; [intros [= <-]; lia|apply I3].
    + exists idx, ci'. split; [|done]. exact Hr.
Qed.

(** Slots and object ids agree: a record's word names the record itself, or a
    slot that holds it; a slot is empty, or holds an allocated record whose
    word names the slot. *)
Definition link_inv (es : list ClockNode) oa : Prop :=
  (forall r, oa_alloc oa r -> exists v, has_view oa r v /\
     (ov_cached v = false -> ov_id v = r) /\
     (ov_cached v = true -> exists n, es !! Z.to_nat (ov_id v) = Some n /\ cn_rid n = r)) /\
  (forall i n, es !! i = Some n -> cn_rid n <> u32_MAX ->
     oa_alloc oa (cn_rid n) /\
     exists v, has_view oa (cn_rid n) v /\ ov_cached v = true /\ ov_id v = Z.of_nat i).

Definition words_same oa oa' : Prop :=
  oa_inv oa' /\ oa_heap oa' = oa_heap oa /\ forall r, oid_word oa' r = oid_word oa r.

Lemma words_same_refl oa : oa_inv oa -> words_same oa oa.
Proof. intros. split; [done|]. by split. Qed.

Lemma link_inv_same es es' oa oa' :
  link_inv es oa -> entries_sim es es' -> words_same oa oa' -> link_inv es' oa'.
Proof.
  intros [L1 L2] Hs (_ & Hh & Hw). unfold link_inv, has_view, oa_alloc. rewrite Hh. split.
  - intros r Ha. destruct (L1 r Ha) as (v & [? ?] & Hf & Ht). exists v. rewrite Hw.
    split_and!; [done..|]. intros Hc. destruct (Ht Hc) as (n & Hn & En).
    destruct (entries_sim_lookup _ _ _ _ Hs Hn) as (n' & ? & [? ?]). exists n'. split; [done|congruence].
  - intros i n' Hn' Hne. destruct (entries_sim_lookup_r _ _ _ _ Hs Hn') as (n & Hn & [E _]).
    rewrite <-E in *. destruct (L2 i n Hn Hne) as (? & v & [? ?] & ? & ?).
    split; [done|]. exists v. by rewrite Hw.
Qed.

(** The state after a round, or a whole probe, that took nothing: only clock
    hands and reference bits have moved. *)
Definition probe_none ci oa ci' oa' : Prop :=
  ci_inv ci' /\ same_params ci ci' /\ entries_sim (ci_entries ci) (ci_entries ci') /\
  words_same oa oa'.

Lemma probe_none_refl ci oa : ci_inv ci -> oa_inv oa -> probe_none ci oa ci oa.
Proof. intros. split; [done|]. split; [done|]. split; [done|]. by apply words_same_refl. Qed.

Lemma probe_none_trans ci oa ci1 oa1 ci2 oa2 :
  probe_none ci oa ci1 oa1 -> probe_none ci1 oa1 ci2 oa2 -> probe_none ci oa ci2 oa2.
Proof.
  intros (A1 & (B1 & B2 & B3) & C1 & (D1 & D2 & D3)) (A2 & (B4 & B5 & B6) & C2 & (E1 & E2 & E3)).
  split; [done|]. split; [split_and!; congruence|]. split; [by etrans|].
  split_and!; [done|congruence|]. intros. by rewrite E3.
Qed.

(** The state after [new_node] of record [oid] went into slot [idx]. *)
Definition probe_took ci oa (oid : Rid) (new_node : ClockNode) (idx : Z)
    (ev : option (ClockNode * Rid)) ci' oa' : Prop :=
  ci_inv ci' /\ same_params ci ci' /\ 0 <= idx < ci_capacity ci /\
  entries_sim (<[Z.to_nat idx := new_node]> (ci_entries ci)) (ci_entries ci') /\
  oa_inv oa' /\ oa_heap oa' = oa_heap oa /\ has_view oa' oid (mkView 128 true idx) /\
  exists n, ci_entries ci !! Z.to_nat idx = Some n /\
  match ev with
  | None => cn_rid n = u32_MAX /\ forall r, r <> oid -> oid_word oa' r = oid_word oa r
  | Some (old, re) =>
      node_sim n old /\ cn_rid n = re /\ re <> u32_MAX /\ re <> oid /\
      has_view oa re (mkView 0 true idx) /\ has_view oa' re (mkView 128 false re) /\
      forall r, r <> oid -> r <> re -> oid_word oa' r = oid_word oa r
  end.

Lemma probe_took_none ci oa ci1 oa1 oid nn idx ev ci2 oa2 :
  probe_none ci oa ci1 oa1 -> probe_took ci1 oa1 oid nn idx ev ci2 oa2 ->
  probe_took ci oa oid nn idx ev ci2 oa2.
Proof.
  intros (_ & (B1 & B2 & B3) & Hs & (_ & Hh & Hw)) (A & (B4 & B5 & B6) & R & Hs' & Hi & Hh' & Hv & n1 & Hn1 & Hev).
  destruct (entries_sim_lookup_r _ _ _ _ Hs Hn1) as (n & Hn & [Er Ev]).
  split; [done|]. split; [split_and!; congruence|]. split; [congruence|].
  split; [etrans; [by apply entries_sim_insert|done]|].
  split; [done|]. split; [congruence|]. split; [done|]. exists n. split; [done|].
  destruct ev as [[old re]|].
  - destruct Hev as ([? ?] & ? & ? & ? & [? ?] & ? & Hrest).
    split_and!; [split; congruence|congruence|done|done|split; [by rewrite <-Hw|done]|done|].
    intros. by rewrite Hrest, Hw.
  - destruct Hev as [? Hrest]. split; [congruence|]. intros. by rewrite Hrest, Hw.
Qed.

Definition round_post ci oa oid new_node (r : option (Z * option (ClockNode * Rid))) ci' oa' : Prop :=
  match r with
  | None => probe_none ci oa ci' oa'
  | Some (idx, ev) => probe_took ci oa oid new_node idx ev ci' oa'
  end.

(** Taking over slot [idx] under the write lock on [oid]. *)
Lemma store_index_ok oa oid idx :
  oa_inv oa -> oa_alloc oa oid -> has_view oa oid (mkView 128 false oid) -> 0 <= idx < 2 ^ 32 ->
  exists oa', oid_update oa oid (fun w => Ret (store_index w idx)) = Ret oa' /\
    word_set oa oa' oid (mkView 128 true idx).
Proof.
  intros Hi Ha Hv Hidx. eapply oid_update_view; [done..| |split; simpl; lia].
  by rewrite store_index_view by (apply Hv || done).
Qed.

Lemma probe_empty_slot ci oa oid new_node idx n :
  ci_inv ci -> oa_inv oa -> oa_alloc oa oid -> has_view oa oid (mkView 128 false oid) ->
  fits 32 (cn_meta new_node) -> 0 <= idx < ci_capacity ci ->
  ci_entries ci !! Z.to_nat idx = Some n -> cn_rid n = u32_MAX ->
  exists oa', oid_update oa oid (fun w => Ret (store_index w idx)) = Ret oa' /\
    probe_took ci oa oid new_node idx None (put_entry ci idx new_node) oa'.
Proof.
  intros Hci Hoa Ha Hv Hm Hidx Hn En. pose proof Hci as (_ & Hcap & _).
  destruct (store_index_ok oa oid idx) as (oa' & E & Hi' & Hh & Hv' & Ho); [done..|lia|].
  exists oa'. split; [done|]. split; [by apply ci_inv_put|]. split; [done|]. split; [done|].
  split; [done|]. split; [done|]. split; [done|]. split; [done|]. exists n. by split_and!.
Qed.

(** Evicting record [re] from slot [idx], both locks held. *)
Lemma probe_evict_slot ci oa oid new_node idx n n' re oa1 :
  ci_inv ci -> oa_alloc oa oid -> has_view oa oid (mkView 128 false oid) ->
  fits 32 (cn_meta new_node) -> 0 <= idx < ci_capacity ci ->
  ci_entries ci !! Z.to_nat idx = Some n -> node_sim n n' -> cn_rid n = re ->
  oa_alloc oa re -> has_view oa re (mkView 0 true idx) -> re <> oid -> Rid_ok re ->
  word_set oa oa1 re (mkView 128 true idx) ->
  exists oa2 oa3, oid_update oa1 re (fun w => Ret (store_rid w re)) = Ret oa2 /\
    oid_update oa2 oid (fun w => Ret (store_index w idx)) = Ret oa3 /\
    probe_took ci oa oid new_node idx (Some (n', re)) (put_entry ci idx new_node) oa3.
Proof.
  intros Hci Ha Hv Hm Hidx Hn Hs En Hare Hvre Hne Hre Hset1.
  pose proof Hci as (_ & Hcap & _). unfold Rid_ok in Hre.
  pose proof Hset1 as (Hi1 & Hh1 & Hv1 & Ho1).
  destruct (oid_update_view oa1 re (mkView 128 true idx) (mkView 128 false re)
              (fun w => Ret (store_rid w re))) as (oa2 & E2 & Hset2);
    [done|by rewrite (word_set_alloc _ _ _ _ _ Hset1)|done| |split; simpl; lia|].
  { rewrite store_rid_view by (apply Hv1 || lia). done. }
  pose proof Hset2 as (Hi2 & Hh2 & Hv2 & Ho2).
  destruct (store_index_ok oa2 oid idx) as (oa3 & E3 & Hset3); [done| | |lia|].
  { by rewrite (word_set_alloc _ _ _ _ _ Hset2), (word_set_alloc _ _ _ _ _ Hset1). }
  { eapply word_set_other; [done|done|]. eapply word_set_other; done. }
  pose proof Hset3 as (Hi3 & Hh3 & Hv3 & Ho3).
  exists oa2, oa3. split; [done|]. split; [done|].
  split; [by apply ci_inv_put|]. split; [done|]. split; [done|]. split; [done|]. split; [done|].
  split; [congruence|]. split; [done|]. exists n.
  split_and!; try done; try lia.
  - by eapply word_set_other.
  - intros. by rewrite Ho3, Ho2, Ho1.
Qed.

(** A round that locks the victim but fails to validate the slot unlocks it
    again. *)
Lemma unlock_restores oa oa1 re idx :
  oa_alloc oa re -> has_view oa re (mkView 0 true idx) ->
  word_set oa oa1 re (mkView 128 true idx) ->
  exists oa2, oid_update oa1 re OidWriteGuard_drop = Ret oa2 /\ words_same oa oa2.
Proof.
  intros Ha Hv Hset1. pose proof Hset1 as (Hi1 & Hh1 & Hv1 & Ho1).
  destruct (oid_update_view oa1 re (mkView 128 true idx) (mkView 0 true idx) OidWriteGuard_drop)
    as (oa2 & E & Hi2 & Hh2 & Hv2 & Ho2); [done|by rewrite (word_set_alloc _ _ _ _ _ Hset1)|done| |apply Hv|].
  { unfold OidWriteGuard_drop. by rewrite write_unlock_view by (apply Hv1 || done). }
  exists oa2. split; [done|]. split; [done|]. split; [congruence|]. intros r.
  destruct (decide (r = re)) as [->|]; [|by rewrite Ho2, Ho1].
  destruct Hv as [-> _]. by destruct Hv2 as [-> _].
Qed.

Lemma try_clear_ref_sim n :
  fits 32 (cn_meta n) -> node_sim n (snd (try_clear_ref n)) /\ fits 32 (cn_meta (snd (try_clear_ref n))).
Proof.
  intros Hn. pose proof (clear_if_set_spec (cn_meta n) Hn) as Hc.
  unfold try_clear_ref. destruct (clear_if_set (cn_meta n)) as [was m]. simpl. split; [done|tauto].
Qed.

Section probe.
Variables (tid : Z) (new_node : ClockNode) (rid oid : Rid).
Hypothesis Hmeta : fits 32 (cn_meta new_node).

(** What a probe needs: the invariants, and the caller's write lock on the
    uncached record [oid]. *)
Definition probe_pre ci oa : Prop :=
  ci_inv ci /\ oa_inv oa /\ link_inv (ci_entries ci) oa /\ oa_alloc oa oid /\
  has_view oa oid (mkView 128 false oid).

Lemma probe_pre_none ci oa ci' oa' :
  probe_pre ci oa -> probe_none ci oa ci' oa' -> probe_pre ci' oa'.
Proof.
  intros (Hci & Hoa & Hl & Ha & [Hv ?]) (Hci' & _ & Hs & Hw). pose proof Hw as (Hoa' & Hh & Hw').
  split; [done|]. split; [done|]. split; [by eapply link_inv_same|].
  split; [by unfold oa_alloc; rewrite Hh|]. split; [by rewrite Hw'|done].
Qed.

(** The part of a round after the victim's reference bit was found clear. *)
Lemma probe_victim_ok ci oa idx n n' weak :
  probe_pre ci oa -> 0 <= idx < ci_capacity ci ->
  ci_entries ci !! Z.to_nat idx = Some n -> node_sim n n' -> fits 32 (cn_meta n') ->
  cn_rid n <> u32_MAX ->
  let ci1 := put_entry ci idx n' in
  exists r ci' oa',
    (cur_rid ← Rid_from_u32 (cn_rid n);
     w ← oid_load oa cur_rid;
     match try_write w weak.2 with
     | (Err _, _) => Ret (None, ci1, oa)
     | (Ok _, w) =>
         oa ← oid_store oa cur_rid w;
         match cas_weak (cn_rid n') cur_rid cur_rid weak.1 with
         | (Err _, _) =>
             oa ← oid_update oa cur_rid OidWriteGuard_drop;
             Ret (None, ci1, oa)
         | (Ok _, _) =>
             entry_rid ← ClockNode_rid n';
             oa ← oid_update oa cur_rid (fun w => Ret (store_rid w entry_rid));
             oa ← oid_update oa oid (fun w => Ret (store_index w idx));
             Ret (Some (idx, Some (n', cur_rid)), put_entry ci1 idx new_node, oa)
         end
     end) = Ret (r, ci', oa') /\ round_post ci oa oid new_node r ci' oa'.
Proof.
  intros (Hci & Hoa & [L1 L2] & Ha & Hv) Hidx Hn Hs Hm' Hne ci1.
  destruct (L2 _ _ Hn Hne) as (Hare & v & Hvre & Hc & Hid).
  destruct v as [l c id]. simpl in Hc, Hid. subst c id. rewrite Z2Nat.id in * by lia.
  set (re := cn_rid n) in *. destruct (allocated_range oa re Hoa Hare) as [_ Hre].
  assert (Hneq : re <> oid).
  { intros E. rewrite E in Hvre. destruct Hvre as [E1 W1], Hv as [E2 W2].
    rewrite E1 in E2. injection E2 as E2. apply (f_equal is_cached) in E2.
    rewrite !is_cached_view in E2 by done. done. }
  assert (Hnone : probe_none ci oa ci1 oa).
  { split; [by apply ci_inv_put|]. split; [done|]. split; [by eapply entries_sim_meta|].
    by apply words_same_refl. }
  rewrite Rid_from_u32_ok by done. runm. rewrite (oid_load_view _ _ _ Hoa Hare Hvre). runm.
  rewrite try_write_view by apply Hvre. simpl. case_decide as Hl; [|by do 3 eexists].
  subst l. destruct (weak.2); [by do 3 eexists|].
  destruct (oid_store_view oa re (mkView 128 true idx) Hoa Hare) as (oa1 & E1 & Hset1);
    [split; simpl; destruct Hvre as [_ [_ ?]]; simpl in *; lia|].
  unfold set_lk. simpl. rewrite E1. runm.
  destruct Hs as [Er Ev]. fold re in Er. rewrite <-Er, cas_weak_same. destruct (weak.1).
  - destruct (unlock_restores oa oa1 re idx Hare Hvre Hset1) as (oa2 & -> & Hw). runm.
    do 3 eexists. split; [done|]. destruct Hnone as (? & ? & ? & _). by split_and!.
  - unfold ClockNode_rid. rewrite <-Er.
    rewrite (proj2 (Z.eqb_neq re _)) by done. runm. rewrite Rid_from_u32_ok by done. runm.
    destruct (probe_evict_slot ci oa oid new_node idx n n' re oa1)
      as (oa2 & oa3 & -> & E3 & Ht); [done..|]. runm. rewrite E3. runm.
    do 3 eexists. split; [done|]. simpl. unfold ci1, put_entry, set_entries. simpl.
    by rewrite list_insert_insert_eq.
Qed.

Lemma probe_round_ok weak ci oa :
  probe_pre ci oa ->
  exists r ci' oa', probe_round tid new_node rid oid weak ci oa = Ret (r, ci', oa') /\
    round_post ci oa oid new_node r ci' oa'.
Proof.
  intros Hpre. pose proof Hpre as (Hci & Hoa & Hl & Ha & Hv). unfold probe_round.
  destruct (advance_index_ok tid ci Hci) as (idx & ci0 & -> & Hci0 & Hidx & Hes & Hpar). runm.
  assert (Hn0 : probe_none ci oa ci0 oa).
  { split; [done|]. split; [done|]. split; [by rewrite Hes|]. by apply words_same_refl. }
  pose proof (probe_pre_none _ _ _ _ Hpre Hn0) as Hpre0.
  assert (Hidx0 : 0 <= idx < ci_capacity ci0) by (destruct Hpar as (-> & _); done).
  destruct (get_entry_ok ci0 idx Hci0 Hidx0) as (n & Hn & -> & Hm). runm.
  destruct (Z.eqb_spec (cn_rid n) u32_MAX) as [E|E].
  - rewrite cas_weak_same. destruct (weak.1); [by do 3 eexists|].
    destruct (probe_empty_slot ci0 oa oid new_node idx n) as (oa' & -> & Ht); [done..|]. runm.
    do 3 eexists. split; [done|]. by eapply probe_took_none.
  - destruct (try_clear_ref_sim n Hm) as [Hs Hm'].
    destruct (try_clear_ref n) as [was n'] eqn:Ec. simpl in Hs, Hm'. destruct was.
    + do 3 eexists. split; [done|]. eapply probe_none_trans; [done|].
      split; [by apply ci_inv_put|]. split; [done|]. split; [by eapply entries_sim_meta|].
      by apply words_same_refl.
    + destruct (probe_victim_ok ci0 oa idx n n' weak) as (r & ci' & oa' & E' & Hp); [done..|].
      exists r, ci', oa'. split; [exact E'|]. destruct r as [[? ?]|]; simpl in *.
      * by eapply probe_took_none.
      * by eapply probe_none_trans.
Qed.

(** The whole probe: bounded by [n], it never panics, and either takes a
    slot or leaves everything but clock hands and reference bits alone. *)
Lemma probe_loop_ok n p weak ci oa :
  probe_pre ci oa ->
  exists r ci' oa', probe_loop n p tid new_node rid oid weak ci oa = Ret (r, ci', oa') /\
    round_post ci oa oid new_node r ci' oa'.
Proof.
  revert p ci oa. induction n as [|n IH]; intros p ci oa Hpre; cbn [probe_loop].
  { do 3 eexists. split; [done|]. apply probe_none_refl; apply Hpre. }
  destruct (probe_round_ok (weak p) ci oa Hpre) as (r & ci1 & oa1 & -> & Hp). runm.
  destruct r as [r|]; [by do 3 eexists|].
  destruct (IH (S p) ci1 oa1) as (r & ci' & oa' & -> & Hp'); [by eapply probe_pre_none|].
  do 3 eexists. split; [done|]. destruct r as [[? ?]|]; simpl in *.
  - by eapply probe_took_none.
  - by eapply probe_none_trans.
Qed.

Lemma probe_and_replace_ok prob u weak ci oa :
  probe_pre ci oa -> prob_ok prob ->
  exists r ci' oa',
    probe_and_replace_rng tid new_node rid oid prob u weak ci oa = Ret (r, ci', oa') /\
    round_post ci oa oid new_node r ci' oa'.
Proof.
  intros Hpre Hp. unfold probe_and_replace_rng.
  destruct (gen_bool_ok prob u Hp) as ([] & ->); runm.
  - by apply probe_loop_ok.
  - do 3 eexists. split; [done|]. apply probe_none_refl; apply Hpre.
Qed.
End probe.

Lemma has_view_inj oa r v v' : has_view oa r v -> has_view oa r v' -> encode v = encode v'.
Proof. intros [Hv1 _] [Hv2 _]. congruence. Qed.

Lemma encode_inj v v' : view_wf v -> view_wf v' -> encode v = encode v' -> v = v'.
Proof.
  destruct v as [l c i], v' as [l' c' i']. unfold view_wf, encode. simpl.
  intros. assert (c = c') as <- by (destruct c, c'; done || lia).
  destruct c; f_equal; lia.
Qed.

Lemma has_view_eq oa r v v' : has_view oa r v -> has_view oa r v' -> v = v'.
Proof. intros Hv1 Hv2. apply encode_inj; [apply Hv1|apply Hv2|by eapply has_view_inj]. Qed.

(** Slots and object ids still agree after a probe took a slot. *)
Lemma link_inv_took ci oa oid new_node idx ev ci' oa' :
  probe_pre oid ci oa -> cn_rid new_node = oid -> 
  probe_took ci oa oid new_node idx ev ci' oa' -> link_inv (ci_entries ci') oa'.
Proof.
  intros (Hci & Hoa & [L1 L2] & Ha & Hv) Enn (_ & _ & Hidx & Hs & Hoa' & Hh & Hv' & n & Hn & Hev).
  eapply (link_inv_same _ _ oa' oa'); [|done|by apply words_same_refl].
  assert (Hlen : (Z.to_nat idx < length (ci_entries ci))%nat) by (by eapply lookup_lt_Some).
  assert (Hal : forall r, oa_alloc oa' r <-> oa_alloc oa r) by (intros; unfold oa_alloc; by rewrite Hh).
  (* the evicted record, if any, and the records that kept their words *)
  assert (Hkeep : forall r, oa_alloc oa r -> r <> oid -> cn_rid n <> r ->
            forall v, has_view oa r v -> has_view oa' r v).
  { intros r Har Hr Hnr v [Hw Hwf]. split; [|done]. rewrite <-Hw.
    destruct ev as [[old re]|]; [destruct Hev as (_ & <- & _ & _ & _ & _ & Ho)|destruct Hev as [_ Ho]];
      apply Ho; congruence. }
  split.
  - intros r Har. apply Hal in Har. destruct (decide (r = oid)) as [->|Hr].
    { exists (mkView 128 true idx). split_and!; [done|done|]. intros _. exists new_node.
      simpl. by rewrite list_lookup_insert_eq. }
    destruct (decide (cn_rid n = r)) as [Er|Er].
    + destruct ev as [[old re]|].
      * destruct Hev as (_ & <- & _ & _ & _ & Hvre & _). exists (mkView 128 false (cn_rid n)).
        rewrite <-Er. by split_and!.
      * destruct Hev as [En _]. destruct (allocated_range oa r Hoa Har) as [_ Hrr].
        unfold Rid_ok in Hrr. lia.
    + destruct (L1 r Har) as (v & Hvr & Hf & Ht). exists v.
      split_and!; [by apply Hkeep|done|]. intros Hc. destruct (Ht Hc) as (m & Hm & Em).
      exists m. split; [|done]. rewrite list_lookup_insert_ne; [done|]. intros E.
      rewrite <-E, Hn in Hm. congruence.
  - intros i m Hm Hne. destruct (decide (i = Z.to_nat idx)) as [->|Hi].
    + rewrite list_lookup_insert_eq in Hm by done. injection Hm as <-. rewrite Enn.
      split; [by apply Hal|]. exists (mkView 128 true idx). split_and!; [done|done|simpl; lia].
    + rewrite list_lookup_insert_ne in Hm by done. destruct (L2 i m Hm Hne) as (Har & v & Hvr & Hc & Hid).
      split; [by apply Hal|]. exists v. split; [|done]. apply Hkeep; try done.
      * intros E. rewrite E in Hvr. pose proof (has_view_eq _ _ _ _ Hvr Hv) as ->. done.
      * intros E. destruct (L2 _ _ Hn) as (_ & v' & Hv2 & _ & Hid'); [congruence|].
        rewrite E in Hv2. pose proof (has_view_eq _ _ _ _ Hvr Hv2) as ->. lia.
Qed.
End inner_inv.
