(* ===== verification/ClockCache.v ===== *)
(** * The attribute cache (src/attribute_cache/clock_cache/mod.rs)

    A table's records live in the storage; the hot fields of some of them are
    copied into cache slots, and a record's object id says whether its current
    field values are in a slot.  The operations below are those of one thread
    between two suspension points; the refinement at the end shows that they
    implement a plain map from record ids to tuples. *)

From Stdlib Require Import QArith.
From S2P Require Import Prelude Query Schema Layout External NodeMeta Oid ObjAlloc OidArray CacheInner.
Open Scope Z_scope.

Section cache.
Context {S : Schema} {T M : Type} `{KvMap Z T} `{KvMap TlsAllocator M}.

Record ClockCache := mkCache {
  cc_inner : CacheInner T;
  cc_storage : Storage;
  cc_oids : OidArray M;
}.

(** [node_size] is [size_of::<ClockNode<S::Field>>()]; [ptr] and [init] are
    the allocated block and the mapped storage. *)
Definition ClockCache_new (node_size cache_size probe_len : Z) (probe_rng : Q)
    (storage_size ptr : Z) (init : Z -> list obj) : outcome ClockCache :=
  inner ← CacheInner_new node_size field_size cache_size probe_rng probe_len;
  let tuple_cnt := storage_size / Z.of_nat tuple_size in
  oid_array ← OidArray_new tuple_cnt ptr;
  cap ← OidArray_capacity oid_array;
  storage ← Storage_new tuple_size cap (init cap);
  Ret (mkCache inner storage oid_array).

Definition ClockCache_reset (cc : ClockCache) : outcome ClockCache :=
  oids ← OidArray_reset (cc_oids cc);
  Ret (mkCache (CacheInner_reset (cc_inner cc)) (cc_storage cc) oids).

Definition ClockCache_thread_init (tid rng_idx : Z) (cc : ClockCache) : outcome ClockCache :=
  inner ← CacheInner_thread_init tid rng_idx (cc_inner cc);
  Ret (mkCache inner (cc_storage cc) (cc_oids cc)).

(** [if let Some(evicted) = evicted { .. }]: write the evicted fields back to
    the record's tuple; the record's write guard is dropped at the end. *)
Definition write_back_evicted (evicted : option (ClockNode * Rid)) (st : Storage) (oa : OidArray M)
    : outcome (Storage * OidArray M) :=
  match evicted with
  | None => Ret (st, oa)
  | Some (node, guard) =>
      rid ← ClockNode_rid node;
      tuple ← Storage_get st rid;
      st ← Storage_get_mut st rid (write_back (cn_val node) tuple);
      oa ← oid_update oa guard OidWriteGuard_drop;
      Ret (st, oa)
  end.

(** Returns the record id, write-locked. *)
Definition ClockCache_insert (tid : Z) (val : obj) (spin : list bool) (u : Q)
    (weak : nat -> bool * bool) (cc : ClockCache) : outcome (Rid * ClockCache) :=
  '(rid, oa) ← alloc_rid tid spin (cc_oids cc);
  let cached_item := to_cached val in
  '(evicted, ci, oa) ← CacheInner_insert tid rid cached_item u weak (cc_inner cc) oa;
  '(st, oa) ← write_back_evicted evicted (cc_storage cc) oa;
  st ← Storage_insert st rid val;
  Ret (rid, mkCache ci st oa).

(** The value of a cached record: the slot, and the tuple as well when the
    query names a field that is not cached. *)
Definition cached_value (slot : Z) (q : FieldsMeta) (ci : CacheInner T) (st : Storage)
    : outcome QueryValue :=
  if matches q then Ret (QueryValue_new (Some slot) None)
  else
    entry ← get_entry ci slot;
    rid ← ClockNode_rid entry;
    _ ← Storage_get st rid;
    Ret (QueryValue_new (Some slot) (Some rid)).

Definition ClockCache_read (oid : Rid) (q : FieldsMeta) (u : Q) (cc : ClockCache)
    : outcome (QueryValue * ClockCache) :=
  '(r, ci) ← CacheInner_read oid u (cc_inner cc) (cc_oids cc);
  let cc := mkCache ci (cc_storage cc) (cc_oids cc) in
  match r with
  | Ok slot =>
      v ← cached_value slot q ci (cc_storage cc);
      Ret (v, cc)
  | Err rid =>
      _ ← Storage_get (cc_storage cc) rid;
      Ret (QueryValue_new None (Some rid), cc)
  end.

(** [u1], [u2], [u3] are the draws of the read, of the probe and of the
    reference bit of the new entry. *)
Definition read_and_promote (tid : Z) (oid : Rid) (q : FieldsMeta) (u1 u2 u3 : Q)
    (weak : nat -> bool * bool) (cc : ClockCache) : outcome (QueryValue * ClockCache) :=
  '(r, ci) ← CacheInner_read oid u1 (cc_inner cc) (cc_oids cc);
  let st := cc_storage cc in
  let oa := cc_oids cc in
  match r with
  | Ok slot =>
      v ← cached_value slot q ci st;
      Ret (v, mkCache ci st oa)
  | Err rid =>
      w ← oid_load oa oid;
      tuple_rid ← to_rid w;
      _ ← rassert (tuple_rid =? rid);
      tuple ← Storage_get st tuple_rid;
      if ci_probe_len ci =? 0 then
        Ret (QueryValue_new None (Some tuple_rid), mkCache ci st oa)
      else
        let new_node := ClockNode_new (to_cached tuple) tuple_rid in
        '(p, ci, oa) ← probe_and_replace_rng tid new_node tuple_rid oid (ci_probe_rng ci) u2 weak ci oa;
        match p with
        | Some (new_loc, evicted) =>
            entry ← get_entry ci new_loc;
            entry ← ClockNode_set_ref (ci_probe_rng ci) u3 entry;
            let ci := put_entry ci new_loc entry in
            '(st, oa) ← write_back_evicted evicted st oa;
            v ← cached_value new_loc q ci st;
            Ret (v, mkCache ci st oa)
        | None => Ret (QueryValue_new None (Some tuple_rid), mkCache ci st oa)
        end
  end.

(** [read_lock]/[read_lock_sync] and [write_lock]/[write_lock_sync]; the
    asynchronous versions only prefetch the word first. *)
Definition ClockCache_read_lock (rid : Rid) (weak : bool) (cc : ClockCache)
    : outcome (result unit TransactionError * ClockCache) :=
  w ← oid_load (cc_oids cc) rid;
  '(r, w) ← try_read w weak;
  oa ← oid_store (cc_oids cc) rid w;
  Ret (r, mkCache (cc_inner cc) (cc_storage cc) oa).

Definition ClockCache_write_lock (rid : Rid) (weak : bool) (cc : ClockCache)
    : outcome (result unit TransactionError * ClockCache) :=
  w ← oid_load (cc_oids cc) rid;
  let '(r, w) := try_write w weak in
  oa ← oid_store (cc_oids cc) rid w;
  Ret (r, mkCache (cc_inner cc) (cc_storage cc) oa).

(** Dropping a guard on [rid]. *)
Definition drop_read_guard (rid : Rid) (cc : ClockCache) : outcome ClockCache :=
  oa ← oid_update (cc_oids cc) rid OidReadGuard_drop;
  Ret (mkCache (cc_inner cc) (cc_storage cc) oa).

Definition drop_write_guard (rid : Rid) (cc : ClockCache) : outcome ClockCache :=
  oa ← oid_update (cc_oids cc) rid OidWriteGuard_drop;
  Ret (mkCache (cc_inner cc) (cc_storage cc) oa).

(** [*value.get_value(field)] and [*value.get_value_mut(field) = bs]. *)
Definition get_value (v : QueryValue) (f : Field) (cc : ClockCache) : outcome obj :=
  p ← value_place v f;
  n ← Field_size f;
  match p with
  | InCache slot off =>
      e ← get_entry (cc_inner cc) slot;
      raw_read (cn_val e) off n
  | InTuple rid off =>
      t ← Storage_get (cc_storage cc) rid;
      raw_read t off n
  end.

Definition get_value_mut (v : QueryValue) (f : Field) (bs : obj) (cc : ClockCache)
    : outcome ClockCache :=
  p ← value_place v f;
  match p with
  | InCache slot off =>
      e ← get_entry (cc_inner cc) slot;
      val ← raw_write (cn_val e) off bs;
      let ci := put_entry (cc_inner cc) slot (mkNode (cn_rid e) (cn_meta e) val) in
      Ret (mkCache ci (cc_storage cc) (cc_oids cc))
  | InTuple rid off =>
      t ← Storage_get (cc_storage cc) rid;
      t ← raw_write t off bs;
      st ← Storage_get_mut (cc_storage cc) rid t;
      Ret (mkCache (cc_inner cc) st (cc_oids cc))
  end.
End cache.
Arguments ClockCache T M : clear implicits.

(** ** The refinement to a map of records *)
Section refinement.
Context {Sc : Schema} {columns mut_columns : list Field} {L : SchemaLaws Sc columns mut_columns}.
Context {T M : Type} `{KvMapLaws Z T} `{KvMapLaws TlsAllocator M}.
Implicit Type cc : ClockCache T M.

Definition allocated_rid cc (r : Rid) : Prop := oa_alloc (cc_oids cc) r.

Definition tuple_of cc (r : Rid) : option obj := sg_heap (cc_storage cc) !! Z.to_nat r.

(** The logical record: the stored tuple with the slot's fields on top when
    the record is cached. *)
Definition record_value cc (r : Rid) : option obj :=
  match oid_word (cc_oids cc) r, tuple_of cc r with
  | Some w, Some t =>
      if is_cached w then
        match to_cache_index w with
        | Ret i => (fun n => write_back (cn_val n) t) <$> ci_entries (cc_inner cc) !! Z.to_nat i
        | _ => None
        end
      else Some t
  | _, _ => None
  end.

Definition lock_state cc (r : Rid) : option Z := read_lock_cnt <$> oid_word (cc_oids cc) r.

Definition storage_inv cc : Prop :=
  sg_cap (cc_storage cc) = oa_cap (cc_oids cc) /\
  Z.of_nat (length (sg_heap (cc_storage cc))) = sg_cap (cc_storage cc) /\
  Forall (fun t => length t = tuple_size) (sg_heap (cc_storage cc)).

Definition base_inv cc : Prop :=
  ci_inv (cc_inner cc) /\ oa_inv (cc_oids cc) /\
  link_inv (ci_entries (cc_inner cc)) (cc_oids cc) /\ storage_inv cc.

(** Every occupied slot of a record in [P] agrees with the record's tuple. *)
Definition agree_inv cc (P : Rid -> Prop) : Prop :=
  forall i n, ci_entries (cc_inner cc) !! i = Some n -> cn_rid n <> u32_MAX -> P (cn_rid n) ->
    exists t, tuple_of cc (cn_rid n) = Some t /\ agree columns (cn_val n) t.

Definition cache_inv cc : Prop := base_inv cc /\ agree_inv cc (fun _ => True).

Lemma tuple_exists cc r :
  base_inv cc -> allocated_rid cc r ->
  exists t, tuple_of cc r = Some t /\ length t = tuple_size /\ 0 <= r < sg_cap (cc_storage cc).
Proof.
  intros (_ & Hoa & _ & (Hc & Hl & Hf)) Ha. destruct (allocated_range _ _ Hoa Ha) as [Hr _].
  destruct (lookup_lt_is_Some_2 (sg_heap (cc_storage cc)) (Z.to_nat r)) as [t Ht]; [lia|].
  exists t. split_and!; [done| |lia|lia]. by eapply Forall_lookup_1 in Hf.
Qed.

Lemma record_value_uncached cc r v t :
  has_view (cc_oids cc) r v -> ov_cached v = false -> tuple_of cc r = Some t ->
  record_value cc r = Some t.
Proof.
  intros [Hw Hv] Hc Ht. unfold record_value. rewrite Hw, Ht, is_cached_view by done. by rewrite Hc.
Qed.

Lemma record_value_cached cc r v t n :
  has_view (cc_oids cc) r v -> ov_cached v = true -> tuple_of cc r = Some t ->
  ci_entries (cc_inner cc) !! Z.to_nat (ov_id v) = Some n ->
  record_value cc r = Some (write_back (cn_val n) t).
Proof.
  intros [Hw Hv] Hc Ht Hn. unfold record_value.
  rewrite Hw, Ht, is_cached_view, Hc by done. rewrite to_cache_index_view by done. by rewrite Hn.
Qed.

(** The state of an allocated record, by cases on its tag. *)
Lemma record_cases cc r :
  cache_inv cc -> allocated_rid cc r ->
  exists v t, has_view (cc_oids cc) r v /\ tuple_of cc r = Some t /\ length t = tuple_size /\
    0 <= r < sg_cap (cc_storage cc) /\
    ((ov_cached v = false /\ ov_id v = r /\ record_value cc r = Some t) \/
     (ov_cached v = true /\ 0 <= ov_id v < ci_capacity (cc_inner cc) /\
      exists n, ci_entries (cc_inner cc) !! Z.to_nat (ov_id v) = Some n /\ cn_rid n = r /\
        agree columns (cn_val n) t /\ record_value cc r = Some (write_back (cn_val n) t))).
Proof.
  intros [Hb Hag] Ha. pose proof Hb as (Hci & Hoa & [L1 _] & _).
  destruct (tuple_exists cc r Hb Ha) as (t & Ht & Hlen & Hr).
  destruct (L1 r Ha) as (v & Hv & Hf & Htr). exists v, t. split_and!; try done; try lia.
  destruct (ov_cached v) eqn:Hc.
  - right. destruct (Htr eq_refl) as (n & Hn & En).
    pose proof (lookup_lt_Some _ _ _ Hn). destruct Hci as (Hcap & _). destruct Hv as [? [? ?]] eqn:?.
    split; [done|]. split; [lia|]. exists n. split_and!; try done.
    + destruct (allocated_range _ _ Hoa Ha) as [_ Hok]. unfold Rid_ok in Hok.
      destruct (Hag _ _ Hn) as (t' & Ht' & ?); [lia|done|]. rewrite En in Ht'. congruence.
    + by eapply record_value_cached.
  - left. split_and!; [done|auto|]. by eapply record_value_uncached.
Qed.

(** Values and locks of a record only depend on its word, its tuple and its
    slot up to metadata. *)
Lemma record_value_ext cc cc' r :
  oid_word (cc_oids cc') r = oid_word (cc_oids cc) r -> tuple_of cc' r = tuple_of cc r ->
  entries_sim (ci_entries (cc_inner cc)) (ci_entries (cc_inner cc')) ->
  record_value cc' r = record_value cc r.
Proof.
  intros Hw Ht Hs. unfold record_value. rewrite Hw, Ht. repeat case_match; try done.
  destruct (ci_entries (cc_inner cc) !! Z.to_nat a) as [n|] eqn:E.
  - destruct (entries_sim_lookup _ _ _ _ Hs E) as (n' & -> & [_ Ev]). simpl. by rewrite Ev.
  - apply lookup_ge_None in E. rewrite (entries_sim_length _ _ Hs) in E.
    by apply lookup_ge_None in E as ->.
Qed.

Lemma record_value_slot cc cc' r v t :
  has_view (cc_oids cc) r v -> has_view (cc_oids cc') r v ->
  tuple_of cc r = Some t -> tuple_of cc' r = Some t ->
  (ov_cached v = true -> exists n n',
     ci_entries (cc_inner cc) !! Z.to_nat (ov_id v) = Some n /\
     ci_entries (cc_inner cc') !! Z.to_nat (ov_id v) = Some n' /\ node_sim n n') ->
  record_value cc' r = record_value cc r /\ lock_state cc' r = lock_state cc r.
Proof.
  intros Hv Hv' Ht Ht' Hn. split.
  - destruct (ov_cached v) eqn:Hc.
    + destruct (Hn eq_refl) as (n & n' & En & En' & [_ Ev]).
      rewrite (record_value_cached cc' r v t n'), (record_value_cached cc r v t n) by done.
      by rewrite Ev.
    + by rewrite (record_value_uncached cc' r v t), (record_value_uncached cc r v t).
  - unfold lock_state. destruct Hv as [-> _]. by destruct Hv' as [-> _].
Qed.

(** Changing the lock bits of a word keeps the links. *)
Lemma link_inv_lock es (oa oa' : OidArray M) r v l :
  link_inv es oa -> has_view oa r v -> word_set oa oa' r (set_lk v l) -> link_inv es oa'.
Proof.
  intros [L1 L2] Hv Hset. pose proof Hset as (_ & _ & Hv' & _).
  assert (Hmap : forall r' v', has_view oa r' v' -> exists l', has_view oa' r' (set_lk v' l')).
  { intros r' v' Hv0. destruct (decide (r' = r)) as [->|Hne].
    - exists l. by rewrite (has_view_eq _ _ _ _ Hv0 Hv).
    - exists (lk v'). apply (word_set_other _ _ _ _ _ v' Hset Hne) in Hv0. by destruct v'. }
  split.
  - intros r' Ha. rewrite (word_set_alloc _ _ _ _ _ Hset) in Ha.
    destruct (L1 r' Ha) as (v' & Hv0 & Hf & Ht). destruct (Hmap r' v' Hv0) as [l' ?].
    exists (set_lk v' l'). by split_and!.
  - intros i n Hn Hne. destruct (L2 i n Hn Hne) as (Ha & v' & Hv0 & Hc & Hid).
    rewrite (word_set_alloc _ _ _ _ _ Hset). split; [done|].
    destruct (Hmap _ v' Hv0) as [l' ?]. exists (set_lk v' l'). by split_and!.
Qed.

(** A slot holds each record at most once. *)
Lemma slot_unique es (oa : OidArray M) i j n m :
  link_inv es oa -> es !! i = Some n -> es !! j = Some m ->
  cn_rid n <> u32_MAX -> cn_rid n = cn_rid m -> i = j.
Proof.
  intros [_ L2] Hn Hm Hne E. destruct (L2 i n Hn Hne) as (_ & v & Hv & _ & Hi).
  destruct (L2 j m Hm) as (_ & v' & Hv' & _ & Hj); [congruence|].
  rewrite <-E in Hv'. rewrite (has_view_eq _ _ _ _ Hv Hv') in Hi. lia.
Qed.

(** The other slots after a probe took slot [idx]. *)
Lemma took_other cc oid nn idx ev ci1 oa1 i n' :
  probe_took (cc_inner cc) (cc_oids cc) oid nn idx ev ci1 oa1 ->
  i <> Z.to_nat idx -> ci_entries ci1 !! i = Some n' ->
  exists n, ci_entries (cc_inner cc) !! i = Some n /\ node_sim n n'.
Proof.
  intros (_ & _ & _ & Hs & _) Hi Hn'.
  destruct (entries_sim_lookup_r _ _ _ _ Hs Hn') as (n & Hn & ?).
  rewrite list_lookup_insert_ne in Hn by done. eauto.
Qed.

Lemma took_new cc oid nn idx ev ci1 oa1 :
  probe_took (cc_inner cc) (cc_oids cc) oid nn idx ev ci1 oa1 ->
  exists n', ci_entries ci1 !! Z.to_nat idx = Some n' /\ node_sim nn n'.
Proof.
  intros (_ & _ & _ & Hs & _ & _ & _ & n & Hn & _).
  eapply entries_sim_lookup; [done|]. apply list_lookup_insert_eq. by eapply lookup_lt_Some.
Qed.

(** Records outside [oid] and the evicted one keep word, slot and tuple. *)
Lemma took_keeps cc oid nn idx ev ci1 oa1 cc' r :
  cache_inv cc -> probe_took (cc_inner cc) (cc_oids cc) oid nn idx ev ci1 oa1 ->
  allocated_rid cc r -> cc_inner cc' = ci1 -> tuple_of cc' r = tuple_of cc r ->
  oid_word (cc_oids cc') r = oid_word (cc_oids cc) r ->
  (forall n, ci_entries (cc_inner cc) !! Z.to_nat idx = Some n -> cn_rid n <> r) ->
  record_value cc' r = record_value cc r /\ lock_state cc' r = lock_state cc r.
Proof.
  intros Hinv Ht Ha Hci Htu Hw Hidx. destruct (record_cases cc r Hinv Ha) as (v & t & Hv & Ht0 & _ & _ & Hc).
  apply (record_value_slot cc cc' r v t); [done|split; [by rewrite Hw; apply Hv|apply Hv]|done|congruence|].
  intros Hcv. destruct Hc as [(Hf & _)|(_ & Hid & n & Hn & En & _)]; [congruence|].
  pose proof Ht as (_ & _ & _ & Hs & _).
  assert (Hne : Z.to_nat idx <> Z.to_nat (ov_id v)).
  { intros E. rewrite <-E in Hn. by apply (Hidx n Hn). }
  destruct (entries_sim_lookup _ _ (Z.to_nat (ov_id v)) n Hs) as (n' & ? & ?);
    [by rewrite list_lookup_insert_ne|].
  exists n, n'. by rewrite Hci.
Qed.

(** The cache with record [oid] in slot [idx]: everything holds, except that
    the agreement of that slot with its tuple is still owed. *)
Definition installed cc (oid : Rid) (nn : ClockNode) (idx : Z) cc' : Prop :=
  base_inv cc' /\ agree_inv cc' (fun r => r <> oid) /\
  has_view (cc_oids cc') oid (mkView 128 true idx) /\
  tuple_of cc' oid = tuple_of cc oid /\ oa_heap (cc_oids cc') = oa_heap (cc_oids cc) /\
  same_params (cc_inner cc) (cc_inner cc') /\ 0 <= idx < ci_capacity (cc_inner cc') /\
  (exists n', ci_entries (cc_inner cc') !! Z.to_nat idx = Some n' /\ node_sim nn n') /\
  (forall r, allocated_rid cc r -> r <> oid ->
     record_value cc' r = record_value cc r /\ lock_state cc' r = lock_state cc r).

Lemma agree_inv_took cc oid nn idx ev ci1 oa1 st' oa' :
  cache_inv cc -> cn_rid nn = oid ->
  probe_took (cc_inner cc) (cc_oids cc) oid nn idx ev ci1 oa1 ->
  (forall r, r <> oid -> (forall n, ci_entries (cc_inner cc) !! Z.to_nat idx = Some n -> cn_rid n <> r) ->
     0 <= r -> sg_heap st' !! Z.to_nat r = tuple_of cc r) ->
  agree_inv (mkCache ci1 st' oa') (fun r => r <> oid).
Proof.
  intros [Hb Hag] Enn Ht Htu i n' Hn' Hne Hoid. simpl in *.
  destruct (took_new _ _ _ _ _ _ _ Ht) as (m & Hm & [Em _]).
  assert (Hi : i <> Z.to_nat idx) by (intros ->; congruence).
  destruct (took_other _ _ _ _ _ _ _ _ _ Ht Hi Hn') as (n & Hn & [Er Ev]).
  destruct Hb as (_ & Hoa & Hl & _). pose proof Hl as [_ L2].
  destruct (L2 _ _ Hn) as (Ha & _); [congruence|]. destruct (allocated_range _ _ Hoa Ha) as [Hr _].
  destruct (Hag _ _ Hn) as (t & Ht' & Hagr); [congruence|done|].
  exists t. rewrite <-Er, <-Ev. split; [|done]. unfold tuple_of in *. simpl. rewrite Htu; [done| | |lia].
  - congruence.
  - intros n0 Hn0 E0. apply Hi. eapply (slot_unique _ _ _ _ _ _ Hl Hn Hn0); congruence.
Qed.

Lemma storage_inv_ext cc cc' :
  storage_inv cc -> sg_cap (cc_storage cc') = sg_cap (cc_storage cc) ->
  length (sg_heap (cc_storage cc')) = length (sg_heap (cc_storage cc)) ->
  Forall (fun t => length t = tuple_size) (sg_heap (cc_storage cc')) ->
  oa_heap (cc_oids cc') = oa_heap (cc_oids cc) -> storage_inv cc'.
Proof.
  intros (S1 & S2 & S3) Hc Hl Hf Hh. unfold storage_inv, oa_cap in *. rewrite Hh, Hc, Hl. done.
Qed.

Lemma install_empty cc oid nn idx ci1 oa1 :
  cache_inv cc -> probe_pre oid (cc_inner cc) (cc_oids cc) -> cn_rid nn = oid ->
  probe_took (cc_inner cc) (cc_oids cc) oid nn idx None ci1 oa1 ->
  installed cc oid nn idx (mkCache ci1 (cc_storage cc) oa1).
Proof.
  intros Hinv Hpre Enn Ht. pose proof Hinv as [(Hci & Hoa & Hl & Hst) Hag].
  pose proof Ht as (Hci1 & Hpar & Hidx & _ & Hoa1 & Hh & Hv & n & Hn & En & Hw).
  split; [split; [done|]|].
  { split; [done|]. split; [by eapply link_inv_took|].
    eapply storage_inv_ext; [done..|apply Hst|done]. }
  split; [eapply agree_inv_took; [done..|]; done|].
  split; [done|]. split; [done|]. split; [done|]. split; [done|].
  split; [destruct Hpar as (E & _); simpl; congruence|].
  split; [by eapply took_new|]. intros r Ha Hne.
  eapply took_keeps; [done..|by apply Hw|]. intros n0 Hn0 E0.
  destruct (allocated_range _ _ Hoa Ha) as [_ Hr]. unfold Rid_ok in Hr.
  assert (n0 = n) by congruence. subst. lia.
Qed.

(** The write-back of an entry whose record [re] is locked: its tuple is
    updated and its word unlocked. *)
Lemma write_back_evicted_ok st oa node re t :
  oa_inv oa -> oa_alloc oa re -> Rid_ok re -> has_view oa re (mkView 128 false re) ->
  cn_rid node = re -> 0 <= re < sg_cap st -> sg_heap st !! Z.to_nat re = Some t ->
  exists oa', write_back_evicted (Some (node, re)) st oa =
      Ret (mkStorage (sg_cap st) (<[Z.to_nat re := write_back (cn_val node) t]> (sg_heap st)), oa') /\
    word_set oa oa' re (mkView 0 false re).
Proof.
  intros Hoa Ha Hok Hv En Hcap Htu. cbn [write_back_evicted]. unfold ClockNode_rid. rewrite En.
  rewrite (proj2 (Z.eqb_neq re _)) by (unfold Rid_ok in Hok; lia). runm. rewrite Rid_from_u32_ok by done. runm.
  rewrite (Storage_get_ok _ _ t) by done. runm.
  fold (Storage_insert st re (write_back (cn_val node) t)). rewrite (Storage_insert_ok _ _ t) by done. runm.
  destruct (oid_update_view oa re (mkView 128 false re) (mkView 0 false re) OidWriteGuard_drop)
    as (oa2 & -> & Hset); [done..| |split; simpl; unfold Rid_ok in *; lia|].
  { unfold OidWriteGuard_drop. by rewrite write_unlock_view by (apply Hv || done). }
  runm. by exists oa2.
Qed.

Lemma install_evict cc oid nn idx old re ci1 oa1 :
  cache_inv cc -> probe_pre oid (cc_inner cc) (cc_oids cc) -> cn_rid nn = oid ->
  probe_took (cc_inner cc) (cc_oids cc) oid nn idx (Some (old, re)) ci1 oa1 ->
  exists st' oa', write_back_evicted (Some (old, re)) (cc_storage cc) oa1 = Ret (st', oa') /\
    installed cc oid nn idx (mkCache ci1 st' oa').
Proof.
  intros Hinv Hpre Enn Ht. pose proof Hinv as [(Hci & Hoa & Hl & Hst) Hag].
  pose proof Ht as (Hci1 & Hpar & Hidx & _ & Hoa1 & Hh & Hv & n & Hn & [Eo Evo] & En & Hmax & Hne & Hv0 & Hv1 & Hw).
  pose proof Hl as [_ L2]. destruct (L2 _ _ Hn) as (Hare & _); [congruence|]. rewrite En in Hare.
  destruct (allocated_range _ _ Hoa Hare) as [Hrr Hrok].
  destruct (tuple_exists cc re) as (t & Htu & Hlen & Hcap); [by split_and!|done|].
  destruct (write_back_evicted_ok (cc_storage cc) oa1 old re t) as (oa2 & -> & Hset);
    [done|unfold oa_alloc; by rewrite Hh|done|done|congruence|done|done|].
  set (st' := mkStorage _ _).
  pose proof Hset as (Hoa2 & Hh2 & Hv2 & Hw2). do 2 eexists. split; [done|].
  assert (Htother : forall r, 0 <= r -> r <> re -> sg_heap st' !! Z.to_nat r = tuple_of cc r).
  { intros r Hr Hnr. simpl. apply list_lookup_insert_ne. lia. }
  assert (Hidxrid : forall n0, ci_entries (cc_inner cc) !! Z.to_nat idx = Some n0 -> cn_rid n0 = re)
    by (intros; congruence).
  split; [split; [done|]; split; [done|]; split|].
  { apply (link_inv_lock _ oa1 _ re (mkView 128 false re) 0); [by eapply link_inv_took|done|done]. }
  { eapply storage_inv_ext; simpl; [done|done|by rewrite length_insert| |congruence].
    destruct Hst as (_ & _ & Hf). apply Forall_insert; [done|].
    destruct (Hag _ _ Hn) as (? & _ & (? & _)); [congruence|done|]. apply write_back_length; congruence. }
  split.
  { eapply agree_inv_took; [done..|]. intros r _ Hr0 Hr1. apply Htother; [done|].
    intros ->. by apply (Hr0 n). }
  split; [by eapply (word_set_other oa1); [exact Hset|congruence|]|].
  split; [|split; [simpl; congruence|]].
  { unfold tuple_of. simpl. apply list_lookup_insert_ne.
    destruct Hpre as (_ & _ & _ & Hao & _). destruct (allocated_range _ _ Hoa Hao). lia. }
  split; [done|]. split; [destruct Hpar as (E & _); simpl; congruence|].
  split; [by eapply took_new|]. intros r Ha Hroid.
  destruct (allocated_range _ _ Hoa Ha) as [Hr _]. destruct (decide (r = re)) as [->|Hrre].
  - split.
    + rewrite (record_value_cached cc re (mkView 0 true idx) t n) by done.
      erewrite record_value_uncached; [|exact Hv2|done|].
      * by rewrite Evo.
      * unfold tuple_of. simpl. apply list_lookup_insert_eq. by eapply lookup_lt_Some.
    + unfold lock_state. simpl. destruct Hv2 as [-> ?], Hv0 as [-> ?].
      simpl. by rewrite !read_lock_cnt_view.
  - eapply took_keeps; [done..| | |].
    + unfold tuple_of at 1. simpl. apply Htother; [lia|done].
    + simpl. by rewrite Hw2, Hw.
    + intros n0 Hn0. rewrite (Hidxrid n0 Hn0). congruence.
Qed.

Definition with_tuple cc (r : Rid) (t : obj) : ClockCache T M :=
  mkCache (cc_inner cc)
    (mkStorage (sg_cap (cc_storage cc)) (<[Z.to_nat r := t]> (sg_heap (cc_storage cc))))
    (cc_oids cc).

(** Overwriting the tuple of [r]. *)
Lemma with_tuple_ok cc r t :
  base_inv cc -> allocated_rid cc r -> length t = tuple_size ->
  base_inv (with_tuple cc r t) /\ tuple_of (with_tuple cc r t) r = Some t /\
  Storage_insert (cc_storage cc) r t = Ret (cc_storage (with_tuple cc r t)) /\
  (forall r', allocated_rid cc r' -> r' <> r ->
     tuple_of (with_tuple cc r t) r' = tuple_of cc r' /\
     record_value (with_tuple cc r t) r' = record_value cc r').
Proof.
  intros Hb Ha Hlen. destruct (tuple_exists cc r Hb Ha) as (t0 & Ht0 & _ & Hr).
  pose proof Hb as (Hci & Hoa & Hl & Hst).
  assert (Hother : forall r', allocated_rid cc r' -> r' <> r ->
            tuple_of (with_tuple cc r t) r' = tuple_of cc r').
  { intros r' Ha' Hne. destruct (allocated_range _ _ Hoa Ha'). unfold tuple_of. simpl.
    apply list_lookup_insert_ne. lia. }
  split; [split_and!; [apply Hb..|]|].
  { eapply storage_inv_ext; simpl; [done|done|by rewrite length_insert| |done].
    destruct Hst as (_ & _ & Hf). by apply Forall_insert. }
  split; [unfold tuple_of; simpl; apply list_lookup_insert_eq; by eapply lookup_lt_Some|].
  split; [by apply (Storage_insert_ok _ _ t0)|].
  intros r' Ha' Hne. split; [by apply Hother|]. apply record_value_ext; [done|by apply Hother|done].
Qed.

(** Giving the slot of a freshly installed record the tuple it copies. *)
Lemma installed_agree cc oid nn idx cc' t :
  installed cc oid nn idx cc' -> allocated_rid cc oid -> cn_rid nn = oid -> cn_val nn = to_cached t ->
  tuple_of cc' oid = Some t -> length t = tuple_size ->
  cache_inv cc' /\ record_value cc' oid = Some t.
Proof.
  intros (Hb & Hag & Hv & _ & Hh & _ & Hidx & (n' & Hn' & [Er Ev]) & _) Ha Enn Evn Ht Hlen. split.
  - split; [done|]. intros i n Hn Hne _. destruct (decide (cn_rid n = oid)) as [E|E]; [|by eapply Hag].
    pose proof Hb as (_ & _ & Hl & _).
    assert (i = Z.to_nat idx) as -> by (eapply (slot_unique _ _ _ _ _ _ Hl Hn Hn'); congruence).
    assert (n = n') as -> by congruence. exists t. rewrite E. split; [done|].
    rewrite <-Ev, Evn. by apply to_cached_agree.
  - rewrite (record_value_cached cc' oid (mkView 128 true idx) t n') by done.
    by rewrite <-Ev, Evn, write_back_to_cached.
Qed.

(** The cache around a freshly allocated, still empty record. *)
Lemma alloc_cache_inv cc rid oa1 :
  cache_inv cc -> rid_allocated (cc_oids cc) rid oa1 ->
  let cc1 := mkCache (cc_inner cc) (cc_storage cc) oa1 in
  cache_inv cc1 /\ probe_pre rid (cc_inner cc1) (cc_oids cc1) /\
  forall r, allocated_rid cc r ->
    r <> rid /\ record_value cc1 r = record_value cc r /\ lock_state cc1 r = lock_state cc r.
Proof.
  intros [(Hci & Hoa & [L1 L2] & Hst) Hag] (Hoa1 & Hrok & Hr & Hna & Hal & Hs & Hc & Hword & Hold) cc1.
  assert (Hkeep : forall r v, oa_alloc (cc_oids cc) r -> has_view (cc_oids cc) r v -> has_view oa1 r v).
  { intros r v Ha [Hw ?]. split; [|done]. by rewrite Hold. }
  assert (Hvr : has_view oa1 rid (mkView 128 false rid)).
  { split; [done|]. unfold Rid_ok in Hrok. split; simpl; lia. }
  assert (Hl1 : link_inv (ci_entries (cc_inner cc)) oa1).
  { split.
    - intros r [->|Ha]%Hal; [by exists (mkView 128 false rid)|].
      destruct (L1 r Ha) as (v & Hv & ? & ?). exists v. split_and!; [by apply Hkeep|done..].
    - intros i n Hn Hne. destruct (L2 i n Hn Hne) as (Ha & v & Hv & ? & ?).
      split; [apply Hal; by right|]. exists v. split_and!; [by apply Hkeep|done..]. }
  split; [split; [split; [done|]; split; [done|]; split; [done|]|done]|split].
  - destruct Hst as (S1 & S2 & S3). split_and!; simpl; [congruence|done..].
  - split; [done|]. split; [done|]. split; [done|]. split; [apply Hal; by left|done].
  - intros r Ha. split; [intros ->; done|].
    split; [apply record_value_ext; [by apply Hold|done|done]|]. unfold lock_state. simpl.
    by rewrite Hold.
Qed.

(** The cache after [insert] stored [val] as record [rid]. *)
Definition inserted cc (rid : Rid) (val : obj) cc' : Prop :=
  cache_inv cc' /\ Rid_ok rid /\ ~ allocated_rid cc rid /\
  (forall r, allocated_rid cc' r <-> r = rid \/ allocated_rid cc r) /\
  record_value cc' rid = Some val /\ lock_state cc' rid = Some 128 /\
  (forall r, allocated_rid cc r ->
     record_value cc' r = record_value cc r /\ lock_state cc' r = lock_state cc r).

(** The cache after a probe and the write-back of its victim: either nothing
    was taken, or the record is in a slot. *)
Lemma probe_write_back cc oid nn prob u weak tid rid :
  cache_inv cc -> probe_pre oid (cc_inner cc) (cc_oids cc) -> cn_rid nn = oid ->
  fits 32 (cn_meta nn) -> prob_ok prob ->
  exists r ci1 oa1,
    probe_and_replace_rng tid nn rid oid prob u weak (cc_inner cc) (cc_oids cc) = Ret (r, ci1, oa1) /\
    match r with
    | None => probe_none (cc_inner cc) (cc_oids cc) ci1 oa1
    | Some (idx, ev) => probe_took (cc_inner cc) (cc_oids cc) oid nn idx ev ci1 oa1 /\
        exists st' oa', write_back_evicted ev (cc_storage cc) oa1 = Ret (st', oa') /\
          installed cc oid nn idx (mkCache ci1 st' oa')
    end.
Proof.
  intros Hinv Hpre Enn Hm Hp.
  destruct (probe_and_replace_ok tid nn rid oid Hm prob u weak _ _ Hpre Hp)
    as (r & ci1 & oa1 & E & Hpost). exists r, ci1, oa1. split; [done|].
  destruct r as [[idx ev]|]; [|done]. simpl in Hpost. split; [done|].
  destruct ev as [[old re]|]; [by apply install_evict|].
  exists (cc_storage cc), oa1. split; [done|]. by apply install_empty.
Qed.

(** Nothing was taken: values, locks and invariant are as before. *)
Lemma probe_none_cache cc ci1 oa1 :
  cache_inv cc -> probe_none (cc_inner cc) (cc_oids cc) ci1 oa1 ->
  let cc' := mkCache ci1 (cc_storage cc) oa1 in
  cache_inv cc' /\ oa_heap (cc_oids cc') = oa_heap (cc_oids cc) /\
  forall r, oid_word (cc_oids cc') r = oid_word (cc_oids cc) r /\
    record_value cc' r = record_value cc r /\ lock_state cc' r = lock_state cc r.
Proof.
  intros [(Hci & Hoa & Hl & Hst) Hag] (Hci1 & _ & Hs & Hw). pose proof Hw as (Hoa1 & Hh & Hww).
  intros cc'. split; [split; [split; [done|]; split; [done|]; split|]|split; [done|]].
  - by eapply link_inv_same.
  - eapply storage_inv_ext; [done..|apply Hst|done].
  - intros i n' Hn' Hne _. destruct (entries_sim_lookup_r _ _ _ _ Hs Hn') as (n & Hn & [Er Ev]).
    destruct (Hag _ _ Hn) as (t & ? & ?); [congruence|done|]. exists t. by rewrite <-Er, <-Ev.
  - intros r. split; [done|]. split; [by apply record_value_ext|]. unfold lock_state. simpl. by rewrite Hww.
Qed.

(** An uncached record is in no slot. *)
Lemma uncached_no_slot cc r v i n :
  base_inv cc -> has_view (cc_oids cc) r v -> ov_cached v = false ->
  ci_entries (cc_inner cc) !! i = Some n -> cn_rid n <> u32_MAX -> cn_rid n <> r.
Proof.
  intros (_ & _ & [_ L2] & _) Hv Hc Hn Hne E. destruct (L2 i n Hn Hne) as (_ & v' & Hv' & Hc' & _).
  rewrite E in Hv'. rewrite (has_view_eq _ _ _ _ Hv Hv') in Hc. congruence.
Qed.

Lemma CacheInner_insert_probe cc rid c tid u weak r ci1 oa1 :
  probe_pre rid (cc_inner cc) (cc_oids cc) ->
  probe_and_replace_rng tid (ClockNode_new c rid) rid rid 1 u weak (cc_inner cc) (cc_oids cc)
    = Ret (r, ci1, oa1) ->
  CacheInner_insert tid rid c u weak (cc_inner cc) (cc_oids cc)
    = Ret (match r with Some (_, ev) => ev | None => None end, ci1, oa1).
Proof.
  intros (_ & Hoa & _ & Ha & Hv) E. destruct (allocated_range _ _ Hoa Ha) as [_ Hok].
  unfold CacheInner_insert. rewrite (oid_load_view _ _ _ Hoa Ha Hv). runm.
  rewrite is_rid_view by apply Hv. runm.
  rewrite to_rid_view by (apply Hv || (unfold Rid_ok in Hok; simpl; lia)). runm. simpl. by rewrite E.
Qed.

Lemma prob_ok_1 : prob_ok 1.
Proof. split; unfold Qle; simpl; lia. Qed.

Lemma fits_meta_new : fits 32 NodeMeta_new.
Proof. unfold fits, NodeMeta_new. lia. Qed.

(** The record [rid] of [cc1] has got its first value; all else is kept. *)
Definition finished cc1 (rid : Rid) (val : obj) cc' : Prop :=
  cache_inv cc' /\ oa_heap (cc_oids cc') = oa_heap (cc_oids cc1) /\
  record_value cc' rid = Some val /\ lock_state cc' rid = Some 128 /\
  (forall r, allocated_rid cc1 r -> r <> rid ->
     record_value cc' r = record_value cc1 r /\ lock_state cc' r = lock_state cc1 r).

Lemma locked_view_state cc r c i : has_view (cc_oids cc) r (mkView 128 c i) -> lock_state cc r = Some 128.
Proof. intros [Hw ?]. unfold lock_state. rewrite Hw. simpl. by rewrite read_lock_cnt_view. Qed.

(** When a slot was taken, the value agrees with the slot. *)
Lemma finish_took cc1 rid val idx cc2 :
  installed cc1 rid (ClockNode_new (to_cached val) rid) idx cc2 ->
  allocated_rid cc1 rid -> length val = tuple_size ->
  Storage_insert (cc_storage cc2) rid val = Ret (cc_storage (with_tuple cc2 rid val)) /\
  finished cc1 rid val (with_tuple cc2 rid val).
Proof.
  intros Hinst Ha Hlen. pose proof Hinst as (Hb & Hag & Hv2 & _ & Hh & Hpar & Hidx & Hn & Hkeep).
  assert (Hal : forall r, allocated_rid cc1 r -> allocated_rid cc2 r)
    by (intros; unfold allocated_rid, oa_alloc in *; by rewrite Hh).
  destruct (with_tuple_ok cc2 rid val Hb (Hal _ Ha) Hlen) as (Hb3 & Ht3 & E3 & Hk3). split; [done|].
  assert (Hag3 : agree_inv (with_tuple cc2 rid val) (fun r => r <> rid)).
  { intros i n Hn0 Hne0 Hr0. destruct (Hag i n Hn0 Hne0 Hr0) as (t & Ht & ?). exists t.
    split; [|done]. destruct Hb as (_ & _ & [_ L2] & _). destruct (L2 _ _ Hn0 Hne0) as (Har & _).
    destruct (Hk3 (cn_rid n) Har Hr0) as [-> _]. done. }
  destruct (installed_agree (with_tuple cc2 rid val) rid (ClockNode_new (to_cached val) rid) idx
              (with_tuple cc2 rid val) val) as [Hinv3 Hval3]; try done; [exact (Hal _ Ha)|].
  split; [done|]. split; [done|]. split; [done|]. split; [by eapply (locked_view_state cc2)|].
  intros r Har Hr. destruct (Hkeep r Har Hr) as [<- <-]. by destruct (Hk3 r (Hal _ Har) Hr) as [_ ->].
Qed.

(** When none was taken, the record stays uncached. *)
Lemma finish_none cc1 rid val ci1 oa1 :
  cache_inv cc1 -> probe_none (cc_inner cc1) (cc_oids cc1) ci1 oa1 ->
  allocated_rid cc1 rid -> has_view (cc_oids cc1) rid (mkView 128 false rid) -> length val = tuple_size ->
  let cc2 := mkCache ci1 (cc_storage cc1) oa1 in
  Storage_insert (cc_storage cc2) rid val = Ret (cc_storage (with_tuple cc2 rid val)) /\
  finished cc1 rid val (with_tuple cc2 rid val).
Proof.
  intros Hinv Hp Ha Hv Hlen cc2. destruct (probe_none_cache cc1 ci1 oa1 Hinv Hp) as ([Hb Hag] & Hh & Hkeep).
  fold cc2 in Hb, Hag, Hh, Hkeep.
  assert (Hal : forall r, allocated_rid cc1 r -> allocated_rid cc2 r)
    by (intros; unfold allocated_rid, oa_alloc in *; by rewrite Hh).
  assert (Hv2 : has_view (cc_oids cc2) rid (mkView 128 false rid))
    by (destruct Hv; split; [by rewrite (proj1 (Hkeep rid))|done]).
  destruct (with_tuple_ok cc2 rid val Hb (Hal _ Ha) Hlen) as (Hb3 & Ht3 & E3 & Hk3). split; [done|].
  split; [split; [done|]|split; [done|split; [|split]]].
  - intros i n Hn Hne _. destruct (Hag i n Hn Hne I) as (t & Ht & ?). exists t. split; [|done].
    pose proof (uncached_no_slot cc2 rid _ i n Hb Hv2 eq_refl Hn Hne) as Hr.
    destruct Hb as (_ & _ & [_ L2] & _). destruct (L2 _ _ Hn Hne) as (Har & _).
    by destruct (Hk3 _ Har Hr) as [-> _].
  - by eapply record_value_uncached.
  - by eapply (locked_view_state cc2).
  - intros r Har Hr. destruct (Hkeep r) as (_ & <- & <-). by destruct (Hk3 r (Hal _ Har) Hr) as [_ ->].
Qed.

Lemma finish_insert cc1 rid val u weak tid :
  cache_inv cc1 -> probe_pre rid (cc_inner cc1) (cc_oids cc1) -> length val = tuple_size ->
  exists cc',
    ('(evicted, ci, oa) ← CacheInner_insert tid rid (to_cached val) u weak (cc_inner cc1) (cc_oids cc1);
     '(st, oa) ← write_back_evicted evicted (cc_storage cc1) oa;
     st ← Storage_insert st rid val;
     Ret (rid, mkCache ci st oa)) = Ret (rid, cc') /\
    finished cc1 rid val cc'.
Proof.
  intros Hinv Hpre Hlen. pose proof Hpre as (_ & Hoa & _ & Ha & Hv).
  destruct (probe_write_back cc1 rid (ClockNode_new (to_cached val) rid) 1 u weak tid rid Hinv Hpre
              eq_refl fits_meta_new prob_ok_1) as (r & ci1 & oa1 & E & Hp).
  rewrite (CacheInner_insert_probe _ _ _ _ _ _ _ _ _ Hpre E). runm. destruct r as [[idx ev]|].
  - destruct Hp as (_ & st' & oa' & -> & Hinst). runm.
    destruct (finish_took cc1 rid val idx _ Hinst Ha Hlen) as [E3 Hfin]. cbn [cc_storage] in E3. rewrite E3. runm.
    eexists. split; [done|exact Hfin].
  - destruct (finish_none cc1 rid val ci1 oa1 Hinv Hp Ha Hv Hlen) as [E3 Hfin].
    cbn [write_back_evicted cc_storage] in *. runm. rewrite E3. runm. eexists. split; [done|exact Hfin].
Qed.

Lemma ClockCache_insert_ok cc tid val n u weak :
  cache_inv cc -> length val = tuple_size ->
  let spin := replicate n true ++ [false] in
  (exists rid cc', ClockCache_insert tid val spin u weak cc = Ret (rid, cc') /\
     inserted cc rid val cc') \/
  (ClockCache_insert tid val spin u weak cc = Panic /\ out_of_rids (cc_oids cc) tid).
Proof.
  intros Hinv Hlen. cbv zeta. pose proof Hinv as [(_ & Hoa & _) _]. unfold ClockCache_insert.
  destruct (alloc_rid_ok tid n (cc_oids cc) Hoa) as [(rid & oa1 & -> & Hall)|[-> Hoor]];
    [left|right; by runm].
  runm. destruct (alloc_cache_inv cc rid oa1 Hinv Hall) as (Hinv1 & Hpre & Hkeep).
  destruct (finish_insert _ rid val u weak tid Hinv1 Hpre Hlen)
    as (cc' & E & Hinv' & Hh & Hval & Hlk & Hrest).
  exists rid, cc'. split; [exact E|]. destruct Hall as (_ & Hok & _ & Hna & Hal & _).
  split; [done|]. split; [done|]. split; [done|]. split; [|split; [done|split; [done|]]].
  - intros r. unfold allocated_rid, oa_alloc in *. rewrite Hh. simpl. apply Hal.
  - intros r Ha. destruct (Hkeep r Ha) as (Hne & <- & <-). apply Hrest; [|done].
    apply Hal. by right.
Qed.

(** ** Reading *)

Lemma set_ref_fits m : fits 32 m -> fits 32 (meta_set_ref m).
Proof.
  intros Hm. unfold meta_set_ref. rewrite lor_land, REF_MASK_field, land_field by lia.
  change (field_mask 16 1) with (2 ^ 16). change (2 ^ 1) with 2. zdiv.
Qed.

Lemma ClockNode_set_ref_ok prob u n :
  prob_ok prob -> fits 32 (cn_meta n) ->
  exists n', ClockNode_set_ref prob u n = Ret n' /\ node_sim n n' /\ fits 32 (cn_meta n').
Proof.
  intros Hp Hn. unfold ClockNode_set_ref. destruct (gen_bool_ok prob u Hp) as ([] & ->); runm.
  - eexists. split; [done|]. split; [done|]. by apply set_ref_fits.
  - by exists n.
Qed.

(** Only a node's metadata changed. *)
Lemma put_meta_none cc idx n n' :
  base_inv cc -> ci_entries (cc_inner cc) !! Z.to_nat idx = Some n ->
  node_sim n n' -> fits 32 (cn_meta n') ->
  probe_none (cc_inner cc) (cc_oids cc) (put_entry (cc_inner cc) idx n') (cc_oids cc).
Proof.
  intros (Hci & Hoa & _) Hn Hs Hm. split; [by apply ci_inv_put|]. split; [done|].
  split; [by eapply entries_sim_meta|by apply words_same_refl].
Qed.

(** [read] of the slots: a hit gives the slot and may set its reference bit,
    a miss gives the record id. *)
Lemma CacheInner_read_ok cc r u v :
  cache_inv cc -> allocated_rid cc r -> has_view (cc_oids cc) r v ->
  exists res ci', CacheInner_read r u (cc_inner cc) (cc_oids cc) = Ret (res, ci') /\
    probe_none (cc_inner cc) (cc_oids cc) ci' (cc_oids cc) /\
    res = if ov_cached v then Ok (ov_id v) else Err r.
Proof.
  intros Hinv Ha Hv. pose proof Hinv as [Hb _]. pose proof Hb as (Hci & Hoa & _).
  unfold CacheInner_read. rewrite (oid_load_view _ _ _ Hoa Ha Hv). runm.
  rewrite is_cached_view by apply Hv.
  destruct (record_cases cc r Hinv Ha) as (v' & t & Hv' & _ & _ & _ & Hc).
  rewrite (has_view_eq _ _ _ _ Hv' Hv) in Hc. destruct (ov_cached v) eqn:Ec.
  - destruct Hc as [(? & _)|(_ & Hid & n & Hn & _)]; [done|].
    rewrite to_cache_index_view by (done || apply Hv). runm.
    destruct (get_entry_ok _ _ Hci Hid) as (n0 & Hn0 & -> & Hm). runm.
    destruct (ClockNode_set_ref_ok (ci_probe_rng (cc_inner cc)) u n0) as (n' & -> & Hs & Hm');
      [apply Hci|done|]. runm.
    do 2 eexists. split; [done|]. split; [by eapply put_meta_none|done].
  - destruct Hc as [(_ & Hid & _)|(? & _)]; [|done].
    destruct (allocated_range _ _ Hoa Ha) as [_ Hok]. unfold Rid_ok in Hok.
    rewrite is_rid_view, Ec by apply Hv. runm.
    rewrite to_rid_view by (done || apply Hv || lia). runm. rewrite Hid.
    do 2 eexists. split; [done|]. split; [|done]. by apply probe_none_refl.
Qed.

(** [v] refers to the current place of record [r], with the tuple as well
    unless the cached fields cover the query. *)
Definition valid_ref cc (r : Rid) (q : FieldsMeta) (v : QueryValue) : Prop :=
  exists w, has_view (cc_oids cc) r w /\ points_to q v (ov_cached w) (ov_id w) r.

Lemma valid_ref_words cc cc' r q v :
  oid_word (cc_oids cc') r = oid_word (cc_oids cc) r -> valid_ref cc r q v -> valid_ref cc' r q v.
Proof. intros Hw (w & [? ?] & Hc). exists w. split; [split; [congruence|done]|done]. Qed.

Lemma cached_value_ok cc r q w :
  cache_inv cc -> allocated_rid cc r -> has_view (cc_oids cc) r w -> ov_cached w = true ->
  exists v, cached_value (ov_id w) q (cc_inner cc) (cc_storage cc) = Ret v /\ valid_ref cc r q v.
Proof.
  intros Hinv Ha Hw Hc. pose proof Hinv as [(Hci & Hoa & _) _].
  destruct (record_cases cc r Hinv Ha) as (w' & t & Hw' & Ht & _ & Hr & Hcase).
  rewrite (has_view_eq _ _ _ _ Hw' Hw) in Hcase.
  destruct Hcase as [(? & _)|(_ & Hid & n & Hn & En & _)]; [congruence|].
  unfold cached_value. destruct (matches q) eqn:Em.
  - eexists. split; [done|]. exists w. unfold points_to. rewrite Hc, Em. simpl. split; [done|]. split; [done|]. by right.
  - unfold get_entry. rewrite Hn. runm. unfold ClockNode_rid. rewrite En.
    destruct (allocated_range _ _ Hoa Ha) as [_ Hok].
    rewrite (proj2 (Z.eqb_neq _ _)) by (unfold Rid_ok in Hok; lia). runm.
    rewrite Rid_from_u32_ok by done. runm. rewrite (Storage_get_ok _ _ t) by done. runm.
    eexists. split; [done|]. exists w. unfold points_to. rewrite Hc. simpl. split; [done|]. split; [done|]. by left.
Qed.

(** Same records, values and locks. *)
Definition same_records cc cc' : Prop :=
  cache_inv cc' /\ (forall r, allocated_rid cc' r <-> allocated_rid cc r) /\
  forall r, allocated_rid cc r ->
    record_value cc' r = record_value cc r /\ lock_state cc' r = lock_state cc r.

Lemma probe_none_same cc ci1 oa1 :
  cache_inv cc -> probe_none (cc_inner cc) (cc_oids cc) ci1 oa1 ->
  same_records cc (mkCache ci1 (cc_storage cc) oa1).
Proof.
  intros Hinv Hp. destruct (probe_none_cache cc ci1 oa1 Hinv Hp) as (Hinv' & Hh & Hk).
  split; [done|]. split; [intros r; unfold allocated_rid, oa_alloc; by rewrite Hh|].
  intros r _. destruct (Hk r) as (_ & ? & ?). done.
Qed.

Lemma same_records_trans cc1 cc2 cc3 :
  same_records cc1 cc2 -> same_records cc2 cc3 -> same_records cc1 cc3.
Proof.
  intros (_ & A1 & V1) (I & A2 & V2). split; [done|]. split; [intros; by rewrite A2|].
  intros r Ha. destruct (V1 r Ha) as [<- <-]. by apply V2, A1.
Qed.

Lemma ClockCache_read_ok cc r q u :
  cache_inv cc -> allocated_rid cc r ->
  exists v cc', ClockCache_read r q u cc = Ret (v, cc') /\
    same_records cc cc' /\ valid_ref cc' r q v.
Proof.
  intros Hinv Ha. destruct (record_cases cc r Hinv Ha) as (w & t & Hw & Ht & _ & Hr & Hcase).
  destruct (CacheInner_read_ok cc r u w Hinv Ha Hw) as (res & ci' & E & Hp & Hres).
  pose proof (probe_none_same cc ci' (cc_oids cc) Hinv Hp) as Hsame. pose proof Hsame as (Hinv' & Hal & _).
  unfold ClockCache_read. rewrite E. runm. rewrite Hres. destruct (ov_cached w) eqn:Hc.
  - destruct (cached_value_ok _ r q w Hinv' (proj2 (Hal r) Ha) Hw Hc) as (v & Ev & Hval).
    simpl in Ev |- *. rewrite Ev. runm. by do 2 eexists.
  - rewrite (Storage_get_ok _ _ t) by done. runm. do 2 eexists. split; [done|]. split; [done|].
    exists w. unfold points_to. by rewrite Hc.
Qed.

(** Promotion of an uncached record that found a slot. *)
Lemma promote_slot cc r t idx ev ci1 oa1 q u :
  cache_inv cc -> allocated_rid cc r -> lock_state cc r = Some 128 -> record_value cc r = Some t ->
  tuple_of cc r = Some t -> length t = tuple_size ->
  probe_took (cc_inner cc) (cc_oids cc) r (ClockNode_new (to_cached t) r) idx ev ci1 oa1 ->
  (exists st' oa', write_back_evicted ev (cc_storage cc) oa1 = Ret (st', oa') /\
     installed cc r (ClockNode_new (to_cached t) r) idx (mkCache ci1 st' oa')) ->
  exists v cc',
    (entry ← get_entry ci1 idx;
     entry ← ClockNode_set_ref (ci_probe_rng ci1) u entry;
     let ci := put_entry ci1 idx entry in
     '(st, oa) ← write_back_evicted ev (cc_storage cc) oa1;
     v ← cached_value idx q ci st;
     Ret (v, mkCache ci st oa)) = Ret (v, cc') /\ same_records cc cc' /\ valid_ref cc' r q v.
Proof.
  intros Hinv Ha Hlk Hval Ht Hlen _ (st' & oa' & Ewb & Hinst).
  pose proof Hinst as (Hb & _ & Hv & Htu & Hh & _ & Hidx & _ & Hkeep). simpl in Hidx, Htu.
  set (cc1 := mkCache ci1 st' oa') in *.
  destruct (installed_agree cc r _ idx cc1 t Hinst Ha eq_refl eq_refl) as [Hinv1 Hval1];
    [congruence|done|].
  pose proof Hb as (Hci & _). destruct (get_entry_ok ci1 idx Hci Hidx) as (n & Hn & -> & Hm). runm.
  destruct (ClockNode_set_ref_ok (ci_probe_rng ci1) u n) as (n' & -> & Hs & Hm'); [apply Hci|done|].
  runm. rewrite Ewb. runm.
  pose proof (put_meta_none cc1 idx n n' Hb Hn Hs Hm') as Hp.
  pose proof (probe_none_same cc1 _ _ Hinv1 Hp) as Hsame2. pose proof Hsame2 as (Hinv2 & Hal2 & _).
  set (cc2 := mkCache (put_entry (cc_inner cc1) idx n') _ _) in *.
  assert (Hsame1 : same_records cc cc1).
  { split; [done|]. split; [intros; unfold allocated_rid, oa_alloc; by rewrite Hh|].
    intros r' Ha'. destruct (decide (r' = r)) as [->|Hne]; [|by apply Hkeep].
    split; [congruence|]. rewrite Hlk. unfold lock_state. destruct Hv as [-> ?]. simpl.
    by rewrite read_lock_cnt_view. }
  pose proof Hsame1 as (_ & Hal1 & _).
  destruct (cached_value_ok cc2 r q (mkView 128 true idx) Hinv2) as (v & Ev & Href);
    [by apply Hal2, Hal1|done|done|].
  simpl in Ev. rewrite Ev. runm. exists v, cc2. split; [done|].
  split; [by eapply same_records_trans|done].
Qed.

Lemma read_and_promote_ok cc tid r q u1 u2 u3 weak :
  cache_inv cc -> allocated_rid cc r -> lock_state cc r = Some 128 ->
  exists v cc', read_and_promote tid r q u1 u2 u3 weak cc = Ret (v, cc') /\
    same_records cc cc' /\ valid_ref cc' r q v.
Proof.
  intros Hinv Ha Hlk. destruct (record_cases cc r Hinv Ha) as (w & t & Hw & Ht & Hlen & Hr & Hcase).
  destruct (CacheInner_read_ok cc r u1 w Hinv Ha Hw) as (res & ci' & E & Hp & Hres).
  pose proof (probe_none_same cc ci' (cc_oids cc) Hinv Hp) as Hsame. pose proof Hsame as (Hinv' & Hal & Hvals).
  unfold read_and_promote. rewrite E. runm. rewrite Hres. destruct (ov_cached w) eqn:Hc.
  { destruct (cached_value_ok _ r q w Hinv' (proj2 (Hal r) Ha) Hw Hc) as (v & Ev & Hval).
    simpl in Ev |- *. rewrite Ev. runm. by do 2 eexists. }
  destruct Hcase as [(_ & Hid & Hval)|(? & _)]; [|congruence].
  pose proof Hinv as [Hb _]. pose proof Hb as (_ & Hoa & _).
  destruct (allocated_range _ _ Hoa Ha) as [_ Hok]. unfold Rid_ok in Hok.
  rewrite (oid_load_view _ _ _ Hoa Ha Hw). runm.
  rewrite to_rid_view by (done || apply Hw || lia). runm. rewrite Hid, Z.eqb_refl. runm.
  rewrite (Storage_get_ok _ _ t) by done. runm.
  set (cc1 := mkCache ci' (cc_storage cc) (cc_oids cc)) in *.
  assert (Hplain : valid_ref cc1 r q (QueryValue_new None (Some r))) by (exists w; unfold points_to; by rewrite Hc).
  destruct (ci_probe_len ci' =? 0); [by do 2 eexists|].
  assert (Hlk1 : lk w = 128).
  { unfold lock_state in Hlk. destruct Hw as [Hww Hwf]. rewrite Hww in Hlk. simpl in Hlk.
    rewrite read_lock_cnt_view in Hlk by done. congruence. }
  assert (Hpre : probe_pre r ci' (cc_oids cc)).
  { pose proof Hinv' as [(? & ? & ? & _) _]. split; [done|]. split; [done|]. split; [done|].
    split; [done|]. destruct w as [l c i]. simpl in *. by subst. }
  destruct (probe_write_back cc1 r (ClockNode_new (to_cached t) r) (ci_probe_rng ci') u2 weak tid r
              Hinv' Hpre eq_refl fits_meta_new) as (res2 & ci1 & oa1 & E2 & Hp2); [apply Hp|].
  simpl in E2. rewrite E2. runm. destruct res2 as [[idx ev]|].
  - destruct Hp2 as [Htook Hinst]. destruct (Hvals r Ha) as [Hv1 Hl1].
    destruct (promote_slot cc1 r t idx ev ci1 oa1 q u3) as (v & cc' & Ev & Hs & Hv);
      [done|by apply Hal|congruence|congruence|done|done|done|done|].
    exists v, cc'. split; [exact Ev|]. split; [by eapply same_records_trans|done].
  - do 2 eexists. split; [done|]. destruct (probe_none_cache cc1 ci1 oa1 Hinv' Hp2) as (_ & _ & Hk).
    split; [eapply same_records_trans; [done|exact (probe_none_same cc1 ci1 oa1 Hinv' Hp2)]|].
    apply (valid_ref_words cc1); [exact (proj1 (Hk r))|done].
Qed.

(** ** Values through references *)

(** Where a queried column of record [r] is: its cached copy when the record
    and the column are cached, the stored tuple otherwise. *)
Lemma value_place_ok cc r q v w f :
  valid_ref cc r q v -> has_view (cc_oids cc) r w -> covers q f ->
  value_place v f = Ret
    match to_cached_field f with
    | Some cf => if ov_cached w then InCache (ov_id w) (f_begin cf) else InTuple r (f_begin f)
    | None => InTuple r (f_begin f)
    end.
Proof.
  intros (w' & Hw' & Hc) Hw Hf. rewrite (has_view_eq _ _ _ _ Hw' Hw) in Hc.
  by eapply value_place_points.
Qed.

Lemma get_value_ok cc r q v x f :
  cache_inv cc -> allocated_rid cc r -> valid_ref cc r q v -> record_value cc r = Some x ->
  covers q f -> f ∈ columns -> get_value v f cc = Ret (load_field x f).
Proof.
  intros Hinv Ha Href Hx Hf Hcol. pose proof Hinv as [(Hci & _) _].
  destruct (record_cases cc r Hinv Ha) as (w & t & Hw & Ht & Hlen & Hr & Hcase).
  pose proof (columns_in_tuple f Hcol) as Hin. pose proof Hin as [Hfok _].
  unfold get_value. rewrite (value_place_ok cc r q v w f Href Hw Hf). runm.
  rewrite Field_size_ok by done. runm.
  assert (Htup : ov_cached w = false \/ to_cached_field f = None -> load_field x f = load_field t f).
  { intros Hor. destruct Hcase as [(_ & _ & Hv)|(Hc & _ & n & _ & _ & Hag & Hv)]; [congruence|].
    rewrite Hv in Hx. injection Hx as <-. destruct Hor as [?|Hn]; [congruence|].
    destruct Hag as (? & ? & _). by apply uncached_read. }
  destruct (to_cached_field f) as [cf|] eqn:Ef; [destruct (ov_cached w) eqn:Hc|].
  - destruct Hcase as [(? & _)|(_ & Hid & n & Hn & _ & Hag & Hv)]; [done|].
    unfold get_entry. rewrite Hn. runm. destruct (cached_in_field f cf Hcol Ef) as [Hinc Hle].
    destruct Hag as (Hcl & _ & Hcf). rewrite <-Hle, (raw_read_field _ _ field_size) by done.
    rewrite (Hcf f cf) by done. congruence.
  - rewrite (Storage_get_ok _ _ t) by done. runm. rewrite (raw_read_field _ _ tuple_size) by done.
    rewrite Htup; auto.
  - rewrite (Storage_get_ok _ _ t) by done. runm. rewrite (raw_read_field _ _ tuple_size) by done.
    rewrite Htup; auto.
Qed.

(** Record [r] now holds [x], all other records are as before. *)
Definition updated cc (r : Rid) (x : obj) cc' : Prop :=
  cache_inv cc' /\ record_value cc' r = Some x /\ cc_oids cc' = cc_oids cc /\
  forall r', allocated_rid cc r' -> r' <> r -> record_value cc' r' = record_value cc r'.

(** A store into the slot of [r]. *)
Lemma update_slot cc r w n t c :
  cache_inv cc -> allocated_rid cc r -> has_view (cc_oids cc) r w -> ov_cached w = true ->
  ci_entries (cc_inner cc) !! Z.to_nat (ov_id w) = Some n -> cn_rid n = r ->
  tuple_of cc r = Some t -> agree columns c t ->
  updated cc r (write_back c t)
    (mkCache (put_entry (cc_inner cc) (ov_id w) (mkNode (cn_rid n) (cn_meta n) c))
       (cc_storage cc) (cc_oids cc)).
Proof.
  intros [(Hci & Hoa & Hl & Hst) Hag] Ha Hw Hc Hn En Ht Hagc.
  set (n' := mkNode _ _ _). set (cc' := mkCache _ _ _).
  pose proof (lookup_lt_Some _ _ _ Hn) as Hlt.
  assert (Hother : forall i, i <> Z.to_nat (ov_id w) ->
    ci_entries (cc_inner cc') !! i = ci_entries (cc_inner cc) !! i).
  { intros i Hi. simpl. by apply list_lookup_insert_ne. }
  assert (Hself : ci_entries (cc_inner cc') !! Z.to_nat (ov_id w) = Some n')
    by (simpl; by apply list_lookup_insert_eq).
  assert (Hl' : link_inv (ci_entries (cc_inner cc')) (cc_oids cc)).
  { destruct Hl as [L1 L2]. split.
    - intros r' Ha'. destruct (L1 r' Ha') as (v & Hv & Hf & Htr). exists v. split_and!; [done..|].
      intros Hcv. destruct (Htr Hcv) as (m & Hm & Em).
      destruct (decide (Z.to_nat (ov_id v) = Z.to_nat (ov_id w))) as [E|E].
      + exists n'. rewrite E in *. split; [done|]. simpl. congruence.
      + exists m. by rewrite Hother.
    - intros i m Hm Hne. destruct (decide (i = Z.to_nat (ov_id w))) as [->|E].
      + rewrite Hself in Hm. injection Hm as <-. exact (L2 _ n Hn Hne).
      + rewrite Hother in Hm by done. by apply L2. }
  assert (Hinv' : cache_inv cc').
  { split; [split; [|split; [done|]; by split]|].
    - apply ci_inv_put; [done|]. destruct Hci as (_ & _ & _ & Hf & _).
      by eapply (Forall_lookup_1 _ _ _ _ Hf) in Hn.
    - intros i m Hm Hne _. destruct (decide (i = Z.to_nat (ov_id w))) as [->|E].
      + rewrite Hself in Hm. injection Hm as <-. exists t. simpl. by rewrite En.
      + rewrite Hother in Hm by done. by apply (Hag i m). }
  split; [done|]. split; [|split; [done|]].
  - by rewrite (record_value_cached cc' r w t n').
  - intros r' Ha' Hne. destruct (record_cases cc r') as (v & t' & Hv & Ht' & _ & _ & Hcase); [done..|].
    apply (record_value_slot cc cc' r' v t'); [done..|]. intros Hcv.
    destruct Hcase as [(? & _)|(_ & _ & m & Hm & Em & _)]; [congruence|].
    exists m, m. split; [done|]. split; [|done]. rewrite Hother; [done|]. intros E.
    rewrite E in Hm. congruence.
Qed.

(** A store into the tuple of [r]. *)
Lemma update_tuple cc r w t t' x :
  cache_inv cc -> allocated_rid cc r -> has_view (cc_oids cc) r w -> tuple_of cc r = Some t ->
  length t' = tuple_size ->
  (if ov_cached w then exists n, ci_entries (cc_inner cc) !! Z.to_nat (ov_id w) = Some n /\
      cn_rid n = r /\ agree columns (cn_val n) t' /\ write_back (cn_val n) t' = x
   else t' = x) ->
  updated cc r x (with_tuple cc r t').
Proof.
  intros [Hb Hag] Ha Hw Ht Hlen Hx.
  destruct (with_tuple_ok cc r t' Hb Ha Hlen) as (Hb' & Ht' & _ & Hk).
  pose proof Hb as (_ & _ & Hl & _). pose proof Hl as [_ L2].
  split; [split; [done|]|split; [|split; [done|]]].
  - intros i m Hm Hne _. simpl in Hm. destruct (decide (cn_rid m = r)) as [E|E].
    + exists t'. rewrite E. split; [done|]. destruct (L2 i m Hm Hne) as (_ & v & Hv & Hcv & Hid).
      rewrite E in Hv. rewrite (has_view_eq _ _ _ _ Hw Hv), Hcv in Hx.
      destruct Hx as (n & Hn & _ & Hagr & _). rewrite Hid, Nat2Z.id in Hn. congruence.
    + destruct (Hag i m Hm Hne I) as (t0 & Ht0 & ?). exists t0. split; [|done].
      destruct (Hk (cn_rid m)) as [-> _]; [by apply (L2 i m)|done|done].
  - destruct (ov_cached w) eqn:Hc.
    + destruct Hx as (n & Hn & _ & _ & <-). by apply (record_value_cached _ r w t' n).
    + subst x. by apply (record_value_uncached _ r w t').
  - intros r' Ha' Hne. by apply Hk.
Qed.

Lemma get_value_mut_ok cc r q v x f bs :
  cache_inv cc -> allocated_rid cc r -> valid_ref cc r q v -> record_value cc r = Some x ->
  covers q f -> f ∈ mut_columns -> length bs = Z.to_nat (Field_len f) ->
  exists cc', get_value_mut v f bs cc = Ret cc' /\ updated cc r (store_field x f bs) cc' /\
    valid_ref cc' r q v.
Proof.
  intros Hinv Ha Href Hx Hf Hmut Hbs. pose proof (mut_columns_sub f Hmut) as Hcol.
  pose proof Hinv as [Hb _]. pose proof (columns_in_tuple f Hcol) as Hin.
  destruct (record_cases cc r Hinv Ha) as (w & t & Hw & Ht & Hlen & Hr & Hcase).
  unfold get_value_mut. rewrite (value_place_ok cc r q v w f Href Hw Hf). runm.
  assert (Htup : ov_cached w = false \/ to_cached_field f = None ->
    exists cc', (t ← Storage_get (cc_storage cc) r; t ← raw_write t (f_begin f) bs;
                 st ← Storage_get_mut (cc_storage cc) r t;
                 Ret (mkCache (cc_inner cc) st (cc_oids cc))) = Ret cc' /\
      updated cc r (store_field x f bs) cc' /\ valid_ref cc' r q v).
  { intros Hor. rewrite (Storage_get_ok _ _ t) by done. runm.
    rewrite (raw_write_field _ _ tuple_size) by done. runm.
    fold (Storage_insert (cc_storage cc) r (store_field t f bs)).
    rewrite (Storage_insert_ok _ _ t) by done. runm. eexists. split; [done|].
    split; [|by apply (valid_ref_words cc)].
    apply (update_tuple cc r w t); [done..|by rewrite length_store_field|].
    destruct Hcase as [(-> & _ & Hv)|(Hc & _ & n & Hn & En & Hag & Hv)]; [congruence|].
    rewrite Hc in *. destruct Hor as [?|Hnone]; [done|].
    destruct (uncached_write (cn_val n) t f bs Hmut Hnone Hag Hbs) as [Ewb Hag'].
    exists n. split_and!; [done..|]. rewrite Ewb. congruence. }
  destruct (to_cached_field f) as [cf|] eqn:Ef; [destruct (ov_cached w) eqn:Hc|]; [|by auto..].
  destruct Hcase as [(? & _)|(_ & Hid & n & Hn & En & Hag & Hv)]; [done|].
  unfold get_entry. rewrite Hn. runm. destruct (cached_in_field f cf Hcol Ef) as [Hinc Hle].
  pose proof Hag as (Hcl & _). rewrite (raw_write_field _ _ field_size) by (done || congruence). runm.
  eexists. split; [done|]. destruct (cached_write (cn_val n) t f cf bs Hmut Ef Hag Hbs) as [Ewb Hag'].
  assert (x = write_back (cn_val n) t) as -> by congruence. rewrite <-Ewb.
  split; [by apply update_slot|by apply (valid_ref_words cc)].
Qed.

(** ** Locks *)

Lemma set_lock_ok cc r v l oa' :
  cache_inv cc -> allocated_rid cc r -> has_view (cc_oids cc) r v ->
  word_set (cc_oids cc) oa' r (set_lk v l) ->
  let cc' := mkCache (cc_inner cc) (cc_storage cc) oa' in
  cache_inv cc' /\ (forall r', allocated_rid cc' r' <-> allocated_rid cc r') /\
  lock_state cc' r = Some l /\
  (forall r', allocated_rid cc r' -> record_value cc' r' = record_value cc r' /\
     (r' <> r -> lock_state cc' r' = lock_state cc r')).
Proof.
  intros Hinv Ha Hv Hset cc'. pose proof Hinv as [(Hci & Hoa & Hl & Hst) Hag].
  pose proof Hset as (Hoa' & Hh & Hv' & Hw). split; [split; [|done]|split; [|split]].
  - split; [done|]. split; [done|]. split; [by eapply link_inv_lock|].
    eapply storage_inv_ext; [done..|apply Hst|done].
  - intros r'. unfold allocated_rid, oa_alloc. simpl. by rewrite Hh.
  - unfold lock_state. simpl. destruct Hv' as [-> ?]. simpl. by rewrite read_lock_cnt_view.
  - intros r' Ha'. split; [|intros Hne; unfold lock_state; simpl; by rewrite Hw].
    destruct (decide (r' = r)) as [->|Hne]; [|by apply record_value_ext; [by apply Hw|done|done]].
    destruct (record_cases cc r Hinv Ha) as (w & t & Hv0 & Ht & _ & _ & Hcase).
    rewrite (has_view_eq _ _ _ _ Hv0 Hv) in Hcase.
    destruct Hcase as [(Hc & _ & ->)|(Hc & _ & n & Hn & _ & _ & ->)].
    + by apply (record_value_uncached _ r (set_lk v l)).
    + by apply (record_value_cached _ r (set_lk v l)).
Qed.

Lemma lock_state_view cc r v :
  has_view (cc_oids cc) r v -> lock_state cc r = Some (lk v).
Proof. intros [Hw Hv]. unfold lock_state. rewrite Hw. simpl. by rewrite read_lock_cnt_view. Qed.

(** [l] readers (or, at 128, the writer) hold [r]; afterwards [l'] do. *)
Definition relocked cc (r : Rid) (l' : Z) cc' : Prop :=
  cache_inv cc' /\ (forall r', allocated_rid cc' r' <-> allocated_rid cc r') /\
  lock_state cc' r = Some l' /\
  (forall r', allocated_rid cc r' -> record_value cc' r' = record_value cc r' /\
     (r' <> r -> lock_state cc' r' = lock_state cc r')).

(** Storing the word of [r] under another lock state. *)
Lemma store_lock_ok cc r v l (res : result unit TransactionError) :
  cache_inv cc -> allocated_rid cc r -> has_view (cc_oids cc) r v -> 0 <= l <= 128 ->
  exists cc', (oa ← oid_store (cc_oids cc) r (encode (set_lk v l));
    Ret (res, mkCache (cc_inner cc) (cc_storage cc) oa)) = Ret (res, cc') /\ relocked cc r l cc'.
Proof.
  intros Hinv Ha Hv Hl. pose proof Hinv as [(_ & Hoa & _) _].
  destruct (oid_store_view (cc_oids cc) r (set_lk v l) Hoa Ha) as (oa' & E & Hset);
    [by apply set_lk_wf; [apply Hv|]|].
  rewrite E. runm. eexists. split; [done|]. by apply (set_lock_ok cc r v l oa').
Qed.

Lemma set_lk_same v : set_lk v (lk v) = v.
Proof. by destruct v. Qed.

(** The word of a record, with its lock. *)
Lemma locked_word cc r l :
  cache_inv cc -> allocated_rid cc r -> lock_state cc r = Some l ->
  exists v, has_view (cc_oids cc) r v /\ lk v = l /\ 0 <= l <= 128 /\
    oid_load (cc_oids cc) r = Ret (encode v).
Proof.
  intros Hinv Ha Hl. pose proof Hinv as [(_ & Hoa & [L1 _] & _) _].
  destruct (L1 r Ha) as (v & Hv & _). rewrite (lock_state_view _ _ _ Hv) in Hl. injection Hl as <-.
  exists v. split; [done|]. split; [done|]. split; [apply Hv|]. exact (oid_load_view _ _ _ Hoa Ha Hv).
Qed.

Lemma write_lock_ok cc r l weak :
  cache_inv cc -> allocated_rid cc r -> lock_state cc r = Some l ->
  exists cc' res l', ClockCache_write_lock r weak cc = Ret (res, cc') /\ relocked cc r l' cc' /\
    ((res = Ok tt /\ l = 0 /\ l' = 128) \/
     (res = Err LockBusy /\ weak = true /\ l' = l) \/
     (res = Err WriteLockBusy /\ l <> 0 /\ l' = l)).
Proof.
  intros Hinv Ha Hl. destruct (locked_word cc r l Hinv Ha Hl) as (v & Hv & <- & Hb & E).
  unfold ClockCache_write_lock. rewrite E. runm. rewrite try_write_view by apply Hv.
  pose proof (set_lk_same v) as Hsame. case_decide; [destruct weak|].
  - destruct (store_lock_ok cc r v (lk v) (Err LockBusy) Hinv Ha Hv Hb) as (cc' & E' & Hr).
    rewrite Hsame in E'. exists cc', (Err LockBusy), (lk v). split; [exact E'|]. split; [done|]. tauto.
  - destruct (store_lock_ok cc r v 128 (Ok tt) Hinv Ha Hv) as (cc' & E' & Hr); [lia|].
    exists cc', (Ok tt), 128. split; [exact E'|]. split; [done|]. tauto.
  - destruct (store_lock_ok cc r v (lk v) (Err WriteLockBusy) Hinv Ha Hv Hb) as (cc' & E' & Hr).
    rewrite Hsame in E'. exists cc', (Err WriteLockBusy), (lk v). split; [exact E'|]. split; [done|]. tauto.
Qed.

(** [read_lock] counts one more reader, below the limit of the word. *)
Lemma try_read_lock_ok cc r l weak :
  cache_inv cc -> allocated_rid cc r -> lock_state cc r = Some l -> l + 1 < MAX_READER \/ l = 128 ->
  exists cc' res l', ClockCache_read_lock r weak cc = Ret (res, cc') /\ relocked cc r l' cc' /\
    ((res = Ok tt /\ l < 127 /\ l' = l + 1 /\ weak = false) \/
     (res = Err LockBusy /\ weak = true /\ l' = l) \/
     (res = Err ReadLockBusy /\ l = 128 /\ l' = l)).
Proof.
  change MAX_READER with 127. intros Hinv Ha Hl Hlim.
  destruct (locked_word cc r l Hinv Ha Hl) as (v & Hv & <- & Hb & E).
  unfold ClockCache_read_lock. rewrite E. runm. rewrite try_read_view by (apply Hv || lia). runm.
  pose proof (set_lk_same v) as Hsame. case_decide; [|destruct weak].
  - destruct (store_lock_ok cc r v (lk v) (Err ReadLockBusy) Hinv Ha Hv Hb) as (cc' & E' & Hr).
    rewrite Hsame in E'. exists cc', (Err ReadLockBusy), (lk v). split; [exact E'|]. split; [done|]. tauto.
  - destruct (store_lock_ok cc r v (lk v) (Err LockBusy) Hinv Ha Hv Hb) as (cc' & E' & Hr).
    rewrite Hsame in E'. exists cc', (Err LockBusy), (lk v). split; [exact E'|]. split; [done|]. tauto.
  - destruct (store_lock_ok cc r v (lk v + 1) (Ok tt) Hinv Ha Hv) as (cc' & E' & Hr); [lia|].
    exists cc', (Ok tt), (lk v + 1). split; [exact E'|]. split; [done|]. left. split_and!; done || lia.
Qed.

Lemma read_lock_ok cc r l :
  cache_inv cc -> allocated_rid cc r -> lock_state cc r = Some l -> l + 1 < MAX_READER ->
  exists cc', ClockCache_read_lock r false cc = Ret (Ok tt, cc') /\ relocked cc r (l + 1) cc'.
Proof.
  intros Hinv Ha Hl Hb. destruct (try_read_lock_ok cc r l false Hinv Ha Hl (or_introl Hb))
    as (cc' & res & l' & E & Hr & [(-> & _ & -> & _)|[(_ & [=] & _)|(_ & -> & _)]]); [eauto|].
  by change MAX_READER with 127 in Hb.
Qed.

Lemma drop_read_guard_ok cc r l :
  cache_inv cc -> allocated_rid cc r -> lock_state cc r = Some l -> 1 <= l <= 127 ->
  exists cc', drop_read_guard r cc = Ret cc' /\ relocked cc r (l - 1) cc'.
Proof.
  intros Hinv Ha Hl Hb. pose proof Hinv as [(_ & Hoa & [L1 _] & _) _].
  destruct (L1 r Ha) as (v & Hv & _). rewrite (lock_state_view _ _ _ Hv) in Hl. injection Hl as <-.
  unfold drop_read_guard.
  destruct (oid_update_view (cc_oids cc) r v (set_lk v (lk v - 1)) OidReadGuard_drop Hoa Ha Hv)
    as (oa' & -> & Hset); [|apply set_lk_wf; [apply Hv|lia]|].
  { unfold OidReadGuard_drop. apply read_unlock_view; [apply Hv|done]. }
  runm. eexists. split; [done|]. by apply (set_lock_ok cc r v (lk v - 1) oa').
Qed.

Lemma drop_write_guard_ok cc r :
  cache_inv cc -> allocated_rid cc r -> lock_state cc r = Some 128 ->
  exists cc', drop_write_guard r cc = Ret cc' /\ relocked cc r 0 cc'.
Proof.
  intros Hinv Ha Hl. pose proof Hinv as [(_ & Hoa & [L1 _] & _) _].
  destruct (L1 r Ha) as (v & Hv & _). rewrite (lock_state_view _ _ _ Hv) in Hl. injection Hl as Hl.
  unfold drop_write_guard.
  destruct (oid_update_view (cc_oids cc) r v (set_lk v 0) OidWriteGuard_drop Hoa Ha Hv)
    as (oa' & -> & Hset); [|apply set_lk_wf; [apply Hv|lia]|].
  { unfold OidWriteGuard_drop. apply write_unlock_view; [apply Hv|done]. }
  runm. eexists. split; [done|]. by apply (set_lock_ok cc r v 0 oa').
Qed.

(** ** A new cache *)

Lemma clear_rids_replicate n (e : ClockNode) :
  clear_rids n (replicate n e) = replicate n (mkNode u32_MAX (cn_meta e) (cn_val e)).
Proof. induction n; simpl; congruence. Qed.

Lemma ClockCache_new_ok node_size cache_size probe_len prob storage_size ptr init :
  0 < node_size -> 0 < cache_size / node_size < 2 ^ 32 -> cache_size < 2 ^ 62 ->
  0 <= storage_size / Z.of_nat tuple_size < 2 ^ 31 -> 0 < ptr < 2 ^ 63 -> prob_ok prob ->
  Z.of_nat tuple_size < 2 ^ 16 ->
  (forall cap, 0 <= cap -> length (init cap) = Z.to_nat cap /\
     Forall (fun t => length t = tuple_size) (init cap)) ->
  exists cc, ClockCache_new node_size cache_size probe_len prob storage_size ptr init = Ret cc /\
    cache_inv cc /\ (forall r, ~ allocated_rid cc r) /\
    storage_size / Z.of_nat tuple_size <= oa_cap (cc_oids cc) /\
    (forall tid, ~ out_of_rids (cc_oids cc) tid).
Proof.
  intros Hns Hcnt Hcs Hst Hptr Hp Hts Hinit. unfold ClockCache_new, CacheInner_new, CacheInner_new_cap.
  set (cnt := cache_size / node_size) in *.
  assert (cnt * node_size <= cache_size) by (unfold cnt; rewrite Z.mul_comm; apply Z.mul_div_le; lia).
  rewrite Z.gtb_ltb, (proj2 (Z.ltb_lt _ _)) by lia. runm.
  rewrite chk_ok by (unfold fits; nia). runm. unfold layout_ok.
  rewrite (proj2 (Z.leb_le _ _)) by lia. runm. set (inner := mkInner _ _ _ _ _).
  destruct (OidArray_new_ok (M := M) (storage_size / Z.of_nat tuple_size) ptr)
    as (oa & -> & Hoa & Hcap & Ecap & Hna & Hroom); [lia..|]. runm. rewrite Ecap. runm. unfold Storage_new.
  rewrite chk_ok by (unfold fits; nia). runm. eexists. split; [done|]. split; [|split; [done|split; [simpl; lia|done]]].
  destruct (Hinit (oa_cap oa)) as [Hlen Hall]; [lia|].
  assert (Hes : ci_entries inner = replicate (Z.to_nat cnt) (mkNode u32_MAX 0 (replicate field_size 0))).
  { unfold inner. simpl. by rewrite clear_rids_replicate. }
  assert (Hempty : forall i n, ci_entries inner !! i = Some n -> cn_rid n = u32_MAX).
  { intros i n. rewrite Hes. intros Hl. apply lookup_replicate in Hl as [-> _]. done. }
  split; [split; [|split; [done|split]]|].
  - unfold ci_inv. cbn [cc_inner]. rewrite Hes, length_replicate. simpl. rewrite wrap_small by (unfold fits; lia).
    split; [lia|]. split; [lia|]. split; [intros tid i; by rewrite kv_get_empty|].
    split; [|done]. apply Forall_replicate. unfold fits. simpl. lia.
  - split; [intros r Ha; by apply Hna in Ha|]. intros i n Hn Hne. by apply Hempty in Hn.
  - split; [done|]. split; [simpl; lia|done].
  - intros i n Hn Hne. by apply Hempty in Hn.
Qed.
End refinement.

Arguments cache_inv {Sc} columns {T M _ _} cc.
Arguments inserted {Sc} columns {T M _ _} cc rid val cc'.
Arguments same_records {Sc} columns {T M _ _} cc cc'.
Arguments relocked {Sc} columns {T M _ _} cc r l' cc'.

(** ** What the cache promises *)
Section promises.
Context {Sc : Schema} {columns mut_columns : list Field} {L : SchemaLaws Sc columns mut_columns}.
Context {T M : Type} `{KvMapLaws Z T} `{KvMapLaws TlsAllocator M}.

(** C15: [insert] stores the tuple under a record id nobody has and returns it
    write-locked; whatever record it had to evict keeps its logical value,
    and so do all others, with their locks.  The invariant is kept.  The only
    other outcome is the panic of an array without free ids. *)
Theorem insert_adds_one_record (cc : ClockCache T M) tid val n u weak :
  cache_inv columns cc -> length val = tuple_size ->
  let spin := replicate n true ++ [false] in
  (exists rid cc', ClockCache_insert tid val spin u weak cc = Ret (rid, cc') /\
     inserted columns cc rid val cc') \/
  (ClockCache_insert tid val spin u weak cc = Panic /\ out_of_rids (cc_oids cc) tid).
Proof. apply ClockCache_insert_ok. Qed.

(** A read through a guard never panics, changes no record and no lock, and
    every queried column read through the returned references is that column
    of the record's current value, wherever it is stored. *)
Theorem read_sees_current_value (cc : ClockCache T M) r q u x :
  cache_inv columns cc -> allocated_rid cc r -> record_value cc r = Some x ->
  exists v cc', ClockCache_read r q u cc = Ret (v, cc') /\ same_records columns cc cc' /\
    forall f, f ∈ fields q -> f ∈ columns -> get_value v f cc' = Ret (load_field x f).
Proof.
  intros Hinv Ha Hx. destruct (ClockCache_read_ok cc r q u Hinv Ha) as (v & cc' & E & Hs & Href).
  exists v, cc'. split; [done|]. split; [done|]. intros f Hf Hc. destruct Hs as (Hinv' & Hal & Hvals).
  eapply get_value_ok; [done|by apply Hal|done| |by apply covers_query|done].
  destruct (Hvals r Ha) as [-> _]. done.
Qed.

(** C16: So does a read that promotes: under the write lock it may copy the
    record's fields into a slot and evict another record from it, and still
    no record changes its value or its lock. *)
Theorem promote_preserves_records (cc : ClockCache T M) tid r q u1 u2 u3 weak x :
  cache_inv columns cc -> allocated_rid cc r -> lock_state cc r = Some 128 -> record_value cc r = Some x ->
  exists v cc', read_and_promote tid r q u1 u2 u3 weak cc = Ret (v, cc') /\ same_records columns cc cc' /\
    forall f, f ∈ fields q -> f ∈ columns -> get_value v f cc' = Ret (load_field x f).
Proof.
  intros Hinv Ha Hl Hx.
  destruct (read_and_promote_ok cc tid r q u1 u2 u3 weak Hinv Ha Hl) as (v & cc' & E & Hs & Href).
  exists v, cc'. split; [done|]. split; [done|]. intros f Hf Hc. destruct Hs as (Hinv' & Hal & Hvals).
  eapply get_value_ok; [done|by apply Hal|done| |by apply covers_query|done].
  destruct (Hvals r Ha) as [-> _]. done.
Qed.

(** C14: A write through the references of a promoting read changes that column of
    that record and nothing else, and the references stay good for the next
    access. *)
Theorem write_updates_one_column (cc : ClockCache T M) tid r q u1 u2 u3 weak x f bs :
  cache_inv columns cc -> allocated_rid cc r -> lock_state cc r = Some 128 -> record_value cc r = Some x ->
  f ∈ fields q -> f ∈ mut_columns -> length bs = Z.to_nat (Field_len f) ->
  exists v cc1 cc2, read_and_promote tid r q u1 u2 u3 weak cc = Ret (v, cc1) /\
    get_value_mut v f bs cc1 = Ret cc2 /\ cache_inv columns cc2 /\
    record_value cc2 r = Some (store_field x f bs) /\ get_value v f cc2 = Ret bs /\
    (forall r', allocated_rid cc r' -> r' <> r -> record_value cc2 r' = record_value cc r').
Proof.
  intros Hinv Ha Hl Hx Hf Hm Hb.
  destruct (read_and_promote_ok cc tid r q u1 u2 u3 weak Hinv Ha Hl)
    as (v & cc1 & E & (Hinv1 & Hal & Hvals) & Href).
  assert (Ha1 : allocated_rid cc1 r) by (by apply Hal).
  destruct (Hvals r Ha) as [Ev _]. rewrite Hx in Ev.
  destruct (get_value_mut_ok cc1 r q v x f bs Hinv1 Ha1 Href Ev (covers_query _ _ Hf) Hm Hb)
    as (cc2 & E2 & (Hinv2 & Hv2 & Ho2 & Hk2) & Href2).
  exists v, cc1, cc2. split; [done|]. split; [done|]. split; [done|]. split; [done|]. split.
  - rewrite (get_value_ok cc2 r q v (store_field x f bs) f); [|done| |done|done|by apply covers_query|by apply mut_columns_sub].
    + f_equal. apply (load_store_field_same _ _ tuple_size); [by apply columns_in_tuple, mut_columns_sub| |done].
      destruct (record_cases cc r Hinv Ha) as (w & t & _ & _ & Hlen & _ & [(_ & _ & ?)|(_ & _ & n & _ & _ & (Hc & _) & ?)]).
      * congruence.
      * assert (x = write_back (cn_val n) t) as -> by congruence. by apply write_back_length.
    + unfold allocated_rid in *. by rewrite Ho2.
  - intros r' Ha' Hne. rewrite Hk2; [by apply Hvals|by apply Hal|done].
Qed.

(** [write_lock] succeeds exactly on a free word (up to a spurious failure of
    the exchange, reported as [LockBusy]); a busy one is reported as
    [WriteLockBusy] and left alone; no record is touched. *)
Theorem write_lock_exclusive (cc : ClockCache T M) r l weak :
  cache_inv columns cc -> allocated_rid cc r -> lock_state cc r = Some l ->
  exists cc' res l', ClockCache_write_lock r weak cc = Ret (res, cc') /\ relocked columns cc r l' cc' /\
    ((res = Ok tt /\ l = 0 /\ l' = 128) \/
     (res = Err LockBusy /\ weak = true /\ l' = l) \/
     (res = Err WriteLockBusy /\ l <> 0 /\ l' = l)).
Proof. apply write_lock_ok. Qed.
End promises.

(** ** A small instance: two 8-byte columns, the whole tuple cached, two slots *)
Module Demo.
Definition pair_layout : layout := [("k", u64); ("v", u64)].
#[local] Instance pair_schema : Schema := whole_schema pair_layout (fun t => Ret (le_word (take 8 t))).

Definition col_v : Field := mk_field pair_layout "v".
Definition pair_cols : list Field := columns_of pair_layout.

#[local] Instance pair_laws : SchemaLaws pair_schema pair_cols pair_cols.
Proof. apply whole_laws. vm_compute. reflexivity. Qed.

Abbreviation dcache := (ClockCache (gmap Z Z) (gmap Z TlsAllocator)) (only parsing).

Definition fresh : outcome dcache :=
  ClockCache_new 24 48 6 (1 # 2) 160 4096 (fun cap => replicate (Z.to_nat cap) (replicate 16 0)).

Definition tup (k v : Z) : obj := le_bytes 8 k ++ le_bytes 8 v.

Lemma fresh_inv :
  exists cc : dcache, fresh = Ret cc /\ cache_inv pair_cols cc /\ forall tid, ~ out_of_rids (cc_oids cc) tid.
Proof.
  destruct (ClockCache_new_ok (T := gmap Z Z) (M := gmap Z TlsAllocator) (columns := pair_cols)
    24 48 6 (1 # 2) 160 4096 (fun cap => replicate (Z.to_nat cap) (replicate 16 0)))
    as (cc & E & Hi & _ & _ & Hn);
    [lia|split; reflexivity|lia|split; [vm_compute; discriminate|reflexivity]|lia| |reflexivity| |].
  - split; unfold Qle; simpl; lia.
  - intros cap Hc. rewrite length_replicate. split; [done|]. apply Forall_replicate. reflexivity.
  - exists cc. split; [exact E|]. by split.
Qed.

(** The cache with one record, by the thread that allocates its first arena. *)
Lemma one_record :
  exists (cc : dcache) r, cache_inv pair_cols cc /\ allocated_rid cc r /\ lock_state cc r = Some 128 /\
    record_value cc r = Some (tup 1 2).
Proof.
  destruct fresh_inv as (cc & E & Hi & Hn).
  destruct (ClockCache_insert_ok (L := pair_laws) cc 1 (tup 1 2) 0 0 (fun _ => (false, false)) Hi
              eq_refl) as [(rid & cc' & _ & H)|[_ Hr]].
  - exists cc', rid. destruct H as (H1 & _ & _ & H4 & H5 & H6 & _). split; [done|].
    split; [apply H4; by left|done].
  - by apply Hn in Hr.
Qed.

Abbreviation no_fail := (fun _ : nat => (false, false)) (only parsing).

Lemma insert_adds_one_record_witness :
  exists cc : dcache, cache_inv pair_cols cc /\
    ((exists rid cc', ClockCache_insert 1 (tup 3 4) [true; false] 0 no_fail cc = Ret (rid, cc') /\
        inserted pair_cols cc rid (tup 3 4) cc') \/
     (ClockCache_insert 1 (tup 3 4) [true; false] 0 no_fail cc = Panic /\ out_of_rids (cc_oids cc) 1)).
Proof.
  destruct fresh_inv as (cc & _ & Hi & _). exists cc. split; [exact Hi|].
  exact (insert_adds_one_record (L := pair_laws) cc 1 (tup 3 4) 1 0 no_fail Hi eq_refl).
Defined.

Lemma col_v_in : col_v ∈ fields (FieldsMeta_new [col_v]) /\ col_v ∈ pair_cols.
Proof. split; [by left|]. right. by left. Qed.

Lemma read_sees_current_value_witness :
  exists (cc : dcache) r v cc',
    ClockCache_read r (FieldsMeta_new [col_v]) (1 # 3) cc = Ret (v, cc') /\
    get_value v col_v cc' = Ret (load_field (tup 1 2) col_v).
Proof.
  destruct one_record as (cc & r & Hi & Ha & _ & Hx). exists cc, r.
  destruct (read_sees_current_value (L := pair_laws) cc r (FieldsMeta_new [col_v]) (1 # 3) (tup 1 2) Hi Ha Hx)
    as (v & cc' & E & _ & H).
  exists v, cc'. split; [exact E|]. apply H; apply col_v_in.
Defined.

Lemma promote_preserves_records_witness :
  exists (cc : dcache) r v cc',
    read_and_promote 1 r (FieldsMeta_new [col_v]) 0 0 0 no_fail cc = Ret (v, cc') /\
    get_value v col_v cc' = Ret (load_field (tup 1 2) col_v).
Proof.
  destruct one_record as (cc & r & Hi & Ha & Hl & Hx). exists cc, r.
  destruct (promote_preserves_records (L := pair_laws) cc 1 r (FieldsMeta_new [col_v]) 0 0 0 no_fail
              (tup 1 2) Hi Ha Hl Hx) as (v & cc' & E & _ & H).
  exists v, cc'. split; [exact E|]. apply H; apply col_v_in.
Defined.

Lemma write_updates_one_column_witness :
  exists (cc : dcache) r v cc1 cc2,
    read_and_promote 1 r (FieldsMeta_new [col_v]) 0 0 0 no_fail cc = Ret (v, cc1) /\
    get_value_mut v col_v (le_bytes 8 9) cc1 = Ret cc2 /\ get_value v col_v cc2 = Ret (le_bytes 8 9).
Proof.
  destruct one_record as (cc & r & Hi & Ha & Hl & Hx). exists cc, r.
  destruct (write_updates_one_column (L := pair_laws) cc 1 r (FieldsMeta_new [col_v]) 0 0 0 no_fail
              (tup 1 2) col_v (le_bytes 8 9) Hi Ha Hl Hx (proj1 col_v_in) (proj2 col_v_in) eq_refl)
    as (v & cc1 & cc2 & E1 & E2 & _ & _ & E3 & _).
  exists v, cc1, cc2. split; [exact E1|]. split; [exact E2|exact E3].
Defined.

Lemma write_lock_exclusive_witness :
  exists (cc : dcache) r cc' res l', ClockCache_write_lock r false cc = Ret (res, cc') /\
    relocked pair_cols cc r l' cc' /\ res = Err WriteLockBusy.
Proof.
  destruct one_record as (cc & r & Hi & Ha & Hl & _). exists cc, r.
  destruct (write_lock_exclusive (columns := pair_cols) cc r 128 false Hi Ha Hl)
    as (cc' & res & l' & E & Hr & Hcase).
  exists cc', res, l'. split; [exact E|]. split; [exact Hr|].
  destruct Hcase as [(_ & H & _)|[(_ & H & _)|(H & _)]]; [discriminate H|discriminate H|exact H].
Defined.
End Demo.
