(* ===== verification/CacheMachine.v ===== *)
(** * Threads sharing the cache (src/attribute_cache/clock_cache)

    The operations of cache_inner.rs and mod.rs cut at their shared accesses,
    as a machine in which any number of guards, insertions and promotions
    interleave.  Each live guard is an activity of its own, so one thread may
    hold several.  A step loads, exchanges or stores one word, one slot or one
    tuple.  Taking a read lock is three steps, as its debug assertion loads the
    word a second time: other threads come between the load, the assertion and
    the exchange.  Where the load of an exchange asserts nothing, the two are
    one step, and an exchange that fails because another thread interfered is
    the [weak] failure of that step (Oid.v's [LockMachine] has them apart).  Which slot a probe looks
    at, and when it gives up, is left open, so the clock hand, the probe length
    and the random draws of any thread are covered. *)

From Stdlib Require Import QArith.
From S2P Require Import Prelude Query Schema External NodeMeta Oid ObjAlloc OidArray CacheInner.
Open Scope Z_scope.

Section machine.
Context {Sc : Schema}.

(** The words of the allocated records, the slots and the stored tuples. *)
Record shared := mkShared {
  sh_words : gmap Z Z;
  sh_slots : list ClockNode;
  sh_store : Storage;
}.

(** What a probe is for: [read_and_promote] with a query, or [insert]. *)
Inductive purpose :=
| Promote (q : FieldsMeta)
| Insert (val : obj).

(** The query values borrowed from a guard. *)
Abbreviation refs := (list (FieldsMeta * QueryValue)) (only parsing).

(** What a guard is in the middle of.  [r] is the record of the guard, [node]
    the new node of a probe, [i] the slot it looks at or has taken, [v] the
    record to evict and [old] the node that was in the slot.  The first two are
    not guards yet: a [try_read] that has loaded [val] and not come to its
    assertion, and a [try_read] or a blocking [read] before its exchange. *)
Inductive activity :=
| ATry (r : Rid) (val : Z)
| AReadCas (r : Rid) (val : Z) (blocking : bool)
| ARead (r : Rid) (qs : refs)
| AWrite (r : Rid) (qs : refs)
| AProbe (k : purpose) (r : Rid) (node : ClockNode)
| AClaimed (k : purpose) (r : Rid) (node : ClockNode) (i : Z)
| AFilled (k : purpose) (r : Rid) (i : Z)
| AVictim (k : purpose) (r : Rid) (node : ClockNode) (i : Z) (v : Rid)
| ALock (k : purpose) (r : Rid) (node : ClockNode) (i : Z) (v : Rid)
| ALocked (k : purpose) (r : Rid) (node : ClockNode) (i : Z) (v : Rid)
| AUnlock (k : purpose) (r : Rid) (node : ClockNode) (v : Rid)
| AValid (k : purpose) (r : Rid) (node : ClockNode) (i : Z) (v : Rid)
| AReplace (k : purpose) (r : Rid) (node : ClockNode) (i : Z) (v : Rid)
| AReplaced (k : purpose) (r : Rid) (i : Z) (v : Rid) (old : ClockNode)
| AIndexed (k : purpose) (r : Rid) (i : Z) (evicted : option (Rid * ClockNode))
| AEvicted (k : purpose) (r : Rid) (i : Z) (v : Rid) (old : ClockNode)
| ARelease (k : purpose) (r : Rid) (i : Z) (v : Rid)
| AFinish (k : purpose) (r : Rid) (loc : option Z).

(** What a step shows to the outside. *)
Inductive label :=
| Tau
| LInsert (r : Rid) (val : obj)
| LReadLock (r : Rid)
| LWriteLock (r : Rid)
| LUpgrade (r : Rid)
| LReadDrop (r : Rid)
| LWriteDrop (r : Rid)
| LGet (r : Rid) (f : Field) (bs : obj)
| LSet (r : Rid) (f : Field) (bs : obj).

(** ** Shared accesses *)
Definition load_word (s : shared) (r : Rid) : outcome Z :=
  match sh_words s !! r with Some w => Ret w | None => Undef end.

Definition store_word (s : shared) (r : Rid) (w : Z) : shared :=
  mkShared (<[r := w]> (sh_words s)) (sh_slots s) (sh_store s).

Definition slot (s : shared) (i : Z) : outcome ClockNode :=
  match sh_slots s !! Z.to_nat i with Some n => Ret n | None => Undef end.

Definition put_slot (s : shared) (i : Z) (n : ClockNode) : shared :=
  mkShared (sh_words s) (<[Z.to_nat i := n]> (sh_slots s)) (sh_store s).

Definition put_store (s : shared) (st : Storage) : shared :=
  mkShared (sh_words s) (sh_slots s) st.

(** An operation on the word behind a guard. *)
Definition word_op (s : shared) (r : Rid) (f : Z -> outcome Z) : outcome shared :=
  w ← load_word s r;
  w ← f w;
  Ret (store_word s r w).

Abbreviation stepped := (label * list activity * shared)%type (only parsing).

(** ** Guards *)

(** The query value of a cached record: the slot, and the tuple as well when
    the query names a field that is not cached. *)
Definition slot_value (s : shared) (i : Z) (q : FieldsMeta) : outcome QueryValue :=
  if matches q then Ret (QueryValue_new (Some i) None)
  else
    entry ← slot s i;
    rid ← ClockNode_rid entry;
    _ ← Storage_get (sh_store s) rid;
    Ret (QueryValue_new (Some i) (Some rid)).

Definition touch_slot (s : shared) (i : Z) (prob u : Q) : outcome shared :=
  entry ← slot s i;
  entry ← ClockNode_set_ref prob u entry;
  Ret (put_slot s i entry).

(** [ClockCache::read] through a guard on [r]. *)
Definition do_read (s : shared) (r : Rid) (q : FieldsMeta) (prob u : Q)
    : outcome (QueryValue * shared) :=
  w ← load_word s r;
  if is_cached w then
    i ← to_cache_index w;
    s ← touch_slot s i prob u;
    v ← slot_value s i q;
    Ret (v, s)
  else
    _ ← rassert (is_rid w);
    rid ← to_rid w;
    _ ← Storage_get (sh_store s) rid;
    Ret (QueryValue_new None (Some rid), s).

(** [*value.get_value(field)] and [*value.get_value_mut(field) = bs]. *)
Definition do_get (s : shared) (v : QueryValue) (f : Field) : outcome obj :=
  p ← value_place v f;
  n ← Field_size f;
  match p with
  | InCache i off => e ← slot s i; raw_read (cn_val e) off n
  | InTuple rid off => t ← Storage_get (sh_store s) rid; raw_read t off n
  end.

Definition do_set (s : shared) (v : QueryValue) (f : Field) (bs : obj) : outcome shared :=
  p ← value_place v f;
  match p with
  | InCache i off =>
      e ← slot s i;
      val ← raw_write (cn_val e) off bs;
      Ret (put_slot s i (mkNode (cn_rid e) (cn_meta e) val))
  | InTuple rid off =>
      t ← Storage_get (sh_store s) rid;
      t ← raw_write t off bs;
      st ← Storage_get_mut (sh_store s) rid t;
      Ret (put_store s st)
  end.

(** The first load of [try_read], or a load of the loop of [read].  A write
    lock makes [try_read] give up and [read] load again later. *)
Definition do_read_load (s : shared) (r : Rid) (blocking : bool) : outcome stepped :=
  w ← load_word s r;
  Ret (match try_read_load w with
       | Ok val => (Tau, [if blocking then AReadCas r val true else ATry r val], s)
       | Err _ => (Tau, [], s)
       end).

(** The debug assertion of [try_read], on what it loads. *)
Definition do_read_check (s : shared) (r : Rid) (val : Z) : outcome stepped :=
  w ← load_word s r;
  _ ← try_read_check w;
  Ret (Tau, [AReadCas r val false], s).

(** The exchange: a guard; or [try_read] gives up, and [read] goes on with the
    word the exchange found. *)
Definition do_read_exchange (s : shared) (r : Rid) (val : Z) (blocking weak : bool) : outcome stepped :=
  w ← load_word s r;
  Ret (match read_exchange val w weak with
       | (Ok _, w') => (LReadLock r, [ARead r []], store_word s r w')
       | (Err v, _) =>
           (Tau, if blocking && negb (write_locked v) then [AReadCas r v true] else [], s)
       end).

(** The exchange of [try_write]; no guard on failure. *)
Definition do_write_lock (s : shared) (r : Rid) (weak : bool) : outcome stepped :=
  w ← load_word s r;
  let '(res, w) := try_write w weak in
  Ret (match res with
       | Ok _ => (LWriteLock r, [AWrite r []], store_word s r w)
       | Err _ => (Tau, [], s)
       end).

Definition do_upgrade (s : shared) (r : Rid) (weak : bool) : outcome stepped :=
  w ← load_word s r;
  '(res, w) ← upgrade w weak;
  Ret (match res with
       | Ok _ => (LUpgrade r, [AWrite r []], store_word s r w)
       | Err _ => (Tau, [ARead r []], s)
       end).

(** ** Insertion and promotion up to the probe *)

(** [alloc_rid] hands out the fresh [r], write-locked; then the new node. *)
Definition do_insert (s : shared) (r : Rid) (val : obj) (spin : list bool) : outcome stepped :=
  w ← write_alone spin (LockedOid_from_rid 0);
  let s := store_word s r (store_rid w r) in
  w ← load_word s r;
  _ ← rassert (is_rid w);
  rid ← to_rid w;
  Ret (Tau, [AProbe (Insert val) rid (ClockNode_new (to_cached val) rid)], s).

Definition do_promote (s : shared) (r : Rid) (q : FieldsMeta) (probe_len : Z) (prob u : Q)
    : outcome stepped :=
  w ← load_word s r;
  if is_cached w then
    '(v, s) ← do_read s r q prob u;
    Ret (Tau, [AWrite r [(q, v)]], s)
  else
    rid ← to_rid w;
    tuple ← Storage_get (sh_store s) rid;
    if probe_len =? 0 then Ret (Tau, [AWrite r [(q, QueryValue_new None (Some rid))]], s)
    else Ret (Tau, [AProbe (Promote q) rid (ClockNode_new (to_cached tuple) rid)], s).

(** ** The probe *)

(** The slot is empty: claim it; occupied: its record is the one to evict. *)
Definition do_look (s : shared) (k : purpose) (r : Rid) (node : ClockNode) (i : Z) (weak : bool)
    : outcome stepped :=
  e ← slot s i;
  if cn_rid e =? u32_MAX then
    match cas_weak (cn_rid e) u32_MAX r weak with
    | (Ok _, rid') =>
        Ret (Tau, [AClaimed k r node i], put_slot s i (mkNode rid' (cn_meta e) (cn_val e)))
    | (Err _, _) => Ret (Tau, [AProbe k r node], s)
    end
  else Ret (Tau, [AVictim k r node i (cn_rid e)], s).

Definition do_clear_ref (s : shared) (k : purpose) (r : Rid) (node : ClockNode) (i : Z) (v : Rid)
    : outcome stepped :=
  e ← slot s i;
  let '(was, e) := try_clear_ref e in
  Ret (Tau, [if was : bool then AProbe k r node else ALock k r node i v], put_slot s i e).

Definition do_lock_victim (s : shared) (k : purpose) (r : Rid) (node : ClockNode) (i : Z) (v : Rid)
    (weak : bool) : outcome stepped :=
  v ← Rid_from_u32 v;
  w ← load_word s v;
  let '(res, w) := try_write w weak in
  Ret (match res with
       | Ok _ => (Tau, [ALocked k r node i v], store_word s v w)
       | Err _ => (Tau, [AProbe k r node], s)
       end).

Definition do_validate (s : shared) (k : purpose) (r : Rid) (node : ClockNode) (i : Z) (v : Rid)
    (weak : bool) : outcome stepped :=
  e ← slot s i;
  Ret (match cas_weak (cn_rid e) v v weak with
       | (Ok _, _) => (Tau, [AValid k r node i v], s)
       | (Err _, _) => (Tau, [AUnlock k r node v], s)
       end).

(** [oid_to_evict.store_rid(&cur_entry.rid())]. *)
Definition do_clear_index (s : shared) (k : purpose) (r : Rid) (node : ClockNode) (i : Z) (v : Rid)
    : outcome stepped :=
  e ← slot s i;
  rid ← ClockNode_rid e;
  s ← word_op s v (fun w => Ret (store_rid w rid));
  Ret (Tau, [AReplace k r node i v], s).

Definition do_replace (s : shared) (k : purpose) (r : Rid) (node : ClockNode) (i : Z) (v : Rid)
    : outcome stepped :=
  old ← slot s i;
  Ret (Tau, [AReplaced k r i v old], put_slot s i node).

(** [oid.store_index(cur_index)]. *)
Definition do_store_index (s : shared) (k : purpose) (r : Rid) (i : Z)
    (evicted : option (Rid * ClockNode)) : outcome stepped :=
  s ← word_op s r (fun w => Ret (store_index w i));
  Ret (Tau, [AIndexed k r i evicted], s).

(** ** After the probe *)

(** A promotion marks the new entry; then the evicted node is written back. *)
Definition do_indexed (s : shared) (k : purpose) (r : Rid) (i : Z)
    (evicted : option (Rid * ClockNode)) (prob u : Q) : outcome stepped :=
  s ← match k with
      | Promote _ => touch_slot s i prob u
      | Insert _ => Ret s
      end;
  Ret (Tau, [match evicted with
             | Some (v, old) => AEvicted k r i v old
             | None => AFinish k r (Some i)
             end], s).

Definition do_write_back (s : shared) (k : purpose) (r : Rid) (i : Z) (v : Rid) (old : ClockNode)
    : outcome stepped :=
  rid ← ClockNode_rid old;
  tuple ← Storage_get (sh_store s) rid;
  st ← Storage_get_mut (sh_store s) rid (write_back (cn_val old) tuple);
  Ret (Tau, [ARelease k r i v], put_store s st).

(** The end of [insert]: store the tuple.  The end of [read_and_promote]: the
    query value, of the slot or, after a miss, of the tuple. *)
Definition do_finish (s : shared) (k : purpose) (r : Rid) (loc : option Z) : outcome stepped :=
  match k with
  | Insert val =>
      st ← Storage_insert (sh_store s) r val;
      Ret (LInsert r val, [AWrite r []], put_store s st)
  | Promote q =>
      match loc with
      | Some i => v ← slot_value s i q; Ret (Tau, [AWrite r [(q, v)]], s)
      | None => Ret (Tau, [AWrite r [(q, QueryValue_new None (Some r))]], s)
      end
  end.
End machine.

(** The specification's state: a record is its tuple with the number of its
    readers, or 128 for a writer. *)
Abbreviation table_spec := (gmap Z (list Z * Z)) (only parsing).

(** ** The machine *)
Section steps.
Context {Sc : Schema} (columns mut_columns : list Field) (probe_len : Z) (prob : Q).

(** The next step of an activity. *)
Inductive astep (s : shared) : activity -> outcome (label * list activity * shared) -> Prop :=
| step_read_check r val :
    astep s (ATry r val) (do_read_check s r val)
| step_read_exchange r val blocking weak :
    astep s (AReadCas r val blocking) (do_read_exchange s r val blocking weak)
| step_read r qs q u :
    fields q ⊆ columns ->
    astep s (ARead r qs)
      ('(v, s') ← do_read s r q prob u; Ret (Tau, [ARead r ((q, v) :: qs)], s'))
| step_read_w r qs q u :
    fields q ⊆ columns ->
    astep s (AWrite r qs)
      ('(v, s') ← do_read s r q prob u; Ret (Tau, [AWrite r ((q, v) :: qs)], s'))
| step_get r qs q v f :
    (q, v) ∈ qs -> f ∈ fields q ->
    astep s (ARead r qs) (bs ← do_get s v f; Ret (LGet r f bs, [ARead r qs], s))
| step_get_w r qs q v f :
    (q, v) ∈ qs -> f ∈ fields q ->
    astep s (AWrite r qs) (bs ← do_get s v f; Ret (LGet r f bs, [AWrite r qs], s))
| step_set r qs q v f bs :
    (q, v) ∈ qs -> f ∈ fields q -> f ∈ mut_columns -> length bs = Z.to_nat (Field_len f) ->
    astep s (AWrite r qs) (s' ← do_set s v f bs; Ret (LSet r f bs, [AWrite r qs], s'))
| step_read_drop r qs :
    astep s (ARead r qs) (s' ← word_op s r OidReadGuard_drop; Ret (LReadDrop r, [], s'))
| step_write_drop r qs :
    astep s (AWrite r qs) (s' ← word_op s r OidWriteGuard_drop; Ret (LWriteDrop r, [], s'))
| step_upgrade r qs weak :
    astep s (ARead r qs) (do_upgrade s r weak)
| step_promote r qs q u :
    fields q ⊆ columns ->
    astep s (AWrite r qs) (do_promote s r q probe_len prob u)
| step_look k r node i weak :
    0 <= i < Z.of_nat (length (sh_slots s)) ->
    astep s (AProbe k r node) (do_look s k r node i weak)
| step_give_up k r node :
    astep s (AProbe k r node) (Ret (Tau, [AFinish k r None], s))
| step_fill k r node i :
    astep s (AClaimed k r node i) (Ret (Tau, [AFilled k r i], put_slot s i node))
| step_index k r i :
    astep s (AFilled k r i) (do_store_index s k r i None)
| step_clear_ref k r node i v :
    astep s (AVictim k r node i v) (do_clear_ref s k r node i v)
| step_lock_victim k r node i v weak :
    astep s (ALock k r node i v) (do_lock_victim s k r node i v weak)
| step_validate k r node i v weak :
    astep s (ALocked k r node i v) (do_validate s k r node i v weak)
| step_unlock k r node v :
    astep s (AUnlock k r node v)
      (s' ← word_op s v OidWriteGuard_drop; Ret (Tau, [AProbe k r node], s'))
| step_clear_index k r node i v :
    astep s (AValid k r node i v) (do_clear_index s k r node i v)
| step_replace k r node i v :
    astep s (AReplace k r node i v) (do_replace s k r node i v)
| step_reindex k r i v old :
    astep s (AReplaced k r i v old) (do_store_index s k r i (Some (v, old)))
| step_indexed k r i ev u :
    astep s (AIndexed k r i ev) (do_indexed s k r i ev prob u)
| step_write_back k r i v old :
    astep s (AEvicted k r i v old) (do_write_back s k r i v old)
| step_release k r i v :
    astep s (ARelease k r i v)
      (s' ← word_op s v OidWriteGuard_drop; Ret (Tau, [AFinish k r (Some i)], s'))
| step_finish k r loc :
    astep s (AFinish k r loc) (do_finish s k r loc).

(** A new guard on an allocated record, or a new record. *)
Inductive sstart (s : shared) : outcome (label * list activity * shared) -> Prop :=
| start_read r blocking :
    is_Some (sh_words s !! r) -> sstart s (do_read_load s r blocking)
| start_write r weak :
    is_Some (sh_words s !! r) -> sstart s (do_write_lock s r weak)
| start_insert r val n :
    sh_words s !! r = None -> Rid_ok r -> r < sg_cap (sh_store s) -> length val = tuple_size ->
    sstart s (do_insert s r val (replicate n true ++ [false])).

(** A configuration: the shared memory and what every guard is doing. *)
Definition config : Type := shared * list activity.

(** [cstep c o]: some activity moves, or a new one starts, with outcome [o]. *)
Inductive cstep : config -> outcome (label * config) -> Prop :=
| cstep_act s p1 a p2 o :
    astep s a o ->
    cstep (s, p1 ++ a :: p2) ('(l, new, s') ← o; Ret (l, (s', p1 ++ new ++ p2)))
| cstep_start s acts o :
    sstart s o ->
    cstep (s, acts) ('(l, new, s') ← o; Ret (l, (s', new ++ acts))).

Definition reads (r : Rid) (a : activity) : bool :=
  match a with ARead r' _ => bool_decide (r' = r) | _ => false end.

(** Fewer than [MAX_READER] read guards are alive on any record. *)
Definition few_readers (acts : list activity) : Prop :=
  forall r, Z.of_nat (length (filter (fun a => reads r a = true) acts)) < MAX_READER.

(** Runs with few readers, and the steps in them that show something.  A thread
    whose [try_read] fails its assertion unwinds, without a guard. *)
Definition visible (l : label) : list label := match l with Tau => [] | _ => [l] end.

Inductive cruns : config -> list label -> config -> Prop :=
| cruns_refl c : cruns c [] c
| cruns_step c l c' ls c'' :
    cstep c (Ret (l, c')) -> few_readers c'.2 -> cruns c' ls c'' -> cruns c (visible l ++ ls) c''
| cruns_unwind s p1 r val p2 ls c'' :
    astep s (ATry r val) Panic -> cruns (s, p1 ++ p2) ls c'' ->
    cruns (s, p1 ++ ATry r val :: p2) ls c''.

(** An empty table: no word, every slot empty. *)
Definition initial (s : shared) : Prop :=
  sh_words s = ∅ /\ Forall (fun n => cn_rid n = u32_MAX) (sh_slots s) /\
  Z.of_nat (length (sh_slots s)) < 2 ^ 32 /\
  sg_cap (sh_store s) = Z.of_nat (length (sg_heap (sh_store s))) /\
  Forall (fun t => length t = tuple_size) (sg_heap (sh_store s)).

(** ** The specification: a map of records under reader-writer locks

    There are no slots and nothing to evict. *)
Inductive sstep : table_spec -> label -> table_spec -> Prop :=
| s_insert M r val :
    M !! r = None -> sstep M (LInsert r val) (<[r := (val, 128)]> M)
| s_read_lock M r t n :
    M !! r = Some (t, n) -> n < 127 -> sstep M (LReadLock r) (<[r := (t, n + 1)]> M)
| s_write_lock M r t :
    M !! r = Some (t, 0) -> sstep M (LWriteLock r) (<[r := (t, 128)]> M)
| s_upgrade M r t :
    M !! r = Some (t, 1) -> sstep M (LUpgrade r) (<[r := (t, 128)]> M)
| s_read_drop M r t n :
    M !! r = Some (t, n) -> 0 < n <= 127 -> sstep M (LReadDrop r) (<[r := (t, n - 1)]> M)
| s_write_drop M r t :
    M !! r = Some (t, 128) -> sstep M (LWriteDrop r) (<[r := (t, 0)]> M)
| s_get M r t n f :
    M !! r = Some (t, n) -> 0 < n -> f ∈ columns ->
    sstep M (LGet r f (load_field t f)) M
| s_set M r t f bs :
    M !! r = Some (t, 128) -> f ∈ mut_columns -> length bs = Z.to_nat (Field_len f) ->
    sstep M (LSet r f bs) (<[r := (store_field t f bs, 128)]> M).

Inductive sruns : table_spec -> list label -> table_spec -> Prop :=
| sruns_refl M : sruns M [] M
| sruns_step M l M' ls M'' : sstep M l M' -> sruns M' ls M'' -> sruns M (l :: ls) M''.

(** ** Roles

    What an activity is doing to a record: holding it, putting its new node
    into a slot, or taking it out of one. *)
Inductive role :=
| RRead (qs : list (FieldsMeta * QueryValue))
| RWrite (qs : list (FieldsMeta * QueryValue))
| RNew (k : purpose) (node : ClockNode)
| RClaim (k : purpose) (node : ClockNode) (i : Z)
| RFill (k : purpose) (i : Z)
| RDone (k : purpose) (loc : option Z)
| RVictim
| RValid (i : Z)
| REvict (i : Z)
| REvicted (old : ClockNode).

Definition roles_of (a : activity) : list (Z * role) :=
  match a with
  | ATry _ _ | AReadCas _ _ _ => []
  | ARead r qs => [(r, RRead qs)]
  | AWrite r qs => [(r, RWrite qs)]
  | AProbe k r node | AVictim k r node _ _ | ALock k r node _ _ => [(r, RNew k node)]
  | AClaimed k r node i => [(r, RClaim k node i)]
  | AFilled k r i => [(r, RFill k i)]
  | ALocked k r node _ v | AUnlock k r node v => [(r, RNew k node); (v, RVictim)]
  | AValid k r node i v => [(r, RNew k node); (v, RValid i)]
  | AReplace k r node i v => [(r, RNew k node); (v, REvict i)]
  | AReplaced k r i v old => [(r, RFill k i); (v, REvicted old)]
  | AIndexed k r i None => [(r, RDone k (Some i))]
  | AIndexed k r i (Some (v, old)) | AEvicted k r i v old =>
      [(r, RDone k (Some i)); (v, REvicted old)]
  | ARelease k r i v => [(r, RDone k (Some i)); (v, RVictim)]
  | AFinish k r loc => [(r, RDone k loc)]
  end.

Definition role_at (r : Rid) (a : activity) : list role :=
  omap (fun p => if decide (p.1 = r) then Some p.2 else None) (roles_of a).

Definition roles (acts : list activity) (r : Rid) : list role := acts ≫= role_at r.

(** ** The state of one record *)

(** Slot [i] holds [c] for record [r]. *)
Definition in_slot (slots : list ClockNode) (r : Rid) (i : nat) (c : obj) : Prop :=
  exists n, slots !! i = Some n /\ cn_rid n = r /\ cn_val n = c.

Definition nowhere (sv : nat -> obj -> Prop) : Prop := forall i c, ~ sv i c.

Definition only (sv : nat -> obj -> Prop) (i : Z) (c : obj) : Prop :=
  sv (Z.to_nat i) c /\ forall j c', sv j c' -> j = Z.to_nat i /\ c' = c.

(** [t] is the stored tuple, [x] the record: the tuple, or the slot's fields
    written into it. *)
Definition steady (sv : nat -> obj -> Prop) (r : Rid) (w : oid_view) (t x : obj) : Prop :=
  if ov_cached w
  then exists c, only sv (ov_id w) c /\ agree columns c t /\ x = write_back c t
  else ov_id w = r /\ nowhere sv /\ x = t.

(** A query value points to where the record's columns are. *)
Definition ref_ok (r : Rid) (w : oid_view) (p : FieldsMeta * QueryValue) : Prop :=
  fields p.1 ⊆ columns /\ points_to p.1 p.2 (ov_cached w) (ov_id w) r.

(** The new node [node] of [r] is a copy of the record; a record being
    inserted is not in the table yet. *)
Definition fresh_copy (k : purpose) (t c : obj) (m : option (obj * Z)) : Prop :=
  match k with
  | Promote q => fields q ⊆ columns /\ m = Some (t, 128) /\ c = to_cached t
  | Insert val => length val = tuple_size /\ m = None /\ c = to_cached val
  end.

(** The one activity that holds [r] exclusively, and what it leaves of it. *)
Definition excl_ok (sv : nat -> obj -> Prop) (r : Rid) (w : oid_view) (t : obj) (x : role)
    (m : option (obj * Z)) : Prop :=
  match x with
  | RRead _ => False
  | RWrite qs => exists y, steady sv r w t y /\ m = Some (y, 128) /\ Forall (ref_ok r w) qs
  | RVictim => exists y, steady sv r w t y /\ m = Some (y, 0)
  | RValid i => ov_cached w = true /\ ov_id w = i /\ exists y, steady sv r w t y /\ m = Some (y, 0)
  | RNew k n =>
      ov_cached w = false /\ ov_id w = r /\ nowhere sv /\ cn_rid n = r /\ fresh_copy k t (cn_val n) m
  | RClaim k n i =>
      ov_cached w = false /\ ov_id w = r /\ cn_rid n = r /\ (exists c, only sv i c) /\
      0 <= i < 2 ^ 32 /\ fresh_copy k t (cn_val n) m
  | RFill k i =>
      ov_cached w = false /\ ov_id w = r /\ 0 <= i < 2 ^ 32 /\
      exists c, only sv i c /\ fresh_copy k t c m
  | RDone k (Some i) =>
      ov_cached w = true /\ ov_id w = i /\ exists c, only sv i c /\ fresh_copy k t c m
  | RDone k None =>
      ov_cached w = false /\ ov_id w = r /\ nowhere sv /\ exists c, fresh_copy k t c m
  | REvict i =>
      ov_cached w = false /\ ov_id w = r /\ 0 <= i < 2 ^ 32 /\
      exists c, only sv i c /\ agree columns c t /\ m = Some (write_back c t, 0)
  | REvicted old =>
      ov_cached w = false /\ ov_id w = r /\ nowhere sv /\ cn_rid old = r /\
      agree columns (cn_val old) t /\ m = Some (write_back (cn_val old) t, 0)
  end.

Definition shared_ok (sv : nat -> obj -> Prop) (r : Rid) (w : oid_view) (t : obj)
    (qss : list (list (FieldsMeta * QueryValue))) (m : option (obj * Z)) : Prop :=
  exists y, steady sv r w t y /\ m = Some (y, Z.of_nat (length qss)) /\
    Forall (Forall (ref_ok r w)) qss.

(** The word's lock counts the readers, or is held by one activity. *)
Definition rec_ok (sv : nat -> obj -> Prop) (r : Rid) (w : oid_view) (t : obj) (rs : list role)
    (m : option (obj * Z)) : Prop :=
  (exists qss, rs = RRead <$> qss /\ lk w = Z.of_nat (length qss) /\ lk w < 127 /\
     shared_ok sv r w t qss m) \/
  (exists x, rs = [x] /\ lk w = 128 /\ excl_ok sv r w t x m).

Definition rec_inv (s : shared) (rs : list role) (m : option (obj * Z)) (r : Rid) : Prop :=
  match sh_words s !! r with
  | None => rs = [] /\ m = None /\ (r <> u32_MAX -> nowhere (in_slot (sh_slots s) r))
  | Some w0 =>
      Rid_ok r /\ r < sg_cap (sh_store s) /\
      exists w t, w0 = encode w /\ view_wf w /\
        sg_heap (sh_store s) !! Z.to_nat r = Some t /\ length t = tuple_size /\
        rec_ok (in_slot (sh_slots s) r) r w t rs m
  end.

(** Sizes and bounds. *)
Definition glob (s : shared) : Prop :=
  Z.of_nat (length (sh_slots s)) < 2 ^ 32 /\
  sg_cap (sh_store s) = Z.of_nat (length (sg_heap (sh_store s))) /\
  Forall (fun t => length t = tuple_size) (sg_heap (sh_store s)).

(** A probe looks at an existing slot, and for a record that exists; a read lock
    is taken on one that exists, from a word without a writer. *)
Definition act_ok (s : shared) (a : activity) : Prop :=
  match a with
  | ATry r val | AReadCas r val _ => is_Some (sh_words s !! r) /\ try_read_load val = Ok val
  | AVictim _ _ _ i v | ALock _ _ _ i v | ALocked _ _ _ i v =>
      0 <= i < Z.of_nat (length (sh_slots s)) /\ is_Some (sh_words s !! v)
  | _ => True
  end.

(** [simulates c M]: every record of the cache is that of [M], as far as the
    activities in flight have come with it. *)
Definition simulates (c : config) (M : table_spec) : Prop :=
  glob c.1 /\ Forall (act_ok c.1) c.2 /\ forall r, rec_inv c.1 (roles c.2 r) (M !! r) r.
End steps.

(** ** Plain memory accesses

    What the next step of an activity reads or writes without an atomic
    operation: a slot's value, or a stored tuple. *)
Inductive place_at :=
| PSlot (i : nat)
| PTuple (r : Rid).

Inductive touches {Sc : Schema} : activity -> place_at -> bool -> Prop :=
| touch_read_slot r qs q v i :
    (q, v) ∈ qs -> qv_field v = Some i -> touches (ARead r qs) (PSlot (Z.to_nat i)) false
| touch_read_tuple r qs q v r' :
    (q, v) ∈ qs -> qv_tuple v = Some r' -> touches (ARead r qs) (PTuple r') false
| touch_write_slot r qs q v i b :
    (q, v) ∈ qs -> qv_field v = Some i -> touches (AWrite r qs) (PSlot (Z.to_nat i)) b
| touch_write_tuple r qs q v r' b :
    (q, v) ∈ qs -> qv_tuple v = Some r' -> touches (AWrite r qs) (PTuple r') b
| touch_promote r qs : touches (AWrite r qs) (PTuple r) false
| touch_fill k r node i : touches (AClaimed k r node i) (PSlot (Z.to_nat i)) true
| touch_replace k r node i v : touches (AReplace k r node i v) (PSlot (Z.to_nat i)) true
| touch_write_back k r i v old : touches (AEvicted k r i v old) (PTuple (cn_rid old)) true
| touch_insert val r loc : touches (AFinish (Insert val) r loc) (PTuple r) true.

(** The record as the memory shows it when nobody is evicting it. *)
Definition stored_record {Sc : Schema} (s : shared) (r : Rid) : option obj :=
  match sh_words s !! r, sg_heap (sh_store s) !! Z.to_nat r with
  | Some w, Some t =>
      if is_cached w then
        match to_cache_index w with
        | Ret i => (fun n => write_back (cn_val n) t) <$> sh_slots s !! Z.to_nat i
        | _ => None
        end
      else Some t
  | _, _ => None
  end.
