(* ===== verification/CacheSim.v ===== *)
(** * The cache under interleaving simulates a locked map

    The invariant that ties every configuration of CacheMachine.v to a state of
    the specification, its preservation by each step, and the promises that
    follow: refinement, no failing step, no data race, and the stored table
    once all guards are dropped. *)

From Stdlib Require Import QArith.
From S2P Require Import Prelude Query Schema Layout External NodeMeta Oid ObjAlloc OidArray CacheInner ClockCache CacheMachine.
Open Scope Z_scope.

(** ** Lemmas *)
Section proofs.
Context {Sc : Schema} {columns mut_columns : list Field} {L : SchemaLaws Sc columns mut_columns}.
Context (probe_len : Z) (prob : Q) (Hprob : prob_ok prob).
Abbreviation rec_inv := (rec_inv columns).
Abbreviation simulates := (simulates columns).
Abbreviation steady := (steady columns).

(** *** Slots up to the records they hold *)
Definition sv_equiv : relation (nat -> obj -> Prop) :=
  pointwise_relation nat (pointwise_relation obj iff).

#[export] Instance sv_equiv_equiv : Equivalence sv_equiv.
Proof. unfold sv_equiv. apply _. Qed.

#[export] Instance nowhere_proper : Proper (sv_equiv ==> iff) nowhere.
Proof. intros sv sv' E. unfold nowhere. by setoid_rewrite (E _ _). Qed.

#[export] Instance only_proper : Proper (sv_equiv ==> eq ==> eq ==> iff) only.
Proof. intros sv sv' E ? i -> ? c ->. unfold only. by setoid_rewrite (E _ _). Qed.

#[export] Instance steady_proper : Proper (sv_equiv ==> eq ==> eq ==> eq ==> eq ==> iff) steady.
Proof.
  intros sv sv' E ? r -> ? w -> ? t -> ? y ->. unfold CacheMachine.steady.
  destruct (ov_cached w); by setoid_rewrite E.
Qed.

#[export] Instance excl_ok_proper :
  Proper (sv_equiv ==> eq ==> eq ==> eq ==> eq ==> eq ==> iff) (excl_ok columns).
Proof.
  intros sv sv' E ? r -> ? w -> ? t -> ? x -> ? m ->.
  destruct x as [| | | | |? []| | | |]; unfold excl_ok; try done; by setoid_rewrite E.
Qed.

#[export] Instance rec_ok_proper :
  Proper (sv_equiv ==> eq ==> eq ==> eq ==> eq ==> eq ==> iff) (rec_ok columns).
Proof.
  intros sv sv' E ? r -> ? w -> ? t -> ? x -> ? m ->. unfold rec_ok, shared_ok. by setoid_rewrite E.
Qed.

(** [same s s' r]: nothing about record [r] changed. *)
Definition same (s s' : shared) (r : Rid) : Prop :=
  sh_words s' !! r = sh_words s !! r /\
  sg_cap (sh_store s') = sg_cap (sh_store s) /\
  (0 <= r -> sg_heap (sh_store s') !! Z.to_nat r = sg_heap (sh_store s) !! Z.to_nat r) /\
  (r <> u32_MAX -> sv_equiv (in_slot (sh_slots s) r) (in_slot (sh_slots s') r)).

Lemma same_refl s r : same s s r.
Proof. by split_and!. Qed.

Lemma same_trans s1 s2 s3 r : same s1 s2 r -> same s2 s3 r -> same s1 s3 r.
Proof.
  intros (A1 & A2 & A3 & A4) (B1 & B2 & B3 & B4). split; [congruence|]. split; [congruence|].
  split; [intros; rewrite B3, A3 by done; done|]. intros. etrans; [by apply A4|by apply B4].
Qed.

Lemma rec_inv_same s s' rs m r : same s s' r -> rec_inv s rs m r -> rec_inv s' rs m r.
Proof.
  intros (E1 & E2 & E3 & E4) H. unfold CacheMachine.rec_inv in *. rewrite E1, E2.
  destruct (sh_words s !! r) as [w0|].
  - destruct H as (Hr & Hc & w & t & ? & ? & Ht & ? & Hrec). split; [done|]. split; [done|].
    exists w, t. unfold Rid_ok in Hr. rewrite E3 by lia. rewrite <-(E4 ltac:(lia)). done.
  - destruct H as (? & ? & Hn). split; [done|]. split; [done|]. intros Hne. rewrite <-(E4 Hne). auto.
Qed.

Lemma same_store_word s r w r' : r' <> r -> same s (store_word s r w) r'.
Proof. intros. split; [by apply lookup_insert_ne|]. by split_and!. Qed.

Lemma in_slot_put slots i e n r :
  slots !! i = Some e -> (cn_rid e = r -> n = e) -> (cn_rid n = r -> n = e) ->
  sv_equiv (in_slot slots r) (in_slot (<[i := n]> slots) r).
Proof.
  intros He H1 H2 j c. unfold in_slot. destruct (decide (j = i)) as [->|Hne].
  - rewrite list_lookup_insert_eq by (by eapply lookup_lt_Some).
    split; intros (n' & E & E' & E''); simplify_eq; eexists; (split; [done|]).
    + by rewrite H1.
    + by rewrite <-H2.
  - by rewrite list_lookup_insert_ne.
Qed.

Lemma in_slot_meta slots i e n r :
  slots !! i = Some e -> node_sim e n ->
  sv_equiv (in_slot slots r) (in_slot (<[i := n]> slots) r).
Proof.
  intros He [E1 E2] j c. unfold in_slot. destruct (decide (j = i)) as [->|Hne].
  - rewrite list_lookup_insert_eq by (by eapply lookup_lt_Some). naive_solver congruence.
  - by rewrite list_lookup_insert_ne.
Qed.

Lemma same_put_meta s i e n r :
  sh_slots s !! Z.to_nat i = Some e -> node_sim e n -> same s (put_slot s i n) r.
Proof. intros. do 3 (split; [done|]). intros _. by eapply in_slot_meta. Qed.

Lemma same_put_slot s i e n r :
  sh_slots s !! Z.to_nat i = Some e -> cn_rid e <> r \/ r = u32_MAX -> cn_rid n <> r ->
  same s (put_slot s i n) r.
Proof.
  intros He H1 H2. do 3 (split; [done|]). intros Hm. eapply in_slot_put; [done| |done].
  by destruct H1.
Qed.

Lemma same_put_store s r t r' :
  0 <= r -> r' <> r ->
  same s (put_store s (mkStorage (sg_cap (sh_store s)) (<[Z.to_nat r := t]> (sg_heap (sh_store s))))) r'.
Proof.
  intros Hr Hne. split; [done|]. split; [done|]. split; [|done]. intros Hr'. simpl.
  apply list_lookup_insert_ne. lia.
Qed.

(** *** Roles *)
Lemma roles_app p1 p2 r : roles (p1 ++ p2) r = roles p1 r ++ roles p2 r.
Proof. unfold roles. apply bind_app. Qed.

Lemma roles_cons a p r : roles (a :: p) r = role_at r a ++ roles p r.
Proof. done. Qed.

Lemma act_ok_mono s s' a :
  length (sh_slots s') = length (sh_slots s) ->
  (forall r, is_Some (sh_words s !! r) -> is_Some (sh_words s' !! r)) ->
  act_ok s a -> act_ok s' a.
Proof. intros El Hw. destruct a; simpl; try done; rewrite ?El; intros [? ?]; auto. Qed.

(** What a step must keep besides the records. *)
Definition keeps (s s' : shared) : Prop :=
  glob s' /\ length (sh_slots s') = length (sh_slots s) /\
  forall r, is_Some (sh_words s !! r) -> is_Some (sh_words s' !! r).

(** An activity moves: only the records of [D] need to be looked at. *)
Lemma simulates_update s p1 a p2 M s' new M' (D : list Rid) :
  simulates (s, p1 ++ a :: p2) M -> keeps s s' -> Forall (act_ok s') new ->
  (forall r, r ∉ D -> same s s' r /\ roles new r = role_at r a /\ M' !! r = M !! r) ->
  (forall r, r ∈ D -> rec_inv s' (roles (p1 ++ new ++ p2) r) (M' !! r) r) ->
  simulates (s', p1 ++ new ++ p2) M'.
Proof.
  intros (_ & Ha & Hr) (Hg & El & Hw) Hnew Hsame HD. simpl in *. split; [done|]. split; simpl.
  - apply Forall_app in Ha as [Ha1 [_ Ha2]%Forall_cons].
    rewrite !Forall_app. split_and!; [|done|];
      eapply Forall_impl; try done; intros; by eapply act_ok_mono.
  - intros r. destruct (decide (r ∈ D)); [by apply HD|].
    destruct (Hsame r) as (Hs & Er & ->); [done|]. eapply rec_inv_same; [done|].
    specialize (Hr r). rewrite !roles_app, roles_cons in *. by rewrite Er.
Qed.

(** A new activity starts. *)
Lemma simulates_start s acts M s' new M' (D : list Rid) :
  simulates (s, acts) M -> keeps s s' -> Forall (act_ok s') new ->
  (forall r, r ∉ D -> same s s' r /\ roles new r = [] /\ M' !! r = M !! r) ->
  (forall r, r ∈ D -> rec_inv s' (roles (new ++ acts) r) (M' !! r) r) ->
  simulates (s', new ++ acts) M'.
Proof.
  intros (_ & Ha & Hr) (Hg & El & Hw) Hnew Hsame HD. simpl in *. split; [done|]. split; simpl.
  - apply Forall_app. split; [done|]. eapply Forall_impl; [done|]. intros; by eapply act_ok_mono.
  - intros r. destruct (decide (r ∈ D)); [by apply HD|].
    destruct (Hsame r) as (Hs & Er & ->); [done|]. eapply rec_inv_same; [done|].
    rewrite roles_app, Er. apply Hr.
Qed.

(** *** The record an activity holds exclusively *)
Definition owned (s : shared) (m : option (obj * Z)) (r : Rid) (x : role) (w : oid_view) (t : obj)
    : Prop :=
  sh_words s !! r = Some (encode w) /\ view_wf w /\ lk w = 128 /\ Rid_ok r /\
  r < sg_cap (sh_store s) /\ sg_heap (sh_store s) !! Z.to_nat r = Some t /\
  length t = tuple_size /\ excl_ok columns (in_slot (sh_slots s) r) r w t x m.

Definition exclusive (x : role) : Prop := match x with RRead _ => False | _ => True end.

Lemma owned_rec_inv s m r x w t : owned s m r x w t -> rec_inv s [x] m r.
Proof.
  intros (Hw & Hv & Hl & Hr & Hc & Ht & Hlen & Hx). unfold CacheMachine.rec_inv. rewrite Hw.
  split; [done|]. split; [done|]. exists w, t. do 4 (split; [done|]). right. eauto.
Qed.

Lemma excl_inv s p1 a p2 M r x l :
  simulates (s, p1 ++ a :: p2) M -> role_at r a = x :: l -> exclusive x ->
  l = [] /\ (forall new, roles (p1 ++ new ++ p2) r = roles new r) /\
  exists w t, owned s (M !! r) r x w t.
Proof.
  intros (_ & _ & Hr) Hx He. specialize (Hr r). simpl in Hr.
  rewrite roles_app, roles_cons, Hx in Hr. unfold CacheMachine.rec_inv in Hr.
  destruct (sh_words s !! r) as [w0|] eqn:Ew; [|destruct Hr as [Hr _]; by destruct (roles p1 r)].
  destruct Hr as (Hok & Hc & w & t & -> & Hwf & Ht & Hlen & [(qss & Hq & _)|(y & Hy & Hl & Hex)]).
  - exfalso. assert (Hin : x ∈ RRead <$> qss) by (rewrite <-Hq; set_solver).
    apply list_elem_of_fmap in Hin as (qs & -> & _). done.
  - destruct (roles p1 r) as [|? [|? ?]] eqn:E1; [|discriminate Hy..].
    injection Hy as <- [-> E2]%app_nil. split; [done|]. split; [|by exists w, t].
    intros new. by rewrite !roles_app, E1, E2, app_nil_r.
Qed.

Lemma role_at_one r a r' x : roles_of a = [(r, x)] -> role_at r' a = if decide (r = r') then [x] else [].
Proof. intros E. unfold role_at. rewrite E. simpl. by case_decide. Qed.

Lemma role_at_two r v a r' x y :
  roles_of a = [(r, x); (v, y)] ->
  role_at r' a = (if decide (r = r') then [x] else []) ++ (if decide (v = r') then [y] else []).
Proof. intros E. unfold role_at. rewrite E. simpl. repeat case_decide; done. Qed.

Lemma one_inv s p1 a p2 M r x :
  simulates (s, p1 ++ a :: p2) M -> roles_of a = [(r, x)] -> exclusive x ->
  (forall new, roles (p1 ++ new ++ p2) r = roles new r) /\ exists w t, owned s (M !! r) r x w t.
Proof.
  intros Hs Ha Hx. apply (excl_inv s p1 a p2 M r x [] Hs); [|done].
  rewrite (role_at_one _ _ _ _ Ha). by rewrite decide_True.
Qed.

Lemma two_inv s p1 a p2 M r x v y :
  simulates (s, p1 ++ a :: p2) M -> roles_of a = [(r, x); (v, y)] -> exclusive x -> exclusive y ->
  r <> v /\ (forall new, roles (p1 ++ new ++ p2) r = roles new r) /\
  (forall new, roles (p1 ++ new ++ p2) v = roles new v) /\
  (exists w t, owned s (M !! r) r x w t) /\ (exists w t, owned s (M !! v) v y w t).
Proof.
  intros Hs Ha Hx Hy. pose proof (role_at_two _ _ _ r _ _ Ha) as Er.
  rewrite (decide_True (P := r = r)) in Er by done. simpl in Er.
  destruct (excl_inv s p1 a p2 M r x _ Hs Er Hx) as (El & Hr & Hor).
  case_decide as Hne; [done|]. pose proof (role_at_two _ _ _ v _ _ Ha) as Ev.
  rewrite (decide_False (P := r = v)), (decide_True (P := v = v)) in Ev by congruence. simpl in Ev.
  destruct (excl_inv s p1 a p2 M v y _ Hs Ev Hy) as (_ & Hv & Hov). by split_and!.
Qed.

Lemma roles_one a r : roles [a] r = role_at r a.
Proof. unfold roles. simpl. apply app_nil_r. Qed.

(** *** Moves of an activity that holds one record, or two *)
Lemma move_one s p1 a p2 M s' a' M' r x x' w' t' :
  simulates (s, p1 ++ a :: p2) M -> roles_of a = [(r, x)] -> exclusive x ->
  roles_of a' = [(r, x')] -> keeps s s' -> act_ok s' a' ->
  (forall r', r' <> r -> same s s' r' /\ M' !! r' = M !! r') ->
  owned s' (M' !! r) r x' w' t' -> simulates (s', p1 ++ [a'] ++ p2) M'.
Proof.
  intros Hs Ha Hx Ha' Hk Hok Hsame Ho. destruct (one_inv _ _ _ _ _ _ _ Hs Ha Hx) as [Hr _].
  apply (simulates_update s p1 a p2 M s' [a'] M' [r]); [done|done|by constructor| |].
  - intros r' Hn. destruct (Hsame r') as [? ?]; [set_solver|]. split; [done|]. split; [|done].
    rewrite roles_one, (role_at_one _ _ _ _ Ha), (role_at_one _ _ _ _ Ha').
    by rewrite !decide_False by set_solver.
  - intros r' ->%list_elem_of_singleton. rewrite Hr, roles_one, (role_at_one _ _ _ _ Ha').
    rewrite decide_True by done. by eapply owned_rec_inv.
Qed.

Lemma move_two s p1 a p2 M s' a' r x x' w' t' v y y' wv tv :
  simulates (s, p1 ++ a :: p2) M ->
  roles_of a = [(r, x); (v, y)] -> exclusive x -> exclusive y ->
  roles_of a' = [(r, x'); (v, y')] -> keeps s s' -> act_ok s' a' ->
  (forall r', r' <> r -> r' <> v -> same s s' r') ->
  owned s' (M !! r) r x' w' t' -> owned s' (M !! v) v y' wv tv ->
  simulates (s', p1 ++ [a'] ++ p2) M.
Proof.
  intros Hs Ha Hx Hy Ha' Hk Hok Hsame Ho Hov.
  destruct (two_inv _ _ _ _ _ _ _ _ _ Hs Ha Hx Hy) as (Hne & Hr & Hv & _).
  apply (simulates_update s p1 a p2 M s' [a'] M [r; v]); [done|done|by constructor| |].
  - intros r' Hn. split; [apply Hsame; set_solver|]. split; [|done].
    rewrite roles_one, (role_at_two _ _ _ _ _ _ Ha), (role_at_two _ _ _ _ _ _ Ha').
    by rewrite !decide_False by set_solver.
  - intros r' Hin. apply elem_of_cons in Hin as [->|Hin].
    + rewrite Hr, roles_one, (role_at_two _ _ _ _ _ _ Ha').
      rewrite (decide_True (P := r = r)), (decide_False (P := v = r)) by done.
      by eapply owned_rec_inv.
    + apply list_elem_of_singleton in Hin as ->. rewrite Hv, roles_one, (role_at_two _ _ _ _ _ _ Ha').
      rewrite (decide_False (P := r = v)), (decide_True (P := v = v)) by done.
      by eapply owned_rec_inv.
Qed.

(** The second record is released, its lock free again. *)
Lemma release_second s p1 a p2 M s' a' r x x' w' t' v y :
  simulates (s, p1 ++ a :: p2) M ->
  roles_of a = [(r, x); (v, y)] -> exclusive x -> exclusive y ->
  roles_of a' = [(r, x')] -> keeps s s' -> act_ok s' a' ->
  (forall r', r' <> r -> r' <> v -> same s s' r') ->
  owned s' (M !! r) r x' w' t' -> rec_inv s' [] (M !! v) v ->
  simulates (s', p1 ++ [a'] ++ p2) M.
Proof.
  intros Hs Ha Hx Hy Ha' Hk Hok Hsame Ho Hov.
  destruct (two_inv _ _ _ _ _ _ _ _ _ Hs Ha Hx Hy) as (Hne & Hr & Hv & _).
  apply (simulates_update s p1 a p2 M s' [a'] M [r; v]); [done|done|by constructor| |].
  - intros r' Hn. split; [apply Hsame; set_solver|]. split; [|done].
    rewrite roles_one, (role_at_two _ _ _ _ _ _ Ha), (role_at_one _ _ _ _ Ha').
    by rewrite !decide_False by set_solver.
  - intros r' Hin. apply elem_of_cons in Hin as [->|Hin].
    + rewrite Hr, roles_one, (role_at_one _ _ _ _ Ha').
      rewrite (decide_True (P := r = r)) by done. by eapply owned_rec_inv.
    + apply list_elem_of_singleton in Hin as ->. rewrite Hv, roles_one, (role_at_one _ _ _ _ Ha').
      by rewrite (decide_False (P := r = v)) by done.
Qed.

(** *** Memory updates *)
Lemma owned_same s s' m r x w t : same s s' r -> owned s m r x w t -> owned s' m r x w t.
Proof.
  intros (E1 & E2 & E3 & E4) (Hw & Hv & Hl & Hr & Hc & Ht & Hlen & Hx). pose proof Hr as Hr'.
  unfold Rid_ok in Hr'. unfold owned. rewrite E1, E2, E3 by lia. rewrite <-(E4 ltac:(lia)). done.
Qed.

Lemma owned_excl s m r x w t m' x' :
  owned s m r x w t ->
  (excl_ok columns (in_slot (sh_slots s) r) r w t x m ->
   excl_ok columns (in_slot (sh_slots s) r) r w t x' m') ->
  owned s m' r x' w t.
Proof. intros (Hw & Hv & Hl & Hr & Hc & Ht & Hlen & Hx) H. do 7 (split; [done|]). auto. Qed.

(** The word changes under the lock. *)
Lemma owned_word s m r x w t w' m' x' :
  owned s m r x w t -> view_wf w' -> lk w' = 128 ->
  excl_ok columns (in_slot (sh_slots s) r) r w' t x' m' ->
  owned (store_word s r (encode w')) m' r x' w' t.
Proof.
  intros (Hw & Hv & Hl & Hr & Hc & Ht & Hlen & Hx) Hwf Hl' Hx'.
  split; [by apply lookup_insert_eq|]. do 6 (split; [done|]). exact Hx'.
Qed.

Lemma owned_slot s m r x w t i n m' x' :
  owned s m r x w t ->
  excl_ok columns (in_slot (<[Z.to_nat i := n]> (sh_slots s)) r) r w t x' m' ->
  owned (put_slot s i n) m' r x' w t.
Proof. intros (Hw & Hv & Hl & Hr & Hc & Ht & Hlen & Hx) Hx'. by do 7 (split; [done|]). Qed.

(** The word as one thread sees it: its lock is 0 or held by readers. *)
Lemma keeps_refl s : glob s -> keeps s s.
Proof. done. Qed.

Lemma keeps_word s r w : glob s -> keeps s (store_word s r w).
Proof.
  intros Hg. split; [done|]. split; [done|]. intros r' Hr'. simpl.
  apply lookup_insert_is_Some'. by right.
Qed.

Lemma keeps_slot s i n : glob s -> keeps s (put_slot s i n).
Proof.
  intros (H1 & H2 & H3). split; [|split; [apply length_insert|done]].
  split; [|done]. simpl. by rewrite length_insert.
Qed.

Definition with_heap (st : Storage) (r : Rid) (t : obj) : Storage :=
  mkStorage (sg_cap st) (<[Z.to_nat r := t]> (sg_heap st)).

Lemma keeps_store s r t :
  glob s -> length t = tuple_size -> keeps s (put_store s (with_heap (sh_store s) r t)).
Proof.
  intros (H1 & H2 & H3) Ht. split; [|done]. split; [done|]. simpl. rewrite length_insert.
  split; [done|]. by apply Forall_insert.
Qed.

Lemma owned_store s m r x w t t' m' x' :
  owned s m r x w t -> length t' = tuple_size ->
  excl_ok columns (in_slot (sh_slots s) r) r w t' x' m' ->
  owned (put_store s (with_heap (sh_store s) r t')) m' r x' w t'.
Proof.
  intros (Hw & Hv & Hl & Hr & Hc & Ht & Hlen & Hx) Ht' Hx'. do 5 (split; [done|]).
  split; [|done]. simpl. apply list_lookup_insert_eq. by eapply lookup_lt_Some.
Qed.

Lemma storage_ok s r t :
  r < sg_cap (sh_store s) -> sg_heap (sh_store s) !! Z.to_nat r = Some t ->
  Storage_get (sh_store s) r = Ret t /\
  forall t', Storage_get_mut (sh_store s) r t' = Ret (with_heap (sh_store s) r t').
Proof.
  intros Hc Ht. unfold Storage_get, Storage_get_mut. rewrite (proj2 (Z.ltb_lt _ _) Hc). runm.
  by rewrite Ht.
Qed.

Lemma word_op_ok s r w f w' :
  sh_words s !! r = Some w -> f w = Ret w' -> word_op s r f = Ret (store_word s r w').
Proof. intros E Ef. unfold word_op, load_word. rewrite E. runm. rewrite Ef. by runm. Qed.

Lemma load_word_ok s r w : sh_words s !! r = Some w -> load_word s r = Ret w.
Proof. intros E. unfold load_word. by rewrite E. Qed.

Lemma slot_ok s i n : sh_slots s !! Z.to_nat i = Some n -> slot s i = Ret n.
Proof. intros E. unfold slot. by rewrite E. Qed.

Lemma slot_some s i :
  0 <= i < Z.of_nat (length (sh_slots s)) -> exists n, sh_slots s !! Z.to_nat i = Some n.
Proof. intros. apply lookup_lt_is_Some_2. lia. Qed.

Lemma only_put slots i e n r :
  slots !! Z.to_nat i = Some e -> (forall j c, in_slot slots r j c -> j = Z.to_nat i) ->
  cn_rid n = r -> only (in_slot (<[Z.to_nat i := n]> slots) r) i (cn_val n).
Proof.
  intros He Hj Hn. split.
  - exists n. split; [|done]. apply list_lookup_insert_eq. by eapply lookup_lt_Some.
  - intros j c (n' & Hn' & Er & <-). destruct (decide (j = Z.to_nat i)) as [->|Hne].
    + rewrite list_lookup_insert_eq in Hn' by (by eapply lookup_lt_Some). by simplify_eq.
    + rewrite list_lookup_insert_ne in Hn' by done. destruct Hne. apply (Hj j (cn_val n')).
      by exists n'.
Qed.

Lemma nowhere_put slots i e n r :
  slots !! Z.to_nat i = Some e -> (forall j c, in_slot slots r j c -> j = Z.to_nat i) ->
  cn_rid n <> r -> nowhere (in_slot (<[Z.to_nat i := n]> slots) r).
Proof.
  intros He Hj Hn j c (n' & Hn' & Er & <-). destruct (decide (j = Z.to_nat i)) as [->|Hne].
  - rewrite list_lookup_insert_eq in Hn' by (by eapply lookup_lt_Some). by simplify_eq.
  - rewrite list_lookup_insert_ne in Hn' by done. destruct Hne. apply (Hj j (cn_val n')).
    by exists n'.
Qed.

Lemma only_slot slots r i c :
  only (in_slot slots r) i c ->
  exists n, slots !! Z.to_nat i = Some n /\ cn_rid n = r /\ cn_val n = c.
Proof. intros [H _]. exact H. Qed.

Lemma only_where slots r i c j c' : only (in_slot slots r) i c -> in_slot slots r j c' -> j = Z.to_nat i.
Proof. intros [_ H] Hj. by apply (H j c'). Qed.

(** A record that a slot names is allocated. *)
Lemma slot_allocated s acts M i n :
  simulates (s, acts) M -> sh_slots s !! i = Some n -> cn_rid n <> u32_MAX ->
  is_Some (sh_words s !! cn_rid n) /\ Rid_ok (cn_rid n).
Proof.
  intros (_ & _ & Hr) Hn Hne. specialize (Hr (cn_rid n)). unfold CacheMachine.rec_inv in Hr. simpl in Hr.
  destruct (sh_words s !! cn_rid n) eqn:E.
  - split; [by eexists|]. apply Hr.
  - destruct Hr as (_ & _ & Hno). exfalso. apply (Hno Hne i (cn_val n)). by exists n.
Qed.

(** *** What a step has to show *)
Definition spec_after (M : table_spec) (l : label) (M' : table_spec) : Prop :=
  match l with Tau => M' = M | _ => sstep columns mut_columns M l M' end.

Definition step_ok (p1 p2 : list activity) (M : table_spec)
    (o : outcome (label * list activity * shared)) : Prop :=
  exists l new s' M', o = Ret (l, new, s') /\ spec_after M l M' /\
    simulates (s', p1 ++ new ++ p2) M'.

Lemma step_tau p1 p2 M s' new :
  simulates (s', p1 ++ new ++ p2) M -> step_ok p1 p2 M (Ret (Tau, new, s')).
Proof. intros. by exists Tau, new, s', M. Qed.

(** *** The probe *)
Lemma give_up_ok s p1 k r node p2 M :
  simulates (s, p1 ++ AProbe k r node :: p2) M ->
  step_ok p1 p2 M (Ret (Tau, [AFinish k r None], s)).
Proof.
  intros Hs. pose proof Hs as (Hg & _).
  destruct (one_inv _ _ _ _ _ _ _ Hs eq_refl I) as (_ & w & t & Ho). apply step_tau.
  eapply move_one; [done..|intros; split; [apply same_refl|done]|].
  eapply owned_excl; [done|]. intros (Hc & Hid & Hno & _ & Hf). split; [done|]. eauto.
Qed.

Lemma look_ok s p1 k r node i weak p2 M :
  simulates (s, p1 ++ AProbe k r node :: p2) M -> 0 <= i < Z.of_nat (length (sh_slots s)) ->
  step_ok p1 p2 M (do_look s k r node i weak).
Proof.
  intros Hs Hi. pose proof Hs as (Hg & _).
  destruct (one_inv _ _ _ _ _ _ _ Hs eq_refl I) as (_ & w & t & Ho).
  destruct (slot_some s i Hi) as [e He]. unfold do_look. rewrite (slot_ok _ _ _ He). runm.
  destruct (Z.eqb_spec (cn_rid e) u32_MAX) as [Em|Hne].
  - rewrite Em, cas_weak_same. destruct weak; apply step_tau.
    + eapply move_one; [done..|intros; split; [apply same_refl|done]|done].
    + eapply move_one; [done..|by apply keeps_slot|done| |].
      * intros r' Hr'. split; [|done]. eapply same_put_slot; [done| |done].
        destruct (decide (r' = u32_MAX)); [by right|left; congruence].
      * eapply owned_slot; [done|]. destruct Ho as (_ & _ & _ & _ & _ & _ & _ & Hc & Hid & Hno & Er & Hf).
        split; [done|]. split; [done|]. split; [done|]. split; [|split; [|done]].
        -- exists (cn_val e). apply (only_put _ _ e (mkNode r _ _)); [done| |done].
           intros j c Hj. by destruct (Hno j c).
        -- destruct Hg as [? _]. simpl in *. lia.
  - apply step_tau. eapply move_one; [done..|by apply keeps_refl| | |done].
    + split; [done|]. by eapply slot_allocated.
    + intros; split; [apply same_refl|done].
Qed.

Lemma fill_ok s p1 k r node i p2 M :
  simulates (s, p1 ++ AClaimed k r node i :: p2) M ->
  step_ok p1 p2 M (Ret (Tau, [AFilled k r i], put_slot s i node)).
Proof.
  intros Hs. pose proof Hs as (Hg & _).
  destruct (one_inv _ _ _ _ _ _ _ Hs eq_refl I) as (_ & w & t & Ho). apply step_tau.
  pose proof Ho as (_ & _ & _ & Hrok & _ & _ & _ & Hc & Hid & Er & (c & Honly) & Hi & Hf).
  destruct (only_slot _ _ _ _ Honly) as (e & He & Ere & _).
  eapply move_one; [done..|by apply keeps_slot|done| |].
  - intros r' Hr'. split; [|done]. eapply same_put_slot; [done|left; congruence|congruence].
  - eapply owned_slot; [done|]. split; [done|]. split; [done|]. split; [done|].
    exists (cn_val node). split; [|done]. eapply only_put; [done| |done].
    intros j c' Hj. by eapply only_where.
Qed.

(** The new slot's index goes into the word. *)
Lemma index_word s m r k i w t :
  owned s m r (RFill k i) w t ->
  word_op s r (fun w => Ret (store_index w i)) = Ret (store_word s r (encode (mkView 128 true i))) /\
  owned (store_word s r (encode (mkView 128 true i))) m r (RDone k (Some i)) (mkView 128 true i) t.
Proof.
  intros Ho. pose proof Ho as (Hw & Hwf & Hl & _ & _ & _ & _ & _ & _ & Hi & Hc).
  split.
  - eapply word_op_ok; [done|]. rewrite store_index_view by done. by rewrite Hl.
  - eapply owned_word; [done|split; simpl; lia|done|]. done.
Qed.

Lemma index_ok s p1 k r i p2 M :
  simulates (s, p1 ++ AFilled k r i :: p2) M -> step_ok p1 p2 M (do_store_index s k r i None).
Proof.
  intros Hs. pose proof Hs as (Hg & _).
  destruct (one_inv _ _ _ _ _ _ _ Hs eq_refl I) as (_ & w & t & Ho).
  destruct (index_word _ _ _ _ _ _ _ Ho) as [E Ho']. unfold do_store_index. rewrite E. runm.
  apply step_tau. eapply move_one; [done..|by apply keeps_word|done| |done].
  intros r' Hr'. split; [by apply same_store_word|done].
Qed.

Lemma reindex_ok s p1 k r i v old p2 M :
  simulates (s, p1 ++ AReplaced k r i v old :: p2) M ->
  step_ok p1 p2 M (do_store_index s k r i (Some (v, old))).
Proof.
  intros Hs. pose proof Hs as (Hg & _).
  destruct (two_inv _ _ _ _ _ _ _ _ _ Hs eq_refl I I) as (Hne & _ & _ & (w & t & Ho) & (wv & tv & Hov)).
  destruct (index_word _ _ _ _ _ _ _ Ho) as [E Ho']. unfold do_store_index. rewrite E. runm.
  apply step_tau. eapply move_two; [done..|by apply keeps_word|done| |done|].
  - intros r' Hr' _. by apply same_store_word.
  - eapply owned_same; [|done]. by apply same_store_word.
Qed.

Lemma clear_ref_ok s p1 k r node i v p2 M :
  simulates (s, p1 ++ AVictim k r node i v :: p2) M ->
  step_ok p1 p2 M (do_clear_ref s k r node i v).
Proof.
  intros Hs. pose proof Hs as (Hg & Ha & _). simpl in Hg, Ha.
  destruct (one_inv _ _ _ _ _ _ _ Hs eq_refl I) as (_ & w & t & Ho).
  apply Forall_app in Ha as [_ [[Hi Hv] _]%Forall_cons].
  destruct (slot_some s i Hi) as [e He]. unfold do_clear_ref. rewrite (slot_ok _ _ _ He). runm.
  destruct (try_clear_ref e) as [was e'] eqn:Ec.
  assert (Hsim : node_sim e e').
  { unfold try_clear_ref in Ec. destruct (clear_if_set (cn_meta e)). by simplify_eq. }
  assert (Hk : keeps s (put_slot s i e')) by (by apply keeps_slot).
  apply step_tau. destruct was; (eapply move_one; [done..|exact Hk| | |]).
  1, 4: simpl; rewrite ?length_insert; done.
  all: try (eapply owned_same; [by eapply same_put_meta|done]).
  all: intros; split; [by eapply same_put_meta|done].
Qed.

Lemma validate_ok s p1 k r node i v weak p2 M :
  simulates (s, p1 ++ ALocked k r node i v :: p2) M ->
  step_ok p1 p2 M (do_validate s k r node i v weak).
Proof.
  intros Hs. pose proof Hs as (Hg & Ha & _). simpl in Hg, Ha.
  destruct (two_inv _ _ _ _ _ _ _ _ _ Hs eq_refl I I) as (Hne & _ & _ & (w & t & Ho) & (wv & tv & Hov)).
  apply Forall_app in Ha as [_ [[Hi Hv] _]%Forall_cons].
  destruct (slot_some s i Hi) as [e He]. unfold do_validate. rewrite (slot_ok _ _ _ He). runm.
  unfold cas_weak. destruct (Z.eqb_spec (cn_rid e) v) as [Ev|]; destruct weak; simpl; apply step_tau;
    (eapply move_two; [done..|by apply keeps_refl|done|intros; apply same_refl|done|]); try exact Hov.
  eapply owned_excl; [done|]. intros (y & Hst & Hm). unfold CacheMachine.steady in Hst.
  assert (Hin : in_slot (sh_slots s) v (Z.to_nat i) (cn_val e)) by (by exists e).
  destruct Hov as (_ & [_ Hb] & _).
  destruct (ov_cached wv) eqn:Ec.
  - pose proof Hst as (c & Honly & _). split; [done|].
    split; [pose proof (only_where _ _ _ _ _ _ Honly Hin); lia|].
    exists y. split; [|done]. unfold CacheMachine.steady. by rewrite Ec.
  - destruct Hst as (_ & Hno & _). by destruct (Hno _ _ Hin).
Qed.

(** A record steadily held by the evictor is free again. *)
Lemma unlock_free s m v w t :
  owned s m v RVictim w t ->
  word_op s v OidWriteGuard_drop = Ret (store_word s v (encode (set_lk w 0))) /\
  rec_inv (store_word s v (encode (set_lk w 0))) [] m v.
Proof.
  intros (Hw & Hwf & Hl & Hok & Hc & Ht & Hlen & y & Hst & Hm). split.
  - eapply word_op_ok; [done|]. by apply write_unlock_view.
  - unfold CacheMachine.rec_inv. simpl. rewrite lookup_insert_eq. split; [done|]. split; [done|].
    exists (set_lk w 0), t. split; [done|]. split; [apply set_lk_wf; [done|lia]|]. do 2 (split; [done|]).
    left. exists []. split; [done|]. split; [done|]. split; [simpl; lia|]. exists y. by split.
Qed.

Lemma unlock_ok s p1 k r node v p2 M :
  simulates (s, p1 ++ AUnlock k r node v :: p2) M ->
  step_ok p1 p2 M (s' ← word_op s v OidWriteGuard_drop; Ret (Tau, [AProbe k r node], s')).
Proof.
  intros Hs. pose proof Hs as (Hg & _).
  destruct (two_inv _ _ _ _ _ _ _ _ _ Hs eq_refl I I) as (Hne & _ & _ & (w & t & Ho) & (wv & tv & Hov)).
  destruct (unlock_free _ _ _ _ _ Hov) as [-> Hfree]. runm. apply step_tau.
  eapply release_second; [done..|by apply keeps_word|done| | |done].
  - intros r' _ Hr'. by apply same_store_word.
  - eapply owned_same; [by apply same_store_word|done].
Qed.

Lemma release_ok s p1 k r i v p2 M :
  simulates (s, p1 ++ ARelease k r i v :: p2) M ->
  step_ok p1 p2 M (s' ← word_op s v OidWriteGuard_drop; Ret (Tau, [AFinish k r (Some i)], s')).
Proof.
  intros Hs. pose proof Hs as (Hg & _).
  destruct (two_inv _ _ _ _ _ _ _ _ _ Hs eq_refl I I) as (Hne & _ & _ & (w & t & Ho) & (wv & tv & Hov)).
  destruct (unlock_free _ _ _ _ _ Hov) as [-> Hfree]. runm. apply step_tau.
  eapply release_second; [done..|by apply keeps_word|done| | |done].
  - intros r' _ Hr'. by apply same_store_word.
  - eapply owned_same; [by apply same_store_word|done].
Qed.

Lemma word_inv s acts M v :
  simulates (s, acts) M -> is_Some (sh_words s !! v) ->
  exists w t, sh_words s !! v = Some (encode w) /\ view_wf w /\ Rid_ok v /\ v < sg_cap (sh_store s) /\
    sg_heap (sh_store s) !! Z.to_nat v = Some t /\ length t = tuple_size /\
    rec_ok columns (in_slot (sh_slots s) v) v w t (roles acts v) (M !! v).
Proof.
  intros (_ & _ & Hr) [w0 E]. specialize (Hr v). unfold CacheMachine.rec_inv in Hr. simpl in Hr.
  rewrite E in Hr. destruct Hr as (? & ? & w & t & -> & ?). exists w, t. tauto.
Qed.

(** An exchange that takes the write lock found the record free. *)
Lemma try_write_cases s acts M v weak :
  simulates (s, acts) M -> is_Some (sh_words s !! v) ->
  exists w, load_word s v = Ret (encode w) /\
    ((exists e, try_write (encode w) weak = (Err e, encode w)) \/
     (try_write (encode w) weak = (Ok tt, encode (set_lk w 128)) /\ roles acts v = [] /\
      exists y t, M !! v = Some (y, 0) /\
        owned (store_word s v (encode (set_lk w 128))) (M !! v) v RVictim (set_lk w 128) t /\
        steady (in_slot (sh_slots s) v) v (set_lk w 128) t y)).
Proof.
  intros Hs Hv. destruct (word_inv _ _ _ _ Hs Hv) as (w & t & Hw & Hwf & Hok & Hc & Ht & Hlen & Hrec).
  exists w. split; [by apply load_word_ok|]. rewrite try_write_view by done. case_decide as Hl; [|eauto].
  destruct weak; [eauto|]. right. split; [done|].
  destruct Hrec as [(qss & Er & El & _ & y & Hst & Hm & _)|(x & _ & ? & _)]; [|lia].
  destruct qss as [|? ?]; [|simpl in El; lia]. split; [done|]. exists y, t. split; [done|].
  split; [|done]. split; [by apply lookup_insert_eq|].
  split; [apply set_lk_wf; [done|lia]|]. do 5 (split; [done|]). exists y. by split.
Qed.

Lemma roles_free p1 a p2 v :
  roles (p1 ++ a :: p2) v = [] ->
  role_at v a = [] /\ forall new, roles (p1 ++ new ++ p2) v = roles new v.
Proof.
  rewrite roles_app, roles_cons. intros [E1 [E2 E3]%app_nil]%app_nil. split; [done|].
  intros new. by rewrite !roles_app, E1, E3, app_nil_r.
Qed.

Lemma lock_victim_ok s p1 k r node i v weak p2 M :
  simulates (s, p1 ++ ALock k r node i v :: p2) M ->
  step_ok p1 p2 M (do_lock_victim s k r node i v weak).
Proof.
  intros Hs. pose proof Hs as (Hg & Ha & _). simpl in Hg, Ha.
  apply Forall_app in Ha as [_ [[Hi Hv] _]%Forall_cons].
  destruct (word_inv _ _ _ _ Hs Hv) as (_ & _ & _ & _ & Hok & _).
  destruct (one_inv _ _ _ _ _ _ _ Hs eq_refl I) as (_ & w & t & Ho).
  unfold do_lock_victim. rewrite Rid_from_u32_ok by done. runm.
  destruct (try_write_cases s _ M v weak Hs Hv) as (wv & -> & Hcase). runm.
  destruct Hcase as [(e & ->)|(-> & Hfree & y & tv & Hm & Hov & _)]; apply step_tau.
  - eapply move_one; [done..|intros; split; [apply same_refl|done]|done].
  - destruct (roles_free _ _ _ _ Hfree) as [Hne Hroles].
    rewrite (role_at_one r (ALock k r node i v) v _ eq_refl) in Hne. case_decide as Hd; [done|].
    eapply (simulates_update s p1 _ p2 M _ _ M [v]); [done|by apply keeps_word| | |].
    + constructor; [|done]. split; [done|]. simpl. by apply lookup_insert_is_Some'; left.
    + intros r' Hr'. split; [apply same_store_word; set_solver|]. split; [|done].
      rewrite roles_one, (role_at_two r v (ALocked k r node i v) r' _ _ eq_refl).
      rewrite (role_at_one r (ALock k r node i v) r' _ eq_refl), (decide_False (P := v = r')) by set_solver.
      apply app_nil_r.
    + intros r' ->%list_elem_of_singleton.
      rewrite Hroles, roles_one, (role_at_two r v (ALocked k r node i v) v _ _ eq_refl).
      rewrite (decide_False (P := r = v)), (decide_True (P := v = v)) by done. by eapply owned_rec_inv.
Qed.

Lemma ClockNode_rid_ok n : Rid_ok (cn_rid n) -> ClockNode_rid n = Ret (cn_rid n).
Proof.
  intros Hr. unfold ClockNode_rid. rewrite (proj2 (Z.eqb_neq _ _)) by (unfold Rid_ok in Hr; lia).
  runm. by apply Rid_from_u32_ok.
Qed.

Lemma clear_index_ok s p1 k r node i v p2 M :
  simulates (s, p1 ++ AValid k r node i v :: p2) M ->
  step_ok p1 p2 M (do_clear_index s k r node i v).
Proof.
  intros Hs. pose proof Hs as (Hg & _).
  destruct (two_inv _ _ _ _ _ _ _ _ _ Hs eq_refl I I) as (Hne & _ & _ & (w & t & Ho) & (wv & tv & Hov)).
  pose proof Hov as (Hw & Hwf & Hl & Hok & _ & _ & _ & Hc & Hid & y & Hst & Hm).
  unfold CacheMachine.steady in Hst. rewrite Hc, Hid in Hst. destruct Hst as (c & Honly & Hag & ->).
  destruct (only_slot _ _ _ _ Honly) as (e & He & Ee & Ec).
  unfold do_clear_index. rewrite (slot_ok _ _ _ He). runm.
  rewrite ClockNode_rid_ok by congruence. runm. rewrite Ee.
  pose proof Hok as Hok'. unfold Rid_ok in Hok'.
  rewrite (word_op_ok s v (encode wv) _ (encode (mkView 128 false v)));
    [runm|done|by rewrite store_rid_view, Hl by (done || lia)].
  apply step_tau. eapply move_two; [done..|by apply keeps_word|done| | |].
  - intros r' _ Hr'. by apply same_store_word.
  - eapply owned_same; [by apply same_store_word|done].
  - eapply owned_word; [done|split; simpl; lia|done|]. split; [done|]. split; [done|].
    split; [destruct Hwf; lia|]. exists c. by split_and!.
Qed.

Lemma replace_ok s p1 k r node i v p2 M :
  simulates (s, p1 ++ AReplace k r node i v :: p2) M ->
  step_ok p1 p2 M (do_replace s k r node i v).
Proof.
  intros Hs. pose proof Hs as (Hg & _).
  destruct (two_inv _ _ _ _ _ _ _ _ _ Hs eq_refl I I) as (Hne & _ & _ & (w & t & Ho) & (wv & tv & Hov)).
  pose proof Hov as (_ & _ & _ & _ & _ & _ & _ & Hc & Hid & Hi & c & Honly & Hag & Hm).
  destruct (only_slot _ _ _ _ Honly) as (e & He & Ee & Ec).
  unfold do_replace. rewrite (slot_ok _ _ _ He). runm.
  pose proof Ho as (_ & _ & _ & _ & _ & _ & _ & Hcr & Hidr & Hno & Er & Hf).
  apply step_tau. eapply move_two; [done..|by apply keeps_slot|done| | |].
  - intros r' Hr Hv. eapply same_put_slot; [done|left; congruence|congruence].
  - eapply owned_slot; [done|]. split; [done|]. split; [done|]. split; [done|].
    exists (cn_val node). split; [|done]. eapply only_put; [done| |done].
    intros j c' Hj. by destruct (Hno j c').
  - eapply owned_slot; [done|]. split; [done|]. split; [done|]. rewrite Ec. split; [|done].
    eapply nowhere_put; [done| |congruence]. intros j c' Hj. by eapply only_where.
Qed.

Lemma set_ref_sim u n : exists n', ClockNode_set_ref prob u n = Ret n' /\ node_sim n n'.
Proof.
  unfold ClockNode_set_ref. destruct (gen_bool_ok prob u Hprob) as ([] & ->); runm; by eexists.
Qed.

Lemma touch_slot_ok s i u n :
  sh_slots s !! Z.to_nat i = Some n ->
  exists s', touch_slot s i prob u = Ret s' /\ (forall r, same s s' r) /\
    (glob s -> keeps s s') /\ sh_words s' = sh_words s.
Proof.
  intros Hn. unfold touch_slot. rewrite (slot_ok _ _ _ Hn). runm.
  destruct (set_ref_sim u n) as (n' & -> & Hsim). runm. eexists. split; [done|].
  split; [intros; by eapply same_put_meta|]. split; [|done]. intros. by apply keeps_slot.
Qed.

Lemma indexed_ok s p1 k r i ev u p2 M :
  simulates (s, p1 ++ AIndexed k r i ev :: p2) M ->
  step_ok p1 p2 M (do_indexed s k r i ev prob u).
Proof.
  intros Hs. pose proof Hs as (Hg & _). simpl in Hg.
  assert (Hslot : exists n, sh_slots s !! Z.to_nat i = Some n).
  { destruct (excl_inv s p1 _ p2 M r (RDone k (Some i)) (tail (role_at r (AIndexed k r i ev))) Hs)
      as (_ & _ & w & t & _ & _ & _ & _ & _ & _ & _ & _ & _ & c & Honly & _); [|done|].
    - destruct ev as [[v old]|]; unfold role_at; simpl; by rewrite decide_True.
    - destruct (only_slot _ _ _ _ Honly) as (n & ? & _). by exists n. }
  destruct Hslot as [n Hn].
  assert (Hx : exists s', (match k with Promote _ => touch_slot s i prob u | Insert _ => Ret s end) = Ret s' /\
    (forall r, same s s' r) /\ keeps s s').
  { destruct k; [|exists s; split; [done|]; split; [intros; apply same_refl|by apply keeps_refl]].
    destruct (touch_slot_ok s i u n Hn) as (s' & ? & ? & ? & _). exists s'. split_and!; auto. }
  destruct Hx as (s' & E & Hsame & Hk). unfold do_indexed. rewrite E. runm. apply step_tau.
  destruct ev as [[v old]|].
  - destruct (two_inv _ _ _ _ _ _ _ _ _ Hs eq_refl I I) as (_ & _ & _ & (w & t & Ho) & (wv & tv & Hov)).
    eapply move_two; [done..|intros; apply Hsame| |]; by eapply owned_same.
  - destruct (one_inv _ _ _ _ _ _ _ Hs eq_refl I) as (_ & w & t & Ho).
    eapply move_one; [done..|intros; split; [apply Hsame|done]|]. by eapply owned_same.
Qed.

Lemma write_back_ok s p1 k r i v old p2 M :
  simulates (s, p1 ++ AEvicted k r i v old :: p2) M ->
  step_ok p1 p2 M (do_write_back s k r i v old).
Proof.
  intros Hs. pose proof Hs as (Hg & _).
  destruct (two_inv _ _ _ _ _ _ _ _ _ Hs eq_refl I I) as (Hne & _ & _ & (w & t & Ho) & (wv & tv & Hov)).
  pose proof Hov as (_ & _ & _ & Hok & Hc & Ht & Hlen & Hcv & Hid & Hno & Eold & Hag & Hm).
  unfold do_write_back. rewrite ClockNode_rid_ok by congruence. runm. rewrite Eold.
  destruct (storage_ok _ _ _ Hc Ht) as [-> Hput]. runm. rewrite Hput. runm.
  assert (Hl' : length (write_back (cn_val old) tv) = tuple_size).
  { apply write_back_length; [|done]. apply Hag. }
  pose proof Hok as Hok'. unfold Rid_ok in Hok'.
  apply step_tau. eapply move_two; [done..|by apply keeps_store|done| | |].
  - intros r' _ Hr'. apply same_put_store; [lia|done].
  - eapply owned_same; [apply same_put_store; [lia|done]|done].
  - eapply owned_store; [done|done|]. exists (write_back (cn_val old) tv). split; [|done].
    unfold CacheMachine.steady. by rewrite Hcv.
Qed.

(** *** The end of a probe *)
Lemma slot_value_ok s r w t i c q :
  sh_words s !! r = Some (encode w) -> Rid_ok r -> r < sg_cap (sh_store s) ->
  sg_heap (sh_store s) !! Z.to_nat r = Some t ->
  ov_cached w = true -> ov_id w = i -> only (in_slot (sh_slots s) r) i c -> fields q ⊆ columns ->
  exists v, slot_value s i q = Ret v /\ ref_ok columns r w (q, v).
Proof.
  intros Hw Hok Hc Ht Hcw Hid Honly Hq. unfold slot_value, ref_ok. rewrite Hcw, Hid. cbn [fst snd].
  destruct (matches q) eqn:Em.
  - eexists. split; [done|]. split; [done|]. split; [done|]. by right.
  - destruct (only_slot _ _ _ _ Honly) as (e & He & Ee & _). rewrite (slot_ok _ _ _ He). runm.
    rewrite ClockNode_rid_ok by congruence. runm. rewrite Ee.
    destruct (storage_ok _ _ _ Hc Ht) as [-> _]. runm. eexists. split; [done|]. split; [done|].
    split; [done|]. by left.
Qed.

Lemma finish_insert_ok s p1 val r loc p2 M :
  simulates (s, p1 ++ AFinish (Insert val) r loc :: p2) M ->
  step_ok p1 p2 M (do_finish s (Insert val) r loc).
Proof.
  intros Hs. pose proof Hs as (Hg & _).
  destruct (one_inv _ _ _ _ _ _ _ Hs eq_refl I) as (_ & w & t & Ho).
  pose proof Ho as (Hw & Hwf & Hl & Hok & Hc & Ht & Hlen & Hx).
  unfold do_finish, Storage_insert. destruct (storage_ok _ _ _ Hc Ht) as [_ ->]. runm.
  pose proof Hok as Hok'. unfold Rid_ok in Hok'.
  assert (Hval : length val = tuple_size /\ M !! r = None /\
    steady (in_slot (sh_slots s) r) r w val val).
  { unfold CacheMachine.steady. destruct loc as [i|]; destruct Hx as (Hcw & Hid & Hx).
    - destruct Hx as (c & Honly & Hlv & Hm & ->). split; [done|]. split; [done|]. rewrite Hcw, Hid.
      exists (to_cached val). split; [done|]. split; [by eapply to_cached_agree|].
      by rewrite write_back_to_cached.
    - destruct Hx as (Hno & c & Hlv & Hm & _). split; [done|]. split; [done|]. by rewrite Hcw. }
  destruct Hval as (Hlv & Hm & Hst).
  exists (LInsert r val), [AWrite r []], (put_store s (with_heap (sh_store s) r val)), (<[r:=(val,128)]> M).
  split; [done|]. split; [by constructor|].
  eapply move_one; [done..|by apply keeps_store|done| |].
  - intros r' Hr'. split; [apply same_put_store; [lia|done]|by apply lookup_insert_ne].
  - eapply owned_store; [done|done|]. exists val. split; [done|]. by rewrite lookup_insert_eq.
Qed.

Lemma finish_promote_ok s p1 q r loc p2 M :
  simulates (s, p1 ++ AFinish (Promote q) r loc :: p2) M ->
  step_ok p1 p2 M (do_finish s (Promote q) r loc).
Proof.
  intros Hs. pose proof Hs as (Hg & _).
  destruct (one_inv _ _ _ _ _ _ _ Hs eq_refl I) as (_ & w & t & Ho).
  pose proof Ho as (Hw & Hwf & Hl & Hok & Hc & Ht & Hlen & Hx).
  unfold do_finish. destruct loc as [i|]; destruct Hx as (Hcw & Hid & Hx).
  - destruct Hx as (c & Honly & Hq & Hm & ->).
    destruct (slot_value_ok s r w t i _ q Hw Hok Hc Ht Hcw Hid Honly Hq) as (v & -> & Href). runm.
    apply step_tau. eapply move_one; [done..|by apply keeps_refl|done| |].
    + intros. split; [apply same_refl|done].
    + eapply owned_excl; [done|]. intros _. exists t. split; [|split; [done|by constructor]].
      unfold CacheMachine.steady. rewrite Hcw, Hid. exists (to_cached t). split; [done|].
      split; [by eapply to_cached_agree|]. by rewrite write_back_to_cached.
  - destruct Hx as (Hno & c & Hq & Hm & _).
    apply step_tau. eapply move_one; [done..|by apply keeps_refl|done| |].
    + intros. split; [apply same_refl|done].
    + eapply owned_excl; [done|]. intros _. exists t. split; [|split; [done|]].
      * unfold CacheMachine.steady. by rewrite Hcw.
      * constructor; [|done]. split; [done|]. by rewrite Hcw.
Qed.

(** *** Guards *)
Definition set_refs (a : activity) (qs : list (FieldsMeta * QueryValue)) : activity :=
  match a with ARead r _ => ARead r qs | AWrite r _ => AWrite r qs | _ => a end.

Definition is_guard (a : activity) (r : Rid) (qs : list (FieldsMeta * QueryValue)) : Prop :=
  a = ARead r qs \/ a = AWrite r qs.

(** What a guard knows of its record. *)
Definition guarded (s : shared) (r : Rid) (qs : list (FieldsMeta * QueryValue)) (w : oid_view)
    (t y : obj) : Prop :=
  sh_words s !! r = Some (encode w) /\ view_wf w /\ Rid_ok r /\ r < sg_cap (sh_store s) /\
  sg_heap (sh_store s) !! Z.to_nat r = Some t /\ length t = tuple_size /\
  steady (in_slot (sh_slots s) r) r w t y /\ Forall (ref_ok columns r w) qs.

Lemma readers_split l1 qs l2 qss :
  l1 ++ RRead qs :: l2 = RRead <$> qss ->
  exists q1 q2, l1 = RRead <$> q1 /\ l2 = RRead <$> q2 /\ qss = q1 ++ qs :: q2.
Proof.
  intros (q1 & q2 & -> & E & ->)%eq_sym%fmap_app_inv.
  destruct q2 as [|q q2]; simplify_eq/=. eauto.
Qed.

(** The roles around a reader. *)
Lemma reader_inv s p1 r qs p2 M :
  simulates (s, p1 ++ ARead r qs :: p2) M ->
  exists w t y q1 q2, guarded s r qs w t y /\
    roles p1 r = RRead <$> q1 /\ roles p2 r = RRead <$> q2 /\
    lk w = Z.of_nat (length (q1 ++ qs :: q2)) /\ lk w < 127 /\ M !! r = Some (y, lk w) /\
    Forall (Forall (ref_ok columns r w)) (q1 ++ q2).
Proof.
  intros Hs. pose proof Hs as (_ & _ & Hr). specialize (Hr r). simpl in Hr.
  rewrite roles_app, roles_cons, (role_at_one r (ARead r qs) r _ eq_refl) in Hr.
  rewrite decide_True in Hr by done. simpl in Hr. unfold CacheMachine.rec_inv in Hr.
  destruct (sh_words s !! r) as [w0|] eqn:Ew; [|destruct Hr as [Hr _]; by destruct (roles p1 r)].
  destruct Hr as (Hok & Hc & w & t & -> & Hwf & Ht & Hlen & [(qss & Eq & El & Hl & y & Hst & Hm & Hf)|(x & Ex & _ & Hx)]).
  - destruct (readers_split _ _ _ _ Eq) as (q1 & q2 & E1 & E2 & ->).
    apply Forall_app in Hf as [Hf1 [Hf2 Hf3]%Forall_cons].
    exists w, t, y, q1, q2. split; [by do 7 (split; [done|])|]. do 2 (split; [done|]).
    split; [done|]. split; [done|]. split; [congruence|]. by apply Forall_app.
  - exfalso. destruct (roles p1 r) as [|? [|? ?]]; [|discriminate..]. by injection Ex as <- _.
Qed.

Lemma reader_rec_inv s r w t y qss :
  sh_words s !! r = Some (encode w) -> view_wf w -> Rid_ok r -> r < sg_cap (sh_store s) ->
  sg_heap (sh_store s) !! Z.to_nat r = Some t -> length t = tuple_size ->
  steady (in_slot (sh_slots s) r) r w t y -> lk w = Z.of_nat (length qss) -> lk w < 127 ->
  Forall (Forall (ref_ok columns r w)) qss ->
  rec_inv s (RRead <$> qss) (Some (y, lk w)) r.
Proof.
  intros Hw Hwf Hok Hc Ht Hlen Hst El Hl Hf. unfold CacheMachine.rec_inv. rewrite Hw.
  do 2 (split; [done|]). exists w, t. do 4 (split; [done|]). left. exists qss.
  do 3 (split; [done|]). exists y. split; [done|]. by rewrite El.
Qed.

Lemma guard_inv s p1 a p2 M r qs :
  simulates (s, p1 ++ a :: p2) M -> is_guard a r qs ->
  exists w t y n, guarded s r qs w t y /\ M !! r = Some (y, n) /\ 0 < n /\
    forall s' qs', Forall (ref_ok columns r w) qs' -> (forall r, same s s' r) -> keeps s s' ->
      simulates (s', p1 ++ [set_refs a qs'] ++ p2) M.
Proof.
  intros Hs [->| ->].
  - destruct (reader_inv _ _ _ _ _ _ Hs) as (w & t & y & q1 & q2 & Hgd & E1 & E2 & El & Hl & Hm & Hf).
    exists w, t, y, (lk w). split; [done|]. split; [done|].
    split; [rewrite El, length_app; simpl; lia|]. intros s' qs' Hf' Hsame Hk.
    eapply (simulates_update s p1 _ p2 M s' _ M [r]); [done|done|by constructor| |].
    + intros r' Hr'. split; [apply Hsame|]. split; [|done].
      cbn [set_refs]. rewrite roles_one, (role_at_one r (ARead r qs') r' _ eq_refl).
      rewrite (role_at_one r (ARead r qs) r' _ eq_refl).
      by rewrite !decide_False by set_solver.
    + intros r' ->%list_elem_of_singleton. rewrite Hm. eapply rec_inv_same; [apply Hsame|].
      rewrite !roles_app, roles_one, E1, E2. cbn [set_refs].
      rewrite (role_at_one r (ARead r qs') r _ eq_refl), decide_True by done.
      replace ((RRead <$> q1) ++ [RRead qs'] ++ (RRead <$> q2)) with (RRead <$> q1 ++ qs' :: q2)
        by by rewrite fmap_app.
      destruct Hgd as (? & ? & ? & ? & ? & ? & ? & _). eapply reader_rec_inv; try done.
      * rewrite El, !length_app. done.
      * apply Forall_app in Hf as [? ?]. apply Forall_app. split; [done|]. by constructor.
  - destruct (one_inv _ _ _ _ _ _ _ Hs eq_refl I) as (_ & w & t & Ho).
    pose proof Ho as (Hw & Hwf & Hl & Hok & Hc & Ht & Hlen & y & Hst & Hm & Hf).
    exists w, t, y, 128. split; [by do 7 (split; [done|])|]. split; [done|]. split; [done|].
    intros s' qs' Hf' Hsame Hk. eapply move_one; [done..|intros; split; [apply Hsame|done]|].
    eapply owned_same; [apply Hsame|]. eapply owned_excl; [done|]. intros _. by exists y.
Qed.

(** [read] gives a query value that points to the record. *)
Lemma do_read_ok s r qs w t y q u :
  glob s -> guarded s r qs w t y -> fields q ⊆ columns ->
  exists v s', do_read s r q prob u = Ret (v, s') /\ (forall r', same s s' r') /\ keeps s s' /\
    ref_ok columns r w (q, v).
Proof.
  intros Hg (Hw & Hwf & Hok & Hc & Ht & Hlen & Hst & _) Hq. unfold do_read.
  rewrite (load_word_ok _ _ _ Hw). runm. rewrite is_cached_view by done.
  unfold CacheMachine.steady in Hst. destruct (ov_cached w) eqn:Ec.
  - destruct Hst as (c & Honly & _). rewrite to_cache_index_view by done. runm.
    destruct (only_slot _ _ _ _ Honly) as (e & He & _).
    destruct (touch_slot_ok s (ov_id w) u e He) as (s' & -> & Hsame & Hk & Ew). runm.
    destruct (Hsame r) as (_ & E2 & E3 & E4). pose proof Hok as Hok'. unfold Rid_ok in Hok'.
    assert (Honly' : only (in_slot (sh_slots s') r) (ov_id w) c) by (by rewrite <-(E4 ltac:(lia))).
    destruct (slot_value_ok s' r w t (ov_id w) c q) as (v & -> & Href);
      [congruence|done|congruence|rewrite E3; [done|lia]|done|done|done|done|].
    runm. exists v, s'. split; [done|]. split; [done|]. split; [auto|done].
  - destruct Hst as (Hid & _). pose proof Hok as Hok'. unfold Rid_ok in Hok'.
    rewrite is_rid_view, Ec by done. runm. rewrite to_rid_view by (done || lia). runm. rewrite Hid.
    destruct (storage_ok _ _ _ Hc Ht) as [-> _]. runm. do 2 eexists. split; [done|].
    split; [intros; apply same_refl|]. split; [by apply keeps_refl|]. split; [done|]. by rewrite Ec.
Qed.

(** Where a queried column is. *)
Lemma ref_place r w q v f :
  ref_ok columns r w (q, v) -> f ∈ fields q ->
  value_place v f = Ret
    match to_cached_field f with
    | Some cf => if ov_cached w then InCache (ov_id w) (f_begin cf) else InTuple r (f_begin f)
    | None => InTuple r (f_begin f)
    end.
Proof. intros [_ Hc] Hf. eapply value_place_points; [done|by apply covers_query]. Qed.

Lemma guarded_ref s r qs w t y q v :
  guarded s r qs w t y -> (q, v) ∈ qs -> ref_ok columns r w (q, v).
Proof. intros (_ & _ & _ & _ & _ & _ & _ & Hf) Hin. by eapply Forall_forall in Hf. Qed.

Lemma do_get_ok s r qs w t y q v f :
  guarded s r qs w t y -> (q, v) ∈ qs -> f ∈ fields q -> do_get s v f = Ret (load_field y f).
Proof.
  intros Hg Hin Hf. pose proof (guarded_ref _ _ _ _ _ _ _ _ Hg Hin) as Href.
  pose proof Hg as (Hw & Hwf & Hok & Hc & Ht & Hlen & Hst & _).
  assert (Hcol : f ∈ columns) by (by apply (proj1 Href)).
  pose proof (columns_in_tuple f Hcol) as Hin_t. destruct (storage_ok _ _ _ Hc Ht) as [Hget _].
  unfold do_get. rewrite (ref_place r w q v f Href Hf). runm.
  rewrite Field_size_ok by apply Hin_t. runm. unfold CacheMachine.steady in Hst.
  destruct (to_cached_field f) as [cf|] eqn:Ef; destruct (ov_cached w) eqn:Ec.
  2: { rewrite Hget. runm. destruct Hst as (_ & _ & ->). by eapply raw_read_field. }
  3: { rewrite Hget. runm. destruct Hst as (_ & _ & ->). by eapply raw_read_field. }
  - destruct Hst as (c & Honly & (Hlc & _ & Hag) & ->).
    destruct (only_slot _ _ _ _ Honly) as (e & He & _ & Ev). rewrite (slot_ok _ _ _ He). runm.
    destruct (cached_in_field f cf Hcol Ef) as [Hcf El]. rewrite <-El, Ev.
    rewrite (raw_read_field _ _ field_size) by done. by rewrite (Hag f cf).
  - rewrite Hget. runm. destruct Hst as (c & _ & (Hlc & _ & _) & ->).
    rewrite (raw_read_field _ _ tuple_size) by done. by rewrite uncached_read.
Qed.

Lemma do_set_ok s m r qs w t y q v f bs :
  glob s -> owned s m r (RWrite qs) w t -> guarded s r qs w t y ->
  (q, v) ∈ qs -> f ∈ fields q -> f ∈ mut_columns -> length bs = Z.to_nat (Field_len f) ->
  exists s' t', do_set s v f bs = Ret s' /\ keeps s s' /\ (forall r', r' <> r -> same s s' r') /\
    owned s' (Some (store_field y f bs, 128)) r (RWrite qs) w t'.
Proof.
  intros Hg Ho Hgd Hin Hf Hmut Hb. pose proof (guarded_ref _ _ _ _ _ _ _ _ Hgd Hin) as Href.
  pose proof Hgd as (Hw & Hwf & Hok & Hc & Ht & Hlen & Hst & Hrefs).
  assert (Hcol : f ∈ columns) by (by apply (proj1 Href)). pose proof Hok as Hok'. unfold Rid_ok in Hok'.
  pose proof (columns_in_tuple f Hcol) as Hin_t. destruct (storage_ok _ _ _ Hc Ht) as [Hget Hput].
  assert (Htuple : forall t', length t' = tuple_size ->
    steady (in_slot (sh_slots s) r) r w t' (store_field y f bs) ->
    keeps s (put_store s (with_heap (sh_store s) r t')) /\
    (forall r', r' <> r -> same s (put_store s (with_heap (sh_store s) r t')) r') /\
    owned (put_store s (with_heap (sh_store s) r t')) (Some (store_field y f bs, 128)) r (RWrite qs) w t').
  { intros t' Hl' Hst'. split; [by apply keeps_store|].
    split; [intros; apply same_put_store; [lia|done]|]. eapply owned_store; [done|done|]. by eexists. }
  unfold do_set. rewrite (ref_place r w q v f Href Hf). runm. unfold CacheMachine.steady in Hst, Htuple.
  assert (Hlt : length (store_field t f bs) = tuple_size) by (by rewrite length_store_field).
  destruct (to_cached_field f) as [cf|] eqn:Ef; destruct (ov_cached w) eqn:Ec.
  2, 4: rewrite Hget; runm; rewrite (raw_write_field _ _ tuple_size) by done; runm; rewrite Hput; runm;
    destruct Hst as (Hid & Hno & ->); do 2 eexists; (split; [done|]); by apply Htuple.
  - destruct Hst as (c & Honly & Hag & ->).
    destruct (only_slot _ _ _ _ Honly) as (e & He & Ee & Ev). rewrite (slot_ok _ _ _ He). runm.
    destruct (cached_in_field f cf Hcol Ef) as [Hcf El]. rewrite Ev.
    rewrite (raw_write_field _ _ field_size); [runm|done|apply Hag|by rewrite El].
    destruct (cached_write c t f cf bs Hmut Ef Hag Hb) as [<- Hag'].
    do 2 eexists. split; [done|]. split; [by apply keeps_slot|].
    split; [intros r' Hr'; eapply same_put_slot; [done|left; congruence|simpl; congruence]|].
    eapply owned_slot; [done|]. eexists. split; [|by split].
    unfold CacheMachine.steady. rewrite Ec. exists (store_field c cf bs). split; [|done].
    apply (only_put _ _ e (mkNode (cn_rid e) (cn_meta e) (store_field c cf bs))); [done| |done].
    intros j c' Hj. by eapply only_where.
  - rewrite Hget. runm. rewrite (raw_write_field _ _ tuple_size) by done. runm. rewrite Hput. runm.
    destruct Hst as (c & Honly & Hag & ->).
    destruct (uncached_write c t f bs Hmut Ef Hag Hb) as [E Hag'].
    do 2 eexists. split; [done|]. apply Htuple; [done|]. by exists c.
Qed.

(** *** The steps of a guard *)
Lemma read_step_ok s p1 a p2 M r qs q u :
  simulates (s, p1 ++ a :: p2) M -> is_guard a r qs -> fields q ⊆ columns ->
  step_ok p1 p2 M ('(v, s') ← do_read s r q prob u; Ret (Tau, [set_refs a ((q, v) :: qs)], s')).
Proof.
  intros Hs Ha Hq. pose proof Hs as (Hg & _). simpl in Hg.
  destruct (guard_inv _ _ _ _ _ _ _ Hs Ha) as (w & t & y & n & Hgd & _ & _ & Hset).
  destruct (do_read_ok s r qs w t y q u Hg Hgd Hq) as (v & s' & -> & Hsame & Hk & Href). runm.
  apply step_tau. apply Hset; [|done|done]. constructor; [done|]. apply Hgd.
Qed.

Lemma get_step_ok s p1 a p2 M r qs q v f :
  simulates (s, p1 ++ a :: p2) M -> is_guard a r qs -> (q, v) ∈ qs -> f ∈ fields q ->
  step_ok p1 p2 M (bs ← do_get s v f; Ret (LGet r f bs, [a], s)).
Proof.
  intros Hs Ha Hin Hf. destruct (guard_inv _ _ _ _ _ _ _ Hs Ha) as (w & t & y & n & Hgd & Hm & Hn & _).
  rewrite (do_get_ok s r qs w t y q v f) by done. runm.
  exists (LGet r f (load_field y f)), [a], s, M. split; [done|]. split; [|done].
  eapply s_get; [done|done|]. by apply (proj1 (guarded_ref _ _ _ _ _ _ _ _ Hgd Hin)).
Qed.

Lemma write_guarded s m r qs w t :
  owned s m r (RWrite qs) w t -> exists y, guarded s r qs w t y /\ m = Some (y, 128).
Proof.
  intros (Hw & Hwf & Hl & Hok & Hc & Ht & Hlen & y & Hst & Hm & Hf). exists y. split; [|done].
  by do 7 (split; [done|]).
Qed.

Lemma set_step_ok s p1 p2 M r qs q v f bs :
  simulates (s, p1 ++ AWrite r qs :: p2) M ->
  (q, v) ∈ qs -> f ∈ fields q -> f ∈ mut_columns -> length bs = Z.to_nat (Field_len f) ->
  step_ok p1 p2 M (s' ← do_set s v f bs; Ret (LSet r f bs, [AWrite r qs], s')).
Proof.
  intros Hs Hin Hf Hmut Hb. pose proof Hs as (Hg & _). simpl in Hg.
  destruct (one_inv _ _ _ _ _ _ _ Hs eq_refl I) as (_ & w & t & Ho).
  destruct (write_guarded _ _ _ _ _ _ Ho) as (y & Hgd & Hm).
  destruct (do_set_ok s _ r qs w t y q v f bs Hg Ho Hgd Hin Hf Hmut Hb) as (s' & t' & -> & Hk & Hsame & Ho').
  runm. exists (LSet r f bs), [AWrite r qs], s', (<[r := (store_field y f bs, 128)]> M).
  split; [done|]. split; [by eapply s_set|].
  eapply move_one; [done..| |].
  - intros r' Hr'. split; [by apply Hsame|by apply lookup_insert_ne].
  - by rewrite lookup_insert_eq.
Qed.

Lemma lock_encode s r w l :
  sh_words s !! r = Some (encode w) -> view_wf w -> 0 <= l <= 128 ->
  sh_words (store_word s r (encode (set_lk w l))) !! r = Some (encode (set_lk w l)) /\
  view_wf (set_lk w l).
Proof. intros. split; [apply lookup_insert_eq|by apply set_lk_wf]. Qed.

Lemma write_drop_ok s p1 p2 M r qs :
  simulates (s, p1 ++ AWrite r qs :: p2) M ->
  step_ok p1 p2 M (s' ← word_op s r OidWriteGuard_drop; Ret (LWriteDrop r, [], s')).
Proof.
  intros Hs. pose proof Hs as (Hg & _). simpl in Hg.
  destruct (one_inv _ _ _ _ _ _ _ Hs eq_refl I) as (Hroles & w & t & Ho).
  pose proof Ho as (Hw & Hwf & Hl & Hok & Hc & Ht & Hlen & y & Hst & Hm & _).
  rewrite (word_op_ok s r (encode w) _ (encode (set_lk w 0))); [runm|done|by apply write_unlock_view].
  exists (LWriteDrop r), [], (store_word s r (encode (set_lk w 0))), (<[r := (y, 0)]> M).
  split; [done|]. split; [by constructor|].
  eapply (simulates_update s p1 _ p2 M _ [] _ [r]); [done|by apply keeps_word|done| |].
  - intros r' Hr'. split; [apply same_store_word; set_solver|]. split; [|apply lookup_insert_ne; set_solver].
    rewrite (role_at_one r (AWrite r qs) r' _ eq_refl). by rewrite decide_False by set_solver.
  - intros r' ->%list_elem_of_singleton. rewrite Hroles, lookup_insert_eq.
    destruct (lock_encode s r w 0 Hw Hwf) as [Hw' Hwf']; [lia|].
    by apply (reader_rec_inv _ r (set_lk w 0) t y []).
Qed.

Lemma read_drop_ok s p1 p2 M r qs :
  simulates (s, p1 ++ ARead r qs :: p2) M ->
  step_ok p1 p2 M (s' ← word_op s r OidReadGuard_drop; Ret (LReadDrop r, [], s')).
Proof.
  intros Hs. pose proof Hs as (Hg & _). simpl in Hg.
  destruct (reader_inv _ _ _ _ _ _ Hs) as (w & t & y & q1 & q2 & Hgd & E1 & E2 & El & Hl & Hm & Hf).
  destruct Hgd as (Hw & Hwf & Hok & Hc & Ht & Hlen & Hst & _).
  rewrite length_app in El. cbn [length] in El.
  rewrite (word_op_ok s r (encode w) _ (encode (set_lk w (lk w - 1))));
    [runm|done|apply read_unlock_view; [done|lia]].
  exists (LReadDrop r), [], (store_word s r (encode (set_lk w (lk w - 1)))), (<[r := (y, lk w - 1)]> M).
  split; [done|]. split; [eapply s_read_drop; [done|lia]|].
  eapply (simulates_update s p1 _ p2 M _ [] _ [r]); [done|by apply keeps_word|done| |].
  - intros r' Hr'. split; [apply same_store_word; set_solver|]. split; [|apply lookup_insert_ne; set_solver].
    rewrite (role_at_one r (ARead r qs) r' _ eq_refl). by rewrite decide_False by set_solver.
  - intros r' ->%list_elem_of_singleton. rewrite !roles_app, E1, E2, lookup_insert_eq. simpl.
    rewrite <-fmap_app. destruct (lock_encode s r w (lk w - 1) Hw Hwf) as [Hw' Hwf']; [lia|].
    apply (reader_rec_inv _ r (set_lk w (lk w - 1)) t y (q1 ++ q2)); try done; simpl; [|lia].
    rewrite length_app. lia.
Qed.

(** An upgrade succeeds for the only reader. *)
Lemma upgrade_ok s p1 p2 M r qs weak :
  simulates (s, p1 ++ ARead r qs :: p2) M -> step_ok p1 p2 M (do_upgrade s r weak).
Proof.
  intros Hs. pose proof Hs as (Hg & _). simpl in Hg.
  destruct (guard_inv _ _ _ _ _ _ _ Hs (or_introl eq_refl)) as (w0 & t0 & y0 & n0 & _ & _ & _ & Hset).
  destruct (reader_inv _ _ _ _ _ _ Hs) as (w & t & y & q1 & q2 & Hgd & E1 & E2 & El & Hl & Hm & Hf).
  destruct Hgd as (Hw & Hwf & Hok & Hc & Ht & Hlen & Hst & _).
  rewrite length_app in El. cbn [length] in El.
  unfold do_upgrade. rewrite (load_word_ok _ _ _ Hw). runm. rewrite upgrade_view by (done || lia).
  assert (Hbusy : step_ok p1 p2 M (Ret (Tau, [ARead r []], s))).
  { apply step_tau. apply (Hset s []); [done|intros; apply same_refl|by apply keeps_refl]. }
  case_decide as H1; [|by runm]. destruct weak; runm; [done|].
  exists (LUpgrade r), [AWrite r []], (store_word s r (encode (set_lk w 128))), (<[r := (y, 128)]> M).
  split; [done|]. split; [eapply s_upgrade; by rewrite <-H1|].
  assert (q1 = [] /\ q2 = []) as [-> ->] by (destruct q1, q2; simpl in *; (done || lia)).
  eapply (simulates_update s p1 _ p2 M _ _ _ [r]); [done|by apply keeps_word|by constructor| |].
  - intros r' Hr'. split; [apply same_store_word; set_solver|]. split; [|apply lookup_insert_ne; set_solver].
    rewrite roles_one, (role_at_one r (AWrite r []) r' _ eq_refl), (role_at_one r (ARead r qs) r' _ eq_refl).
    by rewrite !decide_False by set_solver.
  - intros r' ->%list_elem_of_singleton. rewrite !roles_app, E1, E2, lookup_insert_eq, roles_one.
    rewrite (role_at_one r (AWrite r []) r _ eq_refl), decide_True by done. simpl.
    destruct (lock_encode s r w 128 Hw Hwf) as [Hw' Hwf']; [lia|].
    eapply (owned_rec_inv _ _ r _ (set_lk w 128) t). do 7 (split; [done|]). by exists y.
Qed.

Lemma promote_ok s p1 p2 M r qs q u :
  simulates (s, p1 ++ AWrite r qs :: p2) M -> fields q ⊆ columns ->
  step_ok p1 p2 M (do_promote s r q probe_len prob u).
Proof.
  intros Hs Hq. pose proof Hs as (Hg & _). simpl in Hg.
  destruct (one_inv _ _ _ _ _ _ _ Hs eq_refl I) as (_ & w & t & Ho).
  destruct (guard_inv _ _ _ _ _ _ _ Hs (or_intror eq_refl)) as (w' & t' & y' & n & Hgd' & _ & _ & Hset).
  destruct (write_guarded _ _ _ _ _ _ Ho) as (y & Hgd & Hm).
  pose proof Hgd as (Hw & Hwf & Hok & Hc & Ht & Hlen & Hst & _). unfold CacheMachine.steady in Hst.
  unfold do_promote. rewrite (load_word_ok _ _ _ Hw). runm. rewrite is_cached_view by done.
  destruct (ov_cached w) eqn:Ec.
  - destruct (do_read_ok s r qs w' t' y' q u Hg Hgd' Hq) as (v & s' & -> & Hsame & Hk & Href). runm.
    apply step_tau. apply (Hset s' [(q, v)]); [|done|done]. by constructor.
  - destruct Hst as (Hid & Hno & ->). pose proof Hok as Hok'. unfold Rid_ok in Hok'.
    rewrite to_rid_view by (done || lia). runm. rewrite Hid.
    destruct (storage_ok _ _ _ Hc Ht) as [-> _]. runm. destruct (probe_len =? 0); apply step_tau.
    + eapply move_one; [done..|by apply keeps_refl|done| |].
      * intros. split; [apply same_refl|done].
      * eapply owned_excl; [done|]. intros _. exists t. split; [unfold CacheMachine.steady; by rewrite Ec|].
        split; [done|]. constructor; [|done]. split; [done|]. by rewrite Ec.
    + eapply move_one; [done..|by apply keeps_refl|done| |].
      * intros. split; [apply same_refl|done].
      * eapply owned_excl; [done|]. intros _. do 3 (split; [done|]). by split.
Qed.

(** *** Taking a read lock *)

(** [try_read] before its assertion, which finds a writer or too many readers. *)
Definition overtaken (s : shared) (a : activity) : Prop :=
  exists r val w, a = ATry r val /\ sh_words s !! r = Some w /\
    ~ (write_locked w = false /\ read_lock_cnt w + 1 < MAX_READER).

Lemma load_act_ok s p1 a p2 M : simulates (s, p1 ++ a :: p2) M -> act_ok s a.
Proof. intros (_ & Ha & _). by apply Forall_app in Ha as [_ [Ha _]%Forall_cons]. Qed.

Lemma read_check_ok s p1 p2 M r val :
  simulates (s, p1 ++ ATry r val :: p2) M ->
  step_ok p1 p2 M (do_read_check s r val) \/
  do_read_check s r val = Panic /\ overtaken s (ATry r val).
Proof.
  intros Hs. pose proof Hs as (Hg & _). simpl in Hg. destruct (load_act_ok _ _ _ _ _ Hs) as [Hr Hval].
  destruct (word_inv _ _ _ _ Hs Hr) as (w & t & Hw & Hwf & _).
  unfold do_read_check. rewrite (load_word_ok _ _ _ Hw). runm. rewrite try_read_check_view by done.
  case_decide as Hl; runm; [left|right].
  - apply step_tau. eapply (simulates_update s p1 _ p2 M s _ M []); [done|done|by repeat constructor| |].
    + intros r' _. split; [apply same_refl|done].
    + set_solver.
  - split; [done|]. exists r, val, (encode w). do 2 (split; [done|]).
    rewrite read_lock_cnt_view by done. by intros [_ ?].
Qed.

(** The exchange returns; a guard it makes keeps the simulation if there are
    few readers. *)
Lemma read_exchange_returns s p1 p2 M r val blocking weak :
  simulates (s, p1 ++ AReadCas r val blocking :: p2) M ->
  exists l new s', do_read_exchange s r val blocking weak = Ret (l, new, s').
Proof.
  intros Hs. destruct (load_act_ok _ _ _ _ _ Hs) as [[w Hw] _].
  unfold do_read_exchange. rewrite (load_word_ok _ _ _ Hw). runm. repeat case_match; eauto.
Qed.

Definition is_reader (x : role) : bool := match x with RRead _ => true | _ => false end.

Lemma count_readers acts r :
  length (filter (fun x => is_reader x = true) (roles acts r)) =
  length (filter (fun a => reads r a = true) acts).
Proof.
  induction acts as [|a acts IH]; [done|]. rewrite roles_cons, filter_app, length_app, IH.
  enough (E : length (filter (fun x => is_reader x = true) (role_at r a)) = if reads r a then 1%nat else 0%nat).
  { rewrite E, filter_cons. destruct (reads r a); [by rewrite decide_True|by rewrite decide_False]. }
  unfold role_at. destruct a as [| | | | | | | | | | | | | |? ? ? [[? ?]|]| | |]; simpl;
    unfold bool_decide; try done; repeat (case_decide; simpl; try done).
Qed.

Lemma readers_all (qss : list (list (FieldsMeta * QueryValue))) :
  filter (fun x => is_reader x = true) (RRead <$> qss) = RRead <$> qss.
Proof.
  induction qss as [|q qss IH]; [done|]. cbn [fmap list_fmap].
  rewrite filter_cons, decide_True by done. by f_equal.
Qed.

Lemma read_exchange_ok s p1 p2 M r val blocking weak :
  simulates (s, p1 ++ AReadCas r val blocking :: p2) M ->
  (forall l new s', do_read_exchange s r val blocking weak = Ret (l, new, s') ->
    few_readers (p1 ++ new ++ p2)) ->
  step_ok p1 p2 M (do_read_exchange s r val blocking weak).
Proof.
  intros Hs Hfew. pose proof Hs as (Hg & _). simpl in Hg.
  destruct (load_act_ok _ _ _ _ _ Hs) as [Hr Hval].
  destruct (word_inv _ _ _ _ Hs Hr) as (w & t & Hw & Hwf & Hok & Hc & Ht & Hlen & Hrec).
  unfold do_read_exchange in *. rewrite (load_word_ok _ _ _ Hw) in *. runm.
  assert (Htau : forall new, Forall (act_ok s) new -> (forall r, roles new r = []) ->
    step_ok p1 p2 M (Ret (Tau, new, s))).
  { intros new Hnew Hroles. apply step_tau.
    eapply (simulates_update s p1 _ p2 M s _ M []); [done|done|done| |set_solver].
    intros r' _. split; [apply same_refl|]. by rewrite Hroles. }
  destruct (decide (encode w = val /\ weak = false)) as [[<- ->]|Hne].
  2:{ unfold read_exchange, cas_weak.
      replace ((encode w =? val) && negb weak) with false.
      2:{ destruct (Z.eqb_spec (encode w) val), weak; try done. by destruct Hne. }
      rewrite write_locked_view by done. destruct blocking; [|by apply Htau].
      destruct (Z.eqb_spec (lk w) 128); [by apply Htau|]. apply Htau; [|done].
      constructor; [|done]. split; [done|]. rewrite try_read_load_view by done. by rewrite decide_False. }
  rewrite try_read_load_view in Hval by done. case_decide as Hl; [done|].
  assert (Ex : read_exchange (encode w) (encode w) false = (Ok (encode w), encode (set_lk w (lk w + 1))))
    by (apply (read_exchange_view w false); [done|destruct Hwf; lia]).
  assert (Hfew' : few_readers (p1 ++ [ARead r []] ++ p2)).
  { eapply Hfew. runm. by rewrite Ex. }
  clear Hfew. rewrite Ex. destruct Hrec as [(qss & Er & El & Hl' & y & Hst & Hm & Hf)|(x & _ & ? & Hx)]; [|done].
  pose proof (Hfew' r) as Hfew. rewrite <-count_readers in Hfew. change MAX_READER with 127 in Hfew.
  rewrite roles_app, roles_cons in Er. change (role_at r (AReadCas r (encode w) blocking)) with (@nil role) in Er.
  rewrite !roles_app, roles_one, (role_at_one r (ARead r []) r _ eq_refl), decide_True in Hfew by done.
  simpl in Er. symmetry in Er. apply fmap_app_inv in Er as (q1 & q2 & E1 & E2 & ->).
  rewrite E1, E2 in Hfew.
  replace ((RRead <$> q1) ++ [RRead []] ++ (RRead <$> q2)) with (RRead <$> q1 ++ [] :: q2) in Hfew
    by by rewrite fmap_app.
  rewrite readers_all, length_fmap, length_app in Hfew. rewrite length_app in El. simpl in Hfew, El.
  exists (LReadLock r), [ARead r []], (store_word s r (encode (set_lk w (lk w + 1)))),
    (<[r := (y, lk w + 1)]> M).
  split; [done|]. split; [apply s_read_lock; [by rewrite El, Hm, length_app|lia]|].
  eapply (simulates_update s p1 _ p2 M _ _ _ [r]); [done|by apply keeps_word|by constructor| |].
  - intros r' Hr'. split; [apply same_store_word; set_solver|]. split; [|apply lookup_insert_ne; set_solver].
    rewrite roles_one, (role_at_one r (ARead r []) r' _ eq_refl). by rewrite decide_False by set_solver.
  - intros r' ->%list_elem_of_singleton.
    rewrite !roles_app, roles_one, (role_at_one r (ARead r []) r _ eq_refl), decide_True by done.
    rewrite E1, E2, lookup_insert_eq.
    replace ((RRead <$> q1) ++ [RRead []] ++ (RRead <$> q2)) with (RRead <$> q1 ++ [] :: q2)
      by by rewrite fmap_app.
    destruct (lock_encode s r w (lk w + 1) Hw Hwf) as [Hw' Hwf']; [lia|].
    apply (reader_rec_inv _ r (set_lk w (lk w + 1)) t y (q1 ++ [] :: q2)); try done; simpl; [|lia|].
    + rewrite length_app. simpl. lia.
    + apply Forall_app in Hf as [? ?]. apply Forall_app. split; [done|]. by constructor.
Qed.

(** *** New guards *)
Definition start_ok (acts : list activity) (M : table_spec)
    (o : outcome (label * list activity * shared)) : Prop :=
  exists l new s' M', o = Ret (l, new, s') /\ spec_after M l M' /\ simulates (s', new ++ acts) M'.

Lemma start_tau acts M s : simulates (s, acts) M -> start_ok acts M (Ret (Tau, [], s)).
Proof. intros. by exists Tau, [], s, M. Qed.

Lemma start_read_ok s acts M r blocking :
  simulates (s, acts) M -> is_Some (sh_words s !! r) -> start_ok acts M (do_read_load s r blocking).
Proof.
  intros Hs Hr. pose proof Hs as (Hg & _). simpl in Hg.
  destruct (word_inv _ _ _ _ Hs Hr) as (w & t & Hw & Hwf & _).
  unfold do_read_load. rewrite (load_word_ok _ _ _ Hw). runm. rewrite try_read_load_view by done.
  case_decide as Hl; [by apply start_tau|].
  eexists Tau, _, s, M. split; [done|]. split; [done|].
  eapply (simulates_start s acts M _ _ _ []); [done|done| | |set_solver].
  - constructor; [|done]. destruct blocking; (split; [done|]);
      rewrite try_read_load_view by done; by rewrite decide_False.
  - intros r' _. split; [apply same_refl|]. by destruct blocking.
Qed.

Lemma start_write_ok s acts M r weak :
  simulates (s, acts) M -> is_Some (sh_words s !! r) -> start_ok acts M (do_write_lock s r weak).
Proof.
  intros Hs Hr. pose proof Hs as (Hg & _). simpl in Hg. unfold do_write_lock.
  destruct (try_write_cases s acts M r weak Hs Hr) as (w & -> & Hcase). runm.
  destruct Hcase as [(e & ->)|(-> & Hfree & y & t & Hm & Ho & Hst)]; [by apply start_tau|].
  exists (LWriteLock r), [AWrite r []], (store_word s r (encode (set_lk w 128))), (<[r := (y, 128)]> M).
  split; [done|]. split; [by apply s_write_lock|].
  eapply (simulates_start s acts M _ _ _ [r]); [done|by apply keeps_word|by constructor| |].
  - intros r' Hr'. split; [apply same_store_word; set_solver|]. split; [|apply lookup_insert_ne; set_solver].
    rewrite roles_one, (role_at_one r (AWrite r []) r' _ eq_refl). by rewrite decide_False by set_solver.
  - intros r' ->%list_elem_of_singleton. rewrite roles_app, roles_one, Hfree, lookup_insert_eq.
    rewrite (role_at_one r (AWrite r []) r _ eq_refl), decide_True by done.
    eapply owned_rec_inv, owned_excl; [done|]. intros _. by exists y.
Qed.

Lemma start_insert_ok s acts M r val n :
  simulates (s, acts) M -> sh_words s !! r = None -> Rid_ok r -> r < sg_cap (sh_store s) ->
  length val = tuple_size -> start_ok acts M (do_insert s r val (replicate n true ++ [false])).
Proof.
  intros Hs Hw Hok Hc Hlv. pose proof Hs as (Hg & _ & Hrec). simpl in Hg, Hrec.
  specialize (Hrec r). unfold CacheMachine.rec_inv in Hrec. rewrite Hw in Hrec.
  destruct Hrec as (Hroles & Hm & Hno). pose proof Hok as Hok'. unfold Rid_ok in Hok'.
  unfold do_insert. change (LockedOid_from_rid 0) with (encode (mkView 0 false 0)).
  rewrite write_alone_ok by (done || (split; simpl; lia)). runm.
  assert (Hwf : view_wf (mkView 128 false r)) by (split; simpl; lia).
  rewrite store_rid_view by ((split; simpl; lia) || lia). simpl.
  unfold load_word. simpl. rewrite lookup_insert_eq. runm.
  rewrite is_rid_view by done. runm. rewrite to_rid_view by (done || simpl; lia). runm.
  eexists Tau, _, _, M. split; [done|]. split; [done|].
  eapply (simulates_start s acts M _ _ _ [r]); [done|by apply keeps_word|by constructor| |].
  - intros r' Hr'. split; [apply same_store_word; set_solver|]. split; [|done].
    rewrite roles_one, (role_at_one r (AProbe _ r _) r' _ eq_refl). by rewrite decide_False by set_solver.
  - intros r' ->%list_elem_of_singleton. rewrite roles_app, roles_one, Hroles.
    rewrite (role_at_one r (AProbe _ r _) r _ eq_refl), decide_True by done. simpl.
    destruct Hg as (_ & Hcap & Hall).
    destruct (lookup_lt_is_Some_2 (sg_heap (sh_store s)) (Z.to_nat r)) as [t Ht]; [lia|].
    eapply (owned_rec_inv _ _ r _ (mkView 128 false r) t).
    split; [by apply lookup_insert_eq|]. do 4 (split; [done|]). split; [done|].
    split; [by eapply Forall_lookup_1 in Hall|]. do 2 (split; [done|]).
    split; [apply Hno; lia|]. split; [done|]. by rewrite Hm.
Qed.

(** *** The simulation *)
Definition exchanging (a : activity) : bool :=
  match a with AReadCas _ _ _ => true | _ => false end.

Lemma astep_other s p1 a p2 M o :
  simulates (s, p1 ++ a :: p2) M -> astep columns mut_columns probe_len prob s a o ->
  exchanging a = false -> step_ok p1 p2 M o \/ o = Panic /\ overtaken s a.
Proof.
  intros Hs Hst He. destruct Hst; [by apply read_check_ok|done|left..].
  - by apply (read_step_ok s p1 _ p2 M r qs q u Hs (or_introl eq_refl)).
  - by apply (read_step_ok s p1 _ p2 M r qs q u Hs (or_intror eq_refl)).
  - by apply (get_step_ok s p1 _ p2 M r qs q v f Hs (or_introl eq_refl)).
  - by apply (get_step_ok s p1 _ p2 M r qs q v f Hs (or_intror eq_refl)).
  - by eapply set_step_ok.
  - by apply read_drop_ok with (qs := qs).
  - by apply write_drop_ok with (qs := qs).
  - by apply upgrade_ok with (qs := qs).
  - by apply promote_ok with (qs := qs).
  - by apply look_ok.
  - by apply give_up_ok with (node := node).
  - by apply fill_ok.
  - by apply index_ok.
  - by apply clear_ref_ok.
  - by apply lock_victim_ok.
  - by apply validate_ok.
  - by apply unlock_ok.
  - by apply clear_index_ok.
  - by apply replace_ok.
  - by apply reindex_ok.
  - by apply indexed_ok.
  - by apply write_back_ok.
  - by apply release_ok.
  - destruct k; [by apply finish_promote_ok|by apply finish_insert_ok].
Qed.

Lemma astep_ok s p1 a p2 M o :
  simulates (s, p1 ++ a :: p2) M -> astep columns mut_columns probe_len prob s a o ->
  (forall l new s', o = Ret (l, new, s') -> few_readers (p1 ++ new ++ p2)) ->
  step_ok p1 p2 M o \/ o = Panic /\ overtaken s a.
Proof.
  intros Hs Hst Hfew. destruct (exchanging a) eqn:He; [|by eapply astep_other].
  destruct Hst; try done. left. by apply read_exchange_ok.
Qed.

Lemma sstart_ok s acts M o : simulates (s, acts) M -> sstart s o -> start_ok acts M o.
Proof.
  intros Hs []; [by apply start_read_ok|by apply start_write_ok|by apply start_insert_ok].
Qed.

Lemma cstep_sim c M l c' :
  simulates c M -> cstep columns mut_columns probe_len prob c (Ret (l, c')) -> few_readers c'.2 ->
  exists M', spec_after M l M' /\ simulates c' M'.
Proof.
  intros Hs Hst Hfew. inversion Hst as [s p1 a p2 o Ha Ec Eo|s acts o Ha Ec Eo]; subst c.
  - destruct (astep_ok _ _ _ _ _ _ Hs Ha) as [(l1 & new & s' & M' & -> & ? & ?)|[-> _]]; [|by injection Eo as <- <-; exists M'|done].
    intros l1 new s' ->. by injection Eo as <- <-.
  - destruct (sstart_ok _ _ _ _ Hs Ha) as (l1 & new & s' & M' & -> & ? & ?).
    injection Eo as <- <-. by exists M'.
Qed.

(** The one access that may not return: whatever the number of readers, only
    [try_read]'s assertion can fail. *)
Lemma cstep_returns s acts M o :
  simulates (s, acts) M -> cstep columns mut_columns probe_len prob (s, acts) o ->
  (exists l c', o = Ret (l, c')) \/ (o = Panic /\ exists a, a ∈ acts /\ overtaken s a).
Proof.
  intros Hs Hst. inversion Hst as [s1 p1 a p2 o1 Ha Ec Eo|s1 acts1 o1 Ha Ec Eo]; simplify_eq.
  - destruct (exchanging a) eqn:He.
    + destruct Ha; try done.
      destruct (read_exchange_returns s p1 p2 M r val blocking weak Hs) as (l & new & s' & ->). runm. eauto.
    + destruct (astep_other s p1 a p2 M o1 Hs Ha He) as [(l & new & s' & M' & -> & _)|[-> Ho]]; runm; [eauto|].
      right. split; [done|]. exists a. split; [set_solver|done].
  - destruct (sstart_ok _ _ _ _ Hs Ha) as (l1 & new & s' & M' & -> & ? & ?). runm. eauto.
Qed.

Lemma cruns_sim c ls c' M :
  simulates c M -> cruns columns mut_columns probe_len prob c ls c' ->
  exists M', sruns columns mut_columns M ls M' /\ simulates c' M'.
Proof.
  intros Hs Hr. revert M Hs. induction Hr as [c|c l c' ls c'' Hst Hfew _ IH|s p1 r val p2 ls c'' _ _ IH]; intros M Hs.
  - exists M. by split; [constructor|].
  - destruct (cstep_sim _ _ _ _ Hs Hst Hfew) as (M1 & Hsp & Hs1).
    destruct (IH M1 Hs1) as (M' & Hruns & Hs'). exists M'. split; [|done].
    destruct l; simpl in *; [by subst|by eapply sruns_step..].
  - apply IH. apply (simulates_update s p1 (ATry r val) p2 M s [] M []); [done|by apply keeps_refl, Hs|done| |set_solver].
    intros r' _. split; [apply same_refl|done].
Qed.

(** Record [r] is held by a writer, an insertion or an eviction, or by as many
    readers as [MAX_READER] allows but one. *)
Definition contended (acts : list activity) (r : Rid) : Prop :=
  (exists a x, a ∈ acts /\ x ∈ role_at r a /\ exclusive x) \/
  MAX_READER <= Z.of_nat (length (filter (fun a => reads r a = true) acts)) + 1.

Lemma overtaken_contended s acts M a :
  simulates (s, acts) M -> a ∈ acts -> overtaken s a ->
  exists r val, ATry r val ∈ acts /\ contended acts r.
Proof.
  intros Hs Ha (r & val & w0 & -> & Hw0 & Hn). exists r, val. split; [done|].
  destruct (word_inv s acts M r Hs ltac:(by eexists)) as (w & t & Hw & Hwf & _ & _ & _ & _ & Hrec).
  simplify_eq. rewrite write_locked_view, read_lock_cnt_view in Hn by done.
  destruct Hrec as [(qss & Er & El & Hl & _)|(x & Ex & Hl & Hx)].
  - right. rewrite <-count_readers, Er, readers_all, length_fmap, <-El.
    rewrite (proj2 (Z.eqb_neq _ _)) in Hn by lia.
    destruct (decide (lk w + 1 < MAX_READER)); [by destruct Hn|lia].
  - left. assert (Hin : x ∈ roles acts r) by (rewrite Ex; by left).
    apply list_elem_of_bind in Hin as (b & Hb & Hin). exists b, x. split; [done|]. split; [done|].
    by destruct x.
Qed.

Lemma initial_simulates s : initial s -> simulates (s, []) ∅.
Proof.
  intros (Hw & Hf & Hl & Hc & Ht). split; [done|]. split; [by constructor|]. intros r. simpl.
  unfold CacheMachine.rec_inv. rewrite Hw, !lookup_empty. do 2 (split; [done|]).
  intros Hne i c (n & Hn & Er & _). eapply Forall_lookup_1 in Hf; [|done]. by simplify_eq/=.
Qed.

(** *** Who may touch a place *)
Definition place_record (s : shared) (p : place_at) : option Rid :=
  match p with
  | PSlot i => cn_rid <$> sh_slots s !! i
  | PTuple r => Some r
  end.

Lemma guarded_places s r qs w t y q v :
  guarded s r qs w t y -> (q, v) ∈ qs ->
  (forall i, qv_field v = Some i -> place_record s (PSlot (Z.to_nat i)) = Some r) /\
  (forall r', qv_tuple v = Some r' -> r' = r).
Proof.
  intros Hg Hin. destruct (guarded_ref _ _ _ _ _ _ _ _ Hg Hin) as [_ Href]. simpl in Href.
  destruct Hg as (_ & _ & _ & _ & _ & _ & Hst & _). unfold CacheMachine.steady in Hst.
  destruct (ov_cached w); destruct Href as [-> Ht].
  - split; [|by destruct Ht as [->|[-> _]]; intros ? [=]].
    intros i [= <-]. destruct Hst as (c & Honly & _).
    destruct (only_slot _ _ _ _ Honly) as (n & Hn & En & _). simpl. by rewrite Hn; simpl; rewrite En.
  - rewrite Ht. split; [done|]. by intros ? [= ->].
Qed.

Lemma only_record slots s r i c :
  sh_slots s = slots -> only (in_slot slots r) i c -> place_record s (PSlot (Z.to_nat i)) = Some r.
Proof.
  intros <- Honly. destruct (only_slot _ _ _ _ Honly) as (n & Hn & En & _). simpl.
  rewrite Hn. simpl. by rewrite En.
Qed.

Lemma touch_owner s p1 a p2 M p b :
  simulates (s, p1 ++ a :: p2) M -> touches a p b ->
  exists r x l, place_record s p = Some r /\ role_at r a = x :: l /\ (b = true -> exclusive x).
Proof.
  intros Hs Ht.
  assert (Hown : forall r qs, is_guard a r qs -> forall q v, (q, v) ∈ qs ->
    (forall i, qv_field v = Some i -> place_record s (PSlot (Z.to_nat i)) = Some r) /\
    (forall r', qv_tuple v = Some r' -> r' = r)).
  { intros r qs Ha q v Hin. destruct (guard_inv _ _ _ _ _ _ _ Hs Ha) as (w & t & y & n & Hgd & _).
    by eapply guarded_places. }
  destruct Ht as [r qs q v i Hin E|r qs q v r' Hin E|r qs q v i b Hin E|r qs q v r' b Hin E|r qs
    |k r node i|k r node i v|k r i v old|val r loc].
  - exists r, (RRead qs), []. split; [by eapply Hown; [left|..]|].
    by rewrite (role_at_one r (ARead r qs) r _ eq_refl), decide_True.
  - destruct (Hown r qs (or_introl eq_refl) q v Hin) as [_ H]. rewrite (H r' E).
    exists r, (RRead qs), []. split; [done|].
    by rewrite (role_at_one r (ARead r qs) r _ eq_refl), decide_True.
  - exists r, (RWrite qs), []. split; [by eapply Hown; [right|..]|].
    by rewrite (role_at_one r (AWrite r qs) r _ eq_refl), decide_True.
  - destruct (Hown r qs (or_intror eq_refl) q v Hin) as [_ H]. rewrite (H r' E).
    exists r, (RWrite qs), []. split; [done|].
    by rewrite (role_at_one r (AWrite r qs) r _ eq_refl), decide_True.
  - exists r, (RWrite qs), []. split; [done|].
    by rewrite (role_at_one r (AWrite r qs) r _ eq_refl), decide_True.
  - destruct (one_inv _ _ _ _ _ _ _ Hs eq_refl I) as (_ & w & t & Ho).
    destruct Ho as (_ & _ & _ & _ & _ & _ & _ & _ & _ & _ & (c & Honly) & _).
    exists r, (RClaim k node i), []. split; [by eapply only_record|].
    by rewrite (role_at_one r (AClaimed k r node i) r _ eq_refl), decide_True.
  - destruct (two_inv _ _ _ _ _ _ _ _ _ Hs eq_refl I I) as (Hne & _ & _ & _ & w & t & Ho).
    destruct Ho as (_ & _ & _ & _ & _ & _ & _ & _ & _ & _ & c & Honly & _).
    exists v, (REvict i), []. split; [by eapply only_record|].
    by rewrite (role_at_two r v (AReplace k r node i v) v _ _ eq_refl),
      (decide_False (P := r = v)), (decide_True (P := v = v)).
  - destruct (two_inv _ _ _ _ _ _ _ _ _ Hs eq_refl I I) as (Hne & _ & _ & _ & w & t & Ho).
    destruct Ho as (_ & _ & _ & _ & _ & _ & _ & _ & _ & _ & Eold & _).
    exists v, (REvicted old), []. split; [by simpl; rewrite Eold|].
    by rewrite (role_at_two r v (AEvicted k r i v old) v _ _ eq_refl),
      (decide_False (P := r = v)), (decide_True (P := v = v)).
  - exists r, (RDone (Insert val) loc), []. split; [done|].
    by rewrite (role_at_one r (AFinish (Insert val) r loc) r _ eq_refl), decide_True.
Qed.

Lemma roles_in acts b r x : b ∈ acts -> x ∈ role_at r b -> x ∈ roles acts r.
Proof. intros Hb Hx. unfold roles. apply list_elem_of_bind. eauto. Qed.

Lemma no_race s p1 a p2 M b p wr wr' :
  simulates (s, p1 ++ a :: p2) M -> b ∈ p1 ++ p2 ->
  touches a p wr -> touches b p wr' -> wr = false /\ wr' = false.
Proof.
  intros Hs Hb Ha Hb'.
  destruct (touch_owner _ _ _ _ _ _ _ Hs Ha) as (r & x & l & Er & Ex & He).
  assert (Hsplit : exists q1 q2, p1 ++ a :: p2 = q1 ++ b :: q2 /\ a ∈ q1 ++ q2).
  { apply elem_of_app in Hb as [Hb|Hb]; apply list_elem_of_split in Hb as (q1 & q2 & ->).
    - exists q1, (q2 ++ a :: p2). rewrite <-app_assoc. split; [done|]. set_solver.
    - exists (p1 ++ a :: q1), q2. rewrite <-app_assoc. split; [done|]. set_solver. }
  destruct Hsplit as (q1 & q2 & Eq & Hin). pose proof Hs as Hs'. rewrite Eq in Hs'.
  destruct (touch_owner _ _ _ _ _ _ _ Hs' Hb') as (r' & x' & l' & Er' & Ex' & He').
  assert (r' = r) as -> by congruence. split.
  - destruct wr; [|done]. exfalso. destruct (excl_inv _ _ _ _ _ _ _ _ Hs Ex (He eq_refl)) as (_ & Hr & _).
    specialize (Hr []). simpl in Hr.
    assert (Hx : x' ∈ roles (p1 ++ p2) r) by (eapply roles_in; [done|rewrite Ex'; by left]).
    rewrite Hr in Hx. by apply not_elem_of_nil in Hx.
  - destruct wr'; [|done]. exfalso. destruct (excl_inv _ _ _ _ _ _ _ _ Hs' Ex' (He' eq_refl)) as (_ & Hr & _).
    specialize (Hr []). simpl in Hr.
    assert (Hx : x ∈ roles (q1 ++ q2) r) by (eapply roles_in; [done|rewrite Ex; by left]).
    rewrite Hr in Hx. by apply not_elem_of_nil in Hx.
Qed.

(** *** The specification determines its state *)
Lemma sstep_det M l M1 M2 :
  sstep columns mut_columns M l M1 -> sstep columns mut_columns M l M2 -> M1 = M2.
Proof. intros H1 H2. destruct H1; inversion H2; simplify_eq; done. Qed.

Lemma sruns_det M ls M1 M2 :
  sruns columns mut_columns M ls M1 -> sruns columns mut_columns M ls M2 -> M1 = M2.
Proof.
  intros H1. revert M2. induction H1 as [M|M l M' ls M'' Hst _ IH]; intros M2 H2; inversion H2; subst; [done|].
  apply IH. by rewrite (sstep_det _ _ _ _ Hst H3).
Qed.

(** A record that nobody is inserting or evicting is where the word says. *)
Lemma stored_free s (M : table_spec) r : rec_inv s [] (M !! r) r -> stored_record s r = fst <$> M !! r.
Proof.
  unfold CacheMachine.rec_inv, stored_record. destruct (sh_words s !! r) as [w0|].
  - intros (Hok & Hc & w & t & -> & Hwf & Ht & Hlen & [(qss & Eq & _ & _ & y & Hst & -> & _)|(x & [=] & _)]).
    destruct qss; [|done]. rewrite Ht, is_cached_view by done. unfold CacheMachine.steady in Hst.
    destruct (ov_cached w) eqn:Ec; [|destruct Hst as (_ & _ & ->); done].
    destruct Hst as (c & Honly & _ & ->). rewrite to_cache_index_view by done.
    destruct (only_slot _ _ _ _ Honly) as (n & -> & _ & <-). done.
  - by intros (_ & -> & _).
Qed.
End proofs.

(** ** What the cache promises to threads *)
Section promises.
Context {Sc : Schema} {columns mut_columns : list Field} {L : SchemaLaws Sc columns mut_columns}.
Context (probe_len : Z) (prob : Q) (Hprob : prob_ok prob).
Abbreviation runs := (cruns columns mut_columns probe_len prob).
Abbreviation spec_runs := (sruns columns mut_columns ∅).

Lemma run_simulates s ls c :
  initial s -> runs (s, []) ls c -> exists M, spec_runs ls M /\ simulates columns c M.
Proof.
  intros Hi Hr. eapply (cruns_sim (L := L)); [done|by eapply initial_simulates|done].
Qed.

(** C1: However the insertions, promotions, evictions, reads, writes and locks of
    any number of threads interleave, what they observe is a run of the
    specification: a map of records under reader-writer locks, in which every
    read returns the column as it was last written. *)
Theorem cache_refines_locked_map s ls c :
  initial s -> runs (s, []) ls c -> exists M, spec_runs ls M.
Proof.
  intros Hi Hr. destruct (run_simulates s ls c Hi Hr) as (M & ? & _). by exists M.
Qed.

(** C17: Whatever a thread does next, in any configuration a run can reach, no access
    leaves its slot, tuple or word and no debug assertion fails, except one:
    every step returns, or it is the debug assertion of a [try_read] that loaded
    the word of its record before a writer, an insertion or an eviction took
    that record, or while 126 readers hold it. *)
Theorem cache_steps_return s ls s' acts o :
  initial s -> runs (s, []) ls (s', acts) ->
  cstep columns mut_columns probe_len prob (s', acts) o ->
  (exists l c', o = Ret (l, c')) \/
  (o = Panic /\ exists r val, ATry r val ∈ acts /\ contended acts r).
Proof.
  intros Hi Hr Hst. destruct (run_simulates s ls _ Hi Hr) as (M & _ & Hs).
  destruct (cstep_returns (L := L) probe_len prob Hprob s' acts M o Hs Hst) as [?|(-> & a & Ha & Ho)];
    [by left|right]. split; [done|]. by eapply overtaken_contended.
Qed.

(** C4: Two activities never touch the same slot value or stored tuple at the same
    time, unless both only read it. *)
Theorem cache_race_free s ls s' p1 a p2 b p wr wr' :
  initial s -> runs (s, []) ls (s', p1 ++ a :: p2) -> b ∈ p1 ++ p2 ->
  touches a p wr -> touches b p wr' -> wr = false /\ wr' = false.
Proof.
  intros Hi Hr Hb Ha Hb'. destruct (run_simulates s ls _ Hi Hr) as (M & _ & Hs).
  by eapply no_race.
Qed.

(** C9: Once every guard is dropped, the memory holds exactly the records of the
    specification: no update is lost to an eviction, no record appears or
    disappears. *)
Theorem cache_quiescent_state s ls s' M r :
  initial s -> runs (s, []) ls (s', []) -> spec_runs ls M -> stored_record s' r = fst <$> M !! r.
Proof.
  intros Hi Hr HM. destruct (run_simulates s ls _ Hi Hr) as (M' & HM' & _ & _ & Hs).
  rewrite (sruns_det ∅ ls M M' HM HM'). eapply stored_free. exact (Hs r).
Qed.
End promises.

(** ** An instance: two records and one slot *)
Module Race.
Import ClockCache.Demo.
#[local] Existing Instance pair_schema.

Definition one_slot : shared :=
  mkShared ∅ [mkNode u32_MAX 0 (replicate 16 0)] (mkStorage 2 (replicate 2 (replicate 16 0))).

Lemma one_slot_initial : initial one_slot.
Proof. split; [done|]. split; [by repeat constructor|]. split; [done|]. split; [done|]. by repeat constructor. Qed.

Abbreviation druns := (cruns pair_cols pair_cols 1 (1 # 2)) (only parsing).

Lemma short_few acts : (length acts <= 126)%nat -> few_readers acts.
Proof. intros Hl r. change MAX_READER with 127. pose proof (length_filter (fun a => reads r a = true) acts). lia. Qed.

Lemma run_act p1 a p2 s o l new s' ls ls' c :
  astep pair_cols pair_cols 1 (1 # 2) s a o -> o = Ret (l, new, s') ->
  (length (p1 ++ new ++ p2) <= 126)%nat ->
  druns (s', p1 ++ new ++ p2) ls c -> ls' = visible l ++ ls -> druns (s, p1 ++ a :: p2) ls' c.
Proof.
  intros Ha -> Hf Hr ->. eapply cruns_step; [exact (cstep_act _ _ _ _ s p1 a p2 _ Ha)| |done].
  by apply short_few.
Qed.

Lemma run_start acts s o l new s' ls ls' c :
  sstart s o -> o = Ret (l, new, s') -> (length (new ++ acts) <= 126)%nat ->
  druns (s', new ++ acts) ls c -> ls' = visible l ++ ls -> druns (s, acts) ls' c.
Proof.
  intros Ha -> Hf Hr ->. eapply cruns_step; [exact (cstep_start _ _ _ _ s acts _ Ha)| |done].
  by apply short_few.
Qed.

(** The first activity takes the step [H]; a new activity starts with [H]; a new
    reader of record 0 comes to its guard. *)
Ltac act H := eapply (run_act []); [H|vm_compute; reflexivity|simpl; lia| |reflexivity].
Ltac start H := eapply run_start; [H|vm_compute; reflexivity|simpl; lia| |reflexivity].
Ltac reader :=
  start ltac:(apply (start_read _ 0 false); eexists; vm_compute; reflexivity);
  act ltac:(apply step_read_check);
  act ltac:(apply (step_read_exchange _ _ _ _ _ _ _ _ false)).

Definition q_v : FieldsMeta := FieldsMeta_new [col_v].

(** Record 0 is inserted into the slot; inserting record 1 evicts it; a writer
    changes record 1 in the slot, and a reader of record 0 finds the tuple that
    the eviction wrote back. *)
Definition story : list label :=
  [LInsert 0 (tup 10 11); LWriteDrop 0; LInsert 1 (tup 20 21); LSet 1 col_v (le_bytes 8 22);
   LReadLock 0; LGet 0 col_v (le_bytes 8 11); LWriteDrop 1; LReadDrop 0].

Lemma col_sub : fields q_v ⊆ pair_cols.
Proof. intros f ->%list_elem_of_singleton. apply col_v_in. Qed.

Lemma story_run :
  exists s, druns (one_slot, []) story (s, []) /\ stored_record s 1 = Some (tup 20 22).
Proof.
  eexists. split.
  - unfold story.
    start ltac:(apply (start_insert _ 0 (tup 10 11) 0); [reflexivity|split; reflexivity || discriminate|reflexivity|reflexivity]).
    act ltac:(apply (step_look _ _ _ _ _ _ _ _ 0 false); split; [discriminate|reflexivity]).
    act ltac:(apply step_fill).
    act ltac:(apply step_index).
    act ltac:(apply (step_indexed _ _ _ _ _ _ _ _ _ 0)).
    act ltac:(apply step_finish).
    act ltac:(apply step_write_drop).
    start ltac:(apply (start_insert _ 1 (tup 20 21) 0); [reflexivity|split; reflexivity || discriminate|reflexivity|reflexivity]).
    act ltac:(apply (step_look _ _ _ _ _ _ _ _ 0 false); split; [discriminate|reflexivity]).
    act ltac:(apply step_clear_ref).
    act ltac:(apply (step_lock_victim _ _ _ _ _ _ _ _ _ _ false)).
    act ltac:(apply (step_validate _ _ _ _ _ _ _ _ _ _ false)).
    act ltac:(apply step_clear_index).
    act ltac:(apply step_replace).
    act ltac:(apply step_reindex).
    act ltac:(apply (step_indexed _ _ _ _ _ _ _ _ _ 0)).
    act ltac:(apply step_write_back).
    act ltac:(apply step_release).
    act ltac:(apply step_finish).
    act ltac:(apply (step_read_w _ _ _ _ _ _ _ q_v 0); exact col_sub).
    act ltac:(eapply (step_set _ _ _ _ _ _ _ q_v _ col_v (le_bytes 8 22)); [left|left|right; left|reflexivity]).
    reader.
    act ltac:(apply (step_read _ _ _ _ _ _ _ q_v 0); exact col_sub).
    act ltac:(eapply (step_get _ _ _ _ _ _ _ q_v _ col_v); left).
    simpl. eapply (run_act [_]); [apply step_write_drop|vm_compute; reflexivity|simpl; lia| |reflexivity].
    act ltac:(apply step_read_drop).
    apply cruns_refl.
  - vm_compute. reflexivity.
Qed.

Lemma half_ok : prob_ok (1 # 2).
Proof. split; unfold Qle; simpl; lia. Qed.

(** Two readers of one record, each with a query value in its hands. *)
Lemma readers_run :
  exists s v, druns (one_slot, []) [LInsert 0 (tup 10 11); LWriteDrop 0; LReadLock 0; LReadLock 0]
    (s, [] ++ ARead 0 [(q_v, v)] :: [ARead 0 [(q_v, v)]]) /\ qv_tuple v = Some 0.
Proof.
  do 2 eexists. split.
  - start ltac:(apply (start_insert _ 0 (tup 10 11) 0); [reflexivity|split; reflexivity || discriminate|reflexivity|reflexivity]).
    act ltac:(apply step_give_up).
    act ltac:(apply step_finish).
    act ltac:(apply step_write_drop).
    reader.
    act ltac:(apply (step_read _ _ _ _ _ _ _ q_v 0); exact col_sub).
    reader.
    act ltac:(apply (step_read _ _ _ _ _ _ _ q_v 0); exact col_sub).
    apply cruns_refl.
  - reflexivity.
Qed.

(** A [try_read] loads the word of record 0, a writer takes the record, and the
    assertion fails. *)
Lemma overtaken_run :
  exists s val, druns (one_slot, []) [LInsert 0 (tup 10 11); LWriteDrop 0; LWriteLock 0]
    (s, [AWrite 0 []; ATry 0 val]) /\
    cstep pair_cols pair_cols 1 (1 # 2) (s, [AWrite 0 []; ATry 0 val]) Panic.
Proof.
  do 2 eexists. split.
  - start ltac:(apply (start_insert _ 0 (tup 10 11) 0); [reflexivity|split; reflexivity || discriminate|reflexivity|reflexivity]).
    act ltac:(apply step_give_up).
    act ltac:(apply step_finish).
    act ltac:(apply step_write_drop).
    start ltac:(apply (start_read _ 0 false); eexists; vm_compute; reflexivity).
    start ltac:(apply (start_write _ 0 false); eexists; vm_compute; reflexivity).
    apply cruns_refl.
  - refine (cstep_act pair_cols pair_cols 1 (1 # 2) _ [AWrite 0 []] (ATry 0 _) [] Panic _).
    refine (step_read_check _ _ _ _ _ 0 _ : astep _ _ _ _ _ _ (do_read_check _ _ _)).
Qed.

Lemma cache_refines_locked_map_witness : exists M, sruns pair_cols pair_cols ∅ story M.
Proof.
  destruct story_run as (s & Hr & _).
  exact (cache_refines_locked_map (L := pair_laws) 1 (1 # 2) half_ok _ _ _ one_slot_initial Hr).
Defined.

Lemma cache_steps_return_witness :
  exists s acts, druns (one_slot, []) [LInsert 0 (tup 10 11); LWriteDrop 0; LWriteLock 0] (s, acts) /\
    exists r val, ATry r val ∈ acts /\ contended acts r.
Proof.
  destruct overtaken_run as (s & val & Hr & Hst).
  exists s, [AWrite 0 []; ATry 0 val]. split; [exact Hr|].
  destruct (cache_steps_return (L := pair_laws) 1 (1 # 2) half_ok _ _ _ _ _ one_slot_initial Hr Hst)
    as [(l & c & E)|[_ H]]; [discriminate E|exact H].
Defined.

Lemma cache_race_free_witness :
  exists v, touches (ARead 0 [(q_v, v)]) (PTuple 0) false /\ false = false.
Proof.
  destruct readers_run as (s & v & Hr & Hv). exists v.
  assert (Ht : touches (ARead 0 [(q_v, v)]) (PTuple 0) false).
  { apply (touch_read_tuple 0 [(q_v, v)] q_v v 0); [left|exact Hv]. }
  split; [exact Ht|].
  exact (proj1 (cache_race_free (L := pair_laws) 1 (1 # 2) half_ok _ _ _ [] _ [_] _ (PTuple 0) false false
                 one_slot_initial Hr (list_elem_of_here _ _) Ht Ht)).
Defined.

Lemma cache_quiescent_state_witness :
  exists M, sruns pair_cols pair_cols ∅ story M /\ fst <$> M !! 1 = Some (tup 20 22).
Proof.
  destruct story_run as (s & Hr & Hs).
  destruct (run_simulates (L := pair_laws) 1 (1 # 2) half_ok _ _ _ one_slot_initial Hr) as (M & HM & _).
  exists M. split; [exact HM|].
  rewrite <-(cache_quiescent_state (L := pair_laws) 1 (1 # 2) half_ok _ _ _ M 1 one_slot_initial Hr HM).
  exact Hs.
Defined.
End Race.
