(* ===== verification/Table.v ===== *)
(** * Indexes and tables (src/index/mod.rs, src/table.rs)

    A table is an attribute cache with an index from keys to record ids. *)

From Stdlib Require Import QArith.
From S2P Require Import Prelude Query Schema Layout External NodeMeta Oid ObjAlloc OidArray CacheInner ClockCache.
Open Scope Z_scope.

(** ** [DbIndex]: what a table needs of its index

    The epoch guards of [pin] only delay memory reclamation and carry no
    state here. *)
Class DbIndex (I : Type) := {
  index_new : I;
  index_with_capacity : Z -> I;
  index_get : I -> Z -> option Rid;
  index_insert : I -> Z -> Rid -> I;
}.

Class DbIndexLaws (I : Type) `{DbIndex I} := {
  index_get_new : forall k, index_get index_new k = None;
  index_get_with_capacity : forall cap k, index_get (index_with_capacity cap) k = None;
  index_get_insert : forall i k r k',
    index_get (index_insert i k r) k' = if decide (k = k') then Some r else index_get i k';
}.

(** [FlurryMap] wraps the concurrent hash map. *)
Section flurry.
Context {M : Type} `{KvMap Rid M}.
Record FlurryMap := mkFlurryMap { flurry_map : M }.

Definition FlurryMap_get (m : FlurryMap) (key : Z) : option Rid :=
  rid ← kv_get (flurry_map m) key;
  Some rid.

Definition FlurryMap_insert (m : FlurryMap) (key : Z) (value : Rid) : FlurryMap :=
  mkFlurryMap (kv_insert (flurry_map m) key value).

Definition FlurryMap_new : FlurryMap := mkFlurryMap kv_empty.

Definition FlurryMap_with_capacity (cap : Z) : FlurryMap := mkFlurryMap kv_empty.

#[export] Instance FlurryMap_index : DbIndex FlurryMap := {
  index_new := FlurryMap_new;
  index_with_capacity := FlurryMap_with_capacity;
  index_get := FlurryMap_get;
  index_insert := FlurryMap_insert;
}.
End flurry.
Arguments FlurryMap M : clear implicits.

#[export] Instance FlurryMap_laws {M} `{KvMapLaws Rid M} : DbIndexLaws (FlurryMap M).
Proof.
  split; simpl; unfold FlurryMap_get; simpl.
  - intros. by rewrite kv_get_empty.
  - intros. by rewrite kv_get_empty.
  - intros i k r k'. rewrite kv_get_insert. by case_decide.
Qed.

(** [Art] wraps the radix tree of the congee crate; [range low high n] is its
    scan into a buffer of [n] pairs. *)
Class ArtRaw (A : Type) := {
  art_kv :: KvMap Rid A;
  art_range : A -> Z -> Z -> nat -> list (Z * Z);
}.

Section art.
Context {A : Type} `{ArtRaw A}.
Record Art := mkArt { art : A }.

Definition Art_range (a : Art) (low high : Z) (len : nat) : list (Z * Z) :=
  art_range (art a) low high len.

Definition Art_get (a : Art) (key : Z) : option Rid :=
  v ← kv_get (art a) key;
  Some v.

Definition Art_insert (a : Art) (key : Z) (value : Rid) : Art :=
  mkArt (kv_insert (art a) key value).

Definition Art_new : Art := mkArt kv_empty.

Definition Art_with_capacity (cap : Z) : Art := Art_new.

#[export] Instance Art_index : DbIndex Art := {
  index_new := Art_new;
  index_with_capacity := Art_with_capacity;
  index_get := Art_get;
  index_insert := Art_insert;
}.
End art.
Arguments Art A : clear implicits.

#[export] Instance Art_laws {A} `{ArtRaw A} `{!KvMapLaws Rid A} : DbIndexLaws (Art A).
Proof.
  split; simpl; unfold Art_get; simpl.
  - intros. by rewrite kv_get_empty.
  - intros. by rewrite kv_get_empty.
  - intros i k r k'. rewrite kv_get_insert. by case_decide.
Qed.

(** ** [DbTableBuilder] *)
Section table.
Context {I : Type} `{DbIndex I} {S : Schema} {T M : Type} `{KvMap Z T} `{KvMap TlsAllocator M}.

Record DbTableBuilder := mkBuilder {
  b_cache_size : option Z;
  b_storage_size : option Z;
  b_probe_len : option Z;
  b_probe_rng : option Q;
  b_index : option I;
  b_schema : bool;
}.

Definition DbTableBuilder_new : DbTableBuilder := mkBuilder None None None None None false.

Definition builder_cache (b : DbTableBuilder) (size : Z) : DbTableBuilder :=
  mkBuilder (Some size) (b_storage_size b) (b_probe_len b) (b_probe_rng b) (b_index b) (b_schema b).

Definition builder_storage (b : DbTableBuilder) (size : Z) : DbTableBuilder :=
  mkBuilder (b_cache_size b) (Some size) (b_probe_len b) (b_probe_rng b) (b_index b) (b_schema b).

Definition builder_probe_len (b : DbTableBuilder) (probe_len : option Z) : DbTableBuilder :=
  mkBuilder (b_cache_size b) (b_storage_size b) probe_len (b_probe_rng b) (b_index b) (b_schema b).

Definition builder_probe_rng (b : DbTableBuilder) (probe_rng : Q) : DbTableBuilder :=
  mkBuilder (b_cache_size b) (b_storage_size b) (b_probe_len b) (Some probe_rng) (b_index b) (b_schema b).

Definition builder_index (b : DbTableBuilder) (i : I) : DbTableBuilder :=
  mkBuilder (b_cache_size b) (b_storage_size b) (b_probe_len b) (b_probe_rng b) (Some i) (b_schema b).

(** The schema itself is the [Schema] instance in scope. *)
Definition builder_schema (b : DbTableBuilder) : DbTableBuilder :=
  mkBuilder (b_cache_size b) (b_storage_size b) (b_probe_len b) (b_probe_rng b) (b_index b) true.

Record DbTable := mkTable { tb_cache : ClockCache T M; tb_index : I }.

(** Probe length 6 and probability 0.01 by default. *)
Definition build (node_size ptr : Z) (init : Z -> list obj) (b : DbTableBuilder) : outcome DbTable :=
  cache_size ← unwrap (b_cache_size b);
  let probe := default 6 (b_probe_len b) in
  let probe_rng := default (1 # 100) (b_probe_rng b) in
  storage ← unwrap (b_storage_size b);
  let cap := storage / Z.of_nat tuple_size in
  let idx := match b_index b with Some i => i | None => index_with_capacity cap end in
  _ ← rassert (b_schema b);
  cache ← ClockCache_new node_size cache_size probe probe_rng storage ptr init;
  Ret (mkTable cache idx).

(** ** [DbTable] *)
Definition DbTable_reset (t : DbTable) : outcome DbTable :=
  cache ← ClockCache_reset (tb_cache t);
  Ret (mkTable cache index_new).

(** Returns the record id, write-locked. *)
Definition DbTable_insert (tid : Z) (record : obj) (spin : list bool) (u : Q)
    (weak : nat -> bool * bool) (t : DbTable) : outcome (Rid * DbTable) :=
  k ← key record;
  '(rid, cache) ← ClockCache_insert tid record spin u weak (tb_cache t);
  Ret (rid, mkTable cache (index_insert (tb_index t) k rid)).

Definition DbTable_read (oid : Rid) (q : FieldsMeta) (u : Q) (t : DbTable)
    : outcome (QueryValue * DbTable) :=
  '(v, cache) ← ClockCache_read oid q u (tb_cache t);
  Ret (v, mkTable cache (tb_index t)).

Definition DbTable_read_and_promote (tid : Z) (oid : Rid) (q : FieldsMeta) (u1 u2 u3 : Q)
    (weak : nat -> bool * bool) (t : DbTable) : outcome (QueryValue * DbTable) :=
  '(v, cache) ← read_and_promote tid oid q u1 u2 u3 weak (tb_cache t);
  Ret (v, mkTable cache (tb_index t)).

(** A guard is named by the record it locks. *)
Definition lock_rid_r (rid : Rid) (weak : bool) (t : DbTable)
    : outcome (result Rid TransactionError * DbTable) :=
  '(r, cache) ← ClockCache_read_lock rid weak (tb_cache t);
  Ret (match r with Ok _ => Ok rid | Err e => Err e end, mkTable cache (tb_index t)).

Definition lock_rid_w (rid : Rid) (weak : bool) (t : DbTable)
    : outcome (result Rid TransactionError * DbTable) :=
  '(r, cache) ← ClockCache_write_lock rid weak (tb_cache t);
  Ret (match r with Ok _ => Ok rid | Err e => Err e end, mkTable cache (tb_index t)).

Definition read_oid (k : Z) (weak : bool) (t : DbTable)
    : outcome (result Rid TransactionError * DbTable) :=
  match index_get (tb_index t) k with
  | None => Ret (Err IndexNotFound, t)
  | Some idx => lock_rid_r idx weak t
  end.

Definition write_oid (k : Z) (weak : bool) (t : DbTable)
    : outcome (result Rid TransactionError * DbTable) :=
  match index_get (tb_index t) k with
  | None => Ret (Err IndexNotFound, t)
  | Some idx => lock_rid_w idx weak t
  end.
End table.
Arguments DbTable I T M : clear implicits.
Arguments DbTableBuilder I : clear implicits.

(** [range] of a table indexed by [Art]: the record ids of the scanned pairs
    overwrite the front of the caller's buffer. *)
Fixpoint fill_rids (scanned : list (Z * Z)) (buffer : list Rid) : outcome (list Rid) :=
  match scanned, buffer with
  | [], _ => Ret buffer
  | v :: scanned, _ :: buffer =>
      rid ← Rid_from_u32 (wrap 32 v.2);
      rest ← fill_rids scanned buffer;
      Ret (rid :: rest)
  | _ :: _, [] => Panic
  end.

Definition DbTable_range {A T M} `{ArtRaw A} (t : DbTable (Art A) T M) (low high : Z)
    (rid_buffer : list Rid) : outcome (option Z * list Rid) :=
  let range_buffer := Art_range (tb_index t) low high (length rid_buffer) in
  rids ← fill_rids range_buffer rid_buffer;
  Ret (Some (Z.of_nat (length range_buffer)), rids).

(** ** A table refines a map from keys to tuples

    One thread's transactions, each run to completion: insert a record and
    release it; look a key up and read a column under a read lock; look a key
    up and write a column under a write lock.  Guards are dropped at the end.
    [draws] collects what the environment decides. *)
Section requests.
Context {I : Type} `{DbIndexLaws I}.
Context {Sc : Schema} {columns mut_columns : list Field} {L : SchemaLaws Sc columns mut_columns}.
Context {T M : Type} `{KvMapLaws Z T} `{KvMapLaws TlsAllocator M}.
Implicit Types (t : DbTable I T M) (k : Z).

Record draws := mkDraws {
  d_tid : Z;
  d_spin : nat;
  d_u1 : Q; d_u2 : Q; d_u3 : Q;
  d_weak : nat -> bool * bool;
}.

Inductive request :=
| RInsert (record : obj)
| RRead (k : Z) (q : FieldsMeta) (f : Field)
| RWrite (k : Z) (q : FieldsMeta) (f : Field) (bs : obj).

Inductive response :=
| Done
| Column (bs : obj)
| Failed (e : TransactionError).

Definition on_cache (m : outcome (ClockCache T M)) t : outcome (DbTable I T M) :=
  c ← m;
  Ret (mkTable c (tb_index t)).

Definition run (d : draws) (req : request) t : outcome (response * DbTable I T M) :=
  match req with
  | RInsert record =>
      '(rid, t) ← DbTable_insert (d_tid d) record (replicate (d_spin d) true ++ [false]) (d_u1 d) (d_weak d) t;
      t ← on_cache (drop_write_guard rid (tb_cache t)) t;
      Ret (Done, t)
  | RRead k q f =>
      '(r, t) ← read_oid k false t;
      match r with
      | Err e => Ret (Failed e, t)
      | Ok g =>
          '(v, t) ← DbTable_read g q (d_u1 d) t;
          bs ← get_value v f (tb_cache t);
          t ← on_cache (drop_read_guard g (tb_cache t)) t;
          Ret (Column bs, t)
      end
  | RWrite k q f bs =>
      '(r, t) ← write_oid k false t;
      match r with
      | Err e => Ret (Failed e, t)
      | Ok g =>
          '(v, t) ← DbTable_read_and_promote (d_tid d) g q (d_u1 d) (d_u2 d) (d_u3 d) (d_weak d) t;
          t ← on_cache (get_value_mut v f bs (tb_cache t)) t;
          t ← on_cache (drop_write_guard g (tb_cache t)) t;
          Ret (Done, t)
      end
  end.

(** The specification: a map from keys to tuples. *)
Definition spec_run (req : request) (A : gmap Z obj) : response * gmap Z obj :=
  match req with
  | RInsert record =>
      match key record with Ret k => (Done, <[k := record]> A) | _ => (Done, A) end
  | RRead k q f =>
      match A !! k with Some x => (Column (load_field x f), A) | None => (Failed IndexNotFound, A) end
  | RWrite k q f bs =>
      match A !! k with
      | Some x => (Done, <[k := store_field x f bs]> A)
      | None => (Failed IndexNotFound, A)
      end
  end.

(** Requests about columns of the table. *)
Definition request_ok (req : request) : Prop :=
  match req with
  | RInsert record => length record = tuple_size /\ exists k, key record = Ret k
  | RRead k q f => f ∈ fields q /\ f ∈ columns
  | RWrite k q f bs => f ∈ fields q /\ f ∈ mut_columns /\ length bs = Z.to_nat (Field_len f)
  end.

(** The table holds the map: the index leads every key to its own record. *)
Definition holds t (A : gmap Z obj) : Prop :=
  cache_inv columns (tb_cache t) /\
  (forall r, allocated_rid (tb_cache t) r -> lock_state (tb_cache t) r = Some 0) /\
  (forall k r, index_get (tb_index t) k = Some r ->
     allocated_rid (tb_cache t) r /\ record_value (tb_cache t) r = A !! k /\ is_Some (A !! k)) /\
  (forall k, index_get (tb_index t) k = None -> A !! k = None) /\
  (forall k k' r, index_get (tb_index t) k = Some r -> index_get (tb_index t) k' = Some r -> k = k').

(** Same records, but [r] locked: the intermediate states of a request. *)
Definition locked_as (cc : ClockCache T M) (r : Rid) (l : Z) (cc' : ClockCache T M) : Prop :=
  cache_inv columns cc' /\ (forall r', allocated_rid cc' r' <-> allocated_rid cc r') /\
  lock_state cc' r = Some l /\
  (forall r', allocated_rid cc r' -> r' <> r ->
     record_value cc' r' = record_value cc r' /\ lock_state cc' r' = lock_state cc r').

Lemma locked_relocked cc r l cc' l' cc'' :
  allocated_rid cc r -> locked_as cc r l cc' -> relocked columns cc' r l' cc'' ->
  locked_as cc r l' cc'' /\ record_value cc'' r = record_value cc' r.
Proof.
  intros Ha (I1 & A1 & L1 & V1) (I2 & A2 & L2 & V2). split; [|by apply V2, A1].
  split; [done|]. split; [intros; by rewrite A2|]. split; [done|]. intros r' Ha' Hne.
  destruct (V1 r' Ha' Hne) as [<- <-]. destruct (V2 r') as [? ?]; [by apply A1|]. auto.
Qed.

Lemma locked_same cc r l cc' cc'' :
  allocated_rid cc r -> locked_as cc r l cc' -> same_records columns cc' cc'' ->
  locked_as cc r l cc'' /\ record_value cc'' r = record_value cc' r.
Proof.
  intros Ha (I1 & A1 & L1 & V1) (I2 & A2 & V2).
  destruct (V2 r) as [E1 E2]; [by apply A1|]. split; [|done].
  split; [done|]. split; [intros; by rewrite A2|]. split; [congruence|]. intros r' Ha' Hne.
  destruct (V1 r' Ha' Hne) as [<- <-]. by apply V2, A1.
Qed.

Lemma locked_start cc r l cc' :
  cache_inv columns cc -> relocked columns cc r l cc' -> allocated_rid cc r ->
  locked_as cc r l cc' /\ record_value cc' r = record_value cc r.
Proof.
  intros Hinv (I2 & A2 & L2 & V2) Ha. split; [|by apply V2]. split; [done|]. split; [done|].
  split; [done|]. intros r' Ha' Hne. destruct (V2 r' Ha'). auto.
Qed.

(** A request that leaves record [r] unlocked, with value [x], is done. *)
Lemma holds_after t A k r x cc' :
  holds t A -> index_get (tb_index t) k = Some r -> locked_as (tb_cache t) r 0 cc' ->
  record_value cc' r = Some x -> holds (mkTable cc' (tb_index t)) (<[k := x]> A).
Proof.
  intros (Hinv & Hlk & Hidx & Hnone & Hinj) Hk (I1 & A1 & L1 & V1) Hx.
  split; [done|]. simpl. split; [|split; [|split]].
  - intros r' Ha'. apply A1 in Ha'. destruct (decide (r' = r)) as [->|Hne]; [done|].
    destruct (V1 r' Ha' Hne) as [_ ->]. by apply Hlk.
  - intros k' r' Hk'. destruct (Hidx k' r' Hk') as (Ha' & Hv' & Hs'). split; [by apply A1|].
    destruct (decide (k' = k)) as [->|Hne].
    + assert (r' = r) as -> by congruence. rewrite lookup_insert_eq. eauto.
    + rewrite lookup_insert_ne by done. split; [|done].
      destruct (V1 r' Ha') as [-> _]; [|done]. intros ->. apply Hne. by eapply Hinj.
  - intros k' Hk'. rewrite lookup_insert_ne by congruence. auto.
  - done.
Qed.

(** A key that is not there, and a record read under its read lock. *)
Lemma read_missing t A k weak : holds t A -> A !! k = None -> read_oid k weak t = Ret (Err IndexNotFound, t).
Proof.
  intros (_ & _ & Hidx & _) HA. unfold read_oid. destruct (index_get (tb_index t) k) as [r|] eqn:Hk; [|done].
  destruct (Hidx k r Hk) as (_ & _ & [x Hx]). congruence.
Qed.

Lemma read_record t A k q u x :
  holds t A -> A !! k = Some x ->
  exists r t1 v t2 t3, read_oid k false t = Ret (Ok r, t1) /\ DbTable_read r q u t1 = Ret (v, t2) /\
    (forall f, covers q f -> f ∈ columns -> get_value v f (tb_cache t2) = Ret (load_field x f)) /\
    on_cache (drop_read_guard r (tb_cache t2)) t2 = Ret t3 /\ holds t3 A.
Proof.
  intros Ht HA. pose proof Ht as (Hinv & Hlk & Hidx & Hnone & Hinj). unfold read_oid, lock_rid_r.
  destruct (index_get (tb_index t) k) as [r|] eqn:Hk; [|rewrite Hnone in HA by done; done].
  destruct (Hidx k r Hk) as (Ha & Hv & _). rewrite HA in Hv.
  destruct (read_lock_ok _ r 0 Hinv Ha (Hlk r Ha)) as (c1 & -> & Hr1); [done|]. runm.
  destruct (locked_start _ _ _ _ Hinv Hr1 Ha) as [Hl1 Hv1]. pose proof Hl1 as (Hinv1 & Ha1 & Hlk1 & _).
  do 2 eexists. unfold DbTable_read. cbn [tb_cache tb_index].
  destruct (ClockCache_read_ok c1 r q u Hinv1 (proj2 (Ha1 r) Ha)) as (v & c2 & E2 & Hs2 & Href).
  destruct (locked_same _ _ _ _ _ Ha Hl1 Hs2) as [Hl2 Hv2]. pose proof Hl2 as (Hinv2 & Ha2 & Hlk2 & _).
  destruct (drop_read_guard_ok c2 r 1 Hinv2 (proj2 (Ha2 r) Ha) Hlk2) as (c3 & E3 & Hr3); [lia|].
  destruct (locked_relocked _ _ _ _ _ _ Ha Hl2 Hr3) as [Hl3 Hv3].
  exists v, (mkTable c2 (tb_index t)), (mkTable c3 (tb_index t)).
  split; [done|]. split; [cbn [tb_cache tb_index]; by rewrite E2|]. cbn [tb_cache tb_index].
  split; [intros f Hc Hf; eapply get_value_ok; done || (by apply Ha2) || congruence|].
  split; [unfold on_cache; by rewrite E3|].
  rewrite <-(insert_id A k x) by done. eapply (holds_after t); [done|done|done|congruence].
Qed.

(** The read lock of a record nobody holds is only refused when its exchange is
    disturbed; the records stay as they were. *)
Lemma read_oid_try t A k weak x :
  holds t A -> A !! k = Some x ->
  exists res t', read_oid k weak t = Ret (res, t') /\
    (weak = false \/ (res = Err LockBusy /\ holds t' A)).
Proof.
  intros Ht HA. pose proof Ht as (Hinv & Hlk & Hidx & Hnone & Hinj). unfold read_oid, lock_rid_r.
  destruct (index_get (tb_index t) k) as [r|] eqn:Hk; [|rewrite Hnone in HA by done; done].
  destruct (Hidx k r Hk) as (Ha & Hv & _). rewrite HA in Hv.
  destruct (try_read_lock_ok _ r 0 weak Hinv Ha (Hlk r Ha)) as (c & res & n' & -> & Hrel & Hcase); [by left|].
  runm. do 2 eexists. split; [done|].
  destruct Hcase as [(_ & _ & _ & ->)|[(-> & _ & ->)|(_ & ? & _)]]; [by left|right|done].
  split; [done|]. destruct (locked_start _ _ _ _ Hinv Hrel Ha) as [Hl Hx].
  rewrite <-(insert_id A k x) by done. eapply (holds_after t); [done|done|done|congruence].
Qed.

Lemma run_read_ok d t A k q f :
  holds t A -> f ∈ fields q -> f ∈ columns ->
  exists t', run d (RRead k q f) t = Ret (fst (spec_run (RRead k q f) A), t') /\
    holds t' (snd (spec_run (RRead k q f) A)).
Proof.
  intros Ht Hf Hc. cbn [run spec_run]. destruct (A !! k) as [x|] eqn:HA.
  - destruct (read_record t A k q (d_u1 d) x Ht HA) as (r & t1 & v & t2 & t3 & -> & E2 & Hg & E3 & Ht3).
    runm. rewrite E2. runm. rewrite Hg by (done || by apply covers_query). runm. rewrite E3. by exists t3.
  - rewrite (read_missing t A k false Ht HA). by exists t.
Qed.

Lemma run_write_ok d t A k q f bs :
  holds t A -> f ∈ fields q -> f ∈ mut_columns -> length bs = Z.to_nat (Field_len f) ->
  exists t', run d (RWrite k q f bs) t = Ret (fst (spec_run (RWrite k q f bs) A), t') /\
    holds t' (snd (spec_run (RWrite k q f bs) A)).
Proof.
  intros Ht Hf Hc Hb. pose proof Ht as (Hinv & Hlk & Hidx & Hnone & Hinj).
  cbn [run spec_run]. unfold write_oid. destruct (index_get (tb_index t) k) as [r|] eqn:Hk.
  2:{ rewrite (Hnone k Hk). runm. by eexists. }
  destruct (Hidx k r Hk) as (Ha & Hv & [x Hx]). rewrite Hx in *. simpl. unfold lock_rid_w.
  destruct (write_lock_ok _ r 0 false Hinv Ha (Hlk r Ha))
    as (c1 & res & l' & -> & Hr1 & [(-> & _ & ->)|[(_ & ? & _)|(_ & ? & _)]]); [|done|done]. runm.
  destruct (locked_start _ _ _ _ Hinv Hr1 Ha) as [Hl1 Hv1]. pose proof Hl1 as (Hinv1 & Ha1 & Hlk1 & _).
  unfold DbTable_read_and_promote. cbn [tb_cache tb_index].
  destruct (read_and_promote_ok c1 (d_tid d) r q (d_u1 d) (d_u2 d) (d_u3 d) (d_weak d) Hinv1
              (proj2 (Ha1 r) Ha) Hlk1) as (v & c2 & -> & Hs2 & Href). runm.
  destruct (locked_same _ _ _ _ _ Ha Hl1 Hs2) as [Hl2 Hv2]. pose proof Hl2 as (Hinv2 & Ha2 & Hlk2 & _).
  cbn [tb_cache tb_index]. unfold on_cache.
  destruct (get_value_mut_ok c2 r q v x f bs Hinv2) as (c3 & -> & (Hinv3 & Hv3 & Ho3 & Hk3) & _);
    [by apply Ha2|done|congruence|by apply covers_query|done|done|]. runm. cbn [tb_cache tb_index].
  assert (Hal3 : forall r', allocated_rid c3 r' <-> allocated_rid c2 r')
    by (intros; unfold allocated_rid; by rewrite Ho3).
  assert (Hls : forall r', lock_state c3 r' = lock_state c2 r')
    by (intros; unfold lock_state; by rewrite Ho3).
  assert (Hl3 : locked_as (tb_cache t) r 128 c3).
  { split; [done|]. split; [intros; by rewrite Hal3|]. split; [by rewrite Hls|]. intros r' Ha' Hne.
    rewrite Hls, Hk3 by (done || by apply Ha2). by apply Hl2. }
  destruct (drop_write_guard_ok c3 r Hinv3) as (c4 & -> & Hr4); [by apply Hal3, Ha2|by rewrite Hls|].
  runm. destruct (locked_relocked _ _ _ _ _ _ Ha Hl3 Hr4) as [Hl4 Hv4].
  eexists. split; [done|]. simpl. eapply (holds_after t); [done|done|done|congruence].
Qed.

(** The insert of a thread for which no record id is left. *)
Definition out_of_space (d : draws) (req : request) t : Prop :=
  (exists record, req = RInsert record) /\ run d req t = Panic /\
  out_of_rids (cc_oids (tb_cache t)) (d_tid d).

Lemma run_insert_ok d t A record :
  holds t A -> length record = tuple_size -> (exists k, key record = Ret k) ->
  (exists t', run d (RInsert record) t = Ret (fst (spec_run (RInsert record) A), t') /\
     holds t' (snd (spec_run (RInsert record) A))) \/
  out_of_space d (RInsert record) t.
Proof.
  intros Ht Hlen [k Hk]. pose proof Ht as (Hinv & Hlk & Hidx & Hnone & Hinj).
  unfold out_of_space. cbn [run spec_run]. rewrite Hk. unfold DbTable_insert. rewrite Hk. runm.
  destruct (ClockCache_insert_ok (tb_cache t) (d_tid d) record (d_spin d) (d_u1 d) (d_weak d) Hinv Hlen)
    as [(rid & c1 & -> & (Hinv1 & Hok & Hna & Hal & Hval & Hlk1 & Hk1))|[-> Hoor]].
  2:{ right. split; [eauto|]. by runm. }
  left. runm. unfold on_cache. cbn [tb_cache tb_index].
  assert (Ha1 : allocated_rid c1 rid) by (apply Hal; by left).
  destruct (drop_write_guard_ok c1 rid Hinv1 Ha1 Hlk1) as (c2 & -> & (Hinv2 & Hal2 & Hlk2 & Hk2)). runm.
  eexists. split; [done|]. simpl.
  assert (Hold : forall r, allocated_rid (tb_cache t) r -> r <> rid /\ allocated_rid c2 r /\
            record_value c2 r = record_value (tb_cache t) r /\ lock_state c2 r = Some 0).
  { intros r Ha. assert (r <> rid) by (intros ->; done).
    assert (Ha' : allocated_rid c1 r) by (apply Hal; by right).
    destruct (Hk2 r Ha') as [Hv Hl]. destruct (Hk1 r Ha) as [Hv' Hl'].
    split; [done|]. split; [by apply Hal2|]. split; [congruence|]. rewrite Hl, Hl' by done. auto. }
  split; [done|]. simpl. split; [|split; [|split]].
  - intros r Ha. apply Hal2, Hal in Ha as [->|Ha]; [done|]. by apply Hold.
  - intros k' r. rewrite index_get_insert. case_decide as Ek; [subst k'; intros [= <-]|].
    + rewrite lookup_insert_eq. split; [by apply Hal2|]. split; [|eauto].
      destruct (Hk2 rid Ha1) as [-> _]. done.
    + intros Hk'. destruct (Hidx k' r Hk') as (Ha & Hv & Hs). rewrite lookup_insert_ne by done.
      destruct (Hold r Ha) as (_ & ? & ? & _). split; [done|]. split; [congruence|done].
  - intros k'. rewrite index_get_insert. case_decide; [done|]. intros Hk'.
    rewrite lookup_insert_ne by done. auto.
  - intros k1 k2 r. rewrite !index_get_insert.
    assert (Hfresh : forall k', index_get (tb_index t) k' <> Some rid).
    { intros k' Hk'. by destruct (Hidx k' rid Hk') as (? & _). }
    repeat case_decide; intros E1 E2; simplify_eq; try done; [by apply Hfresh in E2|by apply Hfresh in E1|].
    by eapply Hinj.
Qed.

Lemma run_ok d t A req :
  holds t A -> request_ok req ->
  (exists t', run d req t = Ret (fst (spec_run req A), t') /\ holds t' (snd (spec_run req A))) \/
  out_of_space d req t.
Proof.
  intros Ht Hreq. destruct req as [record|k q f|k q f bs].
  - destruct Hreq. by apply run_insert_ok.
  - destruct Hreq. left. by apply run_read_ok.
  - destruct Hreq as (? & ? & ?). left. by apply run_write_ok.
Qed.

Fixpoint run_all (reqs : list (draws * request)) t : outcome (list response * DbTable I T M) :=
  match reqs with
  | [] => Ret ([], t)
  | (d, req) :: reqs =>
      '(r, t) ← run d req t;
      '(rs, t) ← run_all reqs t;
      Ret (r :: rs, t)
  end.

Fixpoint spec_all (reqs : list (draws * request)) (A : gmap Z obj) : list response * gmap Z obj :=
  match reqs with
  | [] => ([], A)
  | (_, req) :: reqs =>
      let '(r, A) := spec_run req A in
      let '(rs, A) := spec_all reqs A in
      (r :: rs, A)
  end.

(** C2: Whatever the cache decides to keep, promote or evict along the way, a
    table answers any sequence of inserts, reads and writes as a plain map
    from keys to tuples would, and never panics, until an insert finds no
    record id left. *)
Theorem table_refines_map t A reqs :
  holds t A -> Forall (fun dr => request_ok dr.2) reqs ->
  exists pre post t', reqs = pre ++ post /\
    run_all pre t = Ret (fst (spec_all pre A), t') /\ holds t' (snd (spec_all pre A)) /\
    (post = [] \/ exists d req post', post = (d, req) :: post' /\ out_of_space d req t').
Proof.
  intros Ht Hok. revert t A Ht. induction Hok as [|[d req] reqs Hreq _ IH]; intros t A Ht.
  { exists [], [], t. split_and!; try done; by left. }
  destruct (run_ok d t A req Ht Hreq) as [(t1 & E & Ht1)|Hoos].
  - destruct (IH t1 _ Ht1) as (pre & post & t' & -> & Er & Ht' & Hpost).
    exists ((d, req) :: pre), post, t'. cbn [run_all spec_all]. rewrite E. runm. rewrite Er. runm.
    destruct (spec_run req A) as [r A1]. simpl in *. destruct (spec_all pre A1). by split_and!.
  - exists [], ((d, req) :: reqs), t. split_and!; try done. right. by exists d, req, reqs.
Qed.
End requests.

(** A new table holds the empty map. *)
Section build_ok.
Context {I : Type} `{DbIndexLaws I}.
Context {Sc : Schema} {columns mut_columns : list Field} {L : SchemaLaws Sc columns mut_columns}.
Context {T M : Type} `{KvMapLaws Z T} `{KvMapLaws TlsAllocator M}.

(** The environment of [build]: sizes that fit the machine, and a mapping
    that is big enough. *)
Definition sizes_ok (node_size cache_size storage_size ptr : Z) (init : Z -> list obj) : Prop :=
  0 < node_size /\ 0 < cache_size / node_size < 2 ^ 32 /\ cache_size < 2 ^ 62 /\
  0 <= storage_size / Z.of_nat tuple_size < 2 ^ 31 /\ 0 < ptr < 2 ^ 63 /\
  Z.of_nat tuple_size < 2 ^ 16 /\
  (forall cap, 0 <= cap -> length (init cap) = Z.to_nat cap /\
     Forall (fun t => length t = tuple_size) (init cap)).

(** A builder with these sizes and a schema, and no index of the caller's own. *)
Definition configured (b : DbTableBuilder I) (cache_size storage_size : Z) : Prop :=
  b_cache_size b = Some cache_size /\ b_storage_size b = Some storage_size /\ b_index b = None /\
  b_schema b = true /\ prob_ok (default (1 # 100) (b_probe_rng b)).

Lemma configured_probe_len probe_len cache_size storage_size :
  configured (builder_schema (builder_storage (builder_probe_len (builder_cache DbTableBuilder_new cache_size)
                                                 probe_len) storage_size)) cache_size storage_size.
Proof. repeat split; unfold Qle; simpl; lia. Qed.

Lemma build_ok b node_size cache_size storage_size ptr init :
  sizes_ok node_size cache_size storage_size ptr init -> configured b cache_size storage_size ->
  exists (t : DbTable I T M) cap,
    build node_size ptr init b = Ret t /\
    tb_index t = index_with_capacity cap /\ cache_inv columns (tb_cache t) /\
    (forall r, ~ allocated_rid (tb_cache t) r) /\
    storage_size / Z.of_nat tuple_size <= oa_cap (cc_oids (tb_cache t)) /\
    forall tid, ~ out_of_rids (cc_oids (tb_cache t)) tid.
Proof.
  intros (? & ? & ? & ? & ? & ? & ?) (Ec & Es & Ei & Eb & Hp). unfold build. rewrite Ec, Es, Ei, Eb. cbn.
  destruct (ClockCache_new_ok (columns := columns) (T := T) (M := M) node_size cache_size (default 6 (b_probe_len b))
              (default (1 # 100) (b_probe_rng b)) storage_size ptr init) as (cc & -> & Hinv & Hna & Hcap & Hroom); [done..|].
  do 2 eexists. split; [done|]. split; [done|]. split; [done|]. split; [done|]. done.
Qed.

Lemma build_holds probe_len node_size cache_size storage_size ptr init :
  sizes_ok node_size cache_size storage_size ptr init ->
  exists t : DbTable I T M,
    build node_size ptr init
      (builder_schema (builder_storage (builder_probe_len (builder_cache DbTableBuilder_new cache_size)
                                          probe_len) storage_size))
      = Ret t /\
    holds (columns := columns) t ∅ /\
    storage_size / Z.of_nat tuple_size <= oa_cap (cc_oids (tb_cache t)) /\
    forall tid, ~ out_of_rids (cc_oids (tb_cache t)) tid.
Proof.
  intros Hs. destruct (build_ok _ _ _ _ _ _ Hs (configured_probe_len probe_len _ _)) as (t & cap & E & Hix & Hinv & Hna & Hcap & Hroom).
  exists t. split; [done|]. split; [|done]. split; [done|].
  split; [intros r Ha; by apply Hna in Ha|]. rewrite Hix.
  split; [intros k r; by rewrite index_get_with_capacity|].
  split; [done|]. intros k k' r. by rewrite index_get_with_capacity.
Qed.

(** [build] without an index of the caller's own gives a table that holds the
    empty map and has room for [storage / size_of::<Tuple>()] records. *)
Theorem build_holds_empty node_size cache_size storage_size ptr init :
  sizes_ok node_size cache_size storage_size ptr init ->
  exists t : DbTable I T M,
    build node_size ptr init
      (builder_schema (builder_storage (builder_cache DbTableBuilder_new cache_size) storage_size))
      = Ret t /\
    holds (columns := columns) t ∅ /\
    storage_size / Z.of_nat tuple_size <= oa_cap (cc_oids (tb_cache t)) /\
    forall tid, ~ out_of_rids (cc_oids (tb_cache t)) tid.
Proof. apply (build_holds None). Qed.
End build_ok.

(** ** A small table, over the demonstration schema *)
Module TableDemo.
Import Demo.
#[local] Existing Instances pair_schema pair_laws.

Abbreviation dtable := (DbTable (FlurryMap (gmap Z Rid)) (gmap Z Z) (gmap Z TlsAllocator)) (only parsing).

Definition zeros (cap : Z) : list obj := replicate (Z.to_nat cap) (replicate 16 0).

Lemma demo_sizes : sizes_ok 24 48 160 4096 zeros.
Proof.
  split; [lia|]. split; [split; reflexivity|]. split; [lia|].
  split; [split; [vm_compute; discriminate|reflexivity]|]. split; [lia|]. split; [reflexivity|].
  intros cap Hc. unfold zeros. rewrite length_replicate. split; [done|]. by apply Forall_replicate.
Qed.

Lemma build_holds_empty_witness :
  exists t : dtable,
    build 24 4096 zeros
      (builder_schema (builder_storage (builder_cache DbTableBuilder_new 48) 160)) = Ret t /\
    holds (columns := pair_cols) t ∅.
Proof.
  destruct (build_holds_empty (I := FlurryMap (gmap Z Rid)) (T := gmap Z Z) (M := gmap Z TlsAllocator)
              (columns := pair_cols) 24 48 160 4096 zeros demo_sizes) as (t & E & Ht & _).
  exists t. split; [exact E|exact Ht].
Defined.

Definition d0 : draws := mkDraws 1 0 0 0 0 (fun _ => (false, false)).

Definition demo_reqs : list (draws * request) := [
  (d0, RInsert (tup 5 6));
  (d0, RWrite 5 (FieldsMeta_new [col_v]) col_v (le_bytes 8 9));
  (d0, RRead 5 (FieldsMeta_new [col_v]) col_v)].

Lemma empty_holds : exists t : dtable, holds (columns := pair_cols) t ∅.
Proof.
  destruct (ClockCache_new_ok (columns := pair_cols) (T := gmap Z Z) (M := gmap Z TlsAllocator)
              24 48 6 (1 # 100) 160 4096 zeros) as (cc & _ & Hinv & Hna & _); try apply demo_sizes.
  { split; unfold Qle; simpl; lia. }
  exists (mkTable cc FlurryMap_new). split; [done|]. split; [intros r Ha; by apply Hna in Ha|].
  split; [done|]. by split.
Qed.

Lemma table_refines_map_witness :
  exists (t : dtable) pre post t', demo_reqs = pre ++ post /\
    run_all pre t = Ret (fst (spec_all pre ∅), t').
Proof.
  destruct empty_holds as (t & Ht). exists t.
  destruct (table_refines_map (L := pair_laws) t ∅ demo_reqs Ht) as (pre & post & t' & E & Er & _).
  - repeat constructor; try (exists 5); reflexivity || (by left) || (right; by left).
  - exists pre, post, t'. split; [exact E|exact Er].
Defined.

(** Two slots and three records: the writes evict one another, and every later
    read still gives what was written last. *)
Example evictions_run :
  let v := FieldsMeta_new [col_v] in
  (t ← (build 24 4096 zeros
          (builder_schema (builder_storage (builder_cache DbTableBuilder_new 48) 160)) : outcome dtable);
   '(rs, _) ← run_all (pair d0 <$> [
      RInsert (tup 5 6); RInsert (tup 7 8); RInsert (tup 9 10);
      RWrite 5 v col_v (le_bytes 8 60); RWrite 7 v col_v (le_bytes 8 80); RWrite 9 v col_v (le_bytes 8 100);
      RRead 5 v col_v; RRead 7 v col_v; RRead 8 v col_v]) t;
   Ret rs) =
  Ret [Done; Done; Done; Done; Done; Done; Column (le_bytes 8 60); Column (le_bytes 8 80);
       Failed IndexNotFound].
Proof. vm_compute. reflexivity. Qed.
End TableDemo.
