(* ===== verification/Capacity.v ===== *)
(** * Every table has room for what it was built for

    [OidArray::new] adds 128 arenas to the requested capacity because a thread
    may leave part of its arena unused.  Here that slack is shown to be enough:
    a table built for [n] records takes [n] inserts of at most 129 threads, in
    any order and between any other requests, without ever running out of
    record ids. *)

From Stdlib Require Import QArith.
From S2P Require Import Prelude Query Schema Layout External NodeMeta Oid ObjAlloc OidArray CacheInner ClockCache Table.
Open Scope Z_scope.

(** ** Counting the ids of a full heap *)
Section count.
Context {M : Type} `{KvMapLaws TlsAllocator M}.
Implicit Types (h : HeapArray M) (mem : wmem).

(** The threads that have an arena. *)
Definition threads h (tid : Z) : Prop := is_Some (kv_get (ha_tls h) tid).

(** The ids of the arena a thread has. *)
Definition arena_ids h (tid : Z) : list Z :=
  match kv_get (ha_tls h) tid with
  | Some t => seqZ ((aa_start (tl_arena t) - aa_start (ha_heap h)) / 512 * 64) 64
  | None => []
  end.

Lemma length_arenas h ts : (length (ts ≫= arena_ids h) <= 64 * length ts)%nat.
Proof.
  induction ts as [|t ts IH]; [done|]. cbn [mbind list_bind length]. rewrite length_app.
  enough (length (arena_ids h t) <= 64)%nat by lia.
  unfold arena_ids. destruct (kv_get _ _); [|simpl; lia]. by rewrite length_seqZ.
Qed.

(** The arena of [tid] still has the id [i]. *)
Definition holds_free h (i tid : Z) : Prop :=
  match kv_get (ha_tls h) tid with
  | Some t => arena_at h (i / 64) t /\ i mod 64 < remaining 8 (tl_arena t)
  | None => False
  end.

#[local] Instance holds_free_dec h i tid : Decision (holds_free h i tid).
Proof. unfold holds_free, arena_at. destruct (kv_get _ _); apply _. Defined.

(** Without arenas left and with its own used up, a thread can only have been
    denied ids that other threads still hold. *)
Lemma full_count h mem tid ts (rids : list Z) :
  heap_inv h mem -> remaining 512 (ha_heap h) = 0 -> exhausted h tid ->
  (forall t, threads h t -> t = tid \/ t ∈ ts) -> (forall i, allocated h i -> i ∈ rids) ->
  heap_capacity h <= Z.of_nat (length rids) + 64 * Z.of_nat (length ts).
Proof.
  intros Hinv Hrem Hex Hts Hall. pose proof (heap_inv_bounds _ _ Hinv) as Hb.
  assert (Hsub : seqZ 0 (heap_capacity h) ⊆+ rids ++ (ts ≫= arena_ids h)).
  { apply NoDup_submseteq; [apply NoDup_seqZ|]. intros i Hi. apply elem_of_seqZ in Hi. apply elem_of_app.
    destruct (decide (Exists (holds_free h i) (tid :: ts))) as [He|He].
    - right. apply Exists_exists in He as (t & Ht & Hf). unfold holds_free in Hf.
      destruct (kv_get (ha_tls h) t) as [a|] eqn:E; [|done]. destruct Hf as [Hat Hlt].
      apply elem_of_cons in Ht as [->|Ht].
      { rewrite (Hex _ E) in Hlt. pose proof (Z.mod_pos_bound i 64). lia. }
      apply list_elem_of_bind. exists t. split; [|done]. unfold arena_ids. rewrite E, Hat.
      rewrite Z.add_simpl_l, Z.div_mul by lia. apply elem_of_seqZ. Z.div_mod_to_equations; lia.
    - left. apply Hall. split; [lia|]. intros t a E Hat.
      destruct (decide (remaining 8 (tl_arena a) <= i mod 64)) as [|Hgt]; [done|exfalso].
      apply He, Exists_exists. exists t. split.
      + apply elem_of_cons. apply Hts. by exists a.
      + unfold holds_free. rewrite E. split; [done|lia]. }
  apply submseteq_length in Hsub. rewrite length_app, length_seqZ in Hsub.
  pose proof (length_arenas h ts). lia.
Qed.

(** ** Who has an arena *)
Lemma new_arena_tls h mem r h' mem' : new_arena 64 h mem = Ret (r, h', mem') -> ha_tls h' = ha_tls h.
Proof.
  unfold new_arena. intros E. inv_ret. destruct x as [[[i p]|e] heap]; inv_ret; [|by simplify_eq].
  destruct x. inv_ret. by simplify_eq.
Qed.

Lemma threads_insert h tid t t' :
  threads (put_tls h tid t) t' -> t' = tid \/ threads h t'.
Proof. unfold threads. simpl. rewrite kv_get_insert. case_decide; [by left|by right]. Qed.

Lemma get_tls_threads tid h mem r h' mem' :
  get_tls_allocator 64 tid h mem = Ret (r, h', mem') -> forall t, threads h' t -> t = tid \/ threads h t.
Proof.
  unfold get_tls_allocator. destruct (kv_get (ha_tls h) tid); intros E; [inv_ret; simplify_eq; by right|].
  inv_ret. destruct x as [[[arena|e] h1] mem1]; inv_ret; apply new_arena_tls in E0.
  - simplify_eq. intros t' Ht. apply (threads_insert h1 tid) in Ht as [->|Ht]; [by left|right].
    unfold threads in *. by rewrite <-E0.
  - simplify_eq. intros t' Ht. right. unfold threads in *. by rewrite <-E0.
Qed.

Lemma append_loop_threads n tid item t h mem r h' mem' :
  append_loop 64 n tid item t h mem = Ret (r, h', mem') -> forall t', threads h' t' -> t' = tid \/ threads h t'.
Proof.
  revert t h mem. induction n as [|n IH]; intros t h mem E; [done|]. cbn [append_loop] in E. inv_ret.
  destruct x as [[ptr|e] t1]; cbv zeta in E; inv_ret.
  - simplify_eq. intros t'. apply threads_insert.
  - destruct x as [[[arena|e'] h1] mem1]; apply new_arena_tls in E1.
    + intros t' Ht. destruct (IH _ _ _ E t' Ht) as [->|Ht']; [by left|].
      apply threads_insert in Ht' as [->|Ht']; [by left|]. unfold threads in Ht'. rewrite E1 in Ht'.
      by apply (threads_insert h tid t1).
    + inv_ret. simplify_eq. intros t' Ht. unfold threads in Ht. rewrite E1 in Ht.
      by apply (threads_insert h tid t1).
Qed.

Lemma append_threads tid item h mem r h' mem' :
  append 64 tid item h mem = Ret (r, h', mem') -> forall t, threads h' t -> t = tid \/ threads h t.
Proof.
  unfold append. intros E. inv_ret. destruct x as [[[t1|e] h1] mem1]; intros t Ht.
  - destruct (append_loop_threads _ _ _ _ _ _ _ _ _ E t Ht) as [->|Ht']; [by left|].
    by apply (get_tls_threads _ _ _ _ _ _ E0).
  - inv_ret. simplify_eq. by apply (get_tls_threads _ _ _ _ _ _ E0).
Qed.

Lemma oid_store_heap (a : OidArray M) rid w a' : oid_store a rid w = Ret a' -> oa_heap a' = oa_heap a.
Proof. unfold oid_store. intros E. inv_ret. by simplify_eq. Qed.

Lemma alloc_rid_threads tid weak (a : OidArray M) rid a' :
  alloc_rid tid weak a = Ret (rid, a') -> forall t, threads (oa_heap a') t -> t = tid \/ threads (oa_heap a) t.
Proof.
  unfold alloc_rid. intros E. inv_ret. destruct x0 as [[r h1] mem1]. cbv zeta in E. inv_ret. simplify_eq.
  apply oid_store_heap in E6. rewrite E6. cbn [oa_heap]. by eapply append_threads.
Qed.
End count.

(** *** Room for [n] more ids

    [n] ids are left for the threads [ts]: all but one of them may have an
    arena whose ids the last one cannot use. *)
Section oid_room.
Context {M : Type} `{KvMapLaws TlsAllocator M}.
Implicit Types (oa : OidArray M).

Definition oid_room (ts : list Z) (n : nat) oa : Prop :=
  (forall tid, threads (oa_heap oa) tid -> tid ∈ ts) /\
  exists rids : list Z, (forall r, oa_alloc oa r -> r ∈ rids) /\
    Z.of_nat (length rids + n) + 64 * (Z.of_nat (length ts) - 1) <= oa_cap oa.

(** A thread of [ts] finds an id. *)
Lemma oid_room_not_out ts n oa tid :
  oa_inv oa -> oid_room ts (S n) oa -> tid ∈ ts -> ~ out_of_rids oa tid.
Proof.
  intros [Hi _] (Hts & rids & Hr & Hlen) Hin [Hrem Hex].
  apply list_elem_of_split in Hin as (l1 & l2 & ->).
  pose proof (full_count (oa_heap oa) _ tid (l1 ++ l2) rids Hi Hrem Hex) as Hc.
  unfold oa_cap in Hlen.
  assert (Hl : heap_capacity (oa_heap oa) <= Z.of_nat (length rids) + 64 * Z.of_nat (length (l1 ++ l2))).
  { apply Hc; [|done]. intros t' Ht. apply Hts in Ht. rewrite elem_of_app, elem_of_cons in *. tauto. }
  rewrite !length_app in *. simpl in Hlen. lia.
Qed.

(** An allocation uses one. *)
Lemma oid_room_alloc ts n oa oa' tid k rid :
  oa_inv oa -> oid_room ts (S n) oa -> tid ∈ ts ->
  alloc_rid tid (replicate k true ++ [false]) oa = Ret (rid, oa') -> oid_room ts n oa'.
Proof.
  intros Hoa (Hts & rids & Hr & Hlen) Hin E. pose proof (alloc_rid_threads _ _ _ _ _ E) as Ht.
  destruct (alloc_rid_ok tid k oa Hoa) as [(rid' & oa1 & E' & Ha)|[E' _]]; [|congruence].
  rewrite E in E'. injection E' as <- <-. destruct Ha as (_ & _ & _ & _ & Hal & _ & Hcap & _). split.
  - intros t Htt. destruct (Ht t Htt) as [->|?]; [done|auto].
  - exists (rid :: rids). split.
    + intros r [->|?]%Hal; [left|right; auto].
    + rewrite Hcap. simpl. lia.
Qed.
End oid_room.

(** ** Only inserts allocate *)
Section frame.
Context {Sc : Schema} {T M : Type} `{KvMap Z T} `{KvMap TlsAllocator M}.
Implicit Types (cc : ClockCache T M) (oa : OidArray M) (ci : CacheInner T).

(** The heap of record ids behind a cache, and its number of slots and of
    tuples. *)
Definition fixed cc : HeapArray M * Z * Z :=
  (oa_heap (cc_oids cc), ci_capacity (cc_inner cc), sg_cap (cc_storage cc)).

(** The equations between the fixed parts that the hypotheses give. *)
Ltac stores :=
  repeat match goal with
  | H : oid_store _ _ _ = Ret _ |- _ => apply oid_store_heap in H
  end.

Lemma oid_update_heap oa r f oa' : oid_update oa r f = Ret oa' -> oa_heap oa' = oa_heap oa.
Proof. unfold oid_update. intros E. inv_ret. by stores. Qed.

Ltac updates :=
  stores;
  repeat match goal with
  | H : oid_update _ _ _ = Ret _ |- _ => apply oid_update_heap in H
  end;
  simplify_eq; simpl; repeat split; congruence.

Lemma advance_index_fixed tid ci i ci' : advance_index tid ci = Ret (i, ci') -> ci_capacity ci' = ci_capacity ci.
Proof.
  unfold advance_index, get_index. destruct (kv_get (ci_tls ci) tid); intros E; inv_ret; by simplify_eq.
Qed.

Lemma probe_round_fixed tid nn rid oid weak ci oa p ci' oa' :
  probe_round tid nn rid oid weak ci oa = Ret (p, ci', oa') ->
  oa_heap oa' = oa_heap oa /\ ci_capacity ci' = ci_capacity ci.
Proof.
  unfold probe_round. intros E. inv_ret. destruct x as [i ci1]. apply advance_index_fixed in E0. inv_ret. cbv zeta in E.
  destruct (_ =? _).
  - destruct (cas_weak _ _ _ _) as [[] ?]; inv_ret; updates.
  - destruct (try_clear_ref _) as [[] n]; inv_ret; [updates|].
    destruct (try_write _ _) as [[] ?]; inv_ret; [|updates].
    destruct (cas_weak _ _ _ _) as [[] ?]; inv_ret; updates.
Qed.

Lemma probe_loop_fixed n p tid nn rid oid weak ci oa r ci' oa' :
  probe_loop n p tid nn rid oid weak ci oa = Ret (r, ci', oa') ->
  oa_heap oa' = oa_heap oa /\ ci_capacity ci' = ci_capacity ci.
Proof.
  revert p ci oa. induction n as [|n IH]; intros p ci oa E; cbn [probe_loop] in E; inv_ret; [by simplify_eq|].
  destruct x as [[[q|] ci1] oa1]; apply probe_round_fixed in E0 as [? ?]; inv_ret; [by simplify_eq|].
  apply IH in E as [? ?]. split; congruence.
Qed.

Lemma probe_fixed tid nn rid oid pr u weak ci oa r ci' oa' :
  probe_and_replace_rng tid nn rid oid pr u weak ci oa = Ret (r, ci', oa') ->
  oa_heap oa' = oa_heap oa /\ ci_capacity ci' = ci_capacity ci.
Proof.
  unfold probe_and_replace_rng. intros E. inv_ret. destruct (negb x); inv_ret; [by simplify_eq|].
  by apply probe_loop_fixed in E.
Qed.

Lemma get_mut_fixed st r t st' : Storage_get_mut st r t = Ret st' -> sg_cap st' = sg_cap st.
Proof. unfold Storage_get_mut. intros E. inv_ret. destruct (sg_heap st !! _); inv_ret; by simplify_eq. Qed.

Lemma write_back_fixed ev st oa st' oa' :
  write_back_evicted ev st oa = Ret (st', oa') -> oa_heap oa' = oa_heap oa /\ sg_cap st' = sg_cap st.
Proof.
  unfold write_back_evicted. intros E. destruct ev as [[node g]|]; inv_ret; [|by simplify_eq].
  match goal with Hg : Storage_get_mut _ _ _ = Ret _ |- _ => apply get_mut_fixed in Hg end. updates.
Qed.

Lemma CacheInner_read_fixed oid u ci oa r ci' :
  CacheInner_read oid u ci oa = Ret (r, ci') -> ci_capacity ci' = ci_capacity ci.
Proof. unfold CacheInner_read. intros E. inv_ret. destruct (is_cached x); inv_ret; by simplify_eq. Qed.

Lemma read_fixed oid q u cc v cc' : ClockCache_read oid q u cc = Ret (v, cc') -> fixed cc' = fixed cc.
Proof.
  unfold ClockCache_read, fixed. intros E. inv_ret.
  destruct x as [[] ?]; apply CacheInner_read_fixed in E0; cbv zeta in E; inv_ret; simplify_eq; simpl; congruence.
Qed.

Lemma promote_fixed tid oid q u1 u2 u3 weak cc v cc' :
  read_and_promote tid oid q u1 u2 u3 weak cc = Ret (v, cc') -> fixed cc' = fixed cc.
Proof.
  unfold read_and_promote, fixed. intros E. inv_ret.
  destruct x as [[] ?]; apply CacheInner_read_fixed in E0; cbv zeta in E; inv_ret; [simplify_eq; simpl; congruence|].
  destruct (_ =? 0); inv_ret; [simplify_eq; simpl; congruence|].
  match goal with Hp : probe_and_replace_rng _ _ _ _ _ _ _ _ _ = Ret ?x |- _ =>
    destruct x as [[[[i ev]|] ci] oa]; apply probe_fixed in Hp as [? ?] end; inv_ret; [|simplify_eq; simpl; congruence].
  match goal with Hw : write_back_evicted _ _ _ = Ret ?x |- _ =>
    destruct x as [st oa2]; apply write_back_fixed in Hw as [? ?] end.
  inv_ret. simplify_eq. simpl. congruence.
Qed.

Lemma read_lock_fixed r weak cc res cc' :
  ClockCache_read_lock r weak cc = Ret (res, cc') -> fixed cc' = fixed cc.
Proof. unfold ClockCache_read_lock, fixed. intros E. inv_ret. destruct x0. inv_ret. stores. simplify_eq. simpl. congruence. Qed.

Lemma write_lock_fixed r weak cc res cc' :
  ClockCache_write_lock r weak cc = Ret (res, cc') -> fixed cc' = fixed cc.
Proof.
  unfold ClockCache_write_lock, fixed. intros E. inv_ret. destruct (try_write _ _). inv_ret. stores. simplify_eq. simpl. congruence.
Qed.

Lemma drop_read_fixed r cc cc' : drop_read_guard r cc = Ret cc' -> fixed cc' = fixed cc.
Proof. unfold drop_read_guard, fixed. intros E. inv_ret. simplify_eq. apply oid_update_heap in E0. simpl. congruence. Qed.

Lemma drop_write_fixed r cc cc' : drop_write_guard r cc = Ret cc' -> fixed cc' = fixed cc.
Proof. unfold drop_write_guard, fixed. intros E. inv_ret. simplify_eq. apply oid_update_heap in E0. simpl. congruence. Qed.

Lemma set_fixed v f bs cc cc' : get_value_mut v f bs cc = Ret cc' -> fixed cc' = fixed cc.
Proof.
  unfold get_value_mut, fixed. intros E. inv_ret. destruct x; inv_ret; simplify_eq; [done|].
  match goal with Hg : Storage_get_mut _ _ _ = Ret _ |- _ => apply get_mut_fixed in Hg end. simpl. congruence.
Qed.

(** An insert allocates one id for its thread. *)
Lemma insert_fixed tid val spin u weak cc rid cc' :
  ClockCache_insert tid val spin u weak cc = Ret (rid, cc') ->
  exists oa, alloc_rid tid spin (cc_oids cc) = Ret (rid, oa) /\
    fixed cc' = (oa_heap oa, ci_capacity (cc_inner cc), sg_cap (cc_storage cc)).
Proof.
  unfold ClockCache_insert, fixed. intros E. inv_ret. destruct x as [r oa]. cbv zeta in E. inv_ret.
  destruct x as [[ev ci] oa1]. inv_ret. destruct x as [st oa2]. inv_ret. simplify_eq.
  exists oa. split; [done|]. apply write_back_fixed in E2 as [Eh Es].
  unfold Storage_insert in *. match goal with Hg : Storage_get_mut _ _ _ = Ret _ |- _ => apply get_mut_fixed in Hg end.
  unfold CacheInner_insert in E1. inv_ret.
  match goal with Hp : probe_and_replace_rng _ _ _ _ _ _ _ _ _ = Ret ?x |- _ =>
    destruct x as [[p ci2] oa3]; apply probe_fixed in Hp as [? ?] end. inv_ret. simplify_eq. simpl. congruence.
Qed.
End frame.

(** ** Room for [n] more records *)
Section room.
Context {I : Type} `{DbIndexLaws I}.
Context {Sc : Schema} {columns mut_columns : list Field} {L : SchemaLaws Sc columns mut_columns}.
Context {T M : Type} `{KvMapLaws Z T} `{KvMapLaws TlsAllocator M}.
Implicit Types (t : DbTable I T M) (cc : ClockCache T M).

Definition room (ts : list Z) (n : nat) cc : Prop := oid_room ts n (cc_oids cc).

Lemma room_fixed ts n cc cc' : fixed cc' = fixed cc -> room ts n cc -> room ts n cc'.
Proof. unfold room, oid_room, oa_alloc, oa_cap, fixed. intros [= -> _ _]. done. Qed.

(** A thread of [ts] finds an id. *)
Lemma room_not_out ts n cc tid :
  cache_inv columns cc -> room ts (S n) cc -> tid ∈ ts -> ~ out_of_rids (cc_oids cc) tid.
Proof. intros [(_ & Hoa & _) _]. by apply oid_room_not_out. Qed.

(** An insert uses one. *)
Lemma room_insert ts n cc cc' tid val k u weak rid :
  cache_inv columns cc -> room ts (S n) cc -> tid ∈ ts ->
  ClockCache_insert tid val (replicate k true ++ [false]) u weak cc = Ret (rid, cc') -> room ts n cc'.
Proof.
  intros [(_ & Hoa & _) _] Hroom Hin E. apply insert_fixed in E as (oa & E & Hh).
  pose proof (oid_room_alloc _ _ _ _ _ _ _ Hoa Hroom Hin E) as Hr.
  unfold fixed in Hh. injection Hh as Hh _ _. unfold room, oid_room, oa_alloc, oa_cap in *. by rewrite Hh.
Qed.

Definition is_insert (req : request) : nat := match req with RInsert _ => 1 | _ => 0 end.

Definition inserts (reqs : list (draws * request)) : nat := sum_list (is_insert <$> reqs.*2).

(** Requests change the fixed parts only by inserting. *)
Definition tb_fixed t : HeapArray M * Z * Z := fixed (tb_cache t).

Ltac same_fixed := simplify_eq; unfold tb_fixed, fixed in *; simpl in *; congruence.

Lemma on_cache_fixed m t t' :
  on_cache m t = Ret t' -> exists c, m = Ret c /\ tb_fixed t' = fixed c.
Proof. unfold on_cache. intros E. inv_ret. simplify_eq. by exists x. Qed.

Lemma read_oid_fixed k weak t res t' : read_oid k weak t = Ret (res, t') -> tb_fixed t' = tb_fixed t.
Proof.
  unfold read_oid, lock_rid_r. destruct (index_get _ _); intros E; inv_ret; [|same_fixed].
  match goal with Hl : ClockCache_read_lock _ _ _ = Ret ?x |- _ => destruct x; apply read_lock_fixed in Hl end.
  inv_ret. same_fixed.
Qed.

Lemma write_oid_fixed k weak t res t' : write_oid k weak t = Ret (res, t') -> tb_fixed t' = tb_fixed t.
Proof.
  unfold write_oid, lock_rid_w. destruct (index_get _ _); intros E; inv_ret; [|same_fixed].
  match goal with Hl : ClockCache_write_lock _ _ _ = Ret ?x |- _ => destruct x; apply write_lock_fixed in Hl end.
  inv_ret. same_fixed.
Qed.

Lemma DbTable_read_fixed g q u t v t' : DbTable_read g q u t = Ret (v, t') -> tb_fixed t' = tb_fixed t.
Proof.
  unfold DbTable_read. intros E. inv_ret.
  match goal with Hr : ClockCache_read _ _ _ _ = Ret ?x |- _ => destruct x; apply read_fixed in Hr end.
  inv_ret. same_fixed.
Qed.

Lemma DbTable_promote_fixed tid g q u1 u2 u3 weak t v t' :
  DbTable_read_and_promote tid g q u1 u2 u3 weak t = Ret (v, t') -> tb_fixed t' = tb_fixed t.
Proof.
  unfold DbTable_read_and_promote. intros E. inv_ret.
  match goal with Hr : read_and_promote _ _ _ _ _ _ _ _ = Ret ?x |- _ => destruct x; apply promote_fixed in Hr end.
  inv_ret. same_fixed.
Qed.

Lemma run_fixed d req t rs t' :
  is_insert req = 0%nat -> run d req t = Ret (rs, t') -> tb_fixed t' = tb_fixed t.
Proof.
  intros Hi E. destruct req as [record|k q f|k q f bs]; [done|..]; cbn [run] in E;
    apply bind_Ret_inv in E as ([res t1] & El & E);
    [apply read_oid_fixed in El|apply write_oid_fixed in El]; destruct res as [g|e];
    (try by inv_ret; same_fixed);
    apply bind_Ret_inv in E as ([v t2] & Er & E);
    [apply DbTable_read_fixed in Er|apply DbTable_promote_fixed in Er].
  - apply bind_Ret_inv in E as (bs & _ & E). apply bind_Ret_inv in E as (t3 & Ed & E). inv_ret. simplify_eq.
    apply on_cache_fixed in Ed as (c & Ed & ->). apply drop_read_fixed in Ed. same_fixed.
  - apply bind_Ret_inv in E as (t3 & Es & E). apply bind_Ret_inv in E as (t4 & Ed & E). inv_ret. simplify_eq.
    apply on_cache_fixed in Ed as (c & Ed & ->). apply drop_write_fixed in Ed. rewrite Ed.
    apply on_cache_fixed in Es as (c' & Es & Eh). apply set_fixed in Es. same_fixed.
Qed.

Lemma run_insert_fixed d record t rs t' :
  run d (RInsert record) t = Ret (rs, t') ->
  exists rid c, ClockCache_insert (d_tid d) record (replicate (d_spin d) true ++ [false]) (d_u1 d) (d_weak d) (tb_cache t)
                  = Ret (rid, c) /\ tb_fixed t' = fixed c.
Proof.
  intros E. cbn [run] in E.
  apply bind_Ret_inv in E as ([rid t1] & E & Ed). apply bind_Ret_inv in Ed as (t2 & Ed & El). inv_ret.
  simplify_eq. apply on_cache_fixed in Ed as (c & Ed & Eh). apply drop_write_fixed in Ed.
  unfold DbTable_insert in E. inv_ret.
  match goal with Hr : ClockCache_insert _ _ _ _ _ _ = Ret ?x |- _ => destruct x as [rid' c1] end. inv_ret. simplify_eq.
  exists rid, c1. split; [done|]. same_fixed.
Qed.

Lemma run_room d t t' A req ts n rs :
  holds (columns := columns) t A -> room ts (is_insert req + n) (tb_cache t) -> d_tid d ∈ ts ->
  run d req t = Ret (rs, t') -> room ts n (tb_cache t').
Proof.
  intros Ht Hroom Hd E. destruct (is_insert req) eqn:Ei.
  { eapply room_fixed; [by eapply run_fixed|exact Hroom]. }
  destruct req as [record| |]; [|done..]. injection Ei as <-. apply run_insert_fixed in E as (rid & c & E & Ef).
  eapply room_fixed; [exact Ef|]. eapply room_insert; [apply Ht|exact Hroom|exact Hd|exact E].
Qed.

(** With room a request is answered like the map's. *)
Lemma run_ok_room d t A req ts n :
  holds (columns := columns) t A -> request_ok (columns := columns) (mut_columns := mut_columns) req ->
  d_tid d ∈ ts -> room ts (is_insert req + n) (tb_cache t) ->
  exists t', run d req t = Ret (fst (spec_run req A), t') /\
    holds (columns := columns) t' (snd (spec_run req A)) /\ room ts n (tb_cache t').
Proof.
  intros Ht Hreq Hd Hroom. destruct (run_ok (mut_columns := mut_columns) d t A req Ht Hreq) as [(t1 & E & Ht1)|Hoos].
  - exists t1. split; [done|]. split; [done|]. exact (run_room d t t1 A req ts _ _ Ht Hroom Hd E).
  - destruct Hoos as ((record & ->) & _ & Hout). cbn [is_insert Nat.add] in Hroom.
    exfalso. eapply room_not_out; [apply Ht|exact Hroom|exact Hd|exact Hout].
Qed.

Lemma run_all_room t A reqs ts :
  holds (columns := columns) t A ->
  Forall (fun dr => request_ok (columns := columns) (mut_columns := mut_columns) dr.2) reqs ->
  Forall (fun dr => d_tid dr.1 ∈ ts) reqs -> room ts (inserts reqs) (tb_cache t) ->
  exists t', run_all reqs t = Ret (fst (spec_all reqs A), t') /\ holds (columns := columns) t' (snd (spec_all reqs A)).
Proof.
  intros Ht Hok. revert t A Ht. induction Hok as [|[d req] reqs Hreq _ IH]; intros t A Ht Hts Hroom.
  { by exists t. }
  apply Forall_cons in Hts as [Hd Hts]. cbn [run_all spec_all].
  destruct (run_ok_room d t A req ts (inserts reqs) Ht Hreq Hd Hroom) as (t1 & -> & Ht1 & Hroom1). runm.
  destruct (IH t1 _ Ht1 Hts Hroom1) as (t' & -> & Ht'). runm. exists t'.
  destruct (spec_run req A) as [r A1]. simpl in *. by destruct (spec_all reqs A1).
Qed.
End room.

(** ** A new table *)
Section build_room.
Context {I : Type} `{DbIndexLaws I}.
Context {Sc : Schema} {columns mut_columns : list Field} {L : SchemaLaws Sc columns mut_columns}.
Context {T M : Type} `{KvMapLaws Z T} `{KvMapLaws TlsAllocator M}.

Lemma OidArray_new_threads cap ptr (a : OidArray M) :
  OidArray_new cap ptr = Ret a -> forall tid, ~ threads (oa_heap a) tid.
Proof.
  unfold OidArray_new, HeapArray_new, threads. intros E. inv_ret.
  match goal with Hh : ArrayAllocator_new _ _ _ _ _ = Ret ?x |- _ => destruct x end. inv_ret.
  repeat match goal with x : _ * _ |- _ => destruct x end. inv_ret. simplify_eq. simpl.
  intros tid. rewrite kv_get_empty. by intros [].
Qed.

Lemma cache_room node_size cache_size probe_len prob storage_size ptr init (cc : ClockCache T M) ts n :
  0 <= storage_size / Z.of_nat tuple_size < 2 ^ 31 -> 0 < ptr < 2 ^ 63 ->
  ClockCache_new node_size cache_size probe_len prob storage_size ptr init = Ret cc ->
  (length ts <= 129)%nat -> Z.of_nat n <= storage_size / Z.of_nat tuple_size ->
  room ts n cc.
Proof.
  intros Hst Hptr E Hts Hn. unfold ClockCache_new in E. inv_ret. subst cc.
  destruct (OidArray_new_ok (M := M) (storage_size / Z.of_nat tuple_size) ptr) as (a & Ea & _ & Hcap & _ & Hna & _);
    [lia..|].
  rewrite Ea in E1. injection E1 as <-. unfold room, oid_room. cbn [cc_oids]. split.
  - intros tid Ht. by apply (OidArray_new_threads _ _ _ Ea) in Ht.
  - exists []. split; [intros r Ha; by apply Hna in Ha|]. simpl. lia.
Qed.

Lemma build_room b node_size cache_size storage_size ptr init (t : DbTable I T M) ts n :
  sizes_ok node_size cache_size storage_size ptr init -> configured b cache_size storage_size ->
  build node_size ptr init b = Ret t ->
  (length ts <= 129)%nat -> Z.of_nat n <= storage_size / Z.of_nat tuple_size ->
  room ts n (tb_cache t).
Proof.
  intros (_ & _ & _ & Hst & Hptr & _) (Ec & Es & _ & Eb & _) E Hts Hn. unfold build in E. rewrite Ec, Es, Eb in E.
  cbn in E. inv_ret. subst t. simpl. by eapply cache_room.
Qed.

(** What is added to the memory asked for is for the arenas of 129 threads. *)
Lemma build_cap b node_size cache_size storage_size ptr init (t : DbTable I T M) :
  sizes_ok node_size cache_size storage_size ptr init -> configured b cache_size storage_size ->
  build node_size ptr init b = Ret t ->
  storage_size / Z.of_nat tuple_size + 128 * 64 <= sg_cap (cc_storage (tb_cache t))
    < storage_size / Z.of_nat tuple_size + 129 * 64.
Proof.
  intros (_ & _ & _ & Hst & Hptr & _) (Ec & Es & _ & Eb & _) E. unfold build in E. rewrite Ec, Es, Eb in E.
  cbn in E. inv_ret. subst t. simpl. unfold ClockCache_new in *. inv_ret.
  destruct (OidArray_new_ok (M := M) (storage_size / Z.of_nat tuple_size) ptr) as (a & Ea & _ & Hcap & Ecap & _); [lia..|].
  rewrite Ea in *. simplify_eq. rewrite Ecap in *. simplify_eq. unfold Storage_new in *. inv_ret. simplify_eq. simpl. lia.
Qed.
End build_room.

(** A table built for [n] records answers every sequence of inserts, reads and
    writes exactly as a map from keys to tuples would, as long as it has at most
    [n] inserts and at most 129 threads take part: it never runs out of record
    ids, although every thread allocates from an arena of its own. *)
Theorem table_serves_capacity {I} `{DbIndexLaws I} {Sc : Schema} {columns mut_columns}
    {L : SchemaLaws Sc columns mut_columns} {T M} `{KvMapLaws Z T} `{KvMapLaws TlsAllocator M}
    node_size cache_size storage_size ptr init (reqs : list (draws * request)) ts :
  sizes_ok node_size cache_size storage_size ptr init ->
  Forall (fun dr => request_ok (columns := columns) (mut_columns := mut_columns) dr.2) reqs ->
  Forall (fun dr => d_tid dr.1 ∈ ts) reqs -> (length ts <= 129)%nat ->
  Z.of_nat (inserts reqs) <= storage_size / Z.of_nat tuple_size ->
  exists t t' : DbTable I T M,
    build node_size ptr init
      (builder_schema (builder_storage (builder_cache DbTableBuilder_new cache_size) storage_size)) = Ret t /\
    run_all reqs t = Ret (fst (spec_all reqs ∅), t').
Proof.
  intros Hs Hok Htid Hts Hn.
  destruct (build_holds (I := I) (T := T) (M := M) (columns := columns) None _ _ _ _ _ Hs)
    as (t & E & Ht & _).
  destruct (run_all_room t ∅ reqs ts Ht Hok Htid) as (t' & Er & _); [eapply build_room; [exact Hs|apply (configured_probe_len None)|exact E|done..]|].
  exists t, t'. by split.
Qed.

(** Three threads, two records for which the table was built, one of them
    updated and read by a thread that inserted nothing. *)
Module CapacityDemo.
Import Demo TableDemo.
#[local] Existing Instances pair_schema pair_laws.

Definition by_thread (tid : Z) : draws := mkDraws tid 0 0 0 0 (fun _ => (false, false)).

Definition three_threads : list (draws * request) := [
  (by_thread 1, RInsert (tup 5 6)); (by_thread 2, RInsert (tup 7 8));
  (by_thread 3, RWrite 5 (FieldsMeta_new [col_v]) col_v (le_bytes 8 9));
  (by_thread 2, RRead 5 (FieldsMeta_new [col_v]) col_v)].

Lemma table_serves_capacity_witness :
  exists t t' : dtable,
    build 24 4096 zeros
      (builder_schema (builder_storage (builder_cache DbTableBuilder_new 48) 160)) = Ret t /\
    run_all three_threads t = Ret ([Done; Done; Done; Column (le_bytes 8 9)], t').
Proof.
  apply (table_serves_capacity (L := pair_laws) 24 48 160 4096 zeros three_threads [1; 2; 3] demo_sizes).
  - repeat constructor; try (by eexists); reflexivity || (by left) || (right; by left).
  - repeat constructor; cbn [fst d_tid by_thread]; by repeat (apply elem_of_cons; (by left) || right).
  - simpl. lia.
  - vm_compute. discriminate.
Defined.
End CapacityDemo.
