(* ===== verification/Reset.v ===== *)
(** * Resetting a table (src/src/table.rs, attribute_cache/clock_cache, storage/oid_array.rs)

    [DbTable::reset] gives all memory of a table back: the ids, the slots of the
    cache and the index.  The table holds nothing afterwards and serves as many
    records as when it was new. *)

From Stdlib Require Import QArith.
From S2P Require Import Prelude Query Schema Layout Oid External ObjAlloc OidArray CacheInner ClockCache Table Capacity.
Open Scope Z_scope.

Section parts.
Context {T M : Type} `{KvMapLaws Z T} `{KvMapLaws TlsAllocator M}.

(** The ids are all free, and no thread has an arena. *)
Lemma OidArray_reset_ok (a : OidArray M) :
  oa_inv a -> exists a', OidArray_reset a = Ret a' /\ oa_inv a' /\ oa_cap a' = oa_cap a /\
    (forall r, ~ oa_alloc a' r) /\ forall tid, ~ threads (oa_heap a') tid.
Proof.
  intros [((Hk & Hst & Hend & _) & Hcap & _) _]. unfold OidArray_reset, OidArray_capacity, HeapArray_capacity.
  change (ARENA_SIZE 64) with 512. change OID_SIZE with 8. set (h := ha_heap (oa_heap a)) in *.
  rewrite chk_ok by (unfold fits; lia). runm. rewrite chk_ok by (unfold fits; lia). runm.
  replace (aa_cap h * 64 * 8 / 512) with (aa_cap h) by (Z.div_mod_to_equations; lia).
  destruct (HeapArray_new_inv (M := M) (aa_cap h) (aa_start h) (zero_words (Z.to_nat (aa_cap h * 64 * 8 / 8)) (aa_start h) (oa_mem a)))
    as (h' & mem' & E & Hi & _ & Ec & Hna & _); [lia..|]. rewrite E. runm. eexists. split; [done|].
  split; [split; [exact Hi|]; intros r Ha; by apply Hna in Ha|].
  split; [unfold oa_cap, heap_capacity; simpl; by rewrite Ec|]. split; [exact Hna|].
  intros tid. unfold threads. simpl. unfold HeapArray_new in E. inv_ret.
  match goal with Hh : ArrayAllocator_new _ _ _ _ _ = Ret ?x |- _ => destruct x end. inv_ret. simplify_eq. simpl.
  rewrite kv_get_empty. by intros [].
Qed.

Lemma clear_rids_free n es i e : (length es <= n)%nat -> clear_rids n es !! i = Some e -> cn_rid e = u32_MAX.
Proof.
  revert es i. induction n as [|n IH]; intros [|e' es] i Hl He; simpl in *; try done; [lia|].
  destruct i as [|i]; simpl in He; [by simplify_eq|]. eapply (IH es i); [lia|done].
Qed.

Lemma length_clear_rids n es : length (clear_rids n es) = length es.
Proof. revert es. induction n as [|n IH]; intros [|e es]; simpl; [done..|]. by rewrite IH. Qed.

Lemma clear_rids_meta n es (P : Z -> Prop) :
  Forall (fun e => P (cn_meta e)) es -> Forall (fun e => P (cn_meta e)) (clear_rids n es).
Proof.
  revert es. induction n as [|n IH]; intros es Hes; [done|]. destruct Hes as [|e es He Hes]; [done|].
  simpl. constructor; [done|]. by apply IH.
Qed.

(** Every slot of the cache is free. *)
Lemma CacheInner_reset_ok (ci : CacheInner T) :
  ci_inv ci -> ci_inv (CacheInner_reset ci) /\
    forall i e, ci_entries (CacheInner_reset ci) !! i = Some e -> cn_rid e = u32_MAX.
Proof.
  intros (Hc & Hb & Htls & Hm & Hp). split.
  - unfold ci_inv, CacheInner_reset, set_entries. simpl. rewrite length_clear_rids.
    split; [done|]. split; [done|]. split; [done|]. split; [by apply (clear_rids_meta _ _ (fits 32))|done].
  - intros i e He. unfold CacheInner_reset, set_entries in He. simpl in He. eapply clear_rids_free; [|exact He]. lia.
Qed.
End parts.

Section reset.
Context {I : Type} `{DbIndexLaws I}.
Context {Sc : Schema} {columns mut_columns : list Field} {L : SchemaLaws Sc columns mut_columns}.
Context {T M : Type} `{KvMapLaws Z T} `{KvMapLaws TlsAllocator M}.
Implicit Types (t : DbTable I T M).

Lemma ClockCache_reset_ok (cc : ClockCache T M) :
  cache_inv columns cc ->
  exists cc', ClockCache_reset cc = Ret cc' /\ cache_inv columns cc' /\ (forall r, ~ allocated_rid cc' r) /\
    oa_cap (cc_oids cc') = oa_cap (cc_oids cc) /\ forall tid, ~ threads (oa_heap (cc_oids cc')) tid.
Proof.
  intros ((Hci & Hoa & _ & Hst) & _). unfold ClockCache_reset.
  destruct (OidArray_reset_ok (cc_oids cc) Hoa) as (oa & -> & Hoa' & Hcap & Hna & Hth). runm.
  destruct (CacheInner_reset_ok (cc_inner cc) Hci) as [Hci' Hfree].
  eexists. split; [done|]. split; [|done]. unfold cache_inv, base_inv, storage_inv. simpl. rewrite Hcap.
  split; [split; [done|split; [done|split; [|exact Hst]]]|].
  - split; [intros r Ha; by apply Hna in Ha|]. intros i e He Hne. by apply Hfree in He.
  - intros i e He Hne. by apply Hfree in He.
Qed.

(** Room for as many records as there are ids, less the arenas of other threads. *)
Lemma no_threads_room (cc : ClockCache T M) ts n :
  (forall r, ~ allocated_rid cc r) -> (forall tid, ~ threads (oa_heap (cc_oids cc)) tid) ->
  Z.of_nat n + 64 * (Z.of_nat (length ts) - 1) <= oa_cap (cc_oids cc) -> room ts n cc.
Proof.
  intros Hna Hth Hn. split; [by intros tid ?%Hth|]. exists []. split; [by intros r ?%Hna|]. simpl. lia.
Qed.

(** A table that has been reset holds nothing and has room for as many records
    as it has ids. *)
Lemma DbTable_reset_ok t A :
  holds (columns := columns) t A ->
  exists t', DbTable_reset t = Ret t' /\ holds (columns := columns) t' ∅ /\
    oa_cap (cc_oids (tb_cache t')) = oa_cap (cc_oids (tb_cache t)) /\
    forall ts n, Z.of_nat n + 64 * (Z.of_nat (length ts) - 1) <= oa_cap (cc_oids (tb_cache t)) -> room ts n (tb_cache t').
Proof.
  intros (Hi & _). destruct (ClockCache_reset_ok (tb_cache t) Hi) as (cc & E & Hi' & Hna & Hcap & Hth).
  unfold DbTable_reset. rewrite E. runm. eexists. split; [done|]. split; [|split; [done|]].
  - split; [done|]. split; [intros r Ha; by apply Hna in Ha|]. simpl.
    split; [intros k r; by rewrite index_get_new|]. split; [done|]. intros k k' r. by rewrite index_get_new.
  - intros ts n Hn. apply no_threads_room; [done|done|]. simpl. by rewrite Hcap.
Qed.

(** Requests do not change the number of ids. *)
Lemma run_cap d req t rs t' : run d req t = Ret (rs, t') -> sg_cap (cc_storage (tb_cache t')) = sg_cap (cc_storage (tb_cache t)).
Proof.
  intros E. change ((tb_fixed t').2 = (tb_fixed t).2). destruct (decide (is_insert req = 0%nat)) as [Hn|Hi].
  - by rewrite (run_fixed _ _ _ _ _ Hn E).
  - destruct req; [|done..]. apply run_insert_fixed in E as (rid & c & E & ->).
    apply insert_fixed in E as (oa & _ & ->). done.
Qed.

Lemma run_all_cap reqs t rs t' : run_all reqs t = Ret (rs, t') -> sg_cap (cc_storage (tb_cache t')) = sg_cap (cc_storage (tb_cache t)).
Proof.
  revert t rs. induction reqs as [|[d req] reqs IH]; intros t rs E; cbn [run_all] in E; [by simplify_eq|].
  apply bind_Ret_inv in E as ([r t1] & E1 & E). apply bind_Ret_inv in E as ([rs' t2] & E2 & E). simplify_eq.
  etransitivity; [by eapply IH|by eapply run_cap].
Qed.

Lemma holds_cap t A : holds (columns := columns) t A -> oa_cap (cc_oids (tb_cache t)) = sg_cap (cc_storage (tb_cache t)).
Proof. intros (((_ & _ & _ & Hs & _) & _) & _). done. Qed.
End reset.

(** C6: A table built for [n] records, used and then reset: what it is asked
    afterwards, with at most [n] inserts again and by at most 129 threads, it
    answers exactly as a map that starts empty; no id is lost, although the
    arenas of all threads were in use, and no record of before is seen. *)
Theorem reset_serves_capacity {I} `{DbIndexLaws I} {Sc : Schema} {columns mut_columns}
    {L : SchemaLaws Sc columns mut_columns} {T M} `{KvMapLaws Z T} `{KvMapLaws TlsAllocator M}
    node_size cache_size storage_size ptr init (reqs1 reqs2 : list (draws * request)) ts1 ts2 :
  sizes_ok node_size cache_size storage_size ptr init ->
  Forall (fun dr => request_ok (columns := columns) (mut_columns := mut_columns) dr.2) (reqs1 ++ reqs2) ->
  Forall (fun dr => d_tid dr.1 ∈ ts1) reqs1 -> Forall (fun dr => d_tid dr.1 ∈ ts2) reqs2 ->
  (length ts1 <= 129)%nat -> (length ts2 <= 129)%nat ->
  Z.of_nat (inserts reqs1) <= storage_size / Z.of_nat tuple_size ->
  Z.of_nat (inserts reqs2) <= storage_size / Z.of_nat tuple_size ->
  exists t t1 t2 t3 : DbTable I T M,
    build node_size ptr init
      (builder_schema (builder_storage (builder_cache DbTableBuilder_new cache_size) storage_size)) = Ret t /\
    run_all reqs1 t = Ret (fst (spec_all reqs1 ∅), t1) /\
    DbTable_reset t1 = Ret t2 /\
    run_all reqs2 t2 = Ret (fst (spec_all reqs2 ∅), t3).
Proof.
  intros Hs [Hok1 Hok2]%Forall_app Ht1 Ht2 Hl1 Hl2 Hn1 Hn2.
  destruct (build_holds (I := I) (T := T) (M := M) (columns := columns) None _ _ _ _ _ Hs) as (t & E & Ht & Hcap & _).
  destruct (run_all_room t ∅ reqs1 ts1 Ht Hok1 Ht1) as (t1 & E1 & Hh1);
    [eapply build_room; [exact Hs|apply (configured_probe_len None)|exact E|done..]|].
  destruct (DbTable_reset_ok t1 _ Hh1) as (t2 & E2 & Hh2 & _ & Hroom).
  destruct (run_all_room t2 ∅ reqs2 ts2 Hh2 Hok2 Ht2) as (t3 & E3 & _).
  - apply Hroom. rewrite (holds_cap t1 _ Hh1), (run_all_cap _ _ _ _ E1).
    pose proof (build_cap _ _ _ _ _ _ _ Hs (configured_probe_len None _ _) E). lia.
  - by exists t, t1, t2, t3.
Qed.

(** The records of before are gone, and two new ones fit again. *)
Module ResetDemo.
Import Demo TableDemo CapacityDemo.
#[local] Existing Instances pair_schema pair_laws.

Definition afterwards : list (draws * request) := [
  (by_thread 3, RRead 5 (FieldsMeta_new [col_v]) col_v);
  (by_thread 2, RInsert (tup 7 9)); (by_thread 3, RInsert (tup 5 4));
  (by_thread 1, RRead 7 (FieldsMeta_new [col_v]) col_v)].

Lemma reset_serves_capacity_witness :
  exists t t1 t2 t3 : dtable,
    build 24 4096 zeros
      (builder_schema (builder_storage (builder_cache DbTableBuilder_new 48) 160)) = Ret t /\
    run_all three_threads t = Ret ([Done; Done; Done; Column (le_bytes 8 9)], t1) /\
    DbTable_reset t1 = Ret t2 /\
    run_all afterwards t2 = Ret ([Failed IndexNotFound; Done; Done; Column (le_bytes 8 9)], t3).
Proof.
  apply (reset_serves_capacity (L := pair_laws) 24 48 160 4096 zeros three_threads afterwards [1; 2; 3] [1; 2; 3] demo_sizes).
  - repeat constructor; try (by eexists); reflexivity || (by left) || (right; by left).
  - repeat constructor; cbn [fst d_tid by_thread]; by repeat (apply elem_of_cons; (by left) || right).
  - repeat constructor; cbn [fst d_tid by_thread]; by repeat (apply elem_of_cons; (by left) || right).
  - simpl. lia.
  - simpl. lia.
  - vm_compute. discriminate.
  - vm_compute. discriminate.
Defined.
End ResetDemo.
