(* ===== verification/UnitTests.v ===== *)
(** * The unit tests next to the code

    The [#[test]] functions of node_meta.rs, obj_alloc.rs, oid_array.rs and table.rs as
    functions of what their environment decides, and proofs that they pass:
    for every address, every draw and every order in which the operations of
    the tests' threads take effect. *)

From Stdlib Require Import QArith.
From S2P Require Import Prelude Query Schema Layout External NodeMeta Oid ObjAlloc AllocStack OidArray CacheInner ClockCache Table Capacity.
Open Scope Z_scope.

(** ** node_meta.rs *)
Module NodeMetaTests.

Definition meta_dirty : outcome unit :=
  let meta := NodeMeta_new in
  _ ← rassert (negb (is_dirty meta));
  let meta := set_dirty meta in
  rassert (is_dirty meta).

Definition meta_hotness : outcome unit :=
  let meta := NodeMeta_new in
  _ ← rassert (hotness meta =? 0);
  let '(_, meta) := inc_hotness meta 1 in
  let '(_, meta) := inc_hotness meta 1 in
  _ ← rassert (hotness meta =? 2);
  let '(success, meta) := try_dec_hotness meta 1 false in
  _ ← rassert (Bool.eqb success true);
  rassert (hotness meta =? 1).

(** The updates of all threads in the order they take effect: [op] is the
    draw, [weak] an exchange that fails because of another thread or
    spuriously. *)
Fixpoint hotness_round (dirty : bool) (ops : list (bool * bool)) (meta : Z) : outcome Z :=
  match ops with
  | [] => Ret meta
  | (op, weak) :: ops =>
      let meta := if op then snd (inc_hotness meta 1) else snd (try_dec_hotness meta 1 weak) in
      _ ← rassert (Bool.eqb (is_dirty meta) dirty);
      hotness_round dirty ops meta
  end.

Definition multi_hotness (ops1 ops2 : list (bool * bool)) : outcome unit :=
  let meta := NodeMeta_new in
  meta ← hotness_round false ops1 meta;
  let meta := set_dirty meta in
  _ ← hotness_round true ops2 meta;
  Ret tt.

Lemma meta_dirty_passes : meta_dirty = Ret tt.
Proof. reflexivity. Qed.

Lemma meta_hotness_passes : meta_hotness = Ret tt.
Proof. reflexivity. Qed.

Lemma hotness_round_ok dirty ops meta :
  fits 32 meta -> is_dirty meta = dirty ->
  exists meta', hotness_round dirty ops meta = Ret meta' /\ fits 32 meta' /\ is_dirty meta' = dirty.
Proof.
  intros Hf Hd. revert meta Hf Hd. induction ops as [|[op weak] ops IH]; intros meta Hf Hd; [by exists meta|].
  cbn [hotness_round].
  set (meta' := if op then _ else _).
  assert (Hm : fits 32 meta' /\ is_dirty meta' = dirty).
  { subst meta'. destruct op.
    - pose proof (inc_hotness_spec meta 1 Hf ltac:(lia)) as H.
      destruct (inc_hotness meta 1). destruct H as (? & _ & _ & Ed & _). cbn [snd]. by rewrite Ed.
    - destruct weak; [unfold try_dec_hotness; by destruct (_ >=? _)|].
      pose proof (try_dec_hotness_spec meta 1 Hf ltac:(lia)) as H.
      destruct (try_dec_hotness meta 1 false). destruct H as (_ & ? & _ & Ed & _). cbn [snd]. by rewrite Ed. }
  destruct Hm as [Hf' Hd']. rewrite Hd', Bool.eqb_reflx. runm. by apply IH.
Qed.

(** However many updates of however many threads there are, and in whatever
    order they take effect, none touches the dirty bit. *)
Lemma multi_hotness_passes ops1 ops2 : multi_hotness ops1 ops2 = Ret tt.
Proof.
  unfold multi_hotness.
  destruct (hotness_round_ok false ops1 NodeMeta_new) as (meta & -> & Hf & Hd); [by unfold fits|done|]. runm.
  destruct (hotness_round_ok true ops2 (set_dirty meta)) as (meta' & -> & _ & _); [| |done].
  - unfold set_dirty. by apply set_dirty_fits.
  - rewrite is_dirty_bit. unfold set_dirty. by rewrite Z.lor_spec, orb_true_r.
Qed.
End NodeMetaTests.

(** ** obj_alloc.rs *)
Module AllocTests.

(** [usize] blocks in the storage of a [Vec] at [ptr]. *)
Definition allocator_gen (cap ptr : Z) (mem : wmem) : outcome (ArrayAllocator * wmem) :=
  ArrayAllocator_new 8 8 cap ptr mem.

(** The first loop of the test [alloc]. *)
Fixpoint alloc_all (n : nat) (i : Z) (a : ArrayAllocator) (mem : wmem) (alloced : list Z)
    : outcome (list Z * ArrayAllocator * wmem) :=
  match n with
  | O => Ret (alloced, a, mem)
  | S n =>
      '(r, a) ← ArrayAllocator_alloc 8 a mem;
      '(index, val) ← unwrap_ok r;
      p ← get_by_index 8 a index;
      _ ← rassert (p =? val);
      alloc_all n (i + 1) a (<[val := i]> mem) (alloced ++ [val])
  end.

Fixpoint check_all (i : Z) (alloced : list Z) (mem : wmem) : outcome unit :=
  match alloced with
  | [] => Ret tt
  | v :: alloced =>
      w ← word_read mem v;
      _ ← rassert (w =? i);
      check_all (i + 1) alloced mem
  end.

Definition alloc (cap ptr : Z) (mem : wmem) : outcome unit :=
  '(allocator, mem) ← allocator_gen cap ptr mem;
  '(alloced, _, mem) ← alloc_all (Z.to_nat cap) 0 allocator mem [];
  check_all 0 alloced mem.

(** The loops that allocate without looking at the index. *)
Fixpoint fill (n : nat) (value : Z -> Z) (i : Z) (a : ArrayAllocator) (mem : wmem) (allocated : list Z)
    : outcome (list Z * ArrayAllocator * wmem) :=
  match n with
  | O => Ret (allocated, a, mem)
  | S n =>
      '(r, a) ← ArrayAllocator_alloc 8 a mem;
      '(_, val) ← unwrap_ok r;
      fill n value (i + 1) a (<[val := value i]> mem) (allocated ++ [val])
  end.

Fixpoint dealloc_all (weak : Z -> list bool) (allocated : list Z) (a : ArrayAllocator) (mem : wmem)
    : outcome (ArrayAllocator * wmem) :=
  match allocated with
  | [] => Ret (a, mem)
  | p :: allocated =>
      '(a, mem) ← ArrayAllocator_dealloc (weak p) a p mem;
      dealloc_all weak allocated a mem
  end.

Definition dealloc (weak : Z -> list bool) (cap ptr : Z) (mem : wmem) : outcome unit :=
  '(allocator, mem) ← allocator_gen cap ptr mem;
  '(allocated, allocator, mem) ← fill (Z.to_nat cap) (fun i => i) 0 allocator mem [];
  '(allocator, mem) ← dealloc_all weak allocated allocator mem;
  _ ← fill (Z.to_nat cap) (fun _ => 42) 0 allocator mem [];
  Ret tt.

(** Expected to panic. *)
Definition test_alloc_oom (cap ptr : Z) (mem : wmem) : outcome unit :=
  '(allocator, mem) ← ArrayAllocator_new 8 8 cap ptr mem;
  _ ← fill (Z.to_nat (cap + 1)) (fun _ => 42) 0 allocator mem [];
  Ret tt.

Section passes.
Variables (cap start : Z).
Hypothesis Hcap : 0 <= cap.
Hypothesis Hstart : 0 < start.
Hypothesis Hend : start + cap * 8 < 2 ^ 64.
Implicit Types (o : owner) (mem : wmem).

Let inv := stack_inv 8 cap start.

(** The allocation of a free block, and the write to it. *)
Lemma take_block o b free v :
  inv o (b :: free) ->
  exists i a, ArrayAllocator_alloc 8 (ow_alloc o) (ow_mem o) = Ret (Ok (i, b), a) /\
    get_by_index 8 a i = Ret b /\ inv (mkOwner a (<[b := v]> (ow_mem o)) (b :: ow_held o)) free /\
    b ∉ ow_held o.
Proof.
  intros Hi. destruct (stack_alloc 8 cap start ltac:(lia) Hcap Hstart Hend o b free Hi)
    as (i & a & E & Hr & Eb & Hi'). exists i, a. split; [done|].
  pose proof Hi' as (Ec & Es & _). cbn [ow_alloc] in Ec, Es. split.
  { unfold get_by_index. rewrite Ec, Es, (proj2 (Z.ltb_lt _ _)) by lia. runm. by rewrite Eb. }
  split.
  - pose proof (stack_write 8 cap start ltac:(lia) (mkOwner a (ow_mem o) (b :: ow_held o)) free b 0 v Hi'
      ltac:(by left) ltac:(lia)) as H. by rewrite Z.add_0_r in H.
  - destruct Hi as (_ & _ & _ & Hp). intros Hh.
    pose proof (NoDup_all_blocks 8 cap start ltac:(lia)) as Hn. rewrite <-Hp in Hn.
    apply NoDup_app in Hn as (_ & Hd & _). by apply (Hd b); [left|].
Qed.

Lemma check_all_ok i alloced mem :
  (forall j v, alloced !! j = Some v -> mem !! v = Some (i + Z.of_nat j)) ->
  check_all i alloced mem = Ret tt.
Proof.
  revert i. induction alloced as [|v alloced IH]; intros i H; [done|]. cbn [check_all].
  unfold word_read. rewrite (H 0%nat v eq_refl), Z.add_0_r. runm. rewrite Z.eqb_refl. runm.
  apply IH. intros j w Hw. rewrite (H (S j) w Hw). f_equal. lia.
Qed.

Lemma alloc_all_ok free o (alloced : list Z) :
  inv o free -> (forall v, v ∈ alloced -> v ∈ ow_held o) ->
  (forall j v, alloced !! j = Some v -> ow_mem o !! v = Some (Z.of_nat j)) ->
  exists alloced' a mem,
    alloc_all (length free) (Z.of_nat (length alloced)) (ow_alloc o) (ow_mem o) alloced
      = Ret (alloced', a, mem) /\
    forall j v, alloced' !! j = Some v -> mem !! v = Some (Z.of_nat j).
Proof.
  revert o alloced. induction free as [|b free IH]; intros o alloced Hi Hheld Hv.
  { exists alloced, (ow_alloc o), (ow_mem o). split; [done|exact Hv]. }
  destruct (take_block o b free (Z.of_nat (length alloced)) Hi) as (i & a & E & Eg & Hi' & Hb).
  cbn [alloc_all length]. rewrite E. runm. rewrite Eg. runm. rewrite Z.eqb_refl. runm.
  destruct (IH _ (alloced ++ [b]) Hi') as (al & a' & mem & Er & H).
  - intros v [Hin| ->%list_elem_of_singleton]%elem_of_app; [right; by apply Hheld|left].
  - intros j v [Hj|[Hj Hj']]%lookup_app_Some; cbn [ow_mem].
    + rewrite lookup_insert_ne by (intros ->; apply Hb, Hheld; by eapply list_elem_of_lookup_2). by apply Hv.
    + destruct (j - length alloced)%nat eqn:En; [|done]. injection Hj' as <-.
      rewrite lookup_insert_eq. do 2 f_equal. lia.
  - exists al, a', mem. split; [|done]. rewrite <-Er. rewrite length_app. cbn [length ow_alloc ow_mem].
    f_equal. lia.
Qed.

Lemma fill_takes_all value free o i (allocated : list Z) :
  inv o free -> allocated ≡ₚ ow_held o ->
  exists o' allocated', fill (length free) value i (ow_alloc o) (ow_mem o) allocated
      = Ret (allocated', ow_alloc o', ow_mem o') /\ inv o' [] /\ allocated' ≡ₚ ow_held o'.
Proof.
  revert o i allocated. induction free as [|b free IH]; intros o i allocated Hi Hp; [by exists o, allocated|].
  destruct (take_block o b free (value i) Hi) as (k & a & E & _ & Hi' & _).
  cbn [fill length]. rewrite E. runm. apply (IH _ (i + 1) (allocated ++ [b]) Hi').
  cbn [ow_held]. rewrite <-Hp. symmetry. apply Permutation_cons_append.
Qed.

Lemma fill_panics value free o i (allocated : list Z) n :
  inv o free -> (length free < n)%nat -> fill n value i (ow_alloc o) (ow_mem o) allocated = Panic.
Proof.
  revert o i allocated n. induction free as [|b free IH]; intros o i allocated [|n] Hi Hn; simpl in Hn; try lia;
    cbn [fill].
  - by rewrite (stack_full 8 cap start o Hi).
  - destruct (take_block o b free (value i) Hi) as (k & a & E & _ & Hi' & _). rewrite E. runm.
    apply (IH _ (i + 1) (allocated ++ [b]) n Hi'). lia.
Qed.

Lemma dealloc_all_ok weak (allocated : list Z) o free :
  inv o free -> allocated ≡ₚ ow_held o ->
  exists o', dealloc_all weak allocated (ow_alloc o) (ow_mem o) = Ret (ow_alloc o', ow_mem o') /\
    inv o' (rev allocated ++ free) /\ ow_held o' = [].
Proof.
  revert o free. induction allocated as [|p allocated IH]; intros o free Hi Hp.
  { exists o. split; [done|]. split; [done|]. by apply Permutation_nil. }
  assert (Hin : p ∈ ow_held o) by (rewrite <-Hp; by left).
  apply list_elem_of_lookup in Hin as [n Hn].
  destruct (stack_dealloc 8 cap start ltac:(lia) Hstart o free n p (weak p) Hi Hn)
    as (a & mem & E & Hi'). cbn [dealloc_all]. rewrite E. runm.
  destruct (IH _ _ Hi') as (o' & Er & Hi2 & Hh).
  - cbn [ow_held]. apply (Permutation_cons_inv (a := p)). rewrite Hp. by apply delete_Permutation.
  - exists o'. cbn [rev]. rewrite <-app_assoc. by split.
Qed.

Lemma gen_ok mem :
  exists o free, allocator_gen cap start mem = Ret (ow_alloc o, ow_mem o) /\ inv o free /\
    ow_held o = [] /\ length free = Z.to_nat cap.
Proof.
  destruct (stack_new 8 cap start ltac:(lia) Hcap Hstart Hend 8 mem ltac:(lia)) as (a & mem' & E & Hi).
  exists (mkOwner a mem' []), (rev (all_blocks 8 cap start)). split; [done|]. split; [done|].
  split; [done|]. rewrite length_rev. unfold all_blocks. by rewrite length_fmap, length_seq.
Qed.

Lemma alloc_passes mem : alloc cap start mem = Ret tt.
Proof.
  destruct (gen_ok mem) as (o & free & E & Hi & Hh & Hl). unfold alloc. rewrite E. runm. rewrite <-Hl.
  destruct (alloc_all_ok free o [] Hi) as (al & a & m & Er & H); [by intros ? ?%elem_of_nil|done|].
  change (Z.of_nat (length [])) with 0 in Er. rewrite Er. runm. by apply check_all_ok.
Qed.

Lemma dealloc_passes weak mem : dealloc weak cap start mem = Ret tt.
Proof.
  destruct (gen_ok mem) as (o & free & E & Hi & Hh & Hl). unfold dealloc. rewrite E. runm. rewrite <-Hl.
  destruct (fill_takes_all (fun i => i) free o 0 [] Hi) as (o1 & al & Er & Hi1 & Hp1); [by rewrite Hh|].
  rewrite Er. runm. destruct (dealloc_all_ok weak al o1 [] Hi1 Hp1) as (o2 & Er2 & Hi2 & Hh2).
  rewrite Er2. runm. rewrite app_nil_r in Hi2.
  assert (El : length free = length (rev al)).
  { destruct Hi as (_ & _ & _ & Hpf), Hi2 as (_ & _ & _ & Hpf2).
    rewrite Hh, app_nil_r in Hpf. rewrite Hh2, app_nil_r in Hpf2. by rewrite Hpf, Hpf2. }
  rewrite El. destruct (fill_takes_all (fun _ => 42) (rev al) o2 0 [] Hi2) as (o3 & al3 & Er3 & _ & _); [by rewrite Hh2|].
  rewrite Er3. by runm.
Qed.

Lemma test_alloc_oom_passes mem : test_alloc_oom cap start mem = Panic.
Proof.
  destruct (gen_ok mem) as (o & free & E & Hi & Hh & Hl). unfold test_alloc_oom.
  unfold allocator_gen in E. rewrite E. runm. by rewrite (fill_panics _ free o) by (done || lia).
Qed.
End passes.

(** The sizes of the tests. *)
Example tests_run :
  (alloc 1024 4096 ∅, dealloc (fun _ => [true; false]) 1024 4096 ∅, test_alloc_oom 10 4096 ∅)
  = (Ret tt, Ret tt, Panic).
Proof. by rewrite alloc_passes, dealloc_passes, test_alloc_oom_passes. Qed.
End AllocTests.

(** ** oid_array.rs *)
Module OidArrayTests.

Section tests.
Context {M : Type} `{KvMapLaws TlsAllocator M}.
Implicit Types (a : OidArray M).

(** The calls of all threads in the order in which they take effect: the
    thread, and how often its exchange is refused spuriously.  The guard is
    dropped at the end of each iteration. *)
Fixpoint alloc_rids (calls : list (Z * nat)) a : outcome (OidArray M) :=
  match calls with
  | [] => Ret a
  | (tid, spin) :: calls =>
      '(rid, a) ← alloc_rid tid (replicate spin true ++ [false]) a;
      a ← oid_update a rid OidWriteGuard_drop;
      alloc_rids calls a
  end.

Definition oid_multi_insert_delete (thread_cnt oid_per_thread : Z) (calls : list (Z * nat)) (ptr : Z) : outcome unit :=
  oid_array ← OidArray_new (thread_cnt * oid_per_thread) ptr;
  _ ← alloc_rids calls oid_array;
  Ret tt.

Lemma alloc_rids_ok ts calls a :
  oa_inv a -> Forall (fun c => c.1 ∈ ts) calls -> oid_room ts (length calls) a ->
  exists a', alloc_rids calls a = Ret a'.
Proof.
  intros Ha Hc. revert a Ha. induction Hc as [|[tid k] calls Hin _ IH]; intros a Ha Hroom; [by exists a|].
  cbn [alloc_rids]. destruct (alloc_rid_ok tid k a Ha) as [(rid & a1 & E & Hall)|[_ Hout]].
  2:{ exfalso. by eapply oid_room_not_out. }
  rewrite E. runm. pose proof (oid_room_alloc _ _ _ _ _ _ _ Ha Hroom Hin E) as Hroom1.
  destruct Hall as (Ha1 & Hrid & _ & _ & Hal & _ & _ & Hw & _).
  destruct (oid_update_view a1 rid (mkView 128 false rid) (mkView 0 false rid) OidWriteGuard_drop Ha1) as (a2 & -> & Hset).
  - apply Hal. by left.
  - split; [done|]. unfold view_wf, Rid_ok in *. simpl. lia.
  - unfold OidWriteGuard_drop. apply (write_unlock_view (mkView 128 false rid)); [|done]. unfold view_wf, Rid_ok in *. simpl. lia.
  - unfold view_wf, Rid_ok in *. simpl. lia.
  - runm. apply IH; [apply Hset|]. destruct Hset as (_ & Eh & _ & _). unfold oid_room, oa_alloc, oa_cap in *. by rewrite Eh.
Qed.

(** No order of the threads' calls runs out of ids or fails an assertion. *)
Lemma oid_multi_insert_delete_passes thread_cnt oid_per_thread calls ptr :
  0 <= thread_cnt <= 129 -> 0 <= oid_per_thread < 2 ^ 20 -> 0 < ptr < 2 ^ 62 ->
  Forall (fun c => c.1 ∈ seqZ 0 thread_cnt) calls -> Z.of_nat (length calls) <= thread_cnt * oid_per_thread ->
  oid_multi_insert_delete thread_cnt oid_per_thread calls ptr = Ret tt.
Proof.
  intros Ht Ho Hp Hc Hl. unfold oid_multi_insert_delete.
  destruct (OidArray_new_ok (M := M) (thread_cnt * oid_per_thread) ptr) as (a & E & Ha & Hcap & _ & Hna & _); [nia|nia|lia|].
  rewrite E. runm. destruct (alloc_rids_ok (seqZ 0 thread_cnt) calls a Ha Hc) as (a' & ->); [|by runm]. split.
  - intros tid Htid. by apply (OidArray_new_threads _ _ _ E) in Htid.
  - exists []. split; [intros r Hr; by apply Hna in Hr|]. rewrite length_seqZ. simpl. lia.
Qed.
End tests.

(** The sizes of the test. *)
Example oid_test_run :
  oid_multi_insert_delete (M := gmap Z TlsAllocator) 4 10000 [(0, 0%nat); (3, 2%nat); (0, 1%nat)] 4096 = Ret tt.
Proof.
  apply oid_multi_insert_delete_passes; [lia|lia|lia| |simpl; lia].
  repeat constructor; apply elem_of_seqZ; lia.
Qed.
End OidArrayTests.

(** ** table.rs, with the items and the schema of utils/test_gen.rs *)
Module TableTests.

(** A [TestItem<TZ>] is an array of [TZ] words; so is a [FieldCached]. *)
Definition word_array (n : nat) : layout := replicate n ("word"%string, u64).

Fixpoint increasing (n : nat) (base i : Z) : outcome obj :=
  match n with
  | O => Ret []
  | S n =>
      w ← chk 64 (base + i);
      rest ← increasing n base (i + 1);
      Ret (le_bytes 8 w ++ rest)
  end.

Definition from_increasing (TZ : nat) (base : Z) : outcome obj := increasing TZ base 0.

Fixpoint query_fields (fs : list Z) : outcome (list Field) :=
  match fs with
  | [] => Ret []
  | v :: fs =>
      start ← chk 16 (v * 8);
      stop ← chk 16 (start + 8);
      rest ← query_fields fs;
      Ret (Field_new start stop :: rest)
  end.

Definition build_query (TZ : nat) (fs : list Z) : outcome FieldsMeta :=
  _ ← rassert (Z.of_nat (length fs) <? Z.of_nat TZ);
  rv_fields ← query_fields fs;
  Ret (FieldsMeta_new rv_fields).

Definition read_field (t : obj) (field : Field) : outcome Z :=
  bs ← raw_read t (f_begin field) 8;
  Ret (le_word bs).

(** [FieldItemSchema]: the word [i] of the cached struct is the tuple's at
    [fields[i]]. *)
Fixpoint position (fields : list Field) (field : Field) : option Z :=
  match fields with
  | [] => None
  | f :: fields => if bool_decide (f = field) then Some 0 else Z.succ <$> position fields field
  end.

Definition cached_word (i : Z) : Field := Field_from_span (i * 8, (i + 1) * 8).

Definition FieldItem_to_cached_field (fields : list Field) (tuple_field : Field) : option Field :=
  cached_word <$> position fields tuple_field.

Definition FieldItem_key (t : obj) : outcome Z := Ret (le_word (load t 0 8)).

(** [to_cached] reads the word that [begin] falls into, [write_back] writes
    one at [begin]. *)
Definition FieldItemSchema (TZ : nat) (fields : list Field) : Schema :=
  copy_schema (word_array TZ) (word_array (length fields)) FieldItem_key (FieldItem_to_cached_field fields)
    (imap (fun i f => (cached_word (f_begin f / 8), cached_word (Z.of_nat i))) fields)
    (imap (fun i f => (mkField (f_begin f) (f_begin f + 8), cached_word (Z.of_nat i))) fields).

Definition FIELD_SZ : nat := 4.
Definition TUPLE_SZ : nat := 16.

Definition QUERY : FieldsMeta :=
  FieldsMeta_new [Field_new 0 8; Field_new 24 32; Field_new 72 80; Field_new 80 88].

#[local] Instance TEST_SCHEMA : Schema := FieldItemSchema TUPLE_SZ (fields QUERY).

Section tests.
Context {M T Th : Type} `{KvMapLaws Rid M} `{KvMapLaws Z T} `{KvMapLaws TlsAllocator Th}.
Abbreviation table := (DbTable (FlurryMap M) T Th).

Fixpoint value_compare (values : QueryValue) (query : list Field) (tuple : obj) (t : table) : outcome unit :=
  match query with
  | [] => Ret tt
  | q :: query =>
      gt_val ← read_field tuple q;
      qy_val ← get_value values q (tb_cache t);
      _ ← rassert (gt_val =? le_word qy_val);
      value_compare values query tuple t
  end.

Definition record_cnt : nat := 1000.

(** [ClockNode<FieldCached<4>>] has 40 bytes. *)
Definition test_table (cnt : nat) (ptr : Z) (init : Z -> list obj) : outcome table :=
  let storage_size := Z.of_nat cnt * Z.of_nat tuple_size in
  let cache_size := Z.of_nat cnt / 10 * Z.of_nat tuple_size in
  build 40 ptr init
    (builder_schema (builder_storage (builder_probe_len (builder_cache DbTableBuilder_new cache_size) (Some 4))
                                     storage_size)).

(** The guard of an insert is dropped at once. *)
Fixpoint insert_items (n : nat) (i : Z) (d : Z -> draws) (t : table) : outcome table :=
  match n with
  | O => Ret t
  | S n =>
      item ← from_increasing TUPLE_SZ i;
      '(_, t) ← run (d i) (RInsert item) t;
      insert_items n (i + 1) d t
  end.

(** The body of the loops once the record is locked. *)
Definition check_item (query : FieldsMeta) (k : Z) (d : draws) (oid_read : Rid) (t : table) : outcome table :=
  '(value, t) ← DbTable_read oid_read query (d_u1 d) t;
  gt ← from_increasing TUPLE_SZ k;
  _ ← value_compare value (fields query) gt t;
  on_cache (drop_read_guard oid_read (tb_cache t)) t.

Definition read_item (query : FieldsMeta) (k : Z) (d : draws) (t : table) : outcome table :=
  '(r, t) ← read_oid k false t;
  oid_read ← unwrap_ok r;
  check_item query k d oid_read t.

(** A record that cannot be locked is skipped; [d_weak] decides whether the exchange is disturbed. *)
Definition try_item (query : FieldsMeta) (k : Z) (d : draws) (t : table) : outcome table :=
  '(r, t) ← read_oid k (d_weak d 0%nat).1 t;
  match r with
  | Ok oid_read => check_item query k d oid_read t
  | Err _ => Ret t
  end.

Fixpoint for_keys (body : Z -> draws -> table -> outcome table) (ks : list (Z * draws)) (t : table)
    : outcome table :=
  match ks with
  | [] => Ret t
  | (k, d) :: ks =>
      t ← body k d t;
      for_keys body ks t
  end.

Definition all_keys (d : Z -> draws) : list (Z * draws) := (fun k => (k, d k)) <$> seqZ 0 (Z.of_nat record_cnt).

(** [d1], [d2] and [d3] are the draws of the three loops. *)
Definition insert_read (d1 d2 d3 : Z -> draws) (ptr : Z) (init : Z -> list obj) : outcome unit :=
  t ← test_table record_cnt ptr init;
  t ← insert_items record_cnt 0 d1 t;
  query ← build_query TUPLE_SZ [0; 3; 9];
  t ← for_keys (read_item query) (all_keys d2) t;
  query_miss ← build_query TUPLE_SZ [1; 3; 10];
  _ ← for_keys (read_item query_miss) (all_keys d3) t;
  Ret tt.

(** The reads of all threads in the order in which they happen: [ks1] and
    [ks2] are the keys the threads draw. *)
Definition multi_read (d1 : Z -> draws) (ks1 ks2 : list (Z * draws)) (ptr : Z) (init : Z -> list obj)
    : outcome unit :=
  let record_cnt := (4 * 1000)%nat in
  t ← test_table record_cnt ptr init;
  t ← insert_items record_cnt 0 d1 t;
  query ← build_query TUPLE_SZ [0; 3; 9];
  t ← for_keys (try_item query) ks1 t;
  query ← build_query TUPLE_SZ [0; 3; 10];
  _ ← for_keys (try_item query) ks2 t;
  Ret tt.

(** The schema is lawful for the sixteen words of an item. *)
Definition item_columns : list Field := columns_of (word_array TUPLE_SZ).

#[local] Instance test_laws : SchemaLaws TEST_SCHEMA item_columns item_columns.
Proof. apply copy_laws. vm_compute. reflexivity. Qed.

Lemma increasing_ok n base i :
  0 <= base + i -> base + i + Z.of_nat n <= 2 ^ 64 ->
  exists x, increasing n base i = Ret x /\ length x = (n * 8)%nat /\
    (n <> 0%nat -> le_word (load x 0 8) = base + i).
Proof.
  revert i. induction n as [|n IH]; intros i Hi Hb; [by exists []|]. cbn [increasing].
  rewrite chk_ok by (unfold fits; lia). runm.
  destruct (IH (i + 1)) as (x & -> & Hl & _); [lia..|]. runm. eexists. split; [done|].
  split; [rewrite length_app, length_le_bytes; lia|]. intros _.
  unfold load. rewrite drop_0, take_app_length' by done. apply (le_word_bytes_id 8). unfold fits. lia.
Qed.

(** Items made from 0 to [n - 1], each under its own key. *)
Definition loaded (A : gmap Z obj) (n : Z) : Prop :=
  forall k, 0 <= k < n ->
    exists x, from_increasing TUPLE_SZ k = Ret x /\ length x = tuple_size /\ A !! k = Some x.

Lemma insert_items_ok tid d n i t A :
  holds (columns := item_columns) t A -> loaded A i -> 0 <= i -> i + Z.of_nat n <= 2 ^ 63 ->
  (forall k, d_tid (d k) = tid) -> room [tid] n (tb_cache t) ->
  exists t' A', insert_items n i d t = Ret t' /\ holds (columns := item_columns) t' A' /\
    loaded A' (i + Z.of_nat n).
Proof.
  intros Ht HA Hi Hn Hd. revert i t A Ht HA Hi Hn. induction n as [|n IH]; intros i t A Ht HA Hi Hn Hroom.
  { exists t, A. split; [done|]. split; [done|]. by rewrite Z.add_0_r. }
  cbn [insert_items]. destruct (increasing_ok TUPLE_SZ i 0) as (x & Ex & Hl & Hk); [unfold TUPLE_SZ; lia..|].
  rewrite Z.add_0_r in Hk. unfold from_increasing at 1. rewrite Ex. runm.
  assert (Ek : key x = Ret i) by (change (key x) with (Ret (le_word (load x 0 8))); by rewrite Hk).
  destruct (run_ok_room (mut_columns := item_columns) (d i) t A (RInsert x) [tid] n Ht) as (t1 & Er & Ht1 & Hr1).
  - split; [exact Hl|by exists i].
  - rewrite Hd. by left.
  - exact Hroom.
  - rewrite Er. runm. cbn [spec_run] in Ht1. rewrite Ek in Ht1. cbn [snd] in Ht1.
    destruct (IH (i + 1) t1 (<[i := x]> A) Ht1) as (t' & A' & -> & Ht' & HA'); [|lia|lia|done|].
    + intros k Hk'. destruct (decide (k = i)) as [->|Hne].
      * exists x. by rewrite lookup_insert_eq.
      * rewrite lookup_insert_ne by done. apply HA. lia.
    + exists t', A'. split; [done|]. split; [done|]. replace (i + Z.of_nat (S n)) with (i + 1 + Z.of_nat n) by lia. done.
Qed.

(** The fields of the tests' queries. *)
Definition words_of (fs : list Field) : Prop := Forall (fun f => f ∈ item_columns /\ Field_len f = 8) fs.

Lemma value_compare_ok v fs x t :
  words_of fs -> length x = tuple_size ->
  (forall f, f ∈ fs -> f ∈ item_columns -> get_value v f (tb_cache t) = Ret (load_field x f)) ->
  value_compare v fs x t = Ret tt.
Proof.
  intros Hw Hx. induction Hw as [|f fs [Hf Hlen] _ IH]; intros Hg; [done|]. cbn [value_compare].
  unfold read_field. pose proof (columns_in_tuple (SchemaLaws := test_laws) f Hf) as Hin.
  rewrite <-Hlen, (raw_read_field x f tuple_size) by done. runm.
  rewrite Hg by (done || by left). runm. rewrite Z.eqb_refl. runm. apply IH. intros g Hin' Hc. apply Hg; [by right|done].
Qed.

(** Reads that fail without a trace or see the item. *)
Definition good_body (A : gmap Z obj) (n : Z) (body : Z -> draws -> table -> outcome table) : Prop :=
  forall k d t, holds (columns := item_columns) t A -> 0 <= k < n ->
    exists t', body k d t = Ret t' /\ holds (columns := item_columns) t' A.

Lemma for_keys_ok A n body ks t :
  good_body A n body -> holds (columns := item_columns) t A -> Forall (fun kd => 0 <= kd.1 < n) ks ->
  exists t', for_keys body ks t = Ret t' /\ holds (columns := item_columns) t' A.
Proof.
  intros Hb Ht Hks. revert t Ht. induction Hks as [|[k d] ks Hk _ IH]; intros t Ht; [by exists t|].
  cbn [for_keys]. destruct (Hb k d t Ht Hk) as (t1 & -> & Ht1). runm. by apply IH.
Qed.

Lemma read_item_good A n query : words_of (fields query) -> loaded A n -> good_body A n (read_item query).
Proof.
  intros Hq HA k d t Ht Hk. destruct (HA k Hk) as (x & Ex & Hl & HAk).
  destruct (read_record t A k query (d_u1 d) x Ht HAk) as (r & t1 & v & t2 & t3 & E1 & E2 & Hg & E3 & Ht3).
  exists t3. split; [|done]. unfold read_item, check_item. rewrite E1. runm. rewrite E2. runm. rewrite Ex. runm.
  rewrite value_compare_ok; [|done|done|by intros; apply Hg; [apply covers_query|]]. by runm.
Qed.

Lemma try_item_good A n query : words_of (fields query) -> loaded A n -> good_body A n (try_item query).
Proof.
  intros Hq HA k d t Ht Hk. unfold try_item. destruct (HA k Hk) as (x & _ & _ & HAk).
  destruct (read_oid_try t A k (d_weak d 0%nat).1 x Ht HAk) as (res & t1 & E & [Hw|[-> Ht1]]).
  - rewrite Hw in *. destruct (read_item_good A n query Hq HA k d t Ht Hk) as (t' & Er & Ht').
    exists t'. split; [|done]. unfold read_item in Er. rewrite E in Er |- *. revert Er. by destruct res.
  - exists t1. rewrite E. by split.
Qed.

(** The environment of the tests. *)
Definition mapped (ptr : Z) (init : Z -> list obj) : Prop :=
  0 < ptr < 2 ^ 63 /\
  forall cap, 0 <= cap -> length (init cap) = Z.to_nat cap /\ Forall (fun t => length t = tuple_size) (init cap).

Lemma test_table_loaded cnt d tid ptr init :
  mapped ptr init -> (forall k, d_tid (d k) = tid) -> 10 <= Z.of_nat cnt <= 4000 ->
  exists t t' A, test_table cnt ptr init = Ret t /\ insert_items cnt 0 d t = Ret t' /\
    holds (columns := item_columns) t' A /\ loaded A (Z.of_nat cnt).
Proof.
  intros [Hptr Hinit] Hd Hc.
  assert (Hts : Z.of_nat tuple_size = 128) by reflexivity.
  assert (Hs : sizes_ok 40 (Z.of_nat cnt / 10 * Z.of_nat tuple_size) (Z.of_nat cnt * Z.of_nat tuple_size) ptr init).
  { rewrite Hts. unfold sizes_ok. rewrite Hts, Z.div_mul by lia. split; [lia|].
    split; [Z.div_mod_to_equations; lia|]. split; [Z.div_mod_to_equations; lia|]. by repeat (split; [lia|]). }
  destruct (build_holds (I := FlurryMap M) (T := T) (M := Th) (columns := item_columns) (Some 4) _ _ _ _ _ Hs)
    as (t & E & Ht & _).
  assert (Hroom : room [tid] cnt (tb_cache t)).
  { eapply build_room; [exact Hs|apply (configured_probe_len (Some 4))|exact E|simpl; lia|]. rewrite Hts, Z.div_mul by lia. lia. }
  destruct (insert_items_ok tid d cnt 0 t ∅ Ht) as (t' & A & E' & Ht' & HA); [intros k; lia|lia|lia|done|done|].
  by exists t, t', A.
Qed.

(** The three queries of the tests ask for words. *)
Lemma queries_words :
  exists q1 q2 q3, build_query TUPLE_SZ [0; 3; 9] = Ret q1 /\ build_query TUPLE_SZ [1; 3; 10] = Ret q2 /\
    build_query TUPLE_SZ [0; 3; 10] = Ret q3 /\
    words_of (fields q1) /\ words_of (fields q2) /\ words_of (fields q3).
Proof.
  do 3 eexists. split; [reflexivity|]. split; [reflexivity|]. split; [reflexivity|].
  unfold words_of. split; [|split]; by apply (bool_decide_unpack _).
Qed.

Lemma insert_read_passes d1 d2 d3 tid ptr init :
  mapped ptr init -> (forall k, d_tid (d1 k) = tid) -> insert_read d1 d2 d3 ptr init = Ret tt.
Proof.
  intros Hm Hd. destruct (test_table_loaded record_cnt d1 tid ptr init Hm Hd) as (t & t1 & A & E & E1 & Ht1 & HA);
    [unfold record_cnt; lia|].
  destruct queries_words as (q1 & q2 & _ & Eq1 & Eq2 & _ & Hq1 & Hq2 & _).
  assert (Hk : forall d, Forall (fun kd => 0 <= kd.1 < Z.of_nat record_cnt) (all_keys d)).
  { intros d. apply Forall_fmap, Forall_forall. intros k Hk%elem_of_seqZ. simpl. lia. }
  unfold insert_read. rewrite E. runm. rewrite E1. runm. rewrite Eq1. runm.
  destruct (for_keys_ok A _ _ _ t1 (read_item_good A _ q1 Hq1 HA) Ht1 (Hk d2)) as (t2 & -> & Ht2). runm.
  rewrite Eq2. runm.
  by destruct (for_keys_ok A _ _ _ t2 (read_item_good A _ q2 Hq2 HA) Ht2 (Hk d3)) as (t3 & -> & _).
Qed.

Lemma multi_read_passes d1 ks1 ks2 tid ptr init :
  mapped ptr init -> (forall k, d_tid (d1 k) = tid) ->
  Forall (fun kd => 0 <= kd.1 < 4000) ks1 -> Forall (fun kd => 0 <= kd.1 < 4000) ks2 ->
  multi_read d1 ks1 ks2 ptr init = Ret tt.
Proof.
  intros Hm Hd Hk1 Hk2. destruct (test_table_loaded (4 * 1000) d1 tid ptr init Hm Hd) as (t & t1 & A & E & E1 & Ht1 & HA);
    [lia|].
  destruct queries_words as (q1 & _ & q3 & Eq1 & _ & Eq3 & Hq1 & _ & Hq3).
  unfold multi_read. cbv zeta. rewrite E. runm. rewrite E1. runm. rewrite Eq1. runm.
  destruct (for_keys_ok A _ _ _ t1 (try_item_good A _ q1 Hq1 HA) Ht1 Hk1) as (t2 & -> & Ht2). runm.
  rewrite Eq3. runm.
  by destruct (for_keys_ok A _ _ _ t2 (try_item_good A _ q3 Hq3 HA) Ht2 Hk2) as (t3 & -> & _).
Qed.
End tests.
End TableTests.
