(* ===== verification/Updates.v ===== *)
(** * Updates of cached and stored tuples

    An update query gives new bytes for some fields.  The derived [Tuple::update]
    (src/macro_utils/src/tuple.rs) applies it to a tuple, [Schema::update_cached]
    (src/attribute_cache/mod.rs) to a cached struct; the test item and its schema
    (src/utils/test_gen.rs) have their own versions of both.  The theorems: an
    update writes every field's bytes and nothing else, and it makes no
    difference to the record on which of the two copies it is done. *)

From S2P Require Import Prelude Query Schema Layout UnitTests.
Open Scope Z_scope.
Import TableTests.

(** ** The versions of utils/test_gen.rs *)
Fixpoint TestItem_update_items (items : list (Field * Z)) (data t : obj) : outcome obj :=
  match items with
  | [] => Ret t
  | (idx, val) :: items =>
      n ← Field_size idx;
      _ ← rassert (n =? 8);
      w ← raw_read data val 8;
      t' ← raw_write t (f_begin idx) w;
      TestItem_update_items items data t'
  end.

Definition TestItem_update (t : obj) (q : UpdateQuery) : outcome obj :=
  items ← UpdateIter_collect (S (length (fields (uq_meta q)))) (UpdateQuery_iter q);
  match items with
  | Some items => TestItem_update_items items (uq_data q) t
  | None => Ret t
  end.

(** [fs] are the fields of the schema. *)
Fixpoint FieldItem_update_items (fs : list Field) (items : list (Field * Z)) (data c : obj) : outcome obj :=
  match items with
  | [] => Ret c
  | (i, v) :: items =>
      match position fs i with
      | Some idx =>
          n ← Field_size i;
          _ ← rassert (n =? 8);
          w ← raw_read data v 8;
          c' ← raw_write c (idx * 8) w;
          FieldItem_update_items fs items data c'
      | None => FieldItem_update_items fs items data c
      end
  end.

Definition FieldItem_update_cached (fs : list Field) (c : obj) (q : UpdateQuery) : outcome obj :=
  items ← UpdateIter_collect (S (length (fields (uq_meta q)))) (UpdateQuery_iter q);
  match items with
  | Some items => FieldItem_update_items fs items (uq_data q) c
  | None => Ret c
  end.

(** ** Queries *)

(** The fields of a query can be written: they have bytes and lie in the tuple,
    and there are new bytes for all of them. *)
Definition update_ok (columns : list Field) (q : UpdateQuery) : Prop :=
  fields (uq_meta q) ⊆ columns /\ (forall f, f ∈ fields (uq_meta q) -> 0 < Field_len f) /\
  Z.of_nat (length (fields (uq_meta q))) < 2 ^ 32 /\
  total_len (fields (uq_meta q)) <= Z.of_nat (length (uq_data q)).

Lemma iter_items (q : UpdateQuery) :
  Forall Field_ok (fields (uq_meta q)) -> Z.of_nat (length (fields (uq_meta q))) < 2 ^ 32 ->
  UpdateIter_collect (S (length (fields (uq_meta q)))) (UpdateQuery_iter q) = Ret (Some (with_offsets 0 (fields (uq_meta q)))).
Proof. intros Hok Hn. apply (UpdateIter_collect_ok q []); simpl; auto; lia. Qed.

(** The new bytes of a field. *)
Definition payload (q : UpdateQuery) (f : Field) (off : Z) : obj :=
  load (uq_data q) (Z.to_nat off) (Z.to_nat (Field_len f)).

Lemma total_len_nonneg fs : Forall Field_ok fs -> 0 <= total_len fs.
Proof. intros H. pose proof (total_len_bound fs H). lia. Qed.

(** ** A step of the loops *)
Section step.
Context {S : Schema} {columns mut_columns : list Field} {L : SchemaLaws S columns mut_columns}.

Lemma read_payload (data : obj) f off :
  Field_ok f -> 0 <= off -> off + Field_len f <= Z.of_nat (length data) ->
  raw_read data off (Field_len f) = Ret (load data (Z.to_nat off) (Z.to_nat (Field_len f))) /\
  length (load data (Z.to_nat off) (Z.to_nat (Field_len f))) = Z.to_nat (Field_len f).
Proof using Type.
  intros Hf Ho Hl. pose proof (Field_len_bound f Hf). split; [apply raw_read_ok; lia|apply length_load; lia].
Qed.

Lemma tuple_write (t : obj) f bs :
  in_object f (length t) -> 0 < Field_len f -> length bs = Z.to_nat (Field_len f) ->
  (ptr ← tuple_offset t (f_begin f); raw_write t ptr bs) = Ret (store_field t f bs).
Proof using Type.
  intros Hin Hlen Hb. pose proof Hin as [Hf He]. unfold tuple_offset, Field_len in *.
  rewrite (proj2 (Z.ltb_lt _ _)) by lia. runm. by eapply raw_write_field.
Qed.

(** Both loops, over the items of the fields [fs]. *)
Lemma update_loops (data c t : obj) fs off :
  fs ⊆ mut_columns -> (forall f, f ∈ fs -> 0 < Field_len f) -> (forall f, f ∈ fs -> is_Some (to_cached_field f)) ->
  0 <= off -> off + total_len fs <= Z.of_nat (length data) -> agree columns c t ->
  exists c', update_cached_items (with_offsets off fs) data c = Ret c' /\
    tuple_update_items (with_offsets off fs) data (write_back c t) = Ret (write_back c' t) /\ agree columns c' t.
Proof using L.
  intros Hsub Hpos Hc Ho. revert c off Ho Hsub Hpos Hc.
  induction fs as [|f fs IH]; intros c off Ho Hsub Hpos Hc Hl Hag.
  { exists c. by split. }
  assert (Hf : f ∈ columns) by (apply mut_columns_sub, Hsub; by left).
  pose proof (columns_in_tuple f Hf) as Hin. pose proof Hin as [Hok _].
  destruct (Hc f ltac:(by left)) as [cf Ecf]. destruct (cached_in_field f cf Hf Ecf) as [Hcf Elen].
  pose proof (Field_len_bound f Hok) as Hb. pose proof (Hpos f ltac:(by left)) as Hp.
  assert (Hok' : Forall Field_ok fs).
  { apply Forall_forall. intros g Hg. apply (columns_in_tuple g), mut_columns_sub, Hsub. by right. }
  pose proof (total_len_nonneg fs Hok'). cbn [total_len foldr] in Hl. fold (total_len fs) in Hl.
  destruct (read_payload data f off Hok Ho ltac:(lia)) as [Er Ebs].
  set (bs := load data (Z.to_nat off) (Z.to_nat (Field_len f))) in *.
  pose proof Hag as (Hlc & Hlt & _).
  destruct (cached_write c t f cf bs) as [Ew Hag']; [apply Hsub; by left|done..|].
  destruct (IH (store_field c cf bs) (off + Field_len f)) as (c' & E1 & E2 & Hag''); [lia| | | |lia|done|].
  { intros g Hg. apply Hsub. by right. } { intros g Hg. apply Hpos. by right. } { intros g Hg. apply Hc. by right. }
  exists c'. cbn [with_offsets update_cached_items tuple_update_items]. rewrite Ecf, (Field_size_ok f Hok), (Field_size_ok cf (proj1 Hcf)), Elen. runm.
  rewrite Er. runm. rewrite (raw_write_field c cf field_size) by (done || congruence). runm.
  split; [exact E1|]. split; [|done].
  assert (Hwb : length (write_back c t) = tuple_size) by by apply write_back_length.
  pose proof (tuple_write (write_back c t) f bs) as Etw. rewrite Hwb in Etw. specialize (Etw Hin Hp Ebs).
  destruct (tuple_offset _ _) as [ptr| | |]; try discriminate Etw. revert Etw. runm. intros ->. runm.
  by rewrite <-Ew.
Qed.
End step.

(** *** What a tuple holds after an update *)
Lemma tuple_loop (data t : obj) fs off n :
  length t = n -> (forall f, f ∈ fs -> in_object f n /\ 0 < Field_len f) ->
  0 <= off -> off + total_len fs <= Z.of_nat (length data) ->
  exists t', tuple_update_items (with_offsets off fs) data t = Ret t' /\ length t' = n /\
    (forall g, Field_ok g -> (forall f, f ∈ fs -> apart f g) -> load_field t' g = load_field t g) /\
    (NoDup fs -> (forall f g, f ∈ fs -> g ∈ fs -> f = g \/ apart f g) ->
     forall f o, (f, o) ∈ with_offsets off fs -> load_field t' f = load data (Z.to_nat o) (Z.to_nat (Field_len f))).
Proof.
  revert t off. induction fs as [|f fs IH]; intros t off Hlt Hin Ho Hl.
  { exists t. split; [done|]. split; [done|]. split; [done|]. intros _ _ f o. by rewrite elem_of_nil. }
  destruct (Hin f ltac:(by left)) as [Hf Hp]. pose proof Hf as [Hok _]. pose proof (Field_len_bound f Hok).
  assert (Hok' : Forall Field_ok fs) by (apply Forall_forall; intros g Hg; apply Hin; by right).
  pose proof (total_len_nonneg fs Hok'). cbn [total_len foldr] in Hl. fold (total_len fs) in Hl.
  destruct (read_payload data f off Hok Ho ltac:(lia)) as [Er Ebs].
  set (bs := load data (Z.to_nat off) (Z.to_nat (Field_len f))) in *.
  destruct (IH (store_field t f bs) (off + Field_len f)) as (t' & E & Hl' & Happ & Hval); [|by intros g Hg; apply Hin; right|lia|lia|].
  { by rewrite length_store_field. }
  pose proof (tuple_write t f bs) as Etw. rewrite Hlt in Etw. specialize (Etw Hf Hp Ebs).
  exists t'. cbn [with_offsets tuple_update_items]. rewrite (Field_size_ok f Hok). split; [|split; [done|split]].
  - destruct (tuple_offset _ _) as [ptr| | |]; try discriminate Etw. revert Etw. runm. intros Etw. rewrite Er. runm.
    by rewrite Etw.
  - intros g Hg Hap. rewrite Happ; [|done|by intros h Hh; apply Hap; right].
    apply load_store_field_apart; [apply Hap; by left|done..].
  - intros Hnd Hpairs h o [[= -> ->]|Hh]%elem_of_cons.
    + apply NoDup_cons in Hnd as [Hnin _]. rewrite Happ; [by apply (load_store_field_same t f n)|done|].
      intros g Hg. destruct (Hpairs g f) as [->|?]; [by right|by left|done|done].
    + apply NoDup_cons in Hnd as [_ Hnd]. apply Hval; [done| |done]. intros g1 g2 H1 H2. apply Hpairs; by right.
Qed.

(** C37: A query whose fields are all cached may be applied to the cached struct or
    to the record, with the same result; every field then holds its bytes, and
    a column that shares no byte with them is as before. *)
Theorem update_either_copy {S : Schema} columns mut_columns {L : SchemaLaws S columns mut_columns} (c t : obj) (q : UpdateQuery) :
  agree columns c t -> update_ok mut_columns q -> matches (uq_meta q) = true ->
  NoDup (fields (uq_meta q)) -> (forall f g, f ∈ fields (uq_meta q) -> g ∈ fields (uq_meta q) -> f = g \/ apart f g) ->
  exists c' t', update_cached c q = Ret c' /\ tuple_update (write_back c t) q = Ret t' /\
    write_back c' t = t' /\ agree columns c' t /\
    (forall f o, (f, o) ∈ with_offsets 0 (fields (uq_meta q)) -> load_field t' f = payload q f o) /\
    (forall g, Field_ok g -> (forall f, f ∈ fields (uq_meta q) -> apart f g) ->
       load_field t' g = load_field (write_back c t) g).
Proof.
  intros Hag (Hsub & Hpos & Hn & Hl) Hm Hnd Hap.
  assert (Hin : forall f, f ∈ fields (uq_meta q) -> in_object f tuple_size).
  { intros f Hf. apply (columns_in_tuple (SchemaLaws := L) f), (mut_columns_sub (SchemaLaws := L)), Hsub, Hf. }
  assert (Hok : Forall Field_ok (fields (uq_meta q))) by (apply Forall_forall; intros f Hf; apply (Hin f Hf)).
  destruct (update_loops (uq_data q) c t (fields (uq_meta q)) 0) as (c' & E1 & E2 & Hag'); [done|done| |done|lia|done|].
  { by apply matches_fields_spec. }
  pose proof Hag as (Hlc & Hlt & _).
  destruct (tuple_loop (uq_data q) (write_back c t) (fields (uq_meta q)) 0 tuple_size) as (t' & E & _ & Happ & Hval);
    [by apply write_back_length|auto|done|lia|].
  exists c', t'. unfold update_cached, tuple_update. rewrite iter_items by done. runm.
  split; [done|]. split; [done|]. split; [rewrite E in E2; congruence|]. split; [done|]. split; [by apply Hval|done].
Qed.

(** ** Word fields: the versions of utils/test_gen.rs do the same *)
Definition word_field (n : nat) (f : Field) : Prop := in_object f n /\ Field_len f = 8.

Lemma read_word_length (data : obj) o w : raw_read data o 8 = Ret w -> length w = 8%nat.
Proof.
  unfold raw_read, in_bounds. case_match eqn:E; [|done]. intros [= <-].
  apply andb_true_iff in E as [[E1 E2]%andb_true_iff E3]. apply Z.leb_le in E1, E2, E3.
  apply length_load. lia.
Qed.

Lemma TestItem_update_word n (t : obj) q :
  length t = n -> Forall (word_field n) (fields (uq_meta q)) -> Z.of_nat (length (fields (uq_meta q))) < 2 ^ 32 ->
  TestItem_update t q = tuple_update t q.
Proof.
  intros Hl Hw Hn. unfold TestItem_update, tuple_update.
  assert (Hok : Forall Field_ok (fields (uq_meta q))) by (eapply Forall_impl; [done|]; by intros f [[Hf _] _]).
  rewrite iter_items by done. runm. clear Hok Hn. revert t Hl. generalize 0. generalize (uq_data q).
  induction Hw as [|f fs [Hin E8] Hw IH]; intros data off t Hl; [done|].
  cbn [with_offsets TestItem_update_items tuple_update_items]. pose proof Hin as [Hf _]. rewrite (Field_size_ok f Hf), E8. runm.
  unfold tuple_offset. destruct Hin as [_ He]. rewrite (proj2 (Z.ltb_lt (f_begin f) _)) by (unfold Field_len in E8; lia). runm.
  destruct (raw_read data off 8) as [w| | |] eqn:Er; [|done..]. runm. apply read_word_length in Er.
  rewrite (raw_write_field t f n) by (try done; rewrite E8; lia). runm. apply IH. by rewrite length_store_field.
Qed.

Lemma FieldItem_update_word TZ fs (c : obj) q :
  let Sc := FieldItemSchema TZ fs in
  length c = field_size -> Forall (fun f => Field_ok f /\ Field_len f = 8) (fields (uq_meta q)) ->
  Z.of_nat (length (fields (uq_meta q))) < 2 ^ 32 ->
  Z.of_nat (length fs) < 2 ^ 12 ->
  FieldItem_update_cached fs c q = update_cached (H := Sc) c q.
Proof.
  intros Sc Hl Hw Hn Hfs. unfold FieldItem_update_cached, update_cached.
  assert (Hok : Forall Field_ok (fields (uq_meta q))) by (eapply Forall_impl; [done|]; by intros f [Hf _]).
  rewrite iter_items by done. runm. clear Hok Hn. revert c Hl. generalize 0. generalize (uq_data q).
  induction Hw as [|f gs [Hf E8] Hw IH]; intros data off c Hl; [done|].
  cbn [with_offsets FieldItem_update_items update_cached_items]. simpl (to_cached_field f).
  unfold FieldItem_to_cached_field. destruct (position fs f) as [i|] eqn:Ei; simpl; [|by apply IH].
  rewrite (Field_size_ok f Hf), E8. runm.
  assert (Hi : 0 <= i < Z.of_nat (length fs)).
  { clear -Ei. revert i Ei. induction fs as [|g fs IH]; intros i Ei; [done|]. simpl in Ei. case_match; [injection Ei as <-; simpl; lia|].
    destruct (position fs f) as [j|]; [|done]. injection Ei as <-. specialize (IH j eq_refl). simpl. lia. }
  assert (Ew : cached_word i = mkField (i * 8) (i * 8 + 8)).
  { unfold cached_word, Field_from_span. simpl. rewrite !wrap_small by (unfold fits; lia). f_equal. lia. }
  rewrite Ew. assert (Hfo : Field_ok (mkField (i * 8) (i * 8 + 8))) by (unfold Field_ok, Field_wf, fits; simpl; lia).
  rewrite (Field_size_ok _ Hfo). unfold Field_len. simpl. replace (i * 8 + 8 - i * 8) with 8 by lia.
  destruct (raw_read data off 8) as [w| | |] eqn:Er; [|done..]. runm. apply read_word_length in Er.
  rewrite ?(wrap_small 16 (i * 8)) by (unfold fits; lia).
  destruct (raw_write c (i * 8) w) as [c'| | |] eqn:Ewr; [|done..]. runm. apply IH. rewrite <-Hl.
  revert Ewr. unfold raw_write. destruct (in_bounds _); [|done..]. runm. intros [= <-]. apply length_store.
Qed.

(** *** Two words of a test item *)
Lemma update_either_copy_witness :
  exists t c' t', from_increasing TUPLE_SZ 100 = Ret t /\
    update_cached (H := TEST_SCHEMA) (to_cached (Schema := TEST_SCHEMA) t)
      (UpdateQuery_new [Field_new 72 80; Field_new 24 32] (replicate 8 1 ++ replicate 8 2)) = Ret c' /\
    tuple_update t (UpdateQuery_new [Field_new 72 80; Field_new 24 32] (replicate 8 1 ++ replicate 8 2)) = Ret t' /\
    write_back (Schema := TEST_SCHEMA) c' t = t' /\
    load_field t' (Field_new 24 32) = replicate 8 2 /\ load_field t' (Field_new 0 8) = load_field t (Field_new 0 8).
Proof.
  destruct (from_increasing TUPLE_SZ 100) as [t| | |] eqn:Et; [|by vm_compute in Et..].
  assert (Ht : length t = 128%nat) by (by vm_compute in Et; injection Et as <-).
  destruct (update_either_copy (S := TEST_SCHEMA) item_columns item_columns (L := test_laws) (to_cached (Schema := TEST_SCHEMA) t) t
    (UpdateQuery_new [Field_new 72 80; Field_new 24 32] (replicate 8 1 ++ replicate 8 2)))
    as (c' & t' & E1 & E2 & E3 & _ & Hv & Ho).
  - by apply (to_cached_agree (L := test_laws)).
  - split; [|split; [|split]].
    + intros f Hf. apply (bool_decide_unpack (f ∈ item_columns)). simpl in Hf. rewrite !elem_of_cons, elem_of_nil in Hf.
      by destruct Hf as [->|[->|[]]].
    + intros f Hf. simpl in Hf. rewrite !elem_of_cons, elem_of_nil in Hf. by destruct Hf as [->|[->|[]]].
    + done.
    + vm_compute. discriminate.
  - done.
  - apply (bool_decide_unpack _). by vm_compute.
  - intros f g Hf Hg. apply (all_apart_ok [Field_new 72 80; Field_new 24 32]); done.
  - exists t, c', t'. rewrite (write_back_to_cached (SchemaLaws := test_laws) t Ht) in E2, Ho.
    split; [done|]. split; [exact E1|]. split; [exact E2|]. split; [exact E3|]. split.
    + rewrite (Hv (Field_new 24 32) 8); [by vm_compute|]. by right; left.
    + apply Ho; [by vm_compute|]. intros f Hf. simpl in Hf. rewrite !elem_of_cons, elem_of_nil in Hf.
      destruct Hf as [->|[->|[]]]; right; by vm_compute.
Defined.
