(* ===== verification/CacheTests.v ===== *)
(** * The tests of the clock cache (src/attribute_cache/clock_cache/tests.rs)

    [gen_cache_and_oid] over the items of utils/test_gen.rs, and the
    single-threaded test.  CacheThreads.v has the tests that start threads. *)

From Stdlib Require Import QArith.
From S2P Require Import Prelude Query Schema Layout External NodeMeta Oid ObjAlloc OidArray CacheInner ClockCache Table Capacity UnitTests.
Import TableTests.
Open Scope Z_scope.

Definition PROBE_LEN : Z := 16.

#[local] Existing Instance TEST_SCHEMA.
#[local] Existing Instance test_laws.

Section tests.
Context {T Th : Type} `{KvMapLaws Z T} `{KvMapLaws TlsAllocator Th}.
Abbreviation cache := (ClockCache T Th).
Implicit Types (cc : cache) (d : draws).

(** ** [gen_cache_and_oid] *)
Fixpoint insert_records (n : nat) (i : Z) (d : Z -> draws) (cc : cache) (rid_array : list Rid)
    : outcome (cache * list Rid) :=
  match n with
  | O => Ret (cc, rid_array)
  | S n =>
      item ← from_increasing TUPLE_SZ i;
      '(rid, cc) ← ClockCache_insert (d_tid (d i)) item (replicate (d_spin (d i)) true ++ [false]) (d_u1 (d i)) (d_weak (d i)) cc;
      cc ← drop_write_guard rid cc;
      insert_records n (i + 1) d cc (rid_array ++ [rid])
  end.

(** [ClockNode<FieldCached<4>>] has 40 bytes. *)
Definition gen_cache_and_oid (cache_cnt tuple_cnt : nat) (d : Z -> draws) (ptr : Z) (init : Z -> list obj)
    : outcome (cache * list Rid) :=
  let cache_size := Z.of_nat cache_cnt * 40 in
  let storage_size := Z.of_nat tuple_cnt * Z.of_nat tuple_size in
  cc ← ClockCache_new 40 cache_size PROBE_LEN 1 storage_size ptr init;
  insert_records tuple_cnt 0 d cc [].

Fixpoint value_compare (values : QueryValue) (query : list Field) (tuple : obj) (cc : cache) : outcome bool :=
  match query with
  | [] => Ret true
  | q :: query =>
      gt_val ← read_field tuple q;
      qy_val ← get_value values q cc;
      if gt_val =? le_word qy_val then value_compare values query tuple cc else Ret false
  end.

(** The body of the loops: lock, promote, and what [check] asserts of the
    value.  [write] spins until the word is free, which here it is. *)
Definition promote_item (check : QueryValue -> bool) (i : Z) (rid : Rid) (d : draws) (cc : cache) : outcome cache :=
  '(r, cc) ← ClockCache_write_lock rid false cc;
  _ ← match r with Ok _ => Ret tt | Err _ => Spin end;
  '(val, cc) ← read_and_promote (d_tid d) rid QUERY (d_u1 d) (d_u2 d) (d_u3 d) (d_weak d) cc;
  _ ← rassert (check val);
  item ← from_increasing TUPLE_SZ i;
  same ← value_compare val (fields QUERY) item cc;
  _ ← rassert same;
  drop_write_guard rid cc.

(** A record that is not in the cache, read from the storage. *)
Definition read_pointer (i : Z) (rid : Rid) (cc : cache) : outcome cache :=
  '(r, cc) ← ClockCache_read_lock rid false cc;
  _ ← match r with Ok _ => Ret tt | Err _ => Spin end;
  w ← oid_load (cc_oids cc) rid;
  _ ← rassert (is_rid w);
  p ← to_rid w;
  item ← Storage_get (cc_storage cc) p;
  gt ← from_increasing TUPLE_SZ i;
  _ ← rassert (bool_decide (item = gt));
  drop_read_guard rid cc.

Fixpoint for_records (body : Z -> Rid -> cache -> outcome cache) (i : Z) (rids : list Rid) (cc : cache)
    : outcome cache :=
  match rids with
  | [] => Ret cc
  | rid :: rids =>
      cc ← body i rid cc;
      for_records body (i + 1) rids cc
  end.

(** ** [clock_insert]

    The test has [buckets = 8] and [rounds = 10]. *)
Definition clock_insert_sized (buckets rounds : nat) (d d1 d2 d3 : Z -> draws) (ptr : Z) (init : Z -> list obj)
    : outcome unit :=
  let capacity := (Z.to_nat PROBE_LEN * buckets)%nat in
  let item_cnt := (capacity * rounds)%nat in
  let first := (item_cnt - capacity)%nat in
  '(cc, rid_array) ← gen_cache_and_oid capacity item_cnt d ptr init;
  cc ← for_records read_pointer 0 (take first rid_array) cc;
  cc ← for_records (fun i rid => promote_item (fun v => cached_hit v && negb (has_tuple v)) i rid (d1 i))
         (Z.of_nat first) (drop first rid_array) cc;
  cc ← for_records (fun i rid => promote_item (fun v => negb (cached_hit v)) i rid (d2 i))
         0 (take (capacity / Z.to_nat PROBE_LEN) rid_array) cc;
  _ ← for_records (fun i rid => promote_item cached_hit i rid (d3 i)) 0 (take capacity rid_array) cc;
  Ret tt.

Definition clock_insert := clock_insert_sized 8 10.
End tests.

(** ** What [gen_cache_and_oid] makes *)
Section made.
Context {T Th : Type} `{KvMapLaws Z T} `{KvMapLaws TlsAllocator Th}.
Abbreviation cache := (ClockCache T Th).
Abbreviation inv := (cache_inv item_columns).
Implicit Types (cc : cache) (d : draws).

(** Record [rid] is free and holds the item made from [i]. *)
Definition holds_item cc (i : Z) (rid : Rid) : Prop :=
  allocated_rid cc rid /\ lock_state cc rid = Some 0 /\
  exists x, from_increasing TUPLE_SZ i = Ret x /\ length x = tuple_size /\ record_value cc rid = Some x.

(** The records are those of [rids]. *)
Definition holds_items cc (rids : list Rid) : Prop :=
  inv cc /\ (forall r, allocated_rid cc r -> r ∈ rids) /\
  forall i rid, rids !! i = Some rid -> holds_item cc (Z.of_nat i) rid.

Lemma holds_item_same cc cc' i rid :
  (allocated_rid cc rid -> allocated_rid cc' rid) ->
  (allocated_rid cc rid -> record_value cc' rid = record_value cc rid /\ lock_state cc' rid = lock_state cc rid) ->
  holds_item cc i rid -> holds_item cc' i rid.
Proof.
  intros Ha Hk (Hal & Hl & x & Ex & Hlen & Hx). destruct (Hk Hal) as [Ev El].
  split; [by apply Ha|]. split; [by rewrite El|]. exists x. by rewrite Ev.
Qed.

Lemma from_increasing_ok i :
  0 <= i < 2 ^ 63 -> exists x, from_increasing TUPLE_SZ i = Ret x /\ length x = tuple_size.
Proof.
  intros Hi. destruct (increasing_ok TUPLE_SZ i 0) as (x & E & Hl & _); [unfold TUPLE_SZ; lia..|].
  exists x. by split.
Qed.

Lemma insert_records_ok tid n : forall i (d : Z -> draws) cc rids,
  holds_items cc rids -> length rids = Z.to_nat i -> 0 <= i -> i + Z.of_nat n < 2 ^ 63 ->
  (forall j, d_tid (d j) = tid) -> room [tid] n cc ->
  exists cc' rids', insert_records n i d cc rids = Ret (cc', rids') /\ holds_items cc' rids' /\
    length rids' = (length rids + n)%nat.
Proof.
  induction n as [|n IH]; intros i d cc rids Hh Hlen Hi Hn Hd Hroom; cbn [insert_records].
  { exists cc, rids. by rewrite Nat.add_0_r. }
  destruct Hh as (Hinv & Hall & Hh). destruct (from_increasing_ok i) as (x & Ex & Hl); [lia|]. rewrite Ex. runm. rewrite Hd.
  destruct (ClockCache_insert_ok (columns := item_columns) cc tid x (d_spin (d i)) (d_u1 (d i)) (d_weak (d i)) Hinv Hl)
    as [(rid & c1 & E & Hins)|[_ Hout]].
  2:{ exfalso. eapply room_not_out; [exact Hinv|exact Hroom|by left|exact Hout]. }
  rewrite E. runm. pose proof Hins as (Hinv1 & _ & Hna & Hal1 & Hx1 & Hl1 & Hk1).
  destruct (drop_write_guard_ok (columns := item_columns) c1 rid Hinv1) as (c2 & E2 & Hinv2 & Hal2 & Hl2 & Hk2);
    [by apply Hal1; left|done|].
  rewrite E2. runm. destruct (IH (i + 1) d c2 (rids ++ [rid])) as (c3 & rids' & -> & Hh3 & Hlen3).
  - split; [exact Hinv2|]. split.
    { intros r Ha%Hal2%Hal1. apply elem_of_app. destruct Ha as [->|Ha]; [right; by left|left; auto]. }
    intros j r [Hj|[Hj Hr]]%lookup_app_Some.
    + pose proof (Hh j r Hj) as Hit. eapply holds_item_same; [| |exact Hit].
      * intros Ha. apply Hal2, Hal1. by right.
      * intros Ha. destruct (Hk1 r Ha) as [<- <-]. destruct (Hk2 r) as [-> El]; [apply Hal1; by right|].
        split; [done|]. apply El. by intros ->.
    + destruct (j - length rids)%nat eqn:Ej; [|done]. injection Hr as <-.
      replace (Z.of_nat j) with i by lia. split; [apply Hal2, Hal1; by left|]. split; [done|].
      exists x. split; [done|]. split; [done|]. destruct (Hk2 rid) as [-> _]; [apply Hal1; by left|done].
  - rewrite length_app. simpl. lia.
  - lia.
  - lia.
  - done.
  - eapply (room_fixed _ _ c1); [by eapply drop_write_fixed|]. eapply room_insert; [exact Hinv|exact Hroom|by left|exact E].
  - exists c3, rids'. split; [done|]. split; [done|]. rewrite Hlen3, length_app. simpl. lia.
Qed.

Lemma gen_cache_and_oid_ok capacity item_cnt tid (d : Z -> draws) ptr init :
  0 < Z.of_nat capacity < 2 ^ 20 -> Z.of_nat item_cnt < 2 ^ 20 -> 0 < ptr < 2 ^ 62 ->
  (forall cap, 0 <= cap -> length (init cap) = Z.to_nat cap /\ Forall (fun t => length t = tuple_size) (init cap)) ->
  (forall j, d_tid (d j) = tid) ->
  exists cc rids, gen_cache_and_oid (T := T) (Th := Th) capacity item_cnt d ptr init = Ret (cc, rids) /\
    holds_items cc rids /\ length rids = item_cnt.
Proof.
  intros Hcap Hcnt Hptr Hinit Hd. unfold gen_cache_and_oid.
  assert (Htz : Z.of_nat tuple_size = 128) by reflexivity. rewrite !Htz.
  assert (Hdiv : Z.of_nat item_cnt * 128 / 128 = Z.of_nat item_cnt) by (apply Z.div_mul; lia).
  destruct (ClockCache_new_ok (columns := item_columns) (T := T) (M := Th) 40 (Z.of_nat capacity * 40) PROBE_LEN 1
              (Z.of_nat item_cnt * 128) ptr init) as (cc & E & Hinv & Hna & _);
    rewrite ?Htz, ?Hdiv, ?Z.div_mul by lia; try lia; try done.
  rewrite E. runm.
  destruct (insert_records_ok tid item_cnt 0 d cc []) as (cc1 & rids & E1 & Hh1 & Hlen1);
    [split; [done|]; split; [intros r Ha; by destruct (Hna r)|done]|done|lia|lia|done| |].
  { eapply cache_room; [| |exact E|simpl; lia|]; rewrite ?Htz, ?Hdiv; lia. }
  by exists cc1, rids.
Qed.
End made.

(** *** [clock_insert], run on a smaller cache: the probability is one, so the
    draws decide nothing, and exchanges are not refused spuriously. *)
Definition plain (_ : Z) : draws := mkDraws 0 0 (1 # 2) (1 # 2) (1 # 2) (fun _ => (false, false)).

Definition zero_items (cap : Z) : list obj := replicate (Z.to_nat cap) (replicate tuple_size 0).

Example clock_insert_passes :
  clock_insert_sized (T := gmap Z Z) (Th := gmap Z TlsAllocator) 2 3 plain plain plain plain 4096 zero_items = Ret tt.
Proof. vm_compute. reflexivity. Qed.
