(* ===== verification/CacheThreads.v ===== *)
(** * Threads in the tests of the clock cache (src/attribute_cache/clock_cache/tests.rs)

    [clock_multi_read] and [clock_multi_insert]: threads that lock, promote and
    compare records of one cache at the same time.  A thread takes one step of
    CacheMachine.v at a time, and a schedule says which thread is next and what
    its environment decides, so every interleaving is a schedule. *)

From Stdlib Require Import QArith.
From S2P Require Import Prelude Query Schema Layout External NodeMeta Oid ObjAlloc OidArray CacheInner ClockCache CacheMachine CacheSim Table Capacity UnitTests CacheTests.
Import TableTests.
Open Scope Z_scope.

#[local] Existing Instance TEST_SCHEMA.
#[local] Existing Instance test_laws.

(** ** A thread of a test

    Where the thread is in the body of its loop: spinning for the write lock of
    the next record; holding it; inside [read_and_promote]; comparing the fields
    that are left; and after the loop, [fetch_sub] on [remaining] and the wait
    for it to be 0. *)
Inductive stage :=
| SLock
| SPromote (r : Rid)
| SActing (a : activity)
| SCompare (r : Rid) (v : QueryValue) (fs : list Field)
| SLeave
| SWait
| SDone.

(** [th_todo]: the indexes of the records the loop has not finished with. *)
Record thread := mkThread { th_todo : list nat; th_at : stage }.

(** What the environment decides for one step: whether an exchange fails, which
    slot a probe looks at, whether it is the last one, and a random draw. *)
Record choice := mkChoice { c_weak : bool; c_slot : Z; c_give_up : bool; c_u : Q }.

(** One access of [read_and_promote].  A slot that does not exist is no step. *)
Definition act_step (c : choice) (s : shared) (a : activity)
    : outcome (label * list activity * shared) :=
  match a with
  | AProbe k r node =>
      if c_give_up c then Ret (Tau, [AFinish k r None], s)
      else if decide (0 <= c_slot c < Z.of_nat (length (sh_slots s)))
      then do_look s k r node (c_slot c) (c_weak c)
      else Ret (Tau, [AProbe k r node], s)
  | AClaimed k r node i => Ret (Tau, [AFilled k r i], put_slot s i node)
  | AFilled k r i => do_store_index s k r i None
  | AVictim k r node i v => do_clear_ref s k r node i v
  | ALock k r node i v => do_lock_victim s k r node i v (c_weak c)
  | ALocked k r node i v => do_validate s k r node i v (c_weak c)
  | AUnlock k r node v =>
      s' ← word_op s v OidWriteGuard_drop; Ret (Tau, [AProbe k r node], s')
  | AValid k r node i v => do_clear_index s k r node i v
  | AReplace k r node i v => do_replace s k r node i v
  | AReplaced k r i v old => do_store_index s k r i (Some (v, old))
  | AIndexed k r i ev => do_indexed s k r i ev 1 (c_u c)
  | AEvicted k r i v old => do_write_back s k r i v old
  | ARelease k r i v =>
      s' ← word_op s v OidWriteGuard_drop; Ret (Tau, [AFinish k r (Some i)], s')
  | AFinish k r loc => do_finish s k r loc
  | ATry _ _ | AReadCas _ _ _ | ARead _ _ | AWrite _ _ => Ret (Tau, [a], s)
  end.

(** The guard once [read_and_promote] has returned its value; before that, the
    activity goes on. *)
Definition promoted (new : list activity) : stage :=
  match new with
  | [AWrite r [(q, v)]] => SCompare r v (fields QUERY)
  | [a] => SActing a
  | _ => SDone
  end.

(** The next access of a thread; [remaining] is what the threads of
    [clock_multi_insert] count down, and with [counted = false] the thread ends
    after its loop. *)
Definition thread_step (rid_array : list Rid) (counted : bool) (c : choice)
    (s : shared) (remaining : Z) (th : thread) : outcome (shared * Z * thread) :=
  match th_at th with
  | SLock =>
      match th_todo th with
      | [] => Ret (s, remaining, mkThread [] (if counted then SLeave else SDone))
      | idx :: _ =>
          rid ← index rid_array (Z.of_nat idx);
          '(_, new, s) ← do_write_lock s rid (c_weak c);
          Ret (s, remaining, mkThread (th_todo th) (match new with [] => SLock | _ => SPromote rid end))
      end
  | SPromote r =>
      '(_, new, s) ← do_promote s r QUERY PROBE_LEN 1 (c_u c);
      Ret (s, remaining, mkThread (th_todo th) (promoted new))
  | SActing a =>
      '(_, new, s) ← act_step c s a;
      Ret (s, remaining, mkThread (th_todo th) (promoted new))
  | SCompare r v (field :: fs) =>
      match th_todo th with
      | [] => Undef
      | idx :: _ =>
          item ← from_increasing TUPLE_SZ (Z.of_nat idx);
          gt_val ← read_field item field;
          qy_val ← do_get s v field;
          _ ← rassert (gt_val =? le_word qy_val);
          Ret (s, remaining, mkThread (th_todo th) (SCompare r v fs))
      end
  | SCompare r v [] =>
      s ← word_op s r OidWriteGuard_drop;
      Ret (s, remaining, mkThread (tail (th_todo th)) SLock)
  | SLeave => Ret (s, wrap 64 (remaining - 1), mkThread (th_todo th) SWait)
  | SWait => Ret (s, remaining, if remaining =? 0 then mkThread (th_todo th) SDone else th)
  | SDone => Ret (s, remaining, th)
  end.

(** ** The tests *)
Record tstate := mkT { t_mem : shared; t_left : Z; t_threads : list thread }.

Definition test_step (rid_array : list Rid) (counted : bool) (k : nat) (c : choice) (st : tstate)
    : outcome tstate :=
  match t_threads st !! k with
  | None => Ret st
  | Some th =>
      '(s, remaining, th) ← thread_step rid_array counted c (t_mem st) (t_left st) th;
      Ret (mkT s remaining (<[k := th]> (t_threads st)))
  end.

Fixpoint run_threads (rid_array : list Rid) (counted : bool) (sched : list (nat * choice)) (st : tstate)
    : outcome tstate :=
  match sched with
  | [] => Ret st
  | (k, c) :: sched =>
      st ← test_step rid_array counted k c st;
      run_threads rid_array counted sched st
  end.

Section tests.
Context {T Th : Type} `{KvMapLaws Z T} `{KvMapLaws TlsAllocator Th}.

(** The memory that the threads share: the cache that [gen_cache_and_oid] made. *)
Definition shared_of (rid_array : list Rid) (cc : ClockCache T Th) : shared :=
  mkShared (list_to_map ((fun r => (r, default 0 (oid_word (cc_oids cc) r))) <$> rid_array))
    (ci_entries (cc_inner cc)) (cc_storage cc).

Definition multi_test (capacity item_cnt : nat) (counted : bool) (todos : list (list nat))
    (sched : list (nat * choice)) (d : Z -> draws) (ptr : Z) (init : Z -> list obj)
    : outcome (list Rid * tstate) :=
  '(cc, rid_array) ← gen_cache_and_oid capacity item_cnt d ptr init;
  let spawned := (fun todo => mkThread todo SLock) <$> todos in
  st ← run_threads rid_array counted sched
         (mkT (shared_of rid_array cc) (Z.of_nat (length todos)) spawned);
  Ret (rid_array, st).

(** [rng tid i] is what thread [tid] draws in its [i]-th round. *)
Definition clock_multi_read (rng : nat -> nat -> nat) :=
  multi_test 100 1000 false ((fun tid => rng tid <$> seq 0 10000) <$> seq 0 8).

Definition clock_multi_insert :=
  multi_test 100 (1000 * 8) true (replicate 8 (seq 0 1000)).
End tests.

(** Every thread has left its loop, and its scope may end. *)
Definition finished (st : tstate) : Prop := Forall (fun th => th_at th = SDone) (t_threads st).

(** ** The machine's configuration

    What the machine of CacheMachine.v sees of a thread. *)
Definition acts_of (th : thread) : list activity :=
  match th_at th with
  | SPromote r => [AWrite r []]
  | SActing a => [a]
  | SCompare r v _ => [AWrite r [(QUERY, v)]]
  | _ => []
  end.

Abbreviation simulates := (CacheMachine.simulates item_columns).

(** Every item is what the specification has under its id. *)
Definition items_in (M : table_spec) (rids : list Rid) : Prop :=
  forall i rid, rids !! i = Some rid ->
    exists x n, from_increasing TUPLE_SZ (Z.of_nat i) = Ret x /\ length x = tuple_size /\
      M !! rid = Some (x, n).

(** [a] is a step of [read_and_promote] for record [r]. *)
Definition acting (r : Rid) (a : activity) : Prop :=
  match a with
  | AProbe k r' _ | AClaimed k r' _ _ | AFilled k r' _ | AVictim k r' _ _ _ | ALock k r' _ _ _
  | ALocked k r' _ _ _ | AUnlock k r' _ _ | AValid k r' _ _ _ | AReplace k r' _ _ _
  | AReplaced k r' _ _ _ | AIndexed k r' _ _ | AEvicted k r' _ _ _ | ARelease k r' _ _
  | AFinish k r' _ => k = Promote QUERY /\ r' = r
  | _ => False
  end.

Definition in_loop (rids : list Rid) (th : thread) (r : Rid) : Prop :=
  exists idx rest, th_todo th = idx :: rest /\ rids !! idx = Some r.

Definition thread_ok (rids : list Rid) (counted : bool) (th : thread) : Prop :=
  Forall (fun idx => (idx < length rids)%nat) (th_todo th) /\
  match th_at th with
  | SPromote r => in_loop rids th r
  | SActing a => exists r, acting r a /\ in_loop rids th r
  | SCompare r v fs => in_loop rids th r /\ words_of fs /\ fs ⊆ fields QUERY
  | SLeave | SWait => counted = true
  | SLock | SDone => True
  end.

(** The threads that [remaining] still counts. *)
Definition counts (th : thread) : nat := match th_at th with SWait | SDone => 0%nat | _ => 1%nat end.

(** How far a thread is from its end, if the next probe gives up. *)
Definition act_rank (a : activity) : nat :=
  match a with
  | ATry _ _ | AReadCas _ _ _ | ARead _ _ | AWrite _ _ => 0
  | AFinish _ _ _ => 1
  | AProbe _ _ _ | ARelease _ _ _ _ => 2
  | AUnlock _ _ _ _ | AEvicted _ _ _ _ _ => 3
  | AIndexed _ _ _ _ => 4
  | AFilled _ _ _ | AReplaced _ _ _ _ _ => 5
  | AClaimed _ _ _ _ | AReplace _ _ _ _ _ => 6
  | AValid _ _ _ _ _ => 7
  | ALocked _ _ _ _ _ => 8
  | ALock _ _ _ _ _ => 9
  | AVictim _ _ _ _ _ => 10
  end.

Definition rank (th : thread) : nat :=
  100 * length (th_todo th) +
  match th_at th with
  | SLock => 40
  | SPromote _ => 39
  | SActing a => 20 + act_rank a
  | SCompare _ _ fs => 3 + length fs
  | SLeave => 2
  | SWait => 1
  | SDone => 0
  end.

Definition calm : choice := mkChoice false 0 true 0.

(** ** Steps *)
Lemma prob_one : prob_ok 1.
Proof. split; unfold Qle; simpl; lia. Qed.

(** A promotion shows nothing until its guard is back. *)
Lemma act_step_acting c s a l new s' r :
  acting r a -> act_step c s a = Ret (l, new, s') ->
  l = Tau /\ exists a', new = [a'] /\ (acting r a' \/ exists v, a' = AWrite r [(QUERY, v)]) /\
    (c = calm -> (act_rank a' < act_rank a)%nat).
Proof.
  intros Ha E. destruct a; try done; destruct Ha as [-> ->]; simpl in E;
    unfold do_look, do_store_index, do_clear_ref, do_lock_victim, do_validate, do_clear_index,
      do_replace, do_indexed, do_write_back, do_finish in E; inv_ret;
    repeat (case_match; inv_ret; simplify_eq/=);
    (split; [done|]; eexists; split; [done|]; split;
      [by first [left; split|right; eexists]|intros; simplify_eq/=; lia]).
Qed.

Lemma act_step_astep c s a r :
  acting r a ->
  act_step c s a = Ret (Tau, [a], s) \/
  astep item_columns item_columns PROBE_LEN 1 s a (act_step c s a).
Proof.
  intros Ha. destruct a; try done; simpl; try (right; by constructor).
  destruct (c_give_up c); [right; apply step_give_up|].
  case_decide; [|by left]. right. by apply step_look.
Qed.

(** The order of the activities does not matter. *)
Lemma simulates_perm s acts acts' M :
  acts ≡ₚ acts' -> simulates (s, acts) M -> simulates (s, acts') M.
Proof.
  intros Hp (Hg & Ha & Hr). split; [done|]. split; [by rewrite <-Hp|]. intros r. specialize (Hr r).
  assert (Hroles : roles acts r ≡ₚ roles acts' r) by (unfold roles; by rewrite Hp).
  simpl in *. unfold rec_inv in *. destruct (sh_words s !! r) as [w0|].
  - destruct Hr as (Hok & Hc & w & t & E & Hwf & Ht & Hlen & Hrec).
    do 2 (split; [done|]). exists w, t. do 4 (split; [done|]).
    destruct Hrec as [(qss & Er & El & Hl & y & Hst & Hm & Hf)|(x & Ex & Hl & Hx)].
    + left. rewrite Er in Hroles. symmetry in Hroles.
      apply Permutation_map_inv in Hroles as (qss' & Er' & Hq).
      exists qss'. split; [done|]. rewrite <-(Permutation_length Hq).
      do 2 (split; [done|]). exists y. rewrite <-(Permutation_length Hq). do 2 (split; [done|]).
      by rewrite <-Hq.
    + right. exists x. rewrite Ex in Hroles. apply Permutation_singleton_l in Hroles. done.
  - destruct Hr as (Er & ?). rewrite Er in Hroles. apply Permutation_nil_l in Hroles. done.
Qed.

Lemma item_word s acts M rids i rid :
  simulates (s, acts) M -> items_in M rids -> rids !! i = Some rid -> is_Some (sh_words s !! rid).
Proof.
  intros (_ & _ & Hr) Hi Hrid. specialize (Hr rid). destruct (Hi i rid Hrid) as (x & n & _ & _ & E).
  unfold rec_inv in Hr. simpl in Hr. destruct (sh_words s !! rid); [by eexists|].
  destruct Hr as (_ & Hm & _). congruence.
Qed.

(** With no activity in flight, the lock of a record is free. *)
Lemma free_lock s M r :
  simulates (s, []) M -> is_Some (sh_words s !! r) ->
  exists w s', do_write_lock s r false = Ret (LWriteLock r, [AWrite r []], s') /\
    sh_words s !! r = Some (encode w) /\ view_wf w /\ lk w = 0.
Proof.
  intros Hs Hr. destruct (word_inv _ _ _ _ Hs Hr) as (w & t & Hw & Hwf & _ & _ & _ & _ & Hrec).
  assert (Hl : lk w = 0).
  { destruct Hrec as [(qss & Eq & El & _)|(x & [=] & _)]. by destruct qss. }
  exists w. unfold do_write_lock. rewrite (load_word_ok _ _ _ Hw). runm.
  rewrite try_write_view by done. rewrite decide_True by done. by eexists.
Qed.

Lemma items_in_relock M rids r x n n' :
  items_in M rids -> M !! r = Some (x, n) -> items_in (<[r := (x, n')]> M) rids.
Proof.
  intros Hi Hm i rid Hr. destruct (Hi i rid Hr) as (y & k & Ey & Hl & Hy).
  destruct (decide (rid = r)) as [->|Hne].
  - exists y, n'. rewrite lookup_insert_eq. by simplify_eq.
  - exists y, k. by rewrite lookup_insert_ne.
Qed.

Lemma bind_middle (t1 : list thread) th t2 :
  (t1 ++ th :: t2) ≫= acts_of = (t1 ≫= acts_of) ++ acts_of th ++ (t2 ≫= acts_of).
Proof. by rewrite bind_app. Qed.

Lemma query_words : words_of (fields QUERY).
Proof. by repeat constructor. Qed.

Lemma promoted_ok rids counted th r a' todo :
  in_loop rids th r -> th_todo th = todo ->
  (acting r a' \/ exists v, a' = AWrite r [(QUERY, v)]) ->
  let th' := mkThread todo (promoted [a']) in
  acts_of th' = [a'] /\ (counts th' = 1%nat) /\
  (Forall (fun idx => (idx < length rids)%nat) todo -> thread_ok rids counted th') /\
  (rank th' = 100 * length todo + 20 + act_rank a' \/ rank th' = 100 * length todo + 7)%nat.
Proof.
  intros Hin <- [Ha|[v ->]]; cbv zeta.
  - replace (promoted [a']) with (SActing a') by (by destruct a').
    split; [done|]. split; [done|]. split; [|left; unfold rank; simpl; lia].
    intros Hf. split; [done|]. exists r. split; [done|]. exact Hin.
  - split; [done|]. split; [done|]. split; [|right; unfold rank; simpl; lia].
    intros Hf. split; [done|]. split; [exact Hin|]. split; [apply query_words|done].
Qed.

(** What the next access of a thread does: it returns, keeps the simulation and
    the items, and brings a calm thread closer to its end. *)
Definition stepped_ok (rids : list Rid) (counted : bool) (c : choice) (p1 p2 : list activity)
    (th : thread) (left : Z) (o : outcome (shared * Z * thread)) : Prop :=
  exists s' left' th' M', o = Ret (s', left', th') /\
    simulates (s', p1 ++ acts_of th' ++ p2) M' /\ items_in M' rids /\ thread_ok rids counted th' /\
    (counted = true ->
      (left' = left /\ counts th' = counts th) \/
      (left' = wrap 64 (left - 1) /\ counts th = 1%nat /\ counts th' = 0%nat)) /\
    (c = calm -> th_at th <> SLock -> th_at th <> SWait -> th_at th <> SDone ->
      (rank th' < rank th)%nat).

Section step.
Context (rids : list Rid) (counted : bool) (c : choice) (s : shared) (remaining : Z).
Context (p1 p2 : list activity) (M : table_spec) (th : thread).
Context (Hs : simulates (s, p1 ++ acts_of th ++ p2) M) (Hi : items_in M rids) (Ht : thread_ok rids counted th).
Abbreviation result := (stepped_ok rids counted c p1 p2 th remaining
                          (thread_step rids counted c s remaining th)).

Lemma lock_step idx rest : th_at th = SLock -> th_todo th = idx :: rest -> result.
Proof using Hs Hi Ht.
  intros Ea Et. destruct Ht as [Hf _]. rewrite Et in Hf. apply Forall_cons in Hf as [Hidx Hf].
  destruct (lookup_lt_is_Some_2 rids idx Hidx) as [rid Hr].
  unfold thread_step. rewrite Ea, Et. rewrite (proj2 (index_Ret rids _ rid)) by (rewrite Nat2Z.id; split; [lia|done]).
  runm. assert (Hs' := Hs). unfold acts_of in Hs'. rewrite Ea in Hs'. simpl in Hs'.
  destruct (start_write_ok (mut_columns := item_columns) (L := test_laws) 1 prob_one s (p1 ++ p2) M rid (c_weak c) Hs')
    as (l & new & s' & M' & E & Hsp & Hsim); [by eapply item_word|].
  rewrite E. runm.
  assert (Hnew : (new = [] /\ l = Tau) \/ (new = [AWrite rid []] /\ l = LWriteLock rid)).
  { unfold do_write_lock in E. inv_ret. repeat case_match; inv_ret; simplify_eq; auto. }
  destruct Hnew as [[-> ->]|[-> ->]].
  - simpl in Hsp. subst M'. do 4 eexists. split; [done|]. split; [exact Hsim|]. split; [done|].
    split; [split; [by constructor|done]|]. split; [|done]. left. split; [done|]. unfold counts. by rewrite Ea.
  - do 4 eexists. split; [done|]. split; [|split; [|split; [|split]]].
    + eapply simulates_perm; [|exact Hsim]. simpl. apply Permutation_middle.
    + inversion Hsp; subst. by eapply items_in_relock.
    + split; [by constructor|]. by exists idx, rest.
    + left. split; [done|]. unfold counts. by rewrite Ea.
    + done.
Qed.

(** A step of the guard or of the promotion that shows nothing. *)
Lemma moved l a' s' todo r a :
  acts_of th = [a] -> l = Tau -> step_ok (columns := item_columns) (mut_columns := item_columns) p1 p2 M (Ret (l, [a'], s')) ->
  th_todo th = todo -> in_loop rids th r -> counts th = 1%nat ->
  (acting r a' \/ exists v, a' = AWrite r [(QUERY, v)]) ->
  (c = calm -> (rank (mkThread todo (promoted [a'])) < rank th)%nat) ->
  stepped_ok rids counted c p1 p2 th remaining (Ret (s', remaining, mkThread todo (promoted [a']))).
Proof using Hs Hi Ht.
  intros Ea -> (l1 & new & s1 & M' & [= <- <- <-] & -> & Hsim) Et Hin Hc Ha' Hrank.
  destruct (promoted_ok rids counted th r a' todo Hin Et Ha') as (Eacts & Ec & Hok & _).
  exists s', remaining, (mkThread todo (promoted [a'])), M. split; [done|]. rewrite Eacts.
  split; [exact Hsim|]. split; [done|]. split; [apply Hok; rewrite <-Et; apply Ht|].
  split; [|auto]. left. by rewrite Ec, Hc.
Qed.

Lemma acting_step a : th_at th = SActing a -> result.
Proof using Hs Hi Ht.
  intros Ea. destruct Ht as [Hf Hin]. rewrite Ea in Hin. destruct Hin as (r & Ha & Hin).
  assert (Eacts : acts_of th = [a]) by (unfold acts_of; by rewrite Ea).
  assert (Hs' := Hs). rewrite Eacts in Hs'. simpl in Hs'.
  unfold thread_step. rewrite Ea.
  assert (Hok : step_ok (columns := item_columns) (mut_columns := item_columns) p1 p2 M (act_step c s a)).
  { destruct (act_step_astep c s a r Ha) as [->|Hst]; [by apply step_tau|].
    destruct (astep_other (L := test_laws) PROBE_LEN 1 prob_one s p1 a p2 M _ Hs' Hst) as [?|[_ Ho]];
      [by destruct a|done|]. destruct Ho as (r' & val & w & -> & _). done. }
  pose proof Hok as (l & new & s' & M' & E & _). rewrite E in Hok. rewrite E.
  destruct (act_step_acting c s a l new s' r Ha E) as (El & a' & -> & Ha' & Hrk). runm.
  apply (moved l a' s' (th_todo th) r a); try done.
  - unfold counts. by rewrite Ea.
  - intros Hc. specialize (Hrk Hc). destruct (promoted_ok rids counted th r a' _ Hin eq_refl Ha') as (_ & _ & _ & Hr).
    unfold rank at 2. rewrite Ea. lia.
Qed.
(** A write guard of the thread, and what it may read. *)
Lemma held r qs : acts_of th = [AWrite r qs] ->
  exists w t y, guarded (columns := item_columns) s r qs w t y /\ exists n, M !! r = Some (y, n).
Proof using Hs.
  intros Ea. assert (Hs' := Hs). rewrite Ea in Hs'.
  destruct (guard_inv (L := test_laws) 1 prob_one s p1 (AWrite r qs) p2 M r qs Hs' (or_intror eq_refl))
    as (w & t & y & n & Hgd & Hm & _). exists w, t, y. split; [done|]. by exists n.
Qed.

Lemma promote_step r : th_at th = SPromote r -> result.
Proof using Hs Hi Ht.
  intros Ea. pose proof Ht as [Hf Hin]. rewrite Ea in Hin.
  assert (Eacts : acts_of th = [AWrite r []]) by (unfold acts_of; by rewrite Ea).
  assert (Hs' := Hs). rewrite Eacts in Hs'. simpl in Hs'. unfold thread_step. rewrite Ea.
  assert (Hok : step_ok (columns := item_columns) (mut_columns := item_columns) p1 p2 M
    (do_promote s r QUERY PROBE_LEN 1 (c_u c))).
  { apply (promote_ok (L := test_laws) PROBE_LEN 1 prob_one s p1 p2 M r []); [done|].
    intros f Hfq. pose proof query_words as Hw. unfold words_of in Hw. rewrite Forall_forall in Hw. by apply Hw. }
  pose proof Hok as (l & new & s' & M' & E & _). rewrite E in Hok. rewrite E.
  destruct (held r [] Eacts) as (w & t & y & (Hw & Hwf & Hrid & _ & _ & _ & Hst & _) & _).
  assert (Hshape : l = Tau /\ exists a', new = [a'] /\ (acting r a' \/ exists v, a' = AWrite r [(QUERY, v)]) /\
    (act_rank a' <= 2)%nat).
  { unfold do_promote in E. rewrite (load_word_ok _ _ _ Hw) in E. cbn [mbind outcome_bind] in E.
    rewrite is_cached_view in E by done. unfold steady in Hst. destruct (ov_cached w) eqn:Ec; inv_ret.
    - destruct x as [v s1]. inv_ret. simplify_eq. split; [done|]. eexists. split; [done|]. split; [right; by eexists|simpl; lia].
    - unfold Rid_ok in Hrid. destruct Hst as (Hid & _). rewrite to_rid_view in E0 by (done || lia). inv_ret.
      case_match; inv_ret; simplify_eq; (split; [done|]; eexists; split; [done|]);
        (split; [by first [left; split|right; eexists]|simpl; lia]). }
  destruct Hshape as (El & a' & -> & Ha' & Hrk). runm.
  apply (moved l a' s' (th_todo th) r (AWrite r [])); try done.
  - unfold counts. by rewrite Ea.
  - intros _. destruct (promoted_ok rids counted th r a' _ Hin eq_refl Ha') as (_ & _ & _ & Hr).
    unfold rank at 2. rewrite Ea. lia.
Qed.

Lemma compare_step r v f fs : th_at th = SCompare r v (f :: fs) -> result.
Proof using Hs Hi Ht.
  intros Ea. pose proof Ht as [Hf Hst]. rewrite Ea in Hst. destruct Hst as (Hin & Hwords & Hsub).
  apply Forall_cons in Hwords as [[Hcol Hlf] Hwords].
  pose proof Hin as (idx & rest & Et & Hr). unfold thread_step. rewrite Ea, Et.
  destruct (Hi idx r Hr) as (x & n & Ex & Hlx & Hm). rewrite Ex. runm.
  pose proof (columns_in_tuple (SchemaLaws := test_laws) f Hcol) as Hft.
  unfold read_field. rewrite <-Hlf, (raw_read_field x f tuple_size) by done. runm.
  destruct (held r [(QUERY, v)]) as (w & t & y & Hgd & k & Hm'); [unfold acts_of; by rewrite Ea|].
  rewrite (do_get_ok (L := test_laws) s r _ w t y QUERY v f Hgd) by (by left || (apply Hsub; by left)). runm.
  simplify_eq. rewrite Z.eqb_refl. runm.
  do 4 eexists. split; [done|]. unfold acts_of in Hs. rewrite Ea in Hs.
  split; [exact Hs|]. split; [done|]. split; [|split].
  - split; [by rewrite <-Et|]. split; [by exists idx, rest|]. split; [done|]. intros g Hg. apply Hsub. by right.
  - left. split; [done|]. unfold counts. by rewrite Ea.
  - intros _ _ _ _. unfold rank. rewrite Ea, Et. simpl. lia.
Qed.

Lemma drop_step r v : th_at th = SCompare r v [] -> result.
Proof using Hs Hi Ht.
  intros Ea. pose proof Ht as [Hf Hst]. rewrite Ea in Hst. destruct Hst as (Hin & _).
  pose proof Hin as (idx & rest & Et & Hr). unfold thread_step. rewrite Ea.
  assert (Hs' := Hs). unfold acts_of in Hs'. rewrite Ea in Hs'. simpl in Hs'.
  destruct (write_drop_ok (mut_columns := item_columns) (L := test_laws) 1 prob_one s p1 p2 M r _ Hs')
    as (l & new & s' & M' & E & Hsp & Hsim).
  apply bind_Ret_inv in E as (s1 & -> & E). injection E as <- <- ->. runm.
  do 4 eexists. split; [done|]. split; [exact Hsim|]. split; [|split; [|split]].
  - inversion Hsp; subst. by eapply items_in_relock.
  - rewrite Et in *. apply Forall_cons in Hf as [_ Hf]. by split.
  - left. split; [done|]. unfold counts. by rewrite Ea.
  - intros _ _ _ _. unfold rank. rewrite Ea, Et. simpl. lia.
Qed.

(** The accesses that leave the memory alone. *)
Lemma quiet_step left' th' :
  acts_of th = [] -> acts_of th' = [] -> thread_ok rids counted th' ->
  (counted = true ->
    (left' = remaining /\ counts th' = counts th) \/
    (left' = wrap 64 (remaining - 1) /\ counts th = 1%nat /\ counts th' = 0%nat)) ->
  (c = calm -> th_at th <> SLock -> th_at th <> SWait -> th_at th <> SDone -> (rank th' < rank th)%nat) ->
  stepped_ok rids counted c p1 p2 th remaining (Ret (s, left', th')).
Proof using Hs Hi.
  intros Ea Ea' Hok Hc Hrk. exists s, left', th', M. rewrite Ea'. rewrite Ea in Hs. by split_and!.
Qed.

Lemma thread_step_ok : result.
Proof using Hs Hi Ht.
  destruct (th_at th) as [|r|a|r v [|f fs]| | |] eqn:Ea.
  - destruct (th_todo th) as [|idx rest] eqn:Et; [|by eapply lock_step].
    unfold thread_step. rewrite Ea, Et. apply quiet_step; unfold acts_of, counts; rewrite ?Ea.
    + done.
    + by destruct counted.
    + split; [by constructor|]. destruct counted; done.
    + intros ->. by left.
    + done.
  - by eapply promote_step.
  - by eapply acting_step.
  - by eapply drop_step.
  - by eapply compare_step.
  - unfold thread_step. rewrite Ea. apply quiet_step; unfold acts_of, counts; rewrite ?Ea; try done.
    + destruct Ht as [? Hc]. rewrite Ea in Hc. by split.
    + intros _. by right.
    + intros _ _ _ _. unfold rank. rewrite Ea. simpl. lia.
  - unfold thread_step. rewrite Ea. apply quiet_step; unfold acts_of, counts; rewrite ?Ea; try done.
    + destruct (remaining =? 0); [done|]. by rewrite Ea.
    + destruct (remaining =? 0); [|done]. split; [apply Ht|done].
    + intros _. left. split; [done|]. destruct (remaining =? 0); [done|]. by rewrite Ea.
  - unfold thread_step. rewrite Ea. apply quiet_step; unfold acts_of, counts; rewrite ?Ea; try done.
    intros _. by left.
Qed.
End step.

(** ** Runs *)
Definition tinv (rids : list Rid) (counted : bool) (st : tstate) : Prop :=
  Forall (thread_ok rids counted) (t_threads st) /\
  Z.of_nat (length (t_threads st)) < 2 ^ 64 /\
  (counted = true -> t_left st = Z.of_nat (sum_list_with counts (t_threads st))) /\
  exists M, simulates (t_mem st, t_threads st ≫= acts_of) M /\ items_in M rids.

Definition measure (st : tstate) : nat := sum_list_with rank (t_threads st).

Lemma counts_le ths : (sum_list_with counts ths <= length ths)%nat.
Proof. induction ths as [|th ths IH]; simpl; [lia|]. unfold counts at 1. case_match; lia. Qed.

Lemma sum_middle (f : thread -> nat) t1 th t2 :
  sum_list_with f (t1 ++ th :: t2) = (f th + sum_list_with f (t1 ++ t2))%nat.
Proof. rewrite !sum_list_with_app. simpl. lia. Qed.

(** Any thread may be next: the step returns and keeps the invariant. *)
Lemma test_step_ok rids counted k c st :
  tinv rids counted st ->
  exists st', test_step rids counted k c st = Ret st' /\ tinv rids counted st' /\
    forall th, t_threads st !! k = Some th -> c = calm ->
      th_at th <> SLock -> th_at th <> SWait -> th_at th <> SDone -> (measure st' < measure st)%nat.
Proof.
  intros (Hok & Hlen & Hleft & M & Hs & Hi). unfold test_step.
  destruct (t_threads st !! k) as [th|] eqn:Ek; [|by exists st; split; [done|]; split; [split_and!; eauto|done]].
  apply list_elem_of_split_length in Ek as (t1 & t2 & Et & ->).
  rewrite Et in *. rewrite bind_middle in Hs. apply Forall_app in Hok as [Hok1 [Hth Hok2]%Forall_cons].
  destruct (thread_step_ok rids counted c (t_mem st) (t_left st) _ _ M th Hs Hi Hth)
    as (s' & left' & th' & M' & E & Hs' & Hi' & Hth' & Hc & Hrk).
  rewrite E. runm. eexists. split; [done|].
  replace (<[length t1 := th']> (t1 ++ th :: t2)) with (t1 ++ th' :: t2)
    by (rewrite <-(Nat.add_0_r (length t1)), insert_app_r; done).
  split; [split; [|split; [|split]]|].
  - simpl. apply Forall_app. split; [done|]. by constructor.
  - simpl. rewrite length_app in *. done.
  - intros ->. simpl. specialize (Hleft eq_refl). rewrite sum_middle in *.
    destruct (Hc eq_refl) as [[-> ->]|(-> & E1 & E2)]; [done|]. rewrite E1, E2 in *.
    rewrite Hleft. pose proof (counts_le (t1 ++ t2)). rewrite length_app in *. simpl in Hlen.
    rewrite wrap_small; unfold fits; lia.
  - exists M'. simpl. by rewrite bind_middle.
  - intros th0 [= <-] Hcalm H1 H2 H3. unfold measure. simpl. rewrite Et, !sum_middle.
    specialize (Hrk Hcalm H1 H2 H3). lia.
Qed.

Lemma run_threads_ok rids counted sched : forall st,
  tinv rids counted st ->
  exists st', run_threads rids counted sched st = Ret st' /\ tinv rids counted st'.
Proof.
  induction sched as [|[k c] sched IH]; intros st Hst; [by exists st|]. cbn [run_threads].
  destruct (test_step_ok rids counted k c st Hst) as (st1 & -> & Hst1 & _). runm. by apply IH.
Qed.

Lemma run_threads_app rids counted sched more st :
  run_threads rids counted (sched ++ more) st =
    (st ← run_threads rids counted sched st; run_threads rids counted more st).
Proof.
  revert st. induction sched as [|[k c] sched IH]; intros st; [done|]. cbn [run_threads app].
  destruct (test_step rids counted k c st); [|done..]. runm. apply IH.
Qed.

(** A thread that is in the middle of its loop's body. *)
Definition busy (th : thread) : bool :=
  match th_at th with SLock | SWait | SDone => false | _ => true end.

Lemma idle_acts ths : Forall (fun th => busy th = false) ths -> ths ≫= acts_of = [].
Proof.
  induction 1 as [|th ths Hth _ IH]; [done|]. rewrite bind_cons, IH, app_nil_r.
  unfold busy, acts_of in *. by destruct (th_at th).
Qed.

Lemma update_measure st k th s left th' :
  t_threads st !! k = Some th -> (rank th' < rank th)%nat ->
  (measure (mkT s left (<[k := th']> (t_threads st))) < measure st)%nat.
Proof.
  intros Ek Hrk. apply list_elem_of_split_length in Ek as (t1 & t2 & Et & ->). unfold measure. simpl.
  rewrite Et. replace (<[length t1 := th']> (t1 ++ th :: t2)) with (t1 ++ th' :: t2)
    by (rewrite <-(Nat.add_0_r (length t1)), insert_app_r; done).
  rewrite !sum_middle. lia.
Qed.

#[local] Instance at_lock_dec th : Decision (th_at th = SLock).
Proof. destruct (th_at th); ((left; done) || (right; done)). Defined.
#[local] Instance at_wait_dec th : Decision (th_at th = SWait).
Proof. destruct (th_at th); ((left; done) || (right; done)). Defined.
#[local] Instance finished_dec st : Decision (finished st).
Proof.
  refine (Forall_dec (fun th => th_at th = SDone) (t_threads st)).
  intros th. destruct (th_at th); ((left; done) || (right; done)).
Defined.

(** While the test runs, some thread can come closer to its end. *)
Lemma calm_progress rids counted st :
  tinv rids counted st -> ~ finished st ->
  exists k st', test_step rids counted k calm st = Ret st' /\ tinv rids counted st' /\
    (measure st' < measure st)%nat.
Proof.
  intros Hst Hnf. pose proof Hst as (Hok & _ & Hleft & M & Hs & Hi).
  destruct (decide (Exists (fun th => busy th = true) (t_threads st))) as [Hb|Hb].
  { apply Exists_exists in Hb as (th & Hin & Hb). apply list_elem_of_lookup in Hin as [k Hk].
    destruct (test_step_ok rids counted k calm st Hst) as (st' & E & Hst' & Hm).
    exists k, st'. split; [done|]. split; [done|]. unfold busy in Hb. apply (Hm th Hk eq_refl); by intros E'; rewrite E' in Hb. }
  assert (Hidle : Forall (fun th => busy th = false) (t_threads st)).
  { apply Forall_forall. intros th Hin. destruct (busy th) eqn:E; [|done]. destruct Hb.
    apply Exists_exists. by exists th. }
  rewrite idle_acts in Hs by done.
  enough (Hgo : exists k th s' left' th', t_threads st !! k = Some th /\
    thread_step rids counted calm (t_mem st) (t_left st) th = Ret (s', left', th') /\
    (rank th' < rank th)%nat).
  { destruct Hgo as (k & th & s' & left' & th' & Hk & E & Hrk).
    destruct (test_step_ok rids counted k calm st Hst) as (st' & E' & Hst' & _).
    exists k, st'. split; [done|]. split; [done|]. unfold test_step in E'. rewrite Hk, E in E'.
    injection E' as <-. by eapply update_measure. }
  destruct (decide (Exists (fun th => th_at th = SLock) (t_threads st)))
    as [Hl|Hl].
  - apply Exists_exists in Hl as (th & Hin & Ea). pose proof Hin as Hin'.
    apply list_elem_of_lookup in Hin' as [k Hk]. exists k, th.
    rewrite Forall_forall in Hok. destruct (Hok th Hin) as [Hf _]. unfold thread_step. rewrite Ea.
    destruct (th_todo th) as [|idx rest] eqn:Et.
    + do 3 eexists. split; [done|]. split; [done|]. unfold rank. rewrite Ea, Et. destruct counted; simpl; lia.
    + apply Forall_cons in Hf as [Hidx _]. destruct (lookup_lt_is_Some_2 rids idx Hidx) as [rid Hr].
      rewrite (proj2 (index_Ret rids _ rid)) by (rewrite Nat2Z.id; split; [lia|done]). runm.
      destruct (free_lock (t_mem st) M rid Hs) as (w & s' & E & _); [by eapply item_word|].
      cbn [c_weak calm]. rewrite E. runm. do 3 eexists. split; [done|]. split; [done|].
      unfold rank. rewrite Ea, Et. simpl. lia.
  - assert (Hall : Forall (fun th => th_at th = SWait \/ th_at th = SDone) (t_threads st)).
    { apply Forall_forall. intros th Hin. rewrite Forall_forall in Hidle. specialize (Hidle th Hin).
      unfold busy in Hidle. destruct (th_at th) eqn:Ea; try done; auto. destruct Hl.
      apply Exists_exists. by exists th. }
    destruct (decide (Exists (fun th => th_at th = SWait) (t_threads st)))
      as [Hw|Hw].
    2:{ destruct Hnf. apply Forall_forall. intros th Hin. rewrite Forall_forall in Hall.
        destruct (Hall th Hin) as [Ea|]; [|done]. destruct Hw. apply Exists_exists. by exists th. }
    apply Exists_exists in Hw as (th & Hin & Ea). pose proof Hin as Hin'.
    apply list_elem_of_lookup in Hin' as [k Hk]. exists k, th.
    rewrite Forall_forall in Hok. destruct (Hok th Hin) as [_ Hc]. rewrite Ea in Hc.
    assert (Hz : sum_list_with counts (t_threads st) = 0%nat).
    { clear -Hall. induction Hall as [|th ths Hth _ IH]; [done|]. simpl. rewrite IH.
      unfold counts. by destruct Hth as [-> | ->]. }
    unfold thread_step. rewrite Ea, (Hleft Hc), Hz. simpl. do 3 eexists. split; [done|]. split; [done|].
    unfold rank. rewrite Ea. simpl. lia.
Qed.

(** The test can always be brought to its end. *)
Lemma can_finish rids counted : forall n st,
  tinv rids counted st -> (measure st < n)%nat ->
  exists sched st', run_threads rids counted sched st = Ret st' /\ tinv rids counted st' /\ finished st'.
Proof.
  induction n as [|n IH]; intros st Hst Hn; [lia|].
  destruct (decide (finished st)) as [Hf|Hf]; [by exists [], st|].
  destruct (calm_progress rids counted st Hst Hf) as (k & st1 & E1 & Hst1 & Hm).
  destruct (IH st1 Hst1) as (sched & st' & E & Hst' & Hf'); [lia|].
  exists ((k, calm) :: sched), st'. cbn [run_threads]. by rewrite E1.
Qed.

(** A finished test leaves every item free and in its place. *)
Lemma finished_items rids counted st i rid :
  tinv rids counted st -> finished st -> rids !! i = Some rid ->
  exists x w, from_increasing TUPLE_SZ (Z.of_nat i) = Ret x /\ stored_record (t_mem st) rid = Some x /\
    sh_words (t_mem st) !! rid = Some w /\ read_lock_cnt w = 0.
Proof.
  intros (_ & _ & _ & M & Hs & Hi) Hf Hr.
  rewrite idle_acts in Hs.
  2:{ eapply Forall_impl; [exact Hf|]. intros th Ea. unfold busy. by rewrite Ea. }
  destruct (Hi i rid Hr) as (x & n & Ex & Hl & Hm).
  destruct (free_lock (t_mem st) M rid Hs) as (w & s' & _ & Hw & Hwf & Hlk); [by eapply item_word|].
  exists x, (encode w). split; [done|]. split; [|split; [done|by rewrite read_lock_cnt_view]].
  pose proof Hs as (_ & _ & Hrec). rewrite (stored_free (columns := item_columns) (t_mem st) M rid (Hrec rid)).
  by rewrite Hm.
Qed.

(** ** From [gen_cache_and_oid] to the shared memory *)
Section bridge.
Context {T Th : Type} `{KvMapLaws Z T} `{KvMapLaws TlsAllocator Th}.

Lemma lookup_of_list {A} (g : Rid -> A) (l : list Rid) r :
  (list_to_map ((fun r => (r, g r)) <$> l) : gmap Z A) !! r = if decide (r ∈ l) then Some (g r) else None.
Proof.
  induction l as [|a l IH]; [done|]. cbn [fmap list_fmap list_to_map foldr fst snd].
  destruct (decide (r = a)) as [->|Hne].
  - rewrite lookup_insert_eq. by rewrite decide_True by (by left).
  - rewrite lookup_insert_ne by done. simpl in IH. rewrite IH. by repeat case_decide; set_solver.
Qed.

Definition records_of (rids : list Rid) (cc : ClockCache T Th) : table_spec :=
  list_to_map ((fun r => (r, (default [] (record_value cc r), 0))) <$> rids).

Lemma shared_of_simulates rids cc :
  holds_items cc rids -> simulates (shared_of rids cc, []) (records_of rids cc) /\ items_in (records_of rids cc) rids.
Proof.
  intros (Hinv & Hall & Hh). pose proof Hinv as [(Hci & Hoa & [_ L2] & (Hcap & Hlen & Hf)) _].
  assert (Hin : forall i r, rids !! i = Some r -> r ∈ rids) by (intros i r; apply list_elem_of_lookup_2).
  split; [split; [|split; [by constructor|]]|].
  - destruct Hci as (Ec & Hc & _). split; [simpl; lia|]. by split.
  - intros r. unfold rec_inv, shared_of, records_of. simpl. rewrite !lookup_of_list.
    case_decide as Hr.
    + apply list_elem_of_lookup in Hr as [i Hr]. destruct (Hh i r Hr) as (Ha & Hl & x & Ex & Hlx & Hx).
      destruct (allocated_range _ _ Hoa Ha) as [Hb Hok]. split; [done|]. split; [lia|].
      destruct (record_cases cc r Hinv Ha) as (v & t & [Hw Hv] & Ht & Hlt & _ & Hcase).
      exists v, t. rewrite Hw. split; [done|]. split; [done|]. split; [exact Ht|]. split; [done|].
      assert (Hlk : lk v = 0).
      { unfold lock_state in Hl. rewrite Hw in Hl. simpl in Hl. rewrite read_lock_cnt_view in Hl by done. by injection Hl. }
      left. exists []. split; [done|]. split; [done|]. split; [lia|]. exists x.
      split; [|split; [by rewrite Hx|by constructor]].
      unfold steady. destruct Hcase as [(Hc & Hid & Hx')|(Hc & Hid & n & Hn & En & Hag & Hx')]; rewrite Hc.
      * split; [done|]. split; [|congruence]. intros j c (n & Hn & En & _).
        destruct (L2 j n Hn) as (_ & v' & Hv' & Hc' & _); [unfold Rid_ok in Hok; lia|]. rewrite En in Hv'.
        rewrite (has_view_eq _ _ _ _ Hv' (conj Hw Hv)) in Hc'. congruence.
      * exists (cn_val n). split; [|split; [done|congruence]]. split; [by exists n|].
        intros j c (n' & Hn' & En' & <-).
        assert (j = Z.to_nat (ov_id v)) as ->.
        { destruct (L2 j n' Hn') as (_ & v' & Hv' & _ & Hid'); [unfold Rid_ok in Hok; lia|]. rewrite En' in Hv'.
          rewrite (has_view_eq _ _ _ _ Hv' (conj Hw Hv)) in Hid'. lia. }
        split; [done|congruence].
    + split; [done|]. split; [done|]. intros Hne j c (n & Hn & En & _). destruct Hr.
      destruct (L2 j n Hn) as (Ha & _); [congruence|]. rewrite En in Ha. by apply Hall.
  - intros i rid Hr. destruct (Hh i rid Hr) as (_ & _ & x & Ex & Hlx & Hx). exists x, 0.
    split; [done|]. split; [done|]. unfold records_of. rewrite lookup_of_list, decide_True by eauto.
    by rewrite Hx.
Qed.

Lemma spawned_inv rids cc counted todos :
  holds_items cc rids -> Forall (Forall (fun idx => (idx < length rids)%nat)) todos ->
  Z.of_nat (length todos) < 2 ^ 64 ->
  tinv rids counted (mkT (shared_of rids cc) (Z.of_nat (length todos)) ((fun todo => mkThread todo SLock) <$> todos)).
Proof.
  intros Hh Htodo Hlen. destruct (shared_of_simulates rids cc Hh) as [Hs Hi].
  assert (Hok : Forall (thread_ok rids counted) ((fun todo => mkThread todo SLock) <$> todos)).
  { apply Forall_fmap. eapply Forall_impl; [exact Htodo|]. intros todo Hf. by split. }
  assert (Hidle : ((fun todo => mkThread todo SLock) <$> todos) ≫= acts_of = []).
  { apply idle_acts, Forall_fmap, Forall_true. done. }
  split; [done|]. simpl. rewrite length_fmap. split; [done|]. split.
  - intros _. f_equal. clear. induction todos as [|todo todos IH]; [done|]. cbn. f_equal. exact IH.
  - exists (records_of rids cc). rewrite Hidle. by split.
Qed.

(** C32: The multi-threaded tests pass in every interleaving of their threads'
    accesses: whatever the schedule, the slots that are probed, the exchanges
    that fail and the random draws, no assertion of the tests or of the cache
    fails and every access returns; once all threads have finished, every item
    is unlocked and what was inserted; and the test can be brought to that end
    from wherever the schedule has left it. *)
Theorem multi_test_passes capacity item_cnt counted todos sched tid (d : Z -> draws) ptr init :
  0 < Z.of_nat capacity < 2 ^ 20 -> Z.of_nat item_cnt < 2 ^ 20 -> 0 < ptr < 2 ^ 62 ->
  (forall cap, 0 <= cap -> length (init cap) = Z.to_nat cap /\ Forall (fun t => length t = tuple_size) (init cap)) ->
  (forall j, d_tid (d j) = tid) -> Z.of_nat (length todos) < 2 ^ 64 ->
  Forall (Forall (fun idx => (idx < item_cnt)%nat)) todos ->
  exists rids st, multi_test (T := T) (Th := Th) capacity item_cnt counted todos sched d ptr init = Ret (rids, st) /\
    (finished st -> forall i rid, rids !! i = Some rid ->
      exists x w, from_increasing TUPLE_SZ (Z.of_nat i) = Ret x /\
        stored_record (t_mem st) rid = Some x /\ sh_words (t_mem st) !! rid = Some w /\ read_lock_cnt w = 0) /\
    exists more st', multi_test (T := T) (Th := Th) capacity item_cnt counted todos (sched ++ more) d ptr init
      = Ret (rids, st') /\ finished st'.
Proof.
  intros Hcap Hcnt Hptr Hinit Hd Hlen Htodo. unfold multi_test.
  destruct (gen_cache_and_oid_ok (T := T) (Th := Th) capacity item_cnt tid d ptr init) as (cc & rids & -> & Hh & <-);
    [done..|]. runm.
  pose proof (spawned_inv rids cc counted todos Hh Htodo Hlen) as Hst.
  destruct (run_threads_ok rids counted sched _ Hst) as (st & E & Hst'). rewrite E. runm.
  destruct (can_finish rids counted (S (measure st)) st Hst' ltac:(lia)) as (more & st' & E' & _ & Hf).
  exists rids, st. split; [done|]. split; [intros Hfin i rid; by eapply finished_items|].
  exists more, st'. rewrite run_threads_app, E. runm. by rewrite E'.
Qed.
End bridge.

Lemma multi_test_passes_witness :
  exists rids st, clock_multi_insert (T := gmap Z Z) (Th := gmap Z TlsAllocator)
    [(0%nat, calm); (1%nat, calm); (0%nat, calm); (1%nat, calm)] plain 4096 zero_items = Ret (rids, st).
Proof.
  destruct (multi_test_passes (T := gmap Z Z) (Th := gmap Z TlsAllocator) 100 (1000 * 8) true
              (replicate 8 (seq 0 1000)) [(0%nat, calm); (1%nat, calm); (0%nat, calm); (1%nat, calm)] 0 plain 4096 zero_items)
    as (rids & st & E & _); [lia|lia|lia| |done|reflexivity| |].
  - intros cap Hc. unfold zero_items. rewrite length_replicate. split; [done|]. apply Forall_replicate.
    apply length_replicate.
  - apply Forall_replicate, Forall_seq. intros j Hj. lia.
  - exists rids, st. exact E.
Defined.

(** Two threads over a cache of two slots, taking turns: both come to an end,
    after evictions and refused locks. *)
Definition turns (n : nat) : list (nat * choice) :=
  (fun j => ((j mod 2)%nat, mkChoice false (Z.of_nat (j / 2 mod 2)) false 0)) <$> seq 0 n.

Example two_threads_finish :
  (p ← multi_test (T := gmap Z Z) (Th := gmap Z TlsAllocator) 2 4 true [[0; 1; 2]; [0; 3; 1]]%nat (turns 160)
         plain 4096 zero_items;
   Ret (bool_decide (finished p.2), t_left p.2)) = Ret (true, 0).
Proof. vm_compute. reflexivity. Qed.
