(* ===== verification/Guarded.v ===== *)
(** * Guarded tables: what a transaction may rely on

    The interface of a table (src/table.rs) to its clients: locks on records,
    column reads and writes through a guard, insertions and range scans, over
    an abstract state that maps record ids to tuples under reader-writer locks
    (the specification of CacheMachine.v).  [DbTable] implements it. *)

From Stdlib Require Import QArith.
From S2P Require Import Prelude Query Schema External NodeMeta Oid ObjAlloc OidArray CacheInner ClockCache CacheMachine Table.
Open Scope Z_scope.

(** ** Indexes that can be scanned

    A scan gives the first [n] of the pairs whose keys lie between the bounds,
    by key.  Whether the upper bound counts is left open. *)
Class RangeIndex (Ix : Type) := {
  ix_range : Ix -> Z -> Z -> nat -> list (Z * Rid);
  ix_remove : Ix -> Z -> Ix;
}.

Class RangeIndexLaws (Ix : Type) `{DbIndex Ix} `{RangeIndex Ix} := {
  ix_range_in : forall i low high n k r, (k, r) ∈ ix_range i low high n ->
    index_get i k = Some r /\ low <= k <= high;
  ix_range_length : forall i low high n, (length (ix_range i low high n) <= n)%nat;
  ix_range_sorted : forall i low high n j1 j2 p1 p2, ix_range i low high n !! j1 = Some p1 ->
    ix_range i low high n !! j2 = Some p2 -> (j1 < j2)%nat -> p1.1 < p2.1;
  ix_range_first : forall i low high n k r k' r', (k, r) ∈ ix_range i low high n ->
    index_get i k' = Some r' -> low <= k' < k -> (k', r') ∈ ix_range i low high n;
  ix_range_complete : forall i low high n k r, (length (ix_range i low high n) < n)%nat ->
    index_get i k = Some r -> low <= k < high -> (k, r) ∈ ix_range i low high n;
  ix_get_remove : forall i k k',
    index_get (ix_remove i k) k' = if decide (k = k') then None else index_get i k';
}.

(** A scan finds something if there is something. *)
Lemma ix_range_none {Ix : Type} `{RangeIndexLaws Ix} i low high n k :
  ix_range i low high n = [] -> (0 < n)%nat -> low <= k < high -> index_get i k = None.
Proof.
  intros E Hn Hk. destruct (index_get i k) as [r|] eqn:Hg; [|done].
  apply (ix_range_complete i low high n) in Hg; [|by rewrite E|done]. rewrite E in Hg. by apply not_elem_of_nil in Hg.
Qed.

(** The first pair of a scan has the least key. *)
Lemma ix_range_least {Ix : Type} `{RangeIndexLaws Ix} i low high n p l :
  ix_range i low high n = p :: l ->
  index_get i p.1 = Some p.2 /\ low <= p.1 <= high /\
  forall k, low <= k < p.1 -> index_get i k = None.
Proof.
  intros E. assert (Hin : (p.1, p.2) ∈ ix_range i low high n) by (rewrite E; destruct p; by left).
  destruct (ix_range_in _ _ _ _ _ _ Hin) as [Hg Hb]. split; [done|]. split; [done|]. intros k Hk.
  destruct (index_get i k) as [r'|] eqn:Hg'; [|done].
  apply (ix_range_first _ _ _ _ _ _ _ _ Hin) in Hg'; [|done]. apply list_elem_of_lookup in Hg' as [j Hj].
  destruct j as [|j]; [rewrite E in Hj; simplify_eq/=; lia|].
  assert (p.1 < k); [|lia]. apply (ix_range_sorted i low high n 0 (S j) p (k, r')); [by rewrite E|exact Hj|lia].
Qed.

#[export] Instance Art_range_index {A} `{ArtRaw A} : RangeIndex (Art A) := {
  ix_range i low high n := Art_range i low high n;
  ix_remove i k := mkArt (kv_remove (art i) k);
}.

(** ** The operations *)
Class GuardedTable (Ix Tb V : Type) := {
  gt_index : Tb -> Ix;
  gt_read_oid : Z -> draws -> Tb -> outcome (result Rid TransactionError * Tb);
  gt_write_oid : Z -> draws -> Tb -> outcome (result Rid TransactionError * Tb);
  gt_lock_rid_r : Rid -> draws -> Tb -> outcome (result Rid TransactionError * Tb);
  gt_lock_rid_w : Rid -> draws -> Tb -> outcome (result Rid TransactionError * Tb);
  gt_read : Rid -> FieldsMeta -> draws -> Tb -> outcome (V * Tb);
  gt_promote : Rid -> FieldsMeta -> draws -> Tb -> outcome (V * Tb);
  gt_get : V -> Field -> Tb -> outcome obj;
  gt_set : V -> Field -> obj -> Tb -> outcome Tb;
  gt_drop_r : Rid -> Tb -> outcome Tb;
  gt_drop_w : Rid -> Tb -> outcome Tb;
  gt_insert : obj -> draws -> Tb -> outcome (Rid * Tb);
  gt_range : Z -> Z -> nat -> Tb -> outcome (list Rid);
}.

(** ** The abstract state *)
Section spec.
Context (columns mut_columns : list Field).

(** The result of an attempt to lock [r]: the guard, with the step of the
    specification; or an error that leaves everything as it was, [LockBusy]
    for a disturbed exchange and [busy] for a record somebody holds. *)
Inductive lock_result (l : label) (busy : TransactionError) (r : Rid) (M : table_spec)
    : result Rid TransactionError -> table_spec -> Prop :=
| lock_ok M' : sstep columns mut_columns M l M' -> lock_result l busy r M (Ok r) M'
| lock_disturbed : lock_result l busy r M (Err LockBusy) M
| lock_busy x n : M !! r = Some (x, n) -> n <> 0 -> lock_result l busy r M (Err busy) M.

(** Locking by key looks the record up in the index. *)
Inductive oid_result {Ix : Type} `{DbIndex Ix} (l : Rid -> label) (busy : TransactionError)
    (ix : Ix) (k : Z) (M : table_spec) : result Rid TransactionError -> table_spec -> Prop :=
| oid_missing : index_get ix k = None -> oid_result l busy ix k M (Err IndexNotFound) M
| oid_found r res M' :
    index_get ix k = Some r -> lock_result (l r) busy r M res M' -> oid_result l busy ix k M res M'.

(** A record that exists and has room for one more reader. *)
Definition lockable (M : table_spec) (r : Rid) : Prop :=
  exists x n, M !! r = Some (x, n) /\ (0 <= n < 126 \/ n = 128).
End spec.

(** ** The promises

    [gt_sim t M]: the table [t] is in the abstract state [M]; [gt_valid t r q v]:
    the value [v], obtained with query [q], points to record [r];
    [gt_full t d]: the thread of [d] finds no record id left. *)
Class GuardedTableLaws (S : Schema) (columns mut_columns : list Field) (Ix Tb V : Type)
    `{DbIndex Ix} `{RangeIndex Ix} `{GuardedTable Ix Tb V} := {
  gt_sim : Tb -> table_spec -> Prop;
  gt_valid : Tb -> Rid -> FieldsMeta -> V -> Prop;
  gt_full : Tb -> draws -> Prop;
  gt_lock_rid_r_ok : forall t M r d, gt_sim t M -> lockable M r ->
    exists res t' M', gt_lock_rid_r r d t = Ret (res, t') /\ gt_sim t' M' /\
      gt_index t' = gt_index t /\ lock_result columns mut_columns (LReadLock r) ReadLockBusy r M res M';
  gt_lock_rid_w_ok : forall t M r d, gt_sim t M -> lockable M r ->
    exists res t' M', gt_lock_rid_w r d t = Ret (res, t') /\ gt_sim t' M' /\
      gt_index t' = gt_index t /\ lock_result columns mut_columns (LWriteLock r) WriteLockBusy r M res M';
  gt_read_oid_ok : forall t M k d, gt_sim t M ->
    (forall r, index_get (gt_index t) k = Some r -> lockable M r) ->
    exists res t' M', gt_read_oid k d t = Ret (res, t') /\ gt_sim t' M' /\ gt_index t' = gt_index t /\
      oid_result columns mut_columns LReadLock ReadLockBusy (gt_index t) k M res M';
  gt_write_oid_ok : forall t M k d, gt_sim t M ->
    (forall r, index_get (gt_index t) k = Some r -> lockable M r) ->
    exists res t' M', gt_write_oid k d t = Ret (res, t') /\ gt_sim t' M' /\ gt_index t' = gt_index t /\
      oid_result columns mut_columns LWriteLock WriteLockBusy (gt_index t) k M res M';
  gt_read_ok : forall t M r x n q d, gt_sim t M -> M !! r = Some (x, n) ->
    exists v t', gt_read r q d t = Ret (v, t') /\ gt_sim t' M /\ gt_index t' = gt_index t /\
      gt_valid t' r q v;
  gt_promote_ok : forall t M r x q d, gt_sim t M -> M !! r = Some (x, 128) ->
    exists v t', gt_promote r q d t = Ret (v, t') /\ gt_sim t' M /\ gt_index t' = gt_index t /\
      gt_valid t' r q v;
  gt_get_ok : forall t M r x n q v f, gt_sim t M -> M !! r = Some (x, n) -> gt_valid t r q v ->
    covers q f -> f ∈ columns -> gt_get v f t = Ret (load_field x f);
  gt_set_ok : forall t M r x n q v f bs, gt_sim t M -> M !! r = Some (x, n) -> gt_valid t r q v ->
    covers q f -> f ∈ mut_columns -> length bs = Z.to_nat (Field_len f) ->
    exists t', gt_set v f bs t = Ret t' /\ gt_sim t' (<[r := (store_field x f bs, n)]> M) /\
      gt_index t' = gt_index t /\ gt_valid t' r q v;
  gt_drop_r_ok : forall t M r x n, gt_sim t M -> M !! r = Some (x, n) -> 0 < n <= 127 ->
    exists t', gt_drop_r r t = Ret t' /\ gt_sim t' (<[r := (x, n - 1)]> M) /\ gt_index t' = gt_index t;
  gt_drop_w_ok : forall t M r x, gt_sim t M -> M !! r = Some (x, 128) ->
    exists t', gt_drop_w r t = Ret t' /\ gt_sim t' (<[r := (x, 0)]> M) /\ gt_index t' = gt_index t;
  gt_rid_ok : forall t M r, gt_sim t M -> is_Some (M !! r) -> Rid_ok r;
  gt_range_ok : forall t low high n,
    Forall (fun p => Rid_ok p.2) (ix_range (gt_index t) low high n) ->
    (length (ix_range (gt_index t) low high n) <= n)%nat ->
    gt_range low high n t = Ret (snd <$> ix_range (gt_index t) low high n);
  gt_insert_ok : forall t M x k d, gt_sim t M -> length x = tuple_size -> key x = Ret k ->
    (exists r t', gt_insert x d t = Ret (r, t') /\ M !! r = None /\
       gt_sim t' (<[r := (x, 128)]> M) /\ gt_index t' = index_insert (gt_index t) k r) \/
    (gt_insert x d t = Panic /\ gt_full t d);
}.

(** ** [DbTable] implements the interface *)
Section dbtable.
Context {A : Type} `{ArtRaw A} {T M : Type} `{KvMap Z T} `{KvMap TlsAllocator M} {Sc : Schema}.
Abbreviation table := (DbTable (Art A) T M).

Definition weak_of (d : draws) : bool := fst (d_weak d 0%nat).

(** [range] fills the caller's buffer of [n] record ids, all zero at first; the
    caller uses the scanned ones. *)
Definition scan (low high : Z) (n : nat) (t : table) : outcome (list Rid) :=
  '(scanned, buffer) ← DbTable_range t low high (replicate n 0);
  cnt ← unwrap scanned;
  Ret (take (Z.to_nat cnt) buffer).

#[export] Instance DbTable_guarded : GuardedTable (Art A) table QueryValue := {
  gt_index t := tb_index t;
  gt_read_oid k d t := read_oid k (weak_of d) t;
  gt_write_oid k d t := write_oid k (weak_of d) t;
  gt_lock_rid_r r d t := lock_rid_r r (weak_of d) t;
  gt_lock_rid_w r d t := lock_rid_w r (weak_of d) t;
  gt_read r q d t := DbTable_read r q (d_u1 d) t;
  gt_promote r q d t := DbTable_read_and_promote (d_tid d) r q (d_u1 d) (d_u2 d) (d_u3 d) (d_weak d) t;
  gt_get v f t := get_value v f (tb_cache t);
  gt_set v f bs t := on_cache (get_value_mut v f bs (tb_cache t)) t;
  gt_drop_r r t := on_cache (drop_read_guard r (tb_cache t)) t;
  gt_drop_w r t := on_cache (drop_write_guard r (tb_cache t)) t;
  gt_insert x d t := DbTable_insert (d_tid d) x (replicate (d_spin d) true ++ [false]) (d_u1 d) (d_weak d) t;
  gt_range low high n t := scan low high n t;
}.
End dbtable.

Section dbtable_laws.
Context {A : Type} `{ArtRaw A} `{!KvMapLaws Rid A}.
Context {T M : Type} `{KvMapLaws Z T} `{KvMapLaws TlsAllocator M}.
Context {Sc : Schema} {columns mut_columns : list Field} {L : SchemaLaws Sc columns mut_columns}.
Implicit Types (t : DbTable (Art A) T M) (R : table_spec).

Definition table_sim t R : Prop :=
  cache_inv columns (tb_cache t) /\
  (forall r, allocated_rid (tb_cache t) r <-> is_Some (R !! r)) /\
  (forall r x n, R !! r = Some (x, n) ->
     record_value (tb_cache t) r = Some x /\ lock_state (tb_cache t) r = Some n).

Lemma sim_lookup t R r x n :
  table_sim t R -> R !! r = Some (x, n) ->
  cache_inv columns (tb_cache t) /\ allocated_rid (tb_cache t) r /\
  record_value (tb_cache t) r = Some x /\ lock_state (tb_cache t) r = Some n.
Proof.
  intros (Hi & Ha & Hv) Hr. split; [done|]. split; [apply Ha; by eexists|]. by apply Hv.
Qed.

(** A change of the lock of [r]. *)
Lemma sim_relocked t R r x n n' c :
  table_sim t R -> R !! r = Some (x, n) -> relocked columns (tb_cache t) r n' c ->
  table_sim (mkTable c (tb_index t)) (<[r := (x, n')]> R).
Proof.
  intros (Hi & Ha & Hv) Hr (Hi' & Ha' & Hl & Hk). split; [done|]. simpl. split.
  - intros r'. rewrite Ha', Ha. destruct (decide (r' = r)) as [->|Hne].
    + rewrite lookup_insert_eq. split; intros _; [by eexists|]. rewrite Hr. by eexists.
    + by rewrite lookup_insert_ne.
  - intros r' y m. destruct (decide (r' = r)) as [->|Hne].
    + rewrite lookup_insert_eq. intros [= <- <-]. split; [|done].
      destruct (Hk r) as [-> _]; [apply Ha; rewrite Hr; by eexists|]. by eapply Hv.
    + rewrite lookup_insert_ne by done. intros Hr'. destruct (Hv r' y m Hr') as [Hv' Hl'].
      destruct (Hk r') as [-> El]; [apply Ha; rewrite Hr'; by eexists|]. by rewrite El.
Qed.

Lemma sim_relocked_same t R r x n c :
  table_sim t R -> R !! r = Some (x, n) -> relocked columns (tb_cache t) r n c ->
  table_sim (mkTable c (tb_index t)) R.
Proof.
  intros Ht Hr Hc. rewrite <-(insert_id R r (x, n)) by done. by apply (sim_relocked t R r x n n c).
Qed.

Lemma sim_same t R c :
  table_sim t R -> same_records columns (tb_cache t) c -> table_sim (mkTable c (tb_index t)) R.
Proof.
  intros (Hi & Ha & Hv) (Hi' & Ha' & Hk). split; [done|]. simpl. split; [intros; by rewrite Ha', Ha|].
  intros r x n Hr. destruct (Hk r) as [-> ->]; [|by apply Hv]. apply Ha. rewrite Hr. by eexists.
Qed.

Lemma lock_rid_w_sim t R r weak :
  table_sim t R -> lockable R r ->
  exists res t' R', lock_rid_w r weak t = Ret (res, t') /\ table_sim t' R' /\ tb_index t' = tb_index t /\
    lock_result columns mut_columns (LWriteLock r) WriteLockBusy r R res R'.
Proof.
  intros Ht (x & n & Hr & Hn). destruct (sim_lookup _ _ _ _ _ Ht Hr) as (Hi & Ha & Hv & Hl).
  destruct (write_lock_ok (tb_cache t) r n weak Hi Ha Hl) as (c & res & n' & E & Hrel & Hcase).
  unfold lock_rid_w. rewrite E. runm.
  destruct Hcase as [(-> & -> & ->)|[(-> & _ & ->)|(-> & Hn0 & ->)]];
    do 2 eexists; [exists (<[r := (x, 128)]> R)|exists R|exists R]; (split; [done|]).
  - split; [by eapply sim_relocked|]. split; [done|]. apply lock_ok. by apply s_write_lock.
  - split; [by eapply sim_relocked_same|]. split; [done|]. apply lock_disturbed.
  - split; [by eapply sim_relocked_same|]. split; [done|]. by eapply lock_busy.
Qed.

Lemma lock_rid_r_sim t R r weak :
  table_sim t R -> lockable R r ->
  exists res t' R', lock_rid_r r weak t = Ret (res, t') /\ table_sim t' R' /\ tb_index t' = tb_index t /\
    lock_result columns mut_columns (LReadLock r) ReadLockBusy r R res R'.
Proof.
  intros Ht (x & n & Hr & Hn). destruct (sim_lookup _ _ _ _ _ Ht Hr) as (Hi & Ha & Hv & Hl).
  destruct (try_read_lock_ok (tb_cache t) r n weak Hi Ha Hl) as (c & res & n' & E & Hrel & Hcase);
    [change MAX_READER with 127; lia|].
  unfold lock_rid_r. rewrite E. runm.
  destruct Hcase as [(-> & Hlt & -> & _)|[(-> & _ & ->)|(-> & -> & ->)]];
    do 2 eexists; [exists (<[r := (x, n + 1)]> R)|exists R|exists R]; (split; [done|]).
  - split; [by eapply sim_relocked|]. split; [done|]. apply lock_ok. by apply s_read_lock.
  - split; [by eapply sim_relocked_same|]. split; [done|]. apply lock_disturbed.
  - split; [by eapply sim_relocked_same|]. split; [done|]. by eapply lock_busy.
Qed.

(** The ids of a scan. *)
Lemma fill_rids_ok (scanned : list (Z * Z)) (buffer : list Rid) :
  Forall (fun p => Rid_ok p.2) scanned -> (length scanned <= length buffer)%nat ->
  fill_rids scanned buffer = Ret ((snd <$> scanned) ++ drop (length scanned) buffer).
Proof.
  intros Hs. revert buffer. induction Hs as [|p scanned Hp _ IH]; intros buffer Hl; [done|].
  destruct buffer as [|b buffer]; simpl in *; [lia|].
  rewrite wrap_small by (unfold Rid_ok, fits in *; lia). rewrite Rid_from_u32_ok by done. runm.
  rewrite IH by lia. done.
Qed.

Lemma scan_ok t low high n :
  Forall (fun p => Rid_ok p.2) (Art_range (tb_index t) low high n) ->
  (length (Art_range (tb_index t) low high n) <= n)%nat ->
  scan low high n t = Ret (snd <$> Art_range (tb_index t) low high n).
Proof.
  intros Hr Hl. unfold scan, DbTable_range. rewrite length_replicate.
  rewrite fill_rids_ok by (rewrite ?length_replicate; done). runm.
  rewrite Nat2Z.id, take_app_length' by by rewrite length_fmap. done.
Qed.

#[export] Program Instance DbTable_laws :
    GuardedTableLaws Sc columns mut_columns (Art A) (DbTable (Art A) T M) QueryValue := {
  gt_sim := table_sim;
  gt_valid t r q v := valid_ref (tb_cache t) r q v;
  gt_full t d := out_of_rids (cc_oids (tb_cache t)) (d_tid d);
}.
Next Obligation. intros t R r d. apply lock_rid_r_sim. Qed.
Next Obligation. intros t R r d. apply lock_rid_w_sim. Qed.
Next Obligation.
  intros t R k d Ht Hk. simpl in *. unfold read_oid.
  destruct (index_get (tb_index t) k) as [r|] eqn:E.
  - destruct (lock_rid_r_sim t R r (weak_of d) Ht (Hk r E)) as (res & t' & R' & ? & ? & ? & ?).
    exists res, t', R'. split_and!; [done..|]. by eapply oid_found.
  - exists (Err IndexNotFound), t, R. split_and!; [done..|]. by apply oid_missing.
Qed.
Next Obligation.
  intros t R k d Ht Hk. simpl in *. unfold write_oid.
  destruct (index_get (tb_index t) k) as [r|] eqn:E.
  - destruct (lock_rid_w_sim t R r (weak_of d) Ht (Hk r E)) as (res & t' & R' & ? & ? & ? & ?).
    exists res, t', R'. split_and!; [done..|]. by eapply oid_found.
  - exists (Err IndexNotFound), t, R. split_and!; [done..|]. by apply oid_missing.
Qed.
Next Obligation.
  intros t R r x n q d Ht Hr. destruct (sim_lookup _ _ _ _ _ Ht Hr) as (Hi & Ha & Hv & Hl). simpl.
  destruct (ClockCache_read_ok (tb_cache t) r q (d_u1 d) Hi Ha) as (v & c & E & Hs & Href).
  unfold DbTable_read. rewrite E. runm. do 2 eexists. split; [done|].
  split; [by apply sim_same|]. by split.
Qed.
Next Obligation.
  intros t R r x q d Ht Hr. destruct (sim_lookup _ _ _ _ _ Ht Hr) as (Hi & Ha & Hv & Hl). simpl.
  destruct (read_and_promote_ok (tb_cache t) (d_tid d) r q (d_u1 d) (d_u2 d) (d_u3 d) (d_weak d) Hi Ha Hl)
    as (v & c & E & Hs & Href).
  unfold DbTable_read_and_promote. rewrite E. runm. do 2 eexists. split; [done|].
  split; [by apply sim_same|]. by split.
Qed.
Next Obligation.
  intros t R r x n q v f Ht Hr Href Hc Hf. destruct (sim_lookup _ _ _ _ _ Ht Hr) as (Hi & Ha & Hv & Hl).
  simpl in *. by apply (get_value_ok (tb_cache t) r q v x f).
Qed.
Next Obligation.
  intros t R r x n q v f bs Ht Hr Href Hc Hf Hb.
  destruct (sim_lookup _ _ _ _ _ Ht Hr) as (Hi & Ha & Hv & Hl). simpl in *.
  destruct (get_value_mut_ok (tb_cache t) r q v x f bs Hi Ha Href Hv Hc Hf Hb)
    as (c & E & (Hi' & Hv' & Ho & Hk) & Href').
  unfold on_cache. rewrite E. runm. eexists. split; [done|]. split; [|by split].
  destruct Ht as (_ & Hal & Hvals). split; [done|]. simpl. split.
  - intros r'. unfold allocated_rid. rewrite Ho. fold (allocated_rid (tb_cache t) r'). rewrite Hal.
    destruct (decide (r' = r)) as [->|Hne]; [|by rewrite lookup_insert_ne].
    rewrite lookup_insert_eq, Hr. split; by eexists.
  - intros r' y m. destruct (decide (r' = r)) as [->|Hne].
    + rewrite lookup_insert_eq. intros [= <- <-]. split; [done|]. unfold lock_state. by rewrite Ho.
    + rewrite lookup_insert_ne by done. intros Hr'. destruct (Hvals r' y m Hr') as [? ?].
      rewrite Hk by (done || (apply Hal; rewrite Hr'; by eexists)). split; [done|].
      unfold lock_state. by rewrite Ho.
Qed.
Next Obligation.
  intros t R r x n Ht Hr Hn. destruct (sim_lookup _ _ _ _ _ Ht Hr) as (Hi & Ha & Hv & Hl). simpl.
  destruct (drop_read_guard_ok (tb_cache t) r n Hi Ha Hl) as (c & E & Hrel); [lia|].
  unfold on_cache. rewrite E. runm. eexists. split; [done|]. split; [by eapply sim_relocked|done].
Qed.
Next Obligation.
  intros t R r x Ht Hr. destruct (sim_lookup _ _ _ _ _ Ht Hr) as (Hi & Ha & Hv & Hl). simpl.
  destruct (drop_write_guard_ok (tb_cache t) r Hi Ha Hl) as (c & E & Hrel).
  unfold on_cache. rewrite E. runm. eexists. split; [done|]. split; [by eapply sim_relocked|done].
Qed.
Next Obligation.
  intros t R r (Hi & Hal & _) Hr. pose proof Hi as [(_ & Hoa & _) _].
  eapply allocated_range; [done|]. by apply Hal.
Qed.
Next Obligation. intros t low high n. apply scan_ok. Qed.
Next Obligation.
  intros t R x k d (Hi & Hal & Hv) Hlen Hk. simpl. unfold DbTable_insert. rewrite Hk. runm.
  destruct (ClockCache_insert_ok (tb_cache t) (d_tid d) x (d_spin d) (d_u1 d) (d_weak d) Hi Hlen)
    as [(r & c & E & (Hi' & _ & Hna & Hal' & Hx & Hl & Hk'))|[E Hf]]; [left|right; by rewrite E].
  rewrite E. runm. do 2 eexists. split; [done|].
  assert (Hr : R !! r = None) by (apply eq_None_not_Some; intros Hs; apply Hna; by apply Hal).
  split; [done|]. split; [|done]. split; [done|]. simpl. split.
  - intros r'. rewrite Hal'. destruct (decide (r' = r)) as [->|Hne].
    + rewrite lookup_insert_eq. split; [by eexists|by left].
    + rewrite lookup_insert_ne, <-Hal by done. split; [by intros [?|?]|by right].
  - intros r' y m. destruct (decide (r' = r)) as [->|Hne].
    + rewrite lookup_insert_eq. by intros [= <- <-].
    + rewrite lookup_insert_ne by done. intros Hr'. destruct (Hv r' y m Hr') as [<- <-].
      apply Hk'. apply Hal. rewrite Hr'. by eexists.
Qed.
End dbtable_laws.
