(* ===== verification/Txn.v ===== *)
(** * Transactions over guarded tables

    A transaction (src/benchmark/src/tpcc/query) is a program whose calls are
    the operations of its tables.  Programs are syntax, run on the tables by
    [transact]; [wp] is their logic over the abstract state of the tables, and
    the soundness theorem carries what is proved there to every run. *)

From Stdlib Require Import QArith.
From S2P Require Import Prelude Query Schema External CacheMachine Table Guarded.
Open Scope Z_scope.

Section programs.
Context {N J : Type}.

(** ** Programs

    [N] names the tables, [J] the indexes without a table.  [Get] and [Put] go
    through the query value the last [Read] or [Promote] of the table gave. *)
Inductive op : Type -> Type :=
| ReadOid (t : N) (k : Z) : op (result Rid TransactionError)
| WriteOid (t : N) (k : Z) : op (result Rid TransactionError)
| LockRidR (t : N) (r : Rid) : op (result Rid TransactionError)
| LockRidW (t : N) (r : Rid) : op (result Rid TransactionError)
| Read (t : N) (g : Rid) (q : FieldsMeta) : op unit
| Promote (t : N) (g : Rid) (q : FieldsMeta) : op unit
| Get (t : N) (f : Field) : op obj
| Put (t : N) (f : Field) (bs : obj) : op unit
| Insert (t : N) (x : obj) : op Rid
| Drop_ (t : N) (g : Rid) (w : bool) : op unit
| Range (t : N) (low high : Z) (n : nat) : op (list Rid)
| IdxRange (j : J) (low high : Z) (n : nat) : op (list (Z * Z))
| IdxInsert (j : J) (k v : Z) : op unit
| IdxRemove (j : J) (k : Z) : op unit.

Inductive prog (A : Type) : Type :=
| Return (a : A)
| Fail_ (e : TransactionError)
| Crash
| Do {B : Type} (o : op B) (k : B -> prog A).
Arguments Return {A} a.
Arguments Fail_ {A} e.
Arguments Crash {A}.
Arguments Do {A B} o k.

#[export] Instance prog_ret : MRet prog := @Return.
#[export] Instance prog_bind : MBind prog :=
  fun A B k => fix bind (p : prog A) : prog B :=
    match p with
    | Return a => k a
    | Fail_ e => Fail_ e
    | Crash => Crash
    | Do o c => Do o (fun b => bind (c b))
    end.

Definition call {B} (o : op B) : prog B := Do o Return.

(** [lock?]: a failed lock ends the transaction with its error. *)
Definition try_lock (o : op (result Rid TransactionError)) : prog Rid :=
  r ← call o;
  match r with Ok g => Return g | Err e => Fail_ e end.

(** Arithmetic and assertions of the transaction itself. *)
Definition lift {A} (m : outcome A) : prog A :=
  match m with Ret a => Return a | _ => Crash end.

(** ** Running a program *)
Context `{EqDecision N, EqDecision J}.

Definition upd {I B : Type} `{EqDecision I} (f : I -> B) (i : I) (b : B) (i' : I) : B :=
  if decide (i = i') then b else f i'.

Section run.
Context {Ix Tb V : Type} `{DbIndex Ix} `{RangeIndex Ix} (ops : N -> GuardedTable Ix Tb V).

(** The tables, the other indexes, the last query value of every table and
    the guards the transaction holds. *)
Record db := mkDb {
  db_tabs : N -> Tb;
  db_idx : J -> Ix;
  db_cur : N -> option (Rid * FieldsMeta * V);
  db_held : list (N * Rid * bool);
}.

Definition set_tab (s : db) (t : N) (tb : Tb) (cur : option (Rid * FieldsMeta * V)) : db :=
  mkDb (upd (db_tabs s) t tb) (db_idx s) (upd (db_cur s) t cur) (db_held s).

Definition set_held (s : db) (held : list (N * Rid * bool)) : db :=
  mkDb (db_tabs s) (db_idx s) (db_cur s) held.

Definition set_idx (s : db) (j : J) (i : Ix) : db :=
  mkDb (db_tabs s) (upd (db_idx s) j i) (db_cur s) (db_held s).

Definition push (t : N) (w : bool) (res : result Rid TransactionError) (held : list (N * Rid * bool))
    : list (N * Rid * bool) :=
  match res with Ok g => (t, g, w) :: held | Err _ => held end.

(** The first occurrence of a guard goes. *)
Fixpoint pull (p : N * Rid * bool) (held : list (N * Rid * bool)) : list (N * Rid * bool) :=
  match held with
  | [] => []
  | q :: held => if decide (p = q) then held else q :: pull p held
  end.

Definition lock_step (t : N) (w : bool) (m : outcome (result Rid TransactionError * Tb)) (s : db)
    : outcome (result Rid TransactionError * db) :=
  '(res, tb) ← m;
  Ret (res, set_held (set_tab s t tb None) (push t w res (db_held s))).

Definition drop_step (t : N) (g : Rid) (w : bool) (s : db) : outcome db :=
  tb ← (if w then @gt_drop_w _ _ _ (ops t) g (db_tabs s t) else @gt_drop_r _ _ _ (ops t) g (db_tabs s t));
  Ret (set_held (set_tab s t tb None) (pull (t, g, w) (db_held s))).

Definition read_step (t : N) (g : Rid) (q : FieldsMeta) (m : outcome (V * Tb)) (s : db)
    : outcome (unit * db) :=
  '(v, tb) ← m;
  Ret (tt, set_tab s t tb (Some (g, q, v))).

(** [d] is what the environment decides for the call. *)
Definition step {B} (o : op B) (d : draws) (s : db) : outcome (B * db) :=
  match o in op B return outcome (B * db) with
  | ReadOid t k => lock_step t false (@gt_read_oid _ _ _ (ops t) k d (db_tabs s t)) s
  | WriteOid t k => lock_step t true (@gt_write_oid _ _ _ (ops t) k d (db_tabs s t)) s
  | LockRidR t r => lock_step t false (@gt_lock_rid_r _ _ _ (ops t) r d (db_tabs s t)) s
  | LockRidW t r => lock_step t true (@gt_lock_rid_w _ _ _ (ops t) r d (db_tabs s t)) s
  | Read t g q => read_step t g q (@gt_read _ _ _ (ops t) g q d (db_tabs s t)) s
  | Promote t g q => read_step t g q (@gt_promote _ _ _ (ops t) g q d (db_tabs s t)) s
  | Get t f =>
      match db_cur s t with
      | Some (_, _, v) => bs ← @gt_get _ _ _ (ops t) v f (db_tabs s t); Ret (bs, s)
      | None => Undef
      end
  | Put t f bs =>
      match db_cur s t with
      | Some (g, q, v) =>
          tb ← @gt_set _ _ _ (ops t) v f bs (db_tabs s t);
          Ret (tt, set_tab s t tb (Some (g, q, v)))
      | None => Undef
      end
  | Insert t x =>
      '(r, tb) ← @gt_insert _ _ _ (ops t) x d (db_tabs s t);
      Ret (r, set_held (set_tab s t tb None) ((t, r, true) :: db_held s))
  | Drop_ t g w => s ← drop_step t g w s; Ret (tt, s)
  | Range t low high n => rs ← @gt_range _ _ _ (ops t) low high n (db_tabs s t); Ret (rs, s)
  | IdxRange j low high n => Ret (ix_range (db_idx s j) low high n, s)
  | IdxInsert j k v => Ret (tt, set_idx s j (index_insert (db_idx s j) k v))
  | IdxRemove j k => Ret (tt, set_idx s j (ix_remove (db_idx s j) k))
  end.

(** [ds n] are the draws of call [n]. *)
Fixpoint exec {A} (p : prog A) (ds : nat -> draws) (n : nat) (s : db)
    : outcome (result A TransactionError * db) :=
  match p with
  | Return a => Ret (Ok a, s)
  | Fail_ e => Ret (Err e, s)
  | Crash => Panic
  | Do o k =>
      '(b, s) ← step o (ds n) s;
      exec (k b) ds (S n) s
  end.

(** The guards still held are dropped when the transaction returns. *)
Fixpoint drop_all (held : list (N * Rid * bool)) (s : db) : outcome db :=
  match held with
  | [] => Ret s
  | (t, g, w) :: held => s ← drop_step t g w s; drop_all held s
  end.

Definition transact {A} (p : prog A) (ds : nat -> draws) (s : db)
    : outcome (result A TransactionError * db) :=
  '(r, s) ← exec p ds 0 s;
  s ← drop_all (db_held s) s;
  Ret (r, s).
End run.
End programs.
Arguments Return {N J A} a.
Arguments Fail_ {N J A} e.
Arguments Crash {N J A}.
Arguments Do {N J A B} o k.
Arguments op N J : clear implicits.
Arguments prog N J A : clear implicits.
Arguments db N J Ix Tb V : clear implicits.

(** ** The abstract database *)
Section spec.
Context {N J : Type} `{EqDecision N, EqDecision J}.
Context {Ix : Type} `{DbIndex Ix} `{RangeIndex Ix}.
Context (S : N -> Schema) (cols mcols : N -> list Field).

Record adb := mkAdb {
  a_recs : N -> table_spec;
  a_index : N -> Ix;
  a_idx : J -> Ix;
  a_cur : N -> option (Rid * FieldsMeta);
  a_held : list (N * Rid * bool);
}.

Definition a_set (s : adb) (t : N) (R : table_spec) (cur : option (Rid * FieldsMeta))
    (held : list (N * Rid * bool)) : adb :=
  mkAdb (upd (a_recs s) t R) (a_index s) (a_idx s) (upd (a_cur s) t cur) held.

Definition a_set_idx (s : adb) (j : J) (i : Ix) : adb :=
  mkAdb (a_recs s) (a_index s) (upd (a_idx s) j i) (a_cur s) (a_held s).

(** What a call may do. *)
Definition aop {B} (o : op N J B) (s : adb) : B -> adb -> Prop :=
  match o in op _ _ B return B -> adb -> Prop with
  | ReadOid t k => fun res s' => exists R,
      oid_result (cols t) (mcols t) LReadLock ReadLockBusy (a_index s t) k (a_recs s t) res R /\
      s' = a_set s t R None (push t false res (a_held s))
  | WriteOid t k => fun res s' => exists R,
      oid_result (cols t) (mcols t) LWriteLock WriteLockBusy (a_index s t) k (a_recs s t) res R /\
      s' = a_set s t R None (push t true res (a_held s))
  | LockRidR t r => fun res s' => exists R,
      lock_result (cols t) (mcols t) (LReadLock r) ReadLockBusy r (a_recs s t) res R /\
      s' = a_set s t R None (push t false res (a_held s))
  | LockRidW t r => fun res s' => exists R,
      lock_result (cols t) (mcols t) (LWriteLock r) WriteLockBusy r (a_recs s t) res R /\
      s' = a_set s t R None (push t true res (a_held s))
  | Read t g q | Promote t g q => fun _ s' =>
      s' = a_set s t (a_recs s t) (Some (g, q)) (a_held s)
  | Get t f => fun bs s' => exists g q x n,
      a_cur s t = Some (g, q) /\ a_recs s t !! g = Some (x, n) /\ bs = load_field x f /\ s' = s
  | Put t f bs => fun _ s' => exists g q x,
      a_cur s t = Some (g, q) /\ a_recs s t !! g = Some (x, 128) /\
      s' = a_set s t (<[g := (store_field x f bs, 128)]> (a_recs s t)) (Some (g, q)) (a_held s)
  | Insert t x => fun r s' => exists k,
      a_recs s t !! r = None /\ @key (S t) x = Ret k /\
      s' = mkAdb (upd (a_recs s) t (<[r := (x, 128)]> (a_recs s t)))
             (upd (a_index s) t (index_insert (a_index s t) k r)) (a_idx s)
             (upd (a_cur s) t None) ((t, r, true) :: a_held s)
  | Drop_ t g w => fun _ s' => exists x n,
      a_recs s t !! g = Some (x, n) /\ (if w then n = 128 else 0 < n <= 127) /\
      s' = a_set s t (<[g := (x, if w then 0 else n - 1)]> (a_recs s t)) None
             (pull (t, g, w) (a_held s))
  | Range t low high n => fun rs s' => rs = snd <$> ix_range (a_index s t) low high n /\ s' = s
  | IdxRange j low high n => fun kvs s' => kvs = ix_range (a_idx s j) low high n /\ s' = s
  | IdxInsert j k v => fun _ s' => s' = a_set_idx s j (index_insert (a_idx s j) k v)
  | IdxRemove j k => fun _ s' => s' = a_set_idx s j (ix_remove (a_idx s j) k)
  end.

(** What a call needs: records that exist, guards that are held, columns the
    query covers. *)
Definition aok {B} (o : op N J B) (s : adb) : Prop :=
  match o with
  | ReadOid t k | WriteOid t k =>
      forall r, index_get (a_index s t) k = Some r -> lockable (a_recs s t) r
  | LockRidR t r | LockRidW t r => lockable (a_recs s t) r
  | Read t g q => exists w, (t, g, w) ∈ a_held s
  | Promote t g q => (t, g, true) ∈ a_held s
  | Get t f => exists g q w, a_cur s t = Some (g, q) /\ (t, g, w) ∈ a_held s /\
      @covers (S t) q f /\ f ∈ cols t
  | Put t f bs => exists g q, a_cur s t = Some (g, q) /\ (t, g, true) ∈ a_held s /\
      @covers (S t) q f /\ f ∈ mcols t /\ length bs = Z.to_nat (Field_len f)
  | Insert t x => length x = @tuple_size (S t) /\ exists k, @key (S t) x = Ret k
  | Drop_ t g w => (t, g, w) ∈ a_held s
  | Range t low high n => forall k r, (k, r) ∈ ix_range (a_index s t) low high n ->
      is_Some (a_recs s t !! r)
  | IdxRange _ _ _ _ | IdxInsert _ _ _ | IdxRemove _ _ => True
  end.

(** ** The logic of programs

    [wp p s Q]: from [s], every call [p] makes has what it needs, and however
    the calls turn out [Q] holds of the result ([None] if an assertion of [p]
    fails) and the state at the end, before the remaining guards are dropped. *)
Fixpoint wp {A} (p : prog N J A) (s : adb)
    (Q : option (result A TransactionError) -> adb -> Prop) : Prop :=
  match p with
  | Return a => Q (Some (Ok a)) s
  | Fail_ e => Q (Some (Err e)) s
  | Crash => Q None s
  | Do o k => aok o s /\ forall b s', aop o s b s' -> wp (k b) s' Q
  end.

Lemma wp_bind {A B} (p : prog N J A) (k : A -> prog N J B) s Q :
  wp p s (fun r s' => match r with
                      | Some (Ok a) => wp (k a) s' Q
                      | Some (Err e) => Q (Some (Err e)) s'
                      | None => Q None s'
                      end) ->
  wp (p ≫= k) s Q.
Proof.
  revert s. induction p as [a|e| |C o c IH]; intros s Hp; [done..|].
  destruct Hp as [Hok Hp]. split; [done|]. intros b s' Hs. by apply IH, Hp.
Qed.

Lemma wp_mono {A} (p : prog N J A) s (Q Q' : option (result A TransactionError) -> adb -> Prop) :
  (forall r s', Q r s' -> Q' r s') -> wp p s Q -> wp p s Q'.
Proof.
  intros HQ. revert s. induction p as [a|e| |C o c IH]; simpl; intros s Hp; [by apply HQ..|].
  destruct Hp as [Hok Hp]. split; [done|]. intros b s' Hs. by apply IH, Hp.
Qed.

(** ** Guards and locks

    The guards a transaction holds account for locks: its readers are among
    those of the record, its writer is the one. *)
Fixpoint held_cnt (p : N * Rid * bool) (held : list (N * Rid * bool)) : nat :=
  match held with
  | [] => 0
  | q :: held => (if decide (p = q) then 1 else 0) + held_cnt p held
  end%nat.

Definition accounts (n : Z) (readers writers : nat) : Prop :=
  (writers = 0%nat /\ Z.of_nat readers <= n /\ ((0 < readers)%nat -> n <= 127)) \/
  (writers = 1%nat /\ readers = 0%nat /\ n = 128).

Definition balanced (s : adb) : Prop :=
  forall t r, match a_recs s t !! r with
  | Some (x, n) => accounts n (held_cnt (t, r, false) (a_held s)) (held_cnt (t, r, true) (a_held s))
  | None => held_cnt (t, r, false) (a_held s) = 0%nat /\ held_cnt (t, r, true) (a_held s) = 0%nat
  end.

(** The lock of a record without the transaction's own guards. *)
Definition others_lock (s : adb) (t : N) (r : Rid) : option Z :=
  match a_recs s t !! r with
  | Some (_, n) => Some (if decide (held_cnt (t, r, true) (a_held s) = 0%nat)
                         then n - Z.of_nat (held_cnt (t, r, false) (a_held s)) else 0)
  | None => None
  end.

Lemma held_cnt_in (p : N * Rid * bool) held : p ∈ held -> (1 <= held_cnt p held)%nat.
Proof.
  induction held as [|h held IH]; intros Hin; [by apply not_elem_of_nil in Hin|].
  cbn [held_cnt]. case_decide; [lia|]. apply elem_of_cons in Hin as [?|Hin]; [done|]. specialize (IH Hin). lia.
Qed.

Lemma held_cnt_pull (p q : N * Rid * bool) held :
  p ∈ held -> held_cnt q (pull p held) = (held_cnt q held - if decide (q = p) then 1 else 0)%nat.
Proof.
  induction held as [|h held IH]; intros Hin; [by apply not_elem_of_nil in Hin|].
  cbn [pull held_cnt]. destruct (decide (p = h)) as [<-|Hne].
  - destruct (decide (q = p)); lia.
  - apply elem_of_cons in Hin as [?|Hin]; [done|]. cbn [held_cnt]. rewrite IH by done.
    pose proof (held_cnt_in _ _ Hin). destruct (decide (q = p)) as [->|]; [|lia].
    rewrite (decide_False (P := p = h)) by done. lia.
Qed.

Lemma balanced_held s t r (w : bool) :
  balanced s -> (t, r, w) ∈ a_held s ->
  exists x n, a_recs s t !! r = Some (x, n) /\ 0 < n /\ (if w then n = 128 else n <= 127).
Proof.
  intros Hb Hin%held_cnt_in. specialize (Hb t r). destruct (a_recs s t !! r) as [[x n]|].
  - exists x, n. split; [done|]. unfold accounts in Hb. destruct w; lia.
  - destruct w; lia.
Qed.

Lemma upd_eq {I B} `{EqDecision I} (f : I -> B) i b : upd f i b i = b.
Proof. unfold upd. by rewrite decide_True. Qed.

Lemma upd_ne {I B} `{EqDecision I} (f : I -> B) i b i' : i <> i' -> upd f i b i' = f i'.
Proof. intros. unfold upd. by rewrite decide_False. Qed.

(** The state of one record under the guards of the transaction. *)
Definition lock_of (s : adb) (t : N) (r : Rid) : option Z * nat * nat :=
  (snd <$> a_recs s t !! r, held_cnt (t, r, false) (a_held s), held_cnt (t, r, true) (a_held s)).

Definition balanced_at (p : option Z * nat * nat) : Prop :=
  match p with
  | (Some n, cr, cw) => accounts n cr cw
  | (None, cr, cw) => cr = 0%nat /\ cw = 0%nat
  end.

Definition rest_of (p : option Z * nat * nat) : option Z :=
  match p with
  | (Some n, cr, cw) => Some (if decide (cw = 0%nat) then n - Z.of_nat cr else 0)
  | (None, _, _) => None
  end.

Lemma balanced_lock_of s : balanced s <-> forall t r, balanced_at (lock_of s t r).
Proof.
  unfold balanced, lock_of. split; intros H' t r; specialize (H' t r);
    by destruct (a_recs s t !! r) as [[x n]|].
Qed.

Lemma others_lock_of s t r : others_lock s t r = rest_of (lock_of s t r).
Proof. unfold others_lock, lock_of. by destruct (a_recs s t !! r) as [[x n]|]. Qed.

(** A change of one record and of the guards on it. *)
Lemma lock_of_set s t R cur held t' r' :
  lock_of (a_set s t R cur held) t' r' =
    (snd <$> (if decide (t = t') then R else a_recs s t') !! r',
     held_cnt (t', r', false) held, held_cnt (t', r', true) held).
Proof. unfold lock_of, a_set, upd. simpl. by case_decide; subst. Qed.

(** [change s s' t r p]: only the lock of record [r] of [t] changes, to [p]. *)
Definition change (s s' : adb) (t : N) (r : Rid) (p : option Z * nat * nat) : Prop :=
  lock_of s' t r = p /\ forall t' r', (t', r') <> (t, r) -> lock_of s' t' r' = lock_of s t' r'.

Lemma change_push s t r (w : bool) x n R cur :
  a_recs s t !! r = Some (x, n) -> R = <[r := (x, if w then 128 else n + 1)]> (a_recs s t) ->
  change s (a_set s t R cur ((t, r, w) :: a_held s)) t r
    (Some (if w then 128 else n + 1),
     ((if w then 0 else 1) + held_cnt (t, r, false) (a_held s))%nat,
     ((if w then 1 else 0) + held_cnt (t, r, true) (a_held s))%nat).
Proof.
  intros Hr ->. split.
  - rewrite lock_of_set, decide_True, lookup_insert_eq by done. cbn [held_cnt].
    destruct w; repeat case_decide; simplify_eq/=; done.
  - intros t' r' Hne. rewrite lock_of_set. unfold lock_of. cbn [held_cnt].
    rewrite !(decide_False (P := (t', r', _) = (t, r, w))) by congruence.
    case_decide; [subst t'|done]. by rewrite lookup_insert_ne by congruence.
Qed.

Lemma change_pull s t r (w : bool) x n cur :
  a_recs s t !! r = Some (x, n) -> (t, r, w) ∈ a_held s ->
  change s (a_set s t (<[r := (x, if w then 0 else n - 1)]> (a_recs s t)) cur (pull (t, r, w) (a_held s))) t r
    (Some (if w then 0 else n - 1),
     (held_cnt (t, r, false) (a_held s) - if w then 0 else 1)%nat,
     (held_cnt (t, r, true) (a_held s) - if w then 1 else 0)%nat).
Proof.
  intros Hr Hin. split.
  - rewrite lock_of_set, decide_True, lookup_insert_eq by done. rewrite !held_cnt_pull by done.
    destruct w; repeat case_decide; simplify_eq/=; done.
  - intros t' r' Hne. rewrite lock_of_set. unfold lock_of. rewrite !held_cnt_pull by done.
    rewrite !(decide_False (P := (t', r', _) = (t, r, w))) by congruence. rewrite !Nat.sub_0_r.
    case_decide; [subst t'|done]. by rewrite lookup_insert_ne by congruence.
Qed.

Lemma change_same s t R cur :
  (forall r, snd <$> R !! r = snd <$> a_recs s t !! r) ->
  forall t' r', lock_of (a_set s t R cur (a_held s)) t' r' = lock_of s t' r'.
Proof.
  intros HR t' r'. rewrite lock_of_set. unfold lock_of. case_decide; [subst|done]. by rewrite HR.
Qed.

(** The guards stay accounted for, and the locks of others stay. *)
Definition lock_step_ok (s s' : adb) : Prop :=
  balanced s' /\ forall t r l, others_lock s t r = Some l -> others_lock s' t r = Some l.

Lemma change_ok s s' t r p :
  balanced s -> change s s' t r p -> balanced_at p ->
  (forall l, rest_of (lock_of s t r) = Some l -> rest_of p = Some l) -> lock_step_ok s s'.
Proof.
  intros Hb [Hp Hother] Hbp Hrest. rewrite balanced_lock_of in Hb. split.
  - apply balanced_lock_of. intros t' r'. destruct (decide ((t', r') = (t, r))) as [[= -> ->]|Hne].
    + by rewrite Hp.
    + by rewrite Hother.
  - intros t' r' l. rewrite !others_lock_of. destruct (decide ((t', r') = (t, r))) as [[= -> ->]|Hne].
    + rewrite Hp. apply Hrest.
    + by rewrite Hother.
Qed.

Lemma same_ok s s' : balanced s -> (forall t r, lock_of s' t r = lock_of s t r) -> lock_step_ok s s'.
Proof.
  intros Hb Hsame. rewrite balanced_lock_of in Hb. split.
  - apply balanced_lock_of. intros. by rewrite Hsame.
  - intros t r l. by rewrite !others_lock_of, Hsame.
Qed.

Lemma lock_granted t r R R' (w : bool) :
  sstep (cols t) (mcols t) R (if w then LWriteLock r else LReadLock r) R' ->
  exists x n, R !! r = Some (x, n) /\ R' = <[r := (x, if w then 128 else n + 1)]> R /\
    (if w then n = 0 else n < 127).
Proof. destruct w; inversion 1; subst; eauto. Qed.

Lemma lock_result_ok s t l busy r res R (w : bool) :
  balanced s -> lock_result (cols t) (mcols t) l busy r (a_recs s t) res R ->
  l = (if w then LWriteLock r else LReadLock r) ->
  lock_step_ok s (a_set s t R None (push t w res (a_held s))).
Proof.
  intros Hb Hres El. destruct Hres as [R Hst| |x n Hx Hn]; simpl;
    [|by apply same_ok, change_same|by apply same_ok, change_same].
  pose proof (proj1 (balanced_lock_of s) Hb t r) as Hbr.
  subst l. apply lock_granted in Hst as (x & n & Hx & HR & Hn). unfold lock_of in Hbr. rewrite Hx in Hbr. simpl in Hbr.
  eapply change_ok; [done|by eapply change_push| |].
  - unfold balanced_at, accounts in *. destruct w; lia.
  - unfold lock_of, rest_of. rewrite Hx. simpl. intros l0. unfold accounts in Hbr.
    destruct w; simpl; repeat case_decide; intros [= <-]; f_equal; lia.
Qed.

Lemma oid_result_ok s t lb busy k res R (w : bool) :
  balanced s -> oid_result (cols t) (mcols t) lb busy (a_index s t) k (a_recs s t) res R ->
  lb = (if w then LWriteLock else LReadLock) ->
  lock_step_ok s (a_set s t R None (push t w res (a_held s))).
Proof.
  intros Hb Hres ->. destruct Hres as [|r res R _ Hres]; simpl; [by apply same_ok, change_same|].
  eapply lock_result_ok; [done|done|]. by destruct w.
Qed.

Lemma aop_lock_ok {B} (o : op N J B) s b s' :
  balanced s -> aok o s -> aop o s b s' -> lock_step_ok s s'.
Proof.
  intros Hb Hok Hs. destruct o; simpl in Hs, Hok.
  - destruct Hs as (R & ? & ->). by eapply oid_result_ok.
  - destruct Hs as (R & ? & ->). by eapply oid_result_ok.
  - destruct Hs as (R & ? & ->). by eapply lock_result_ok.
  - destruct Hs as (R & ? & ->). by eapply lock_result_ok.
  - subst s'. by apply same_ok, change_same.
  - subst s'. by apply same_ok, change_same.
  - destruct Hs as (g & q & x & n & _ & _ & _ & ->). by apply same_ok.
  - destruct Hs as (g & q & x & _ & Hx & ->). apply same_ok, change_same; [done|]. intros r.
    destruct (decide (r = g)) as [->|]; [by rewrite lookup_insert_eq, Hx|by rewrite lookup_insert_ne].
  - destruct Hs as (k & Hr & _ & ->). pose proof (proj1 (balanced_lock_of s) Hb t b) as Hbr.
    unfold lock_of in Hbr. rewrite Hr in Hbr. simpl in Hbr. destruct Hbr as [Hc0 Hc1].
    eapply (change_ok s _ t b (Some 128, 0%nat, 1%nat)); [done| | |].
    + split.
      * unfold lock_of. simpl. rewrite upd_eq, lookup_insert_eq. cbn [held_cnt].
        rewrite (decide_False (P := (t, b, false) = _)), (decide_True (P := (t, b, true) = _)) by done.
        by rewrite Hc0, Hc1.
      * intros t' r' Hne. unfold lock_of. simpl. cbn [held_cnt].
        rewrite !(decide_False (P := (t', r', _) = (t, b, true))) by congruence. unfold upd.
        case_decide; [subst t'|done]. by rewrite lookup_insert_ne by congruence.
    + right. done.
    + unfold lock_of. rewrite Hr. done.
  - destruct Hs as (x & n & Hx & Hn & ->). pose proof (proj1 (balanced_lock_of s) Hb t g) as Hbr.
    unfold lock_of in Hbr. rewrite Hx in Hbr. simpl in Hbr.
    pose proof (held_cnt_in _ _ Hok) as Hc.
    eapply change_ok; [done|by eapply change_pull| |].
    + unfold balanced_at, accounts in *. destruct w; lia.
    + unfold lock_of, rest_of. rewrite Hx. simpl. intros l0. unfold accounts in Hbr.
      destruct w; simpl; repeat case_decide; intros [= <-]; f_equal; lia.
  - destruct Hs as [_ ->]. by apply same_ok.
  - destruct Hs as [_ ->]. by apply same_ok.
  - subst s'. by apply same_ok.
  - subst s'. by apply same_ok.
Qed.
End spec.
Arguments adb N J Ix : clear implicits.

(** ** Soundness: what holds of the abstract state holds of the tables *)
Section soundness.
Context {N J : Type} `{EqDecision N, EqDecision J}.
Context {Ix Tb V : Type} `{RangeIndexLaws Ix}.
Context (ops : N -> GuardedTable Ix Tb V) (S : N -> Schema) (cols mcols : N -> list Field).
Context (laws : forall t, @GuardedTableLaws (S t) (cols t) (mcols t) Ix Tb V _ _ (ops t)).
Implicit Types (s : db N J Ix Tb V) (a : adb N J Ix).
Abbreviation wp := (wp S cols mcols).
Abbreviation aop := (aop S cols mcols).
Abbreviation aok := (aok S cols mcols).

Definition sim_t (t : N) : Tb -> table_spec -> Prop := @gt_sim _ _ _ _ _ _ _ _ _ (laws t).
Definition valid_t (t : N) : Tb -> Rid -> FieldsMeta -> V -> Prop := @gt_valid _ _ _ _ _ _ _ _ _ (laws t).
Definition full_t (t : N) : Tb -> draws -> Prop := @gt_full _ _ _ _ _ _ _ _ _ (laws t).

(** The query values agree, and point to their records. *)
Definition cur_sim (t : N) (tb : Tb) (c : option (Rid * FieldsMeta * V)) (c' : option (Rid * FieldsMeta))
    : Prop :=
  match c, c' with
  | None, None => True
  | Some (g, q, v), Some (g', q') => g = g' /\ q = q' /\ valid_t t tb g q v
  | _, _ => False
  end.

Definition tab_sim s a (t : N) : Prop :=
  sim_t t (db_tabs s t) (a_recs a t) /\ @gt_index _ _ _ (ops t) (db_tabs s t) = a_index a t /\
  cur_sim t (db_tabs s t) (db_cur s t) (a_cur a t).

Definition db_sim s a : Prop :=
  (forall t, tab_sim s a t) /\ (forall j, db_idx s j = a_idx a j) /\ db_held s = a_held a /\ balanced a.

Lemma sim_set s a t tb R c c' held :
  db_sim s a -> sim_t t tb R -> @gt_index _ _ _ (ops t) tb = a_index a t -> cur_sim t tb c c' ->
  balanced (a_set a t R c' held) ->
  db_sim (set_held (set_tab s t tb c) held) (a_set a t R c' held).
Proof.
  intros (Ht & Hj & _ & _) Htb Hix Hc Hb. split; [|done]. intros t'. specialize (Ht t').
  unfold tab_sim in *. simpl. unfold upd. by case_decide; subst.
Qed.

Lemma upd_id {I B} `{EqDecision I} (f : I -> B) i b i' : f i = b -> upd f i b i' = f i'.
Proof. intros <-. unfold upd. by case_decide; subst. Qed.

(** One call on the tables, and on the abstract state. *)
(** The call is an insert, and the thread finds no record id left. *)
Definition no_id {B} (o : op N J B) (d : draws) s : Prop :=
  match o with Insert t _ => full_t t (db_tabs s t) d | _ => False end.

Definition call_sim {B} (o : op N J B) (d : draws) s a : Prop :=
  (exists b s' a', step ops o d s = Ret (b, s') /\ aop o a b a' /\ db_sim s' a') \/
  (step ops o d s = Panic /\ no_id o d s).

(** The lock ops: [m] is the table's call, [R] the records afterwards. *)
Lemma lock_call_sim s a t w m res tb R :
  db_sim s a -> m = Ret (res, tb) -> sim_t t tb R ->
  @gt_index _ _ _ (ops t) tb = @gt_index _ _ _ (ops t) (db_tabs s t) ->
  balanced (a_set a t R None (push t w res (a_held a))) ->
  exists s', lock_step t w m s = Ret (res, s') /\ db_sim s' (a_set a t R None (push t w res (a_held a))).
Proof.
  intros Hs -> Htb Hix Hb. unfold lock_step. runm. eexists. split; [done|].
  pose proof Hs as (Ht & _ & Hh & _). rewrite Hh. apply sim_set; [done|done| |done|done].
  rewrite Hix. apply Ht.
Qed.

Lemma set_tab_cur_sim s a t tb R c c' :
  db_sim s a -> sim_t t tb R -> @gt_index _ _ _ (ops t) tb = @gt_index _ _ _ (ops t) (db_tabs s t) ->
  cur_sim t tb c c' -> balanced (a_set a t R c' (a_held a)) ->
  db_sim (set_tab s t tb c) (a_set a t R c' (a_held a)).
Proof.
  intros (Ht & Hj & Hh & _) Htb Hix Hc Hb. split; [|by split; [|split]]. intros t'.
  destruct (Ht t) as (_ & Hix0 & _). specialize (Ht t'). unfold tab_sim in *. simpl. unfold upd.
  case_decide; subst; [|done]. by rewrite Hix.
Qed.

Lemma lock_ops_sim {B} (o : op N J B) d s a :
  db_sim s a -> aok o a ->
  match o with ReadOid _ _ | WriteOid _ _ | LockRidR _ _ | LockRidW _ _ => True | _ => False end ->
  call_sim o d s a.
Proof.
  intros Hs Hok Ho. left. pose proof Hs as (Ht & _ & _ & Hb).
  assert (Hbal : forall b a', aop o a b a' -> balanced a').
  { intros b a' Ha. by apply (aop_lock_ok _ _ _ _ _ _ _ Hb Hok Ha). }
  destruct o as [t k|t k|t r|t r| | | | | | | | | | ]; try done; destruct (Ht t) as (Hsim & Hix & _).
  - destruct (@gt_read_oid_ok _ _ _ _ _ _ _ _ _ (laws t) (db_tabs s t) (a_recs a t) k d Hsim)
      as (res & tb & R & E & Htb & Hix' & Hres); [by rewrite Hix|]. rewrite Hix in Hres.
    assert (Ha : aop (ReadOid t k) a res (a_set a t R None (push t false res (a_held a)))) by (by exists R).
    destruct (lock_call_sim s a t false _ res tb R Hs E Htb Hix' (Hbal _ _ Ha)) as (s' & ? & ?). eexists _, s', _. by split.
  - destruct (@gt_write_oid_ok _ _ _ _ _ _ _ _ _ (laws t) (db_tabs s t) (a_recs a t) k d Hsim)
      as (res & tb & R & E & Htb & Hix' & Hres); [by rewrite Hix|]. rewrite Hix in Hres.
    assert (Ha : aop (WriteOid t k) a res (a_set a t R None (push t true res (a_held a)))) by (by exists R).
    destruct (lock_call_sim s a t true _ res tb R Hs E Htb Hix' (Hbal _ _ Ha)) as (s' & ? & ?). eexists _, s', _. by split.
  - destruct (@gt_lock_rid_r_ok _ _ _ _ _ _ _ _ _ (laws t) (db_tabs s t) (a_recs a t) r d Hsim Hok)
      as (res & tb & R & E & Htb & Hix' & Hres).
    assert (Ha : aop (LockRidR t r) a res (a_set a t R None (push t false res (a_held a)))) by (by exists R).
    destruct (lock_call_sim s a t false _ res tb R Hs E Htb Hix' (Hbal _ _ Ha)) as (s' & ? & ?). eexists _, s', _. by split.
  - destruct (@gt_lock_rid_w_ok _ _ _ _ _ _ _ _ _ (laws t) (db_tabs s t) (a_recs a t) r d Hsim Hok)
      as (res & tb & R & E & Htb & Hix' & Hres).
    assert (Ha : aop (LockRidW t r) a res (a_set a t R None (push t true res (a_held a)))) by (by exists R).
    destruct (lock_call_sim s a t true _ res tb R Hs E Htb Hix' (Hbal _ _ Ha)) as (s' & ? & ?). eexists _, s', _. by split.
Qed.

(** Dropping a held guard. *)
Lemma drop_sim s a t g w :
  db_sim s a -> (t, g, w) ∈ a_held a ->
  exists s' a', drop_step ops t g w s = Ret s' /\ aop (Drop_ t g w) a tt a' /\ db_sim s' a'.
Proof.
  intros Hs Hin. pose proof Hs as (Ht & _ & Hh & Hb). destruct (Ht t) as (Hsim & Hix & _).
  destruct (balanced_held _ _ _ _ Hb Hin) as (x & n & Hx & Hn & Hw).
  assert (Hd : exists tb, (if w then @gt_drop_w _ _ _ (ops t) g (db_tabs s t)
                           else @gt_drop_r _ _ _ (ops t) g (db_tabs s t)) = Ret tb /\
            sim_t t tb (<[g := (x, if w then 0 else n - 1)]> (a_recs a t)) /\
            @gt_index _ _ _ (ops t) tb = @gt_index _ _ _ (ops t) (db_tabs s t)).
  { destruct w.
    - subst n. destruct (@gt_drop_w_ok _ _ _ _ _ _ _ _ _ (laws t) _ _ g x Hsim Hx) as (tb & ? & ? & ?). eauto.
    - destruct (@gt_drop_r_ok _ _ _ _ _ _ _ _ _ (laws t) _ _ g x n Hsim Hx) as (tb & ? & ? & ?); [lia|]. eauto. }
  destruct Hd as (tb & E & Htb & Hix').
  set (a' := a_set a t (<[g := (x, if w then 0 else n - 1)]> (a_recs a t)) None (pull (t, g, w) (a_held a))).
  assert (Ha : aop (Drop_ t g w) a tt a').
  { exists x, n. split; [done|]. split; [destruct w; lia|done]. }
  pose proof (aop_lock_ok S cols mcols (Drop_ t g w) a tt a' Hb Hin Ha) as [Hb' _].
  exists (set_held (set_tab s t tb None) (pull (t, g, w) (db_held s))), a'.
  unfold drop_step. rewrite E. runm. split; [done|]. split; [done|]. rewrite Hh.
  apply sim_set; [done|done|by rewrite Hix'|done|done].
Qed.

(** Reading and writing columns. *)
Lemma value_ops_sim {B} (o : op N J B) d s a :
  db_sim s a -> aok o a ->
  match o with Read _ _ _ | Promote _ _ _ | Get _ _ | Put _ _ _ => True | _ => False end ->
  call_sim o d s a.
Proof.
  intros Hs Hok Ho. left. pose proof Hs as (Ht & _ & Hh & Hb).
  assert (Hbal : forall b a', aop o a b a' -> balanced a').
  { intros b a' Ha. by apply (aop_lock_ok _ _ _ _ _ _ _ Hb Hok Ha). }
  destruct o as [| | | |t g q|t g q|t f|t f bs| | | | | | ]; try done; destruct (Ht t) as (Hsim & Hix & Hcur);
    simpl in Hok.
  - destruct Hok as [w Hin]. destruct (balanced_held _ _ _ _ Hb Hin) as (x & n & Hx & _).
    destruct (@gt_read_ok _ _ _ _ _ _ _ _ _ (laws t) _ _ g x n q d Hsim Hx) as (v & tb & E & Htb & Hix' & Hv).
    simpl. unfold read_step. rewrite E. runm. do 3 eexists. split; [done|]. split; [done|].
    apply set_tab_cur_sim; [done|done|done|done|]. by apply (Hbal tt).
  - destruct (balanced_held _ _ _ _ Hb Hok) as (x & n & Hx & _ & ->).
    destruct (@gt_promote_ok _ _ _ _ _ _ _ _ _ (laws t) _ _ g x q d Hsim Hx) as (v & tb & E & Htb & Hix' & Hv).
    simpl. unfold read_step. rewrite E. runm. do 3 eexists. split; [done|]. split; [done|].
    apply set_tab_cur_sim; [done|done|done|done|]. by apply (Hbal tt).
  - destruct Hok as (g & q & w & Hc & Hin & Hcov & Hf).
    destruct (balanced_held _ _ _ _ Hb Hin) as (x & n & Hx & _).
    simpl. unfold cur_sim in Hcur. rewrite Hc in Hcur.
    destruct (db_cur s t) as [[[g' q'] v]|] eqn:Ec; [|done]. destruct Hcur as (-> & -> & Hv).
    rewrite (@gt_get_ok _ _ _ _ _ _ _ _ _ (laws t) _ _ g x n q v f Hsim Hx Hv Hcov Hf). runm.
    exists (load_field x f), s, a. split; [done|]. split; [|done]. by exists g, q, x, n.
  - destruct Hok as (g & q & Hc & Hin & Hcov & Hf & Hl).
    destruct (balanced_held _ _ _ _ Hb Hin) as (x & n & Hx & _ & ->).
    simpl. unfold cur_sim in Hcur. rewrite Hc in Hcur.
    destruct (db_cur s t) as [[[g' q'] v]|] eqn:Ec; [|done]. destruct Hcur as (-> & -> & Hv).
    destruct (@gt_set_ok _ _ _ _ _ _ _ _ _ (laws t) _ _ g x 128 q v f bs Hsim Hx Hv Hcov Hf Hl)
      as (tb & E & Htb & Hix' & Hv').
    rewrite E. runm.
    assert (Ha : aop (Put t f bs) a tt
              (a_set a t (<[g := (store_field x f bs, 128)]> (a_recs a t)) (Some (g, q)) (a_held a)))
      by (by exists g, q, x).
    do 3 eexists. split; [done|]. split; [exact Ha|].
    apply set_tab_cur_sim; [done|done|done|done|]. by apply (Hbal tt).
Qed.

Lemma insert_sim d s a t x :
  db_sim s a -> aok (Insert t x) a -> call_sim (Insert t x) d s a.
Proof.
  intros Hs Hok. pose proof Hs as (Ht & Hj & Hh & Hb). destruct (Ht t) as (Hsim & Hix & _).
  pose proof Hok as [Hlen [k Hk]]. unfold call_sim. simpl.
  destruct (@gt_insert_ok _ _ _ _ _ _ _ _ _ (laws t) _ _ x k d Hsim Hlen Hk)
    as [(r & tb & E & Hr & Htb & Hix')|[E Hf]]; [left|right; rewrite E; runm; by split].
  rewrite E. runm.
  set (a' := mkAdb (upd (a_recs a) t (<[r := (x, 128)]> (a_recs a t)))
             (upd (a_index a) t (index_insert (a_index a t) k r)) (a_idx a)
             (upd (a_cur a) t None) ((t, r, true) :: a_held a)).
  assert (Ha : aop (Insert t x) a r a') by (by exists k).
  do 2 eexists. exists a'. split; [done|]. split; [done|].
  split; [|split; [done|split; [by simpl; rewrite Hh|]]].
  - intros t'. specialize (Ht t'). unfold tab_sim in *. simpl. unfold upd. case_decide as Et; [subst t'|done].
    split; [done|]. split; [|done]. by rewrite Hix', Hix.
  - by apply (aop_lock_ok S cols mcols (Insert t x) a r a' Hb Hok Ha).
Qed.

Lemma step_sim {B} (o : op N J B) d s a : db_sim s a -> aok o a -> call_sim o d s a.
Proof.
  intros Hs Hok. pose proof Hs as (Ht & Hj & Hh & Hb).
  destruct o as [t k|t k|t r|t r|t g q|t g q|t f|t f bs|t x|t g w|t low high n|j low high n|j k v|j k].
  - by apply lock_ops_sim.
  - by apply lock_ops_sim.
  - by apply lock_ops_sim.
  - by apply lock_ops_sim.
  - by apply value_ops_sim.
  - by apply value_ops_sim.
  - by apply value_ops_sim.
  - by apply value_ops_sim.
  - by apply insert_sim.
  - left. destruct (drop_sim s a t g w Hs Hok) as (s' & a' & E & Ha & Hs'). simpl.
    rewrite E. runm. by exists tt, s', a'.
  - left. destruct (Ht t) as (Hsim & Hix & _). simpl in Hok |- *.
    rewrite (@gt_range_ok _ _ _ _ _ _ _ _ _ (laws t) (db_tabs s t) low high n).
    + runm. rewrite Hix. by exists (snd <$> ix_range (a_index a t) low high n), s, a.
    + rewrite Hix. apply Forall_forall. intros [k r] Hin. simpl.
      eapply (@gt_rid_ok _ _ _ _ _ _ _ _ _ (laws t)); [done|]. by eapply Hok.
    + apply ix_range_length.
  - left. simpl. rewrite Hj. by do 3 eexists.
  - left. do 3 eexists. split; [done|]. split; [done|]. rewrite Hj.
    split; [done|]. split; [|done]. intros j'. simpl. unfold upd. by case_decide.
  - left. do 3 eexists. split; [done|]. split; [done|]. rewrite Hj.
    split; [done|]. split; [|done]. intros j'. simpl. unfold upd. by case_decide.
Qed.

(** ** Whole programs *)
Lemma lock_step_trans a1 a2 a3 : lock_step_ok a1 a2 -> lock_step_ok a2 a3 -> lock_step_ok a1 a3.
Proof. intros [_ H1'] [Hb H2']. split; [done|]. auto. Qed.

Lemma lock_step_refl a : balanced a -> lock_step_ok a a.
Proof. by split. Qed.

(** The run of [p] from [s] comes to an insert that finds no record id left. *)
Fixpoint runs_out {A} (p : prog N J A) (ds : nat -> draws) (n : nat) s : Prop :=
  match p with
  | Do o k =>
      (step ops o (ds n) s = Panic /\ no_id o (ds n) s) \/
      exists b s', step ops o (ds n) s = Ret (b, s') /\ runs_out (k b) ds (Datatypes.S n) s'
  | _ => False
  end.

Lemma exec_sim {A} (p : prog N J A) Q ds n s a :
  db_sim s a -> wp p a Q ->
  (exists r s' a', exec ops p ds n s = Ret (r, s') /\ Q (Some r) a' /\ db_sim s' a' /\ lock_step_ok a a') \/
  (exec ops p ds n s = Panic /\ ((exists a', Q None a') \/ runs_out p ds n s)).
Proof.
  revert n s a. induction p as [r|e| |B o c IH]; intros n s a Hs Hp; simpl in Hp.
  - left. exists (Ok r), s, a. split; [done|]. split; [done|]. split; [done|]. apply lock_step_refl, Hs.
  - left. exists (Err e), s, a. split; [done|]. split; [done|]. split; [done|]. apply lock_step_refl, Hs.
  - right. split; [done|]. left. by exists a.
  - destruct Hp as [Hok Hp]. cbn [exec].
    destruct (step_sim o (ds n) s a Hs Hok) as [(b & s1 & a1 & E & Ha & Hs1)|[E Hf]].
    + rewrite E. runm.
      pose proof (aop_lock_ok S cols mcols o a b a1 (proj2 (proj2 (proj2 Hs))) Hok Ha) as Hl.
      destruct (IH b (Datatypes.S n) s1 a1 Hs1 (Hp b a1 Ha)) as [(r & s' & a' & E' & HQ & Hs' & Hl')|[E' Hout]];
        [left|right; split; [done|destruct Hout as [?|?]; [by left|]; right; right; by exists b, s1]].
      exists r, s', a'. split; [done|]. split; [done|]. split; [done|]. by eapply lock_step_trans.
    + right. rewrite E. runm. split; [done|]. right. by left.
Qed.

(** [released a a']: [a'] is [a] with the guards of the transaction dropped. *)
Definition released a a' : Prop :=
  (forall t r, fst <$> a_recs a' t !! r = fst <$> a_recs a t !! r) /\
  (forall t, a_index a' t = a_index a t) /\ (forall j, a_idx a' j = a_idx a j) /\
  a_held a' = [] /\ lock_step_ok a a'.

Lemma drop_all_sim held s a :
  db_sim s a -> a_held a = held ->
  exists s' a', drop_all ops held s = Ret s' /\ db_sim s' a' /\ released a a'.
Proof.
  revert s a. induction held as [|[[t g] w] held IH]; intros s a Hs Hh.
  - exists s, a. split; [done|]. split; [done|]. pose proof (lock_step_refl a (proj2 (proj2 (proj2 Hs)))). done.
  - destruct (drop_sim s a t g w Hs) as (s1 & a1 & E & Ha & Hs1); [rewrite Hh; by left|].
    assert (Hok : aok (Drop_ t g w) a) by (simpl; rewrite Hh; by left).
    pose proof (aop_lock_ok S cols mcols _ a tt a1 (proj2 (proj2 (proj2 Hs))) Hok Ha) as Hl.
    destruct Ha as (x & n & Hx & _ & ->).
    destruct (IH s1 _ Hs1) as (s' & a' & E' & Hs' & Hrec & Hix & Hj & Hh' & Hl').
    { simpl. rewrite Hh. simpl. by rewrite decide_True. }
    exists s', a'. cbn [drop_all]. rewrite E. runm. split; [done|]. split; [done|].
    split; [|split; [done|split; [done|split; [done|by eapply lock_step_trans]]]].
    intros t' r. rewrite Hrec. simpl. unfold upd. case_decide; [subst t'|done].
    destruct (decide (r = g)) as [->|]; [by rewrite lookup_insert_eq, Hx|by rewrite lookup_insert_ne].
Qed.

(** Every record [a] has is still there, under the same lock. *)
Definition locks_kept a a' : Prop :=
  forall t r n, snd <$> a_recs a t !! r = Some n -> snd <$> a_recs a' t !! r = Some n.

Lemma no_guards_lock a t r : a_held a = [] -> others_lock a t r = snd <$> a_recs a t !! r.
Proof.
  intros Hh. unfold others_lock. rewrite Hh. simpl. destruct (a_recs a t !! r) as [[x n]|]; [|done].
  simpl. by rewrite Z.sub_0_r.
Qed.

(** What the logic shows of a program holds of every run of it as a
    transaction: from tables related to an abstract state without guards, the
    transaction returns, unless an assertion of it fails or the thread runs
    out of record ids (the panic of [alloc]); its result and the state it reaches satisfy the
    postcondition proved of the program; the guards it still held are
    dropped, with contents and indexes untouched, and every record that
    existed before is under the lock it was under before the transaction. *)
Theorem transact_sound {A} (p : prog N J A) Q ds s a :
  db_sim s a -> a_held a = [] -> wp p a Q ->
  (exists r s' a1 a', transact ops p ds s = Ret (r, s') /\ Q (Some r) a1 /\ released a1 a' /\
     db_sim s' a' /\ locks_kept a a') \/
  (transact ops p ds s = Panic /\ ((exists a1, Q None a1) \/ runs_out p ds 0 s)).
Proof.
  intros Hs Hh Hp. unfold transact.
  destruct (exec_sim p Q ds 0 s a Hs Hp) as [(r & s1 & a1 & E & HQ & Hs1 & Hl)|[E Hf]]; [left|right; by rewrite E].
  rewrite E. runm.
  destruct (drop_all_sim (a_held a1) s1 a1 Hs1 eq_refl) as (s' & a' & E' & Hs' & Hrel).
  pose proof Hs1 as (_ & _ & Hh1 & _). rewrite Hh1, E'. runm.
  exists r, s', a1, a'. split; [done|]. split; [done|]. split; [done|]. split; [done|].
  pose proof Hrel as (_ & _ & _ & Hh' & Hl'). intros t r' n Hn.
  rewrite <-no_guards_lock in Hn |- * by done. apply Hl', Hl, Hn.
Qed.
End soundness.
