(* ===== verification/TxnView.v ===== *)
(** * Transactions on plain maps

    A transaction that holds its locks may think of the tables as maps from
    record ids to tuples: here is the logic of programs ([wp] of Txn.v) over
    that view, in which locks only decide whether a call fails.  The view is
    right as long as other threads hold few of the read locks, indexes point
    to records and the transaction holds at most [GUARDS] guards. *)

From Stdlib Require Import QArith.
From S2P Require Import Prelude Query Schema External CacheMachine Table Guarded Txn.
Open Scope Z_scope.

Section view.
Context {N J : Type} `{EqDecision N, EqDecision J}.
Context {Ix : Type} `{DbIndexLaws Ix} `{!RangeIndex Ix} `{!RangeIndexLaws Ix}.
Context (S : N -> Schema) (cols mcols : N -> list Field).

(** ** Views *)
Record view := mkView {
  v_tab : N -> gmap Rid obj;
  v_index : N -> Ix;
  v_idx : J -> Ix;
  v_cur : N -> option (Rid * FieldsMeta);
  v_held : list (N * Rid * bool);
}.

Definition v_set (v : view) (t : N) (M : gmap Rid obj) (cur : option (Rid * FieldsMeta))
    (held : list (N * Rid * bool)) : view :=
  mkView (upd (v_tab v) t M) (v_index v) (v_idx v) (upd (v_cur v) t cur) held.

(** A lock call changes no table. *)
Definition v_locked (v : view) (t : N) (held : list (N * Rid * bool)) : view :=
  mkView (v_tab v) (v_index v) (v_idx v) (upd (v_cur v) t None) held.

Definition v_query (v : view) (t : N) (cur : option (Rid * FieldsMeta)) : view :=
  mkView (v_tab v) (v_index v) (v_idx v) (upd (v_cur v) t cur) (v_held v).

Definition v_set_idx (v : view) (j : J) (i : Ix) : view :=
  mkView (v_tab v) (v_index v) (upd (v_idx v) j i) (v_cur v) (v_held v).

(** The ways a lock call ends. *)
Definition v_lock (busy : TransactionError) (w : bool) (t : N) (r : Rid) (v : view)
    (res : result Rid TransactionError) (v' : view) : Prop :=
  v' = v_locked v t (push t w res (v_held v)) /\
  match res with
  | Ok g => g = r /\ is_Some (v_tab v t !! r)
  | Err e => e = LockBusy \/ e = busy
  end.

Definition v_lock_key (busy : TransactionError) (w : bool) (t : N) (k : Z) (v : view)
    (res : result Rid TransactionError) (v' : view) : Prop :=
  match index_get (v_index v t) k with
  | Some r => v_lock busy w t r v res v'
  | None => res = Err IndexNotFound /\ v' = v_locked v t (v_held v)
  end.

Definition vop {B} (o : op N J B) (v : view) : B -> view -> Prop :=
  match o in op _ _ B return B -> view -> Prop with
  | ReadOid t k => v_lock_key ReadLockBusy false t k v
  | WriteOid t k => v_lock_key WriteLockBusy true t k v
  | LockRidR t r => v_lock ReadLockBusy false t r v
  | LockRidW t r => v_lock WriteLockBusy true t r v
  | Read t g q | Promote t g q => fun _ v' => v' = v_query v t (Some (g, q))
  | Get t f => fun bs v' => exists g q x,
      v_cur v t = Some (g, q) /\ v_tab v t !! g = Some x /\ bs = load_field x f /\ v' = v
  | Put t f bs => fun _ v' => exists g q x,
      v_cur v t = Some (g, q) /\ v_tab v t !! g = Some x /\
      v' = v_set v t (<[g := store_field x f bs]> (v_tab v t)) (Some (g, q)) (v_held v)
  | Insert t x => fun r v' => exists k,
      v_tab v t !! r = None /\ @key (S t) x = Ret k /\
      v' = mkView (upd (v_tab v) t (<[r := x]> (v_tab v t)))
             (upd (v_index v) t (index_insert (v_index v t) k r)) (v_idx v)
             (upd (v_cur v) t None) ((t, r, true) :: v_held v)
  | Drop_ t g w => fun _ v' => v' = v_locked v t (pull (t, g, w) (v_held v))
  | Range t low high n => fun rs v' => rs = snd <$> ix_range (v_index v t) low high n /\ v' = v
  | IdxRange j low high n => fun kvs v' => kvs = ix_range (v_idx v j) low high n /\ v' = v
  | IdxInsert j k r => fun _ v' => v' = v_set_idx v j (index_insert (v_idx v j) k r)
  | IdxRemove j k => fun _ v' => v' = v_set_idx v j (ix_remove (v_idx v j) k)
  end.

Definition GUARDS : nat := 60.

Definition vok {B} (o : op N J B) (v : view) : Prop :=
  match o with
  | ReadOid _ _ | WriteOid _ _ => (length (v_held v) <= GUARDS)%nat
  | LockRidR t r | LockRidW t r => (length (v_held v) <= GUARDS)%nat /\ is_Some (v_tab v t !! r)
  | Read t g q => exists w, (t, g, w) ∈ v_held v
  | Promote t g q => (t, g, true) ∈ v_held v
  | Get t f => exists g q w, v_cur v t = Some (g, q) /\ (t, g, w) ∈ v_held v /\
      @covers (S t) q f /\ f ∈ cols t
  | Put t f bs => exists g q, v_cur v t = Some (g, q) /\ (t, g, true) ∈ v_held v /\
      @covers (S t) q f /\ f ∈ mcols t /\ length bs = Z.to_nat (Field_len f)
  | Insert t x => length x = @tuple_size (S t) /\ exists k, @key (S t) x = Ret k
  | Drop_ t g w => (t, g, w) ∈ v_held v
  | Range _ _ _ _ | IdxRange _ _ _ _ | IdxInsert _ _ _ | IdxRemove _ _ => True
  end.

Fixpoint vwp {A} (p : prog N J A) (v : view)
    (Q : option (result A TransactionError) -> view -> Prop) : Prop :=
  match p with
  | Return a => Q (Some (Ok a)) v
  | Fail_ e => Q (Some (Err e)) v
  | Crash => Q None v
  | Do o k => vok o v /\ forall b v', vop o v b v' -> vwp (k b) v' Q
  end.

Lemma vwp_bind {A B} (p : prog N J A) (k : A -> prog N J B) v Q :
  vwp p v (fun r v' => match r with
                       | Some (Ok a) => vwp (k a) v' Q
                       | Some (Err e) => Q (Some (Err e)) v'
                       | None => Q None v'
                       end) ->
  vwp (p ≫= k) v Q.
Proof.
  revert v. induction p as [a|e| |C o c IH]; intros v Hp; [done..|].
  destruct Hp as [Hok Hp]. split; [done|]. intros b v' Hv. by apply IH, Hp.
Qed.

Lemma vwp_assoc {A B C} (p : prog N J A) (f : A -> prog N J B) (k : B -> prog N J C) v Q :
  vwp (p ≫= fun a => f a ≫= k) v Q -> vwp ((p ≫= f) ≫= k) v Q.
Proof.
  revert v. induction p as [a|e| |D o c IH]; intros v Hp; [done..|].
  destruct Hp as [Hok Hp]. split; [done|]. intros b v' Hv. by apply IH, Hp.
Qed.

Lemma vwp_mono {A} (p : prog N J A) v (Q Q' : option (result A TransactionError) -> view -> Prop) :
  (forall r v', Q r v' -> Q' r v') -> vwp p v Q -> vwp p v Q'.
Proof.
  intros HQ. revert v. induction p as [a|e| |C o c IH]; simpl; intros v Hp; [by apply HQ..|].
  destruct Hp as [Hok Hp]. split; [done|]. intros b v' Hv. by apply IH, Hp.
Qed.

(** ** Programs that only look *)
Definition unchanged (v v' : view) : Prop :=
  (forall t, v_tab v' t = v_tab v t) /\ (forall t, v_index v' t = v_index v t) /\
  (forall j, v_idx v' j = v_idx v j).

Definition looks {B} (o : op N J B) : Prop :=
  match o with
  | Put _ _ _ | Insert _ _ | IdxInsert _ _ _ | IdxRemove _ _ => False
  | _ => True
  end.

Fixpoint read_only {A} (p : prog N J A) : Prop :=
  match p with
  | Do o k => looks o /\ forall b, read_only (k b)
  | _ => True
  end.

Lemma looks_unchanged {B} (o : op N J B) v b v' : looks o -> vop o v b v' -> unchanged v v'.
Proof.
  assert (Hl : forall t held, unchanged v (v_locked v t held)) by done.
  intros Ho Hv. destruct o; simpl in *; unfold v_lock_key, v_lock in *; try done;
    try case_match; repeat match goal with
                    | H' : _ /\ _ |- _ => destruct H'
                    | H' : exists _, _ |- _ => destruct H'
                    end; by subst.
Qed.

Lemma read_only_unchanged {A} (p : prog N J A) v Q :
  read_only p -> vwp p v Q -> vwp p v (fun r v' => Q r v' /\ unchanged v v').
Proof.
  intros Hr Hp.
  assert (Hgen : forall v0, unchanged v0 v -> vwp p v (fun r v' => Q r v' /\ unchanged v0 v')).
  { clear -Hr Hp. revert v Hr Hp. induction p as [a|e| |B o c IH]; intros v Hr Hp v0 Hv0; [done..|].
    destruct Hr as [Ho Hr], Hp as [Hok Hp]. split; [done|]. intros b v' Hv.
    apply IH; [by apply Hr|by apply Hp|].
    destruct (looks_unchanged _ _ _ _ Ho Hv) as (E1 & E2 & E3), Hv0 as (F1 & F2 & F3).
    split; [|split]; intros; congruence. }
  by apply Hgen.
Qed.

Lemma read_only_bind {A B} (p : prog N J A) (k : A -> prog N J B) :
  read_only p -> (forall a, read_only (k a)) -> read_only (p ≫= k).
Proof.
  intros Hp Hk. induction p as [a|e| |C o c IH]; [apply Hk|done|done|].
  destruct Hp as [Ho Hp]. split; [done|]. intros b. by apply IH.
Qed.

(** ** The view of an abstract state *)
Abbreviation adb := (adb N J Ix).

(** Other threads hold at most [READERS] read locks on a record. *)
Definition READERS : Z := 60.

Definition room (a : adb) : Prop :=
  forall t r l, others_lock a t r = Some l -> 0 <= l <= READERS \/ l = 128.

(** Indexes point to records, records have the size of their tuples. *)
Definition linked (v : view) : Prop :=
  (forall t k r, index_get (v_index v t) k = Some r -> is_Some (v_tab v t !! r)) /\
  (forall t r x, v_tab v t !! r = Some x -> length x = @tuple_size (S t)).

Definition shows (v : view) (a : adb) : Prop :=
  (forall t, v_tab v t = fst <$> a_recs a t) /\ (forall t, v_index v t = a_index a t) /\
  (forall j, v_idx v j = a_idx a j) /\ (forall t, v_cur v t = a_cur a t) /\ v_held v = a_held a.

Definition sees (v : view) (a : adb) : Prop := shows v a /\ balanced a /\ room a /\ linked v.

Lemma held_cnt_length (p : N * Rid * bool) held : (held_cnt p held <= length held)%nat.
Proof. induction held as [|q held IH]; cbn [held_cnt length]; [lia|]. case_decide; lia. Qed.

Lemma shows_lookup v a t r x :
  shows v a -> v_tab v t !! r = Some x -> exists n, a_recs a t !! r = Some (x, n).
Proof.
  intros (Ht & _) Hr. rewrite Ht, lookup_fmap in Hr.
  destruct (a_recs a t !! r) as [[y n]|]; [|done]. simpl in Hr. simplify_eq. by exists n.
Qed.

Lemma shows_tab v a t r x n : shows v a -> a_recs a t !! r = Some (x, n) -> v_tab v t !! r = Some x.
Proof. intros (Ht & _) Hr. by rewrite Ht, lookup_fmap, Hr. Qed.

Lemma shows_some v a t r : shows v a -> is_Some (v_tab v t !! r) <-> is_Some (a_recs a t !! r).
Proof. intros (Ht & _). by rewrite Ht, lookup_fmap, fmap_is_Some. Qed.

Lemma sees_lockable v a t r :
  sees v a -> (length (v_held v) <= GUARDS)%nat -> is_Some (v_tab v t !! r) -> lockable (a_recs a t) r.
Proof.
  intros (Hsh & Hb & Hroom & _) Hl [[x n] Hr]%(shows_some v a t r Hsh). exists x, n. split; [done|].
  destruct Hsh as (_ & _ & _ & _ & Hh).
  specialize (Hb t r). specialize (Hroom t r). unfold others_lock in Hroom. rewrite Hr in Hb, Hroom.
  specialize (Hroom _ eq_refl). rewrite Hh in Hl. unfold GUARDS, READERS in *.
  pose proof (held_cnt_length (t, r, false) (a_held a)).
  unfold accounts in Hb. case_decide; lia.
Qed.

(** The records of a state after a lock call. *)
Lemma lock_result_tab t l busy r R res R' (w : bool) :
  lock_result (cols t) (mcols t) l busy r R res R' ->
  l = (if w then LWriteLock r else LReadLock r) ->
  (forall r', fst <$> R' !! r' = fst <$> R !! r') /\
  match res with Ok g => g = r /\ is_Some (R !! r) | Err e => e = LockBusy \/ e = busy end.
Proof.
  intros Hres ->. destruct Hres as [R' Hst| |x n Hx Hn]; [|by split; [|left]|by split; [|right]].
  apply lock_granted in Hst as (x & n & Hx & -> & _). split; [|split; [done|by eexists]]. intros r'.
  destruct (decide (r' = r)) as [->|]; [by rewrite lookup_insert_eq, Hx|by rewrite lookup_insert_ne].
Qed.

(** What a call needs of the view gives what it needs of the state. *)
Lemma vok_aok {B} (o : op N J B) v a : sees v a -> vok o v -> aok S cols mcols o a.
Proof.
  intros Hs Hok. pose proof Hs as (Hsh & _ & _ & [Hlink _]).
  pose proof Hsh as (_ & Hix & _ & Hc & Hh). destruct o; simpl in *; try done.
  - intros r Hr. eapply sees_lockable; [done|done|]. eapply Hlink. by rewrite Hix.
  - intros r Hr. eapply sees_lockable; [done|done|]. eapply Hlink. by rewrite Hix.
  - destruct Hok. by eapply sees_lockable.
  - destruct Hok. by eapply sees_lockable.
  - by rewrite <-Hh.
  - by rewrite <-Hh.
  - by rewrite <-Hh, <-Hc.
  - by rewrite <-Hh, <-Hc.
  - by rewrite <-Hh.
  - intros k r Hr. apply ix_range_in in Hr as [Hr _]. rewrite <-Hix in Hr.
    apply (shows_some v a); [done|]. by eapply Hlink.
Qed.

Lemma upd_ext {I B} `{EqDecision I} (f g : I -> B) i b i' :
  (forall x, f x = g x) -> upd f i b i' = upd g i b i'.
Proof. intros Hfg. unfold upd. by case_decide. Qed.

(** A change of the records of [t], and of its query and guards. *)
Lemma shows_set v a t R cur held :
  shows v a -> shows (v_set v t (fst <$> R) cur held) (a_set a t R cur held).
Proof.
  intros (Ht & Hix & Hj & Hc & Hh). split; [|split; [done|split; [done|split; [|done]]]].
  - intros t'. simpl. unfold upd. by case_decide; subst.
  - intros t'. by apply upd_ext.
Qed.

Lemma shows_ext v v' a :
  shows v a -> (forall t, v_tab v' t = v_tab v t) -> (forall t, v_index v' t = v_index v t) ->
  (forall j, v_idx v' j = v_idx v j) -> (forall t, v_cur v' t = v_cur v t) -> v_held v' = v_held v ->
  shows v' a.
Proof.
  intros (Ht & Hix & Hj & Hc & Hh) Et Ei Ej Ec Eh. repeat split; intros; congruence.
Qed.

Lemma shows_locked v a t R held :
  shows v a -> (forall r, fst <$> R !! r = fst <$> a_recs a t !! r) ->
  shows (v_locked v t held) (a_set a t R None held).
Proof.
  intros Hs HR. eapply shows_ext; [by apply (shows_set v a t R None held)|..]; try done.
  intros t'. destruct Hs as (Ht & _). simpl. unfold upd. case_decide; [subst t'|done].
  rewrite Ht. apply map_eq. intros r. by rewrite !lookup_fmap, HR.
Qed.

(** Every way a call can turn out on the state shows in the view. *)
Lemma aop_vop {B} (o : op N J B) v a b a' :
  shows v a -> aop S cols mcols o a b a' -> exists v', vop o v b v' /\ shows v' a'.
Proof.
  intros Hs Ha. pose proof Hs as (Ht & Hix & Hj & Hc & Hh).
  assert (Hlock : forall t l busy r R (w : bool) res,
            lock_result (cols t) (mcols t) l busy r (a_recs a t) res R ->
            l = (if w then LWriteLock r else LReadLock r) ->
            exists v', v_lock busy w t r v res v' /\
              shows v' (a_set a t R None (push t w res (a_held a)))).
  { intros t l busy r R w res Hres Hl.
    destruct (lock_result_tab _ _ _ _ _ _ _ _ Hres Hl) as [HR Hr].
    exists (v_locked v t (push t w res (v_held v))). split.
    - split; [done|]. destruct res; [|done]. destruct Hr as [-> Hr]. split; [done|]. by apply (shows_some v a).
    - rewrite Hh. by apply shows_locked. }
  assert (Hkey : forall t lb busy k R (w : bool) res,
            oid_result (cols t) (mcols t) lb busy (a_index a t) k (a_recs a t) res R ->
            lb = (if w then LWriteLock else LReadLock) ->
            exists v', v_lock_key busy w t k v res v' /\
              shows v' (a_set a t R None (push t w res (a_held a)))).
  { intros t lb busy k R w res Hres ->. unfold v_lock_key. rewrite Hix.
    destruct Hres as [E|r res R E Hres]; rewrite E.
    - exists (v_locked v t (v_held v)). split; [done|]. rewrite Hh. by apply shows_locked.
    - eapply Hlock; [done|]. by destruct w. }
  destruct o as [t k|t k|t r|t r|t g q|t g q|t f|t f bs|t x|t g w|t low high n|j low high n|j k r|j k];
    simpl in Ha.
  - destruct Ha as (R & Hres & ->). by eapply Hkey.
  - destruct Ha as (R & Hres & ->). by eapply Hkey.
  - destruct Ha as (R & Hres & ->). by eapply Hlock.
  - destruct Ha as (R & Hres & ->). by eapply Hlock.
  - subst a'. eexists. split; [done|]. eapply shows_ext; [by apply (shows_set v a)|..]; try done.
    intros t'. simpl. unfold upd. case_decide; [by subst|done].
  - subst a'. eexists. split; [done|]. eapply shows_ext; [by apply (shows_set v a)|..]; try done.
    intros t'. simpl. unfold upd. case_decide; [by subst|done].
  - destruct Ha as (g & q & x & n & E & Hx & -> & ->). exists v. split; [|done].
    exists g, q, x. rewrite Hc. split; [done|]. split; [by eapply shows_tab|done].
  - destruct Ha as (g & q & x & E & Hx & ->). eexists. split.
    + exists g, q, x. rewrite Hc. split; [done|]. split; [by eapply shows_tab|done].
    + eapply shows_ext; [by apply (shows_set v a)|..]; try done.
      intros t'. simpl. unfold upd. case_decide; [subst t'|done]. by rewrite Ht, fmap_insert.
  - destruct Ha as (k & Hr & Hk & ->). eexists. split.
    + exists k. split; [by rewrite Ht, lookup_fmap, Hr|done].
    + split; [|split; [|split; [done|split]]]; simpl; [| | |by rewrite Hh].
      * intros t'. rewrite Ht. unfold upd. case_decide; [subst|done]. by rewrite fmap_insert.
      * intros t'. rewrite Hix. by apply upd_ext.
      * intros t'. by apply upd_ext.
  - destruct Ha as (x & n & Hx & _ & ->). eexists. split; [done|]. rewrite Hh. apply shows_locked; [done|].
    intros r. destruct (decide (r = g)) as [->|]; [by rewrite lookup_insert_eq, Hx|by rewrite lookup_insert_ne].
  - destruct Ha as [-> ->]. exists v. simpl. by rewrite Hix.
  - destruct Ha as [-> ->]. exists v. simpl. by rewrite Hj.
  - subst a'. eexists. split; [done|]. split; [done|split; [done|split; [|done]]].
    intros j'. simpl. rewrite Hj. by apply upd_ext.
  - subst a'. eexists. split; [done|]. split; [done|split; [done|split; [|done]]].
    intros j'. simpl. rewrite Hj. by apply upd_ext.
Qed.

(** ** The view stays right *)

(** The records after a call: those before, and an inserted one, which the
    transaction holds. *)
Lemma vop_records {B} (o : op N J B) v b v' t r :
  vop o v b v' -> is_Some (v_tab v' t !! r) ->
  is_Some (v_tab v t !! r) \/ (t, r, true) ∈ v_held v'.
Proof.
  intros Hv Hr. destruct o; simpl in Hv; unfold v_lock_key, v_lock in Hv; try (by subst; left);
    try (left; repeat case_match; destruct_and?; by subst).
  - left. by destruct Hv as (? & ? & ? & _ & _ & _ & ->).
  - left. destruct Hv as (g & q & x & _ & Hx & ->). simpl in Hr. unfold upd in Hr.
    case_decide; [subst t0|done]. destruct (decide (r = g)) as [->|]; [by rewrite Hx|].
    by rewrite lookup_insert_ne in Hr.
  - destruct Hv as (k & _ & _ & ->). simpl in Hr |- *. unfold upd in Hr. case_decide; [subst t0|by left].
    destruct (decide (r = b)) as [->|]; [right; by left|left; by rewrite lookup_insert_ne in Hr].
Qed.

Lemma vop_kept {B} (o : op N J B) v b v' t r :
  vop o v b v' -> is_Some (v_tab v t !! r) -> is_Some (v_tab v' t !! r).
Proof.
  intros Hv Hr. destruct o; simpl in Hv; unfold v_lock_key, v_lock in Hv; try (by subst);
    try (repeat case_match; destruct_and?; by subst).
  - by destruct Hv as (? & ? & ? & _ & _ & _ & ->).
  - destruct Hv as (g & q & x & _ & Hx & ->). simpl. unfold upd.
    case_decide; [subst t0|done]. destruct (decide (r = g)) as [->|]; [by rewrite lookup_insert_eq|].
    by rewrite lookup_insert_ne.
  - destruct Hv as (k & _ & _ & ->). simpl. unfold upd. case_decide; [subst t0|done].
    destruct (decide (r = b)) as [->|]; [by rewrite lookup_insert_eq|by rewrite lookup_insert_ne].
Qed.

Lemma vop_index {B} (o : op N J B) v b v' t k r :
  vop o v b v' -> index_get (v_index v' t) k = Some r ->
  index_get (v_index v t) k = Some r \/ is_Some (v_tab v' t !! r).
Proof.
  intros Hv Hr. destruct o; simpl in Hv; unfold v_lock_key, v_lock in Hv; try (by subst; left);
    try (left; repeat case_match; destruct_and?; by subst).
  - left. by destruct Hv as (? & ? & ? & _ & _ & _ & ->).
  - left. by destruct Hv as (? & ? & ? & _ & _ & ->).
  - destruct Hv as (k' & _ & _ & ->). simpl in Hr |- *. unfold upd in *. case_decide; [subst t0|by left].
    rewrite index_get_insert in Hr. case_decide; [|by left]. simplify_eq. right. by rewrite lookup_insert_eq.
Qed.

Lemma vop_size {B} (o : op N J B) v b v' t r x' :
  vok o v -> vop o v b v' -> v_tab v' t !! r = Some x' ->
  (exists x, v_tab v t !! r = Some x /\ length x' = length x) \/ length x' = @tuple_size (S t).
Proof.
  intros Hok Hv Hr. destruct o; simpl in Hv, Hok; unfold v_lock_key, v_lock in Hv; try (subst; left; by exists x');
    try (left; exists x'; split; [|done]; repeat case_match; destruct_and?; by subst).
  - left. exists x'. destruct Hv as (? & ? & ? & _ & _ & _ & ->). done.
  - left. destruct Hv as (g & q & x & _ & Hx & ->). simpl in Hr. unfold upd in Hr.
    case_decide; [subst t0|by exists x'].
    destruct (decide (r = g)) as [->|]; [|rewrite lookup_insert_ne in Hr by done; by exists x'].
    rewrite lookup_insert_eq in Hr. simplify_eq. exists x. split; [done|]. apply length_store_field.
  - destruct Hv as (k' & _ & _ & ->). simpl in Hr. unfold upd in Hr.
    case_decide; [subst t0|left; by exists x'].
    destruct (decide (r = b)) as [->|]; [|rewrite lookup_insert_ne in Hr by done; left; by exists x'].
    rewrite lookup_insert_eq in Hr. simplify_eq. right. by destruct Hok.
Qed.

Lemma vop_linked {B} (o : op N J B) v b v' : linked v -> vok o v -> vop o v b v' -> linked v'.
Proof.
  intros [Hl Hs] Hok Hv. split.
  - intros t k r Hr. destruct (vop_index _ _ _ _ _ _ _ Hv Hr) as [Hr'|?]; [|done].
    eapply vop_kept; [done|]. by eapply Hl.
  - intros t r x' Hr. destruct (vop_size _ _ _ _ _ _ _ Hok Hv Hr) as [(x & Hx & ->)|?]; [by eapply Hs|done].
Qed.

Lemma vop_sees {B} (o : op N J B) v a b a' :
  sees v a -> vok o v -> aop S cols mcols o a b a' -> exists v', vop o v b v' /\ sees v' a'.
Proof.
  intros Hs Hok Ha. pose proof (vok_aok o v a Hs Hok) as Haok. destruct Hs as (Hs & Hb & Hroom & Hl).
  destruct (aop_vop _ _ _ _ _ Hs Ha) as (v' & Hv & Hs').
  destruct (aop_lock_ok S cols mcols o a b a' Hb Haok Ha) as [Hb' Hk].
  exists v'. split; [done|]. split; [done|]. split; [done|]. split; [|by eapply vop_linked].
  intros t r l Hr. destruct (others_lock a t r) as [l0|] eqn:E.
  - pose proof (Hk _ _ _ E). apply (Hroom t r). congruence.
  - unfold others_lock in Hr, E. destruct (a_recs a t !! r) as [[x n]|] eqn:Ex; [done|].
    destruct (a_recs a' t !! r) as [[x n]|] eqn:Ex'; [|done]. left.
    destruct (vop_records _ _ _ _ t r Hv) as [Hx|Hin].
    + eexists. by eapply shows_tab.
    + apply (shows_some v a) in Hx; [|done]. rewrite Ex in Hx. by destruct Hx.
    + destruct Hs' as (_ & _ & _ & _ & Hh). rewrite Hh in Hin. apply held_cnt_in in Hin.
      rewrite decide_False in Hr by lia. simplify_eq. unfold READERS. lia.
Qed.

(** What is proved on the view holds of the abstract state. *)
Lemma vwp_wp {A} (p : prog N J A) v a Q :
  sees v a -> vwp p v Q -> wp S cols mcols p a (fun r a' => exists v', sees v' a' /\ Q r v').
Proof.
  revert v a. induction p as [r|e| |B o c IH]; intros v a Hs Hp; simpl in *; [by exists v..|].
  destruct Hp as [Hok Hp]. split; [by eapply vok_aok|]. intros b a' Ha.
  destruct (vop_sees o v a b a' Hs Hok Ha) as (v' & Hv & Hs'). eapply IH; [done|by apply Hp].
Qed.
End view.
Arguments view N J Ix : clear implicits.

(** ** Symbolic execution

    One rule per call, for a program that goes on with [k]. *)
Section rules.
Context {N J : Type} `{EqDecision N, EqDecision J}.
Context {Ix : Type} `{DbIndex Ix} `{!RangeIndex Ix}.
Context (S : N -> Schema) (cols mcols : N -> list Field).
Context {A : Type} (Q : option (result A TransactionError) -> view N J Ix -> Prop).
Implicit Types (v : view N J Ix) (t : N) (j : J).
Abbreviation vwp := (vwp S cols mcols).

Lemma vwp_call {B} (o : op N J B) (k : B -> prog N J A) v :
  vok S cols mcols o v -> (forall b v', vop S o v b v' -> vwp (k b) v' Q) -> vwp (call o ≫= k) v Q.
Proof. by split. Qed.

Lemma vwp_lift {B} (m : outcome B) b (k : B -> prog N J A) v :
  m = Ret b -> vwp (k b) v Q -> vwp (lift m ≫= k) v Q.
Proof. by intros ->. Qed.

(** An assertion that may fail. *)
Lemma vwp_lift_or {B} (m : outcome B) (k : B -> prog N J A) v :
  (forall b, m = Ret b -> vwp (k b) v Q) -> Q None v -> vwp (lift m ≫= k) v Q.
Proof. intros Hk Hn. destruct m; [by apply Hk|done..]. Qed.

Lemma vwp_ret {B} (b : B) (k : B -> prog N J A) v : vwp (k b) v Q -> vwp (mret b ≫= k) v Q.
Proof. done. Qed.

(** A lock call either locks the record or ends the transaction with an error
    and the tables as they were. *)
Definition locked_out (busy e : TransactionError) : Prop := e = LockBusy \/ e = busy.

(** The error of a call by key: nothing has the key, or what has it is locked. *)
Definition refused (busy : TransactionError) v (t : N) (key : Z) (e : TransactionError) : Prop :=
  match index_get (v_index v t) key with
  | Some _ => locked_out busy e
  | None => e = IndexNotFound
  end.

Lemma vwp_lock_result busy (w : bool) t r (k : Rid -> prog N J A) v res v' (err : TransactionError -> TransactionError) :
  v_lock busy w t r v res v' ->
  (forall x, v_tab v t !! r = Some x -> vwp (k r) (v_locked v t ((t, r, w) :: v_held v)) Q) ->
  (forall e, locked_out busy e -> Q (Some (Err (err e))) (v_locked v t (v_held v))) ->
  vwp ((match res with Ok g => mret g | Err e => Fail_ (err e) end) ≫= k) v' Q.
Proof.
  intros [-> Hres] Hk He. destruct res as [g|e]; [|by apply He]. destruct Hres as [-> [x Hx]]. by eapply Hk.
Qed.

Lemma vwp_lock_key busy (w : bool) t key (k : Rid -> prog N J A) v res v' (err : TransactionError -> TransactionError) :
  v_lock_key busy w t key v res v' ->
  (forall r x, index_get (v_index v t) key = Some r -> v_tab v t !! r = Some x ->
     vwp (k r) (v_locked v t ((t, r, w) :: v_held v)) Q) ->
  (forall e, refused busy v t key e -> Q (Some (Err (err e))) (v_locked v t (v_held v))) ->
  vwp ((match res with Ok g => mret g | Err e => Fail_ (err e) end) ≫= k) v' Q.
Proof.
  unfold v_lock_key, refused. intros Hl Hk He. destruct (index_get (v_index v t) key) as [r|] eqn:E.
  - eapply vwp_lock_result; [done| |done]. intros x Hx. by eapply Hk.
  - destruct Hl as [-> ->]. by apply He.
Qed.

Lemma vwp_write_oid t key (k : Rid -> prog N J A) v :
  (length (v_held v) <= GUARDS)%nat ->
  (forall r x, index_get (v_index v t) key = Some r -> v_tab v t !! r = Some x ->
     vwp (k r) (v_locked v t ((t, r, true) :: v_held v)) Q) ->
  (forall e, refused WriteLockBusy v t key e -> Q (Some (Err e)) (v_locked v t (v_held v))) ->
  vwp (try_lock (WriteOid t key) ≫= k) v Q.
Proof. intros Hl Hk He. split; [done|]. intros res v' Hv. by apply (vwp_lock_key _ _ _ _ _ _ _ _ id Hv). Qed.

Lemma vwp_read_oid t key (k : Rid -> prog N J A) v :
  (length (v_held v) <= GUARDS)%nat ->
  (forall r x, index_get (v_index v t) key = Some r -> v_tab v t !! r = Some x ->
     vwp (k r) (v_locked v t ((t, r, false) :: v_held v)) Q) ->
  (forall e, Q (Some (Err e)) (v_locked v t (v_held v))) ->
  vwp (try_lock (ReadOid t key) ≫= k) v Q.
Proof. intros Hl Hk He. split; [done|]. intros res v' Hv. by apply (vwp_lock_key _ _ _ _ _ _ _ _ id Hv). Qed.

Lemma vwp_lock_r t r x (k : Rid -> prog N J A) v :
  (length (v_held v) <= GUARDS)%nat -> v_tab v t !! r = Some x ->
  vwp (k r) (v_locked v t ((t, r, false) :: v_held v)) Q ->
  (forall e, Q (Some (Err e)) (v_locked v t (v_held v))) ->
  vwp (try_lock (LockRidR t r) ≫= k) v Q.
Proof.
  intros Hl Hx Hk He. split; [by split|]. intros res v' Hv. by apply (vwp_lock_result _ _ _ _ _ _ _ _ id Hv).
Qed.

Lemma vwp_lock_w t r x (k : Rid -> prog N J A) v :
  (length (v_held v) <= GUARDS)%nat -> v_tab v t !! r = Some x ->
  vwp (k r) (v_locked v t ((t, r, true) :: v_held v)) Q ->
  (forall e, locked_out WriteLockBusy e -> Q (Some (Err e)) (v_locked v t (v_held v))) ->
  vwp (try_lock (LockRidW t r) ≫= k) v Q.
Proof.
  intros Hl Hx Hk He. split; [by split|]. intros res v' Hv. by apply (vwp_lock_result _ _ _ _ _ _ _ _ id Hv).
Qed.

Lemma vwp_read t g w q (k : unit -> prog N J A) v :
  (t, g, w) ∈ v_held v -> vwp (k tt) (v_query v t (Some (g, q))) Q -> vwp (call (Read t g q) ≫= k) v Q.
Proof. intros Hin Hk. split; [by exists w|]. by intros [] v' ->. Qed.

Lemma vwp_promote t g q (k : unit -> prog N J A) v :
  (t, g, true) ∈ v_held v -> vwp (k tt) (v_query v t (Some (g, q))) Q -> vwp (call (Promote t g q) ≫= k) v Q.
Proof. intros Hin Hk. split; [done|]. by intros [] v' ->. Qed.

Lemma vwp_get t f g q w x (k : obj -> prog N J A) v :
  v_cur v t = Some (g, q) -> (t, g, w) ∈ v_held v -> v_tab v t !! g = Some x ->
  @covers (S t) q f -> f ∈ cols t ->
  vwp (k (load_field x f)) v Q -> vwp (call (Get t f) ≫= k) v Q.
Proof.
  intros Hc Hin Hx Hcov Hf Hk. split; [by exists g, q, w|].
  intros bs v' (g' & q' & x' & Hc' & Hx' & -> & ->). by simplify_eq.
Qed.

Lemma vwp_put t f bs g q x (k : unit -> prog N J A) v :
  v_cur v t = Some (g, q) -> (t, g, true) ∈ v_held v -> v_tab v t !! g = Some x ->
  @covers (S t) q f -> f ∈ mcols t -> length bs = Z.to_nat (Field_len f) ->
  vwp (k tt) (v_set v t (<[g := store_field x f bs]> (v_tab v t)) (Some (g, q)) (v_held v)) Q ->
  vwp (call (Put t f bs) ≫= k) v Q.
Proof.
  intros Hc Hin Hx Hcov Hf Hl Hk. split; [by exists g, q|].
  intros [] v' (g' & q' & x' & Hc' & Hx' & ->). by simplify_eq.
Qed.

Lemma vwp_insert t x key (k : Rid -> prog N J A) v :
  length x = @tuple_size (S t) -> @Schema.key (S t) x = Ret key ->
  (forall r, v_tab v t !! r = None ->
     vwp (k r) (mkView (upd (v_tab v) t (<[r := x]> (v_tab v t)))
                  (upd (v_index v) t (index_insert (v_index v t) key r)) (v_idx v)
                  (upd (v_cur v) t None) ((t, r, true) :: v_held v)) Q) ->
  vwp (call (Insert t x) ≫= k) v Q.
Proof.
  intros Hl Hk Hc. split; [split; [done|by exists key]|].
  intros r v' (key' & Hr & Hk' & ->). rewrite Hk in Hk'. injection Hk' as <-. by apply Hc.
Qed.

Lemma vwp_drop t g w (k : unit -> prog N J A) v :
  (t, g, w) ∈ v_held v -> vwp (k tt) (v_locked v t (pull (t, g, w) (v_held v))) Q ->
  vwp (call (Drop_ t g w) ≫= k) v Q.
Proof. intros Hin Hk. split; [done|]. by intros [] v' ->. Qed.

Lemma vwp_range t low high n (k : list Rid -> prog N J A) v :
  vwp (k (snd <$> ix_range (v_index v t) low high n)) v Q -> vwp (call (Range t low high n) ≫= k) v Q.
Proof. intros Hk. split; [done|]. by intros rs v' [-> ->]. Qed.

Lemma vwp_idx_range j low high n (k : list (Z * Z) -> prog N J A) v :
  vwp (k (ix_range (v_idx v j) low high n)) v Q -> vwp (call (IdxRange j low high n) ≫= k) v Q.
Proof. intros Hk. split; [done|]. by intros rs v' [-> ->]. Qed.

Lemma vwp_idx_insert j key r (k : unit -> prog N J A) v :
  vwp (k tt) (v_set_idx v j (index_insert (v_idx v j) key r)) Q -> vwp (call (IdxInsert j key r) ≫= k) v Q.
Proof. intros Hk. split; [done|]. by intros [] v' ->. Qed.

Lemma vwp_idx_remove j key (k : unit -> prog N J A) v :
  vwp (k tt) (v_set_idx v j (ix_remove (v_idx v j) key)) Q -> vwp (call (IdxRemove j key) ≫= k) v Q.
Proof. intros Hk. split; [done|]. by intros [] v' ->. Qed.
End rules.

(** ** Whole transactions *)
Section transactions.
Context {N J : Type} `{EqDecision N, EqDecision J}.
Context {Ix Tb V : Type} `{DbIndexLaws Ix} `{!RangeIndex Ix} `{!RangeIndexLaws Ix}.
Context (ops : N -> GuardedTable Ix Tb V) (S : N -> Schema) (cols mcols : N -> list Field).
Context (laws : forall t, @GuardedTableLaws (S t) (cols t) (mcols t) Ix Tb V _ _ (ops t)).

(** A state between transactions: the tables show the view, no guard is held. *)
Definition at_rest (s : Txn.db N J Ix Tb V) (a : adb N J Ix) (v : view N J Ix) : Prop :=
  db_sim ops S cols mcols laws s a /\ sees S v a /\ v_held v = [].

Lemma released_sees (v : view N J Ix) a1 a' :
  sees S v a1 -> released a1 a' ->
  exists v' : view N J Ix, sees S v' a' /\ unchanged v v' /\ v_held v' = [].
Proof.
  intros (Hsh & Hb & Hroom & [Hl1 Hl2]) (Hrec & Hix & Hj & Hh & Hb' & Hk).
  pose proof Hsh as (Ht & Hi & Hx & Hc & _).
  set (v' := mkView (N := N) (J := J) (fun t => fst <$> a_recs a' t) (a_index a') (a_idx a') (a_cur a') []).
  assert (Htab : forall t, v_tab v' t = v_tab v t).
  { intros t. simpl. rewrite Ht. apply map_eq. intros r. by rewrite !lookup_fmap, Hrec. }
  assert (Hidx : forall t, v_index v' t = v_index v t) by (intros t; simpl; by rewrite Hix, Hi).
  exists v'. split; [|split; [|done]].
  - split; [by repeat split; simpl; intros|]. split; [done|]. split.
    + intros t r l Hr. destruct (others_lock a1 t r) as [l0|] eqn:E.
      * pose proof (Hk _ _ _ E). apply (Hroom t r). congruence.
      * unfold others_lock in Hr, E. specialize (Hrec t r).
        by destruct (a_recs a1 t !! r) as [[x n]|], (a_recs a' t !! r) as [[x' n']|].
    + split; [intros t k r Hr; rewrite Htab; apply (Hl1 t k r); by rewrite <-Hidx|].
      intros t r x Hr. rewrite Htab in Hr. by eapply Hl2.
  - split; [done|]. split; [done|]. intros j. simpl. by rewrite Hj, Hx.
Qed.

(** A transaction that starts at rest ends at rest, in the state its program
    left behind. *)
Lemma transact_run {A} (p : prog N J A) Q ds s a v :
  at_rest s a v -> vwp S cols mcols p v Q ->
  (exists r s' a' v' v'', transact ops p ds s = Ret (r, s') /\ Q (Some r) v' /\ unchanged v' v'' /\
     at_rest s' a' v'' /\ locks_kept a a') \/
  (transact ops p ds s = Panic /\ ((exists v', Q None v') \/ runs_out ops S cols mcols laws p ds 0 s)).
Proof.
  intros (Hs & Hv & Hh) Hp.
  assert (Ha : a_held a = []) by (destruct Hv as ((_ & _ & _ & _ & <-) & _); done).
  destruct (transact_sound ops S cols mcols laws p _ ds s a Hs Ha (vwp_wp S cols mcols p v a Q Hv Hp))
    as [(r & s' & a1 & a' & E & (v' & Hv' & HQ) & Hrel & Hs' & Hk)|[E [(a1 & v' & _ & HQ)|Hf]]].
  - left. destruct (released_sees v' a1 a' Hv' Hrel) as (v'' & Hv'' & Hu & Hh'').
    by exists r, s', a', v', v''.
  - right. split; [done|]. left. by exists v'.
  - right. split; [done|]. by right.
Qed.
End transactions.
