(* ===== verification/LoadLog.v ===== *)
(** * Programs that only insert, in any interleaving

    The loader of a benchmark inserts records and index entries and looks at
    nothing.  [lwp] is a logic of such programs over the log of their inserts;
    [interleave] runs several of them call by call, in any order, and what the
    tables hold afterwards is the logs of all. *)

From Stdlib Require Import QArith.
From S2P Require Import Prelude Query Schema External CacheMachine Table Guarded Txn TxnView.
Open Scope Z_scope.

(** ** Interleavings *)
Section interleaving.
Context {N J : Type}.

(** The rest of each program in turn. *)
Fixpoint one_by_one (ps : list (prog N J unit)) : prog N J unit :=
  match ps with
  | [] => mret tt
  | p :: ps => _ ← p; one_by_one ps
  end.

(** [sched] says which thread makes the next call; a thread that has returned
    makes none.  After the schedule the threads finish one by one.  A thread
    that panics makes the whole panic, when the threads are joined. *)
Fixpoint interleave (sched : list nat) (ps : list (prog N J unit)) : prog N J unit :=
  match sched with
  | [] => one_by_one ps
  | i :: sched =>
      match ps !! i with
      | None | Some (Return _) => interleave sched ps
      | Some (Fail_ e) => Fail_ e
      | Some Crash => Crash
      | Some (Do o k) => Do o (fun b => interleave sched (<[i := k b]> ps))
      end
  end.

(** A value of which a guard keeps the record locked to the end of the block. *)
Definition with_record {A} (t : N) (x : obj) (body : Rid -> prog N J A) : prog N J A :=
  r ← call (Insert t x);
  a ← body r;
  _ ← call (Drop_ t r true);
  mret a.

(** [for i in first..first + n { body }]. *)
Fixpoint for_range (n : nat) (first : Z) (body : Z -> prog N J unit) : prog N J unit :=
  match n with
  | O => mret tt
  | Datatypes.S n => _ ← body first; for_range n (first + 1) body
  end.
End interleaving.

(** ** The log *)
Inductive event {N J : Type} := Row (t : N) (x : obj) (r : Rid) | Entry (j : J) (k v : Z).
Arguments event N J : clear implicits.

Section log.
Context {N J : Type} `{EqDecision N, EqDecision J}.
Context (S : N -> Schema).
Abbreviation guards := (list (N * Rid * bool)).
Abbreviation log := (list (event N J)).
Implicit Types (held : guards) (E es : log).

(** What may follow a call. *)
Definition lstep {B} (o : op N J B) (held : guards) (E : log) : (B -> guards -> log -> Prop) -> Prop :=
  match o in op _ _ B return (B -> guards -> log -> Prop) -> Prop with
  | Insert t x => fun next =>
      length x = @tuple_size (S t) /\ (exists k, @key (S t) x = Ret k) /\
      forall r, next r ((t, r, true) :: held) (E ++ [Row t x r])
  | IdxInsert j k r => fun next => next tt held (E ++ [Entry j k r])
  | Drop_ t g w => fun next => (t, g, w) ∈ held /\ next tt (pull (t, g, w) held) E
  | _ => fun _ => False
  end.

Fixpoint lwp {A} (p : prog N J A) (held : guards) (E : log) (Q : option A -> guards -> log -> Prop) : Prop :=
  match p with
  | Return a => Q (Some a) held E
  | Fail_ e => False
  | Crash => Q None held E
  | Do o k => lstep o held E (fun b held E => lwp (k b) held E Q)
  end.

Lemma lstep_mono {B} (o : op N J B) held E (P Q : B -> guards -> log -> Prop) :
  (forall b held E, P b held E -> Q b held E) -> lstep o held E P -> lstep o held E Q.
Proof. intros HPQ. destruct o; cbn [lstep]; try done; naive_solver. Qed.

Lemma lwp_bind {A B} (p : prog N J A) (k : A -> prog N J B) held E Q :
  lwp p held E (fun a held E => match a with Some a => lwp (k a) held E Q | None => Q None held E end) ->
  lwp (p ≫= k) held E Q.
Proof.
  revert held E. induction p as [a|e| |C o c IH]; intros held E; [done..|]. cbn. apply lstep_mono. naive_solver.
Qed.

(** [p] may panic only if [C], leaves the guards as they are and logs what [P]
    says. *)
Definition emits {A} (p : prog N J A) (C : Prop) (P : A -> log -> Prop) : Prop :=
  forall held E (Q : option A -> guards -> log -> Prop),
    (forall a es, P a es -> Q (Some a) held (E ++ es)) ->
    (C -> forall held' E', Q None held' E') -> lwp p held E Q.

Lemma emits_ret {A} (a : A) C (P : A -> log -> Prop) : P a [] -> emits (mret a) C P.
Proof. intros HP held E Q Hk _. simpl. rewrite <-(app_nil_r E). by apply Hk. Qed.

Lemma emits_bind {A B} (p : prog N J A) (k : A -> prog N J B) C P (P' : B -> log -> Prop) :
  emits p C P -> (forall a es, P a es -> emits (k a) C (fun b es' => P' b (es ++ es'))) -> emits (p ≫= k) C P'.
Proof.
  intros Hp Hk held E Q HQ Hc. apply lwp_bind, Hp; [|done]. intros a es Ha. apply (Hk a es Ha); [|done].
  intros b es' Hb. rewrite <-app_assoc. by apply HQ.
Qed.

Lemma emits_mono {A} (p : prog N J A) (C C' : Prop) (P P' : A -> log -> Prop) :
  (C -> C') -> (forall a es, P a es -> P' a es) -> emits p C P -> emits p C' P'.
Proof. intros HC HP Hp held E Q HQ Hc. apply Hp; [|by intros ?%HC; apply Hc]. intros a es Ha. by apply HQ, HP. Qed.

Lemma emits_entry j k r C (P : unit -> log -> Prop) : P tt [Entry j k r] -> emits (call (IdxInsert j k r)) C P.
Proof. intros HP held E Q Hk _. by apply Hk. Qed.

Lemma emits_record {A} t x (body : Rid -> prog N J A) C (P : A -> log -> Prop) :
  length x = @tuple_size (S t) -> (exists k, @key (S t) x = Ret k) ->
  (forall r, emits (body r) C (fun a es => P a (Row t x r :: es))) -> emits (with_record t x body) C P.
Proof.
  intros Hl Hk Hb held E Q HQ Hc. split; [done|]. split; [done|]. intros r. apply lwp_bind, (Hb r); [|done].
  intros a es HP. split; [by left|]. cbn [pull]. rewrite decide_True by done. rewrite <-app_assoc. by apply HQ.
Qed.

(** Values that are computed; one that is not there is a panic. *)
Lemma emits_lift {A B} (m : outcome A) (k : A -> prog N J B) (C : Prop) P :
  (forall a, m = Ret a -> emits (k a) C P) -> ((forall a, m <> Ret a) -> C) -> emits (lift m ≫= k) C P.
Proof.
  intros Hk HC held E Q HQ Hc. destruct m as [a| | |]; [by apply (Hk a)|..]; apply Hc, HC; done.
Qed.

Lemma emits_ok {A B} (m : outcome A) a (k : A -> prog N J B) (C : Prop) P :
  m = Ret a -> emits (k a) C P -> emits (lift m ≫= k) C P.
Proof. intros ->. done. Qed.

(** Each round of a loop logs its part. *)
Lemma emits_for n first (body : Z -> prog N J unit) (C : Prop) (R : Z -> log -> Prop) :
  (forall i, first <= i < first + Z.of_nat n -> emits (body i) C (fun _ => R i)) ->
  emits (for_range n first body) C (fun _ es => exists ess, es = concat ess /\ Forall2 R (seqZ first (Z.of_nat n)) ess).
Proof.
  revert first. induction n as [|n IH]; intros first Hb; cbn [for_range].
  - apply emits_ret. exists []. by split; [|constructor].
  - eapply emits_bind; [apply Hb; lia|]. intros [] es Hes. eapply emits_mono; [done| |apply IH; intros; apply Hb; lia].
    intros [] es' (ess & -> & Hess). exists (es :: ess). split; [done|]. rewrite seqZ_cons by lia.
    constructor; [done|]. by replace (Z.pred (Z.of_nat (Datatypes.S n))) with (Z.of_nat n) by lia.
Qed.

(** ** What the log says of the tables *)
Context {Ix : Type} `{DbIndexLaws Ix} `{!RangeIndex Ix}.
Context (cols mcols : N -> list Field).
Abbreviation vwp := (vwp S cols mcols).
Abbreviation view := (view N J Ix).
Implicit Types (v : view).

(** The tables before. *)
Context (base : view).

(** The rows of a table, with their record ids. *)
Definition row_in (t : N) (e : event N J) : option (Rid * obj) :=
  match e with Row t' x r => if decide (t' = t) then Some (r, x) else None | Entry _ _ _ => None end.

Definition rows_in (t : N) (E : log) : list (Rid * obj) := omap (row_in t) E.

Lemma elem_of_rows_in t E r x : (r, x) ∈ rows_in t E <-> Row t x r ∈ E.
Proof.
  unfold rows_in. rewrite list_elem_of_omap. split.
  - intros ([t' x' r'|] & He & Hr); simpl in Hr; [|done]. case_decide; by simplify_eq.
  - intros He. eexists. split; [exact He|]. simpl. by rewrite decide_True.
Qed.

Lemma rows_in_app t E E' : rows_in t (E ++ E') = rows_in t E ++ rows_in t E'.
Proof. apply omap_app. Qed.

(** The records are those of before and the rows, each once; the indexes lead
    where they led or to rows with the key, and every key of before and of a row
    is found. *)
Definition logged E v : Prop :=
  (forall t, map_to_list (v_tab v t) ≡ₚ map_to_list (v_tab base t) ++ rows_in t E) /\
  (forall t k r, index_get (v_index v t) k = Some r ->
     index_get (v_index base t) k = Some r \/ exists x, Row t x r ∈ E /\ @key (S t) x = Ret k) /\
  (forall t k, is_Some (index_get (v_index base t) k) \/ (exists x r, Row t x r ∈ E /\ @key (S t) x = Ret k) ->
     is_Some (index_get (v_index v t) k)) /\
  (forall j k r, index_get (v_idx v j) k = Some r -> index_get (v_idx base j) k = Some r \/ Entry j k r ∈ E) /\
  (forall j k, is_Some (index_get (v_idx base j) k) \/ (exists r, Entry j k r ∈ E) -> is_Some (index_get (v_idx v j) k)).

Lemma logged_lookup E v t r x :
  logged E v -> v_tab v t !! r = Some x <-> v_tab base t !! r = Some x \/ Row t x r ∈ E.
Proof. intros [H1 _]. by rewrite <-!elem_of_map_to_list, (H1 t), elem_of_app, elem_of_rows_in. Qed.

(** Only tables and indexes count. *)
Lemma logged_same E v v' :
  (forall t, v_tab v' t = v_tab v t) -> (forall t, v_index v' t = v_index v t) -> (forall j, v_idx v' j = v_idx v j) ->
  logged E v -> logged E v'.
Proof.
  intros Ht Hi Hj (H1 & H2 & H3 & H4 & H5).
  split; [|split; [|split; [|split]]]; intros *; rewrite ?Ht, ?Hi, ?Hj; [apply H1|apply H2|apply H3|apply H4|apply H5].
Qed.

Lemma in_snoc E e e' : e ∈ E ++ [e'] <-> e ∈ E \/ e = e'.
Proof. rewrite elem_of_app, list_elem_of_singleton. done. Qed.

Lemma logged_row E v t x r k :
  logged E v -> v_tab v t !! r = None -> @key (S t) x = Ret k ->
  logged (E ++ [Row t x r])
    (mkView (upd (v_tab v) t (<[r := x]> (v_tab v t))) (upd (v_index v) t (index_insert (v_index v t) k r)) (v_idx v)
       (upd (v_cur v) t None) ((t, r, true) :: v_held v)).
Proof.
  intros (H1 & H2 & H3 & H4 & H5) Hr Hk. unfold logged. cbn [v_tab v_index v_idx].
  split; [|split; [|split; [|split]]].
  - intros t'. rewrite rows_in_app. unfold upd, rows_in at 2. simpl. destruct (decide (t = t')) as [<-|Ht].
    + rewrite map_to_list_insert, (H1 t) by done. simpl. by rewrite Permutation_cons_append, <-app_assoc.
    + simpl. by rewrite app_nil_r.
  - intros t' k' r'. unfold upd. destruct (decide (t = t')) as [<-|Ht]; [rewrite index_get_insert; case_decide as Ek|].
    { intros [= <-]. right. exists x. rewrite in_snoc. split; [by right|congruence]. }
    all: intros [?|(y & Hy & Ey)]%H2; [by left|right; exists y; rewrite in_snoc; tauto].
  - intros t' k' Hk'. assert (Hold : is_Some (index_get (v_index v t') k') \/ t' = t /\ k' = k).
    { destruct Hk' as [?|(y & r' & [Hy|[= -> -> ->]]%in_snoc & Ey)];
        [left; apply H3; by left|left; apply H3; right; by eexists _, _|right; split; [done|congruence]]. }
    unfold upd. destruct (decide (t = t')) as [<-|Ht]; [|by destruct Hold as [?|[-> _]]].
    rewrite index_get_insert. case_decide; [done|]. by destruct Hold as [?|[_ ->]].
  - intros j k' r' [?|Hj]%H4; [by left|]. right. rewrite in_snoc. by left.
  - intros j k' Hk'. apply H5. destruct Hk' as [?|(r' & [Hj|[=]]%in_snoc)]; [by left|]. right. by exists r'.
Qed.

Lemma logged_entry E v j k r : logged E v -> logged (E ++ [Entry j k r]) (v_set_idx v j (index_insert (v_idx v j) k r)).
Proof.
  intros (H1 & H2 & H3 & H4 & H5). unfold logged. cbn [v_tab v_index v_idx v_set_idx].
  split; [|split; [|split; [|split]]].
  - intros t. rewrite rows_in_app. simpl. by rewrite app_nil_r.
  - intros t k' r' [?|(x & Hx & Ex)]%H2; [by left|]. right. exists x. rewrite in_snoc. tauto.
  - intros t k' Hk'. apply H3. destruct Hk' as [?|(y & r' & [Hy|[=]]%in_snoc & Ey)]; [by left|]. right. by eexists _, _.
  - intros j' k' r'. rewrite in_snoc. unfold upd. destruct (decide (j = j')) as [<-|]; [|intros ?%H4; tauto].
    rewrite index_get_insert. case_decide as Ek; [intros [= <-]; subst; tauto|intros ?%H4; tauto].
  - intros j' k' Hk'. assert (Hold : is_Some (index_get (v_idx v j') k') \/ j' = j /\ k' = k).
    { destruct Hk' as [?|(r' & [Hy|[= -> -> ->]]%in_snoc)]; [left; apply H5; by left|left; apply H5; right; by exists r'|by right]. }
    unfold upd. destruct (decide (j = j')) as [<-|Ht]; [|by destruct Hold as [?|[-> _]]].
    rewrite index_get_insert. case_decide; [done|]. by destruct Hold as [?|[_ ->]].
Qed.

Lemma pull_perm (p : N * Rid * bool) held rest all :
  p ∈ held -> all ≡ₚ held ++ rest -> pull p all ≡ₚ pull p held ++ rest.
Proof.
  assert (Hp : forall l, p ∈ l -> l ≡ₚ p :: pull p l).
  { intros l Hin. induction l as [|q l IH]; [by apply not_elem_of_nil in Hin|]. cbn [pull].
    case_decide as E; [by subst|]. apply elem_of_cons in Hin as [?|Hin]; [done|]. rewrite (IH Hin) at 1. constructor. }
  intros Hin Hall. apply (Permutation_cons_inv (a := p)).
  rewrite <-(Hp all) by (rewrite Hall; apply elem_of_app; by left). by rewrite Hall, (Hp held Hin) at 1.
Qed.

(** A call of a logging program on the tables. *)
Lemma lstep_vop {B} (o : op N J B) held Ep E rest v next :
  lstep o held Ep next -> logged E v -> v_held v ≡ₚ held ++ rest ->
  vok S cols mcols o v /\ forall b v', vop S o v b v' ->
    exists held' new, next b held' (Ep ++ new) /\ logged (E ++ new) v' /\ v_held v' ≡ₚ held' ++ rest.
Proof.
  intros Hl HE Hh. destruct o; cbn [lstep vok vop] in *; try done.
  - destruct Hl as (Hlen & Hkey & Hn). split; [done|]. intros r v' (k & Hr & Hk & ->).
    exists ((t, r, true) :: held), [Row t x r]. split; [done|]. split; [by apply logged_row|]. simpl. by rewrite Hh.
  - destruct Hl as [Hin Hn]. split; [rewrite Hh; apply elem_of_app; by left|]. intros [] v' ->.
    exists (pull (t, g, w) held), []. rewrite !app_nil_r. split; [done|]. split; [by eapply logged_same|]. simpl.
    by apply pull_perm.
  - split; [done|]. intros [] v' ->. exists held, [Entry j k v0]. split; [done|]. split; [by apply logged_entry|done].
Qed.

(** A logging program, while others hold [rest]. *)
Lemma lwp_vwp {A} (p : prog N J A) held Ep E rest v (Q : option A -> guards -> log -> Prop) :
  lwp p held Ep Q -> logged E v -> v_held v ≡ₚ held ++ rest ->
  vwp p v (fun res v' => exists a held' new,
    res = (Ok <$> a) /\ Q a held' (Ep ++ new) /\ logged (E ++ new) v' /\ v_held v' ≡ₚ held' ++ rest).
Proof.
  revert held Ep E v. induction p as [a|e| |B o c IH]; intros held Ep E v Hp HE Hh; cbn in Hp.
  - exists (Some a), held, []. by rewrite !app_nil_r.
  - done.
  - exists None, held, []. by rewrite !app_nil_r.
  - destruct (lstep_vop _ _ _ _ _ _ _ Hp HE Hh) as [Hok Hv]. split; [done|]. intros b v' Hb.
    destruct (Hv b v' Hb) as (held' & new & Hn & HE' & Hh'). eapply vwp_mono; [|by eapply IH].
    intros res v2 (a & held2 & new2 & -> & HQ & HE2 & Hh2). exists a, held2, (new ++ new2). by rewrite !app_assoc.
Qed.

(** ** Several programs *)

(** What a thread still runs, holds and has logged. *)
Record thread := mkThread { th_prog : prog N J unit; th_held : guards; th_log : log }.

(** In the end it holds nothing and its log is as [R] says, unless [C] made it
    panic. *)
Definition ends (C : Prop) (R : log -> Prop) (a : option unit) (held : guards) (E : log) : Prop :=
  match a with Some _ => held = [] /\ R E | None => C end.

Definition thread_ok (C : Prop) (R : log -> Prop) (th : thread) : Prop :=
  lwp (th_prog th) (th_held th) (th_log th) (ends C R).

Definition threads_ok (C : Prop) (Rs : list (log -> Prop)) (ths : list thread) E v : Prop :=
  Forall2 (thread_ok C) Rs ths /\ logged E v /\ v_held v ≡ₚ (ths ≫= th_held) /\
  E ≡ₚ (ths ≫= th_log).

(** All have ended: the tables hold their logs. *)
Definition loaded (Rs : list (log -> Prop)) v : Prop :=
  exists E Es, logged E v /\ v_held v = [] /\ Forall2 (fun R E => R E) Rs Es /\ E ≡ₚ concat Es.

Definition all_ended (C : Prop) (Rs : list (log -> Prop)) (res : option (result unit TransactionError)) v : Prop :=
  match res with Some (Ok _) => loaded Rs v | Some (Err _) => False | None => C end.

Lemma split_at {A} (l : list A) i x :
  l !! i = Some x -> exists l1 l2, l = l1 ++ x :: l2 /\ forall y, <[i := y]> l = l1 ++ y :: l2.
Proof.
  intros (l1 & l2 & -> & ->)%list_elem_of_split_length. exists l1, l2. split; [done|]. intros y.
  rewrite <-(Nat.add_0_r (length l1)). by rewrite insert_app_r.
Qed.

(** A call of one thread. *)
Lemma threads_call C Rs l1 l2 E v {B} (o : op N J B) k held Ep :
  threads_ok C Rs (l1 ++ mkThread (Do o k) held Ep :: l2) E v ->
  vok S cols mcols o v /\ forall b v', vop S o v b v' ->
    exists held' new, threads_ok C Rs (l1 ++ mkThread (k b) held' (Ep ++ new) :: l2) (E ++ new) v'.
Proof.
  intros (Hths & HE & Hh & Hlog). apply Forall2_app_inv_r in Hths as (R1 & R2 & H1 & H2 & ->).
  apply Forall2_cons_inv_r in H2 as (R & R3 & Hth & H2 & ->). unfold thread_ok in Hth. cbn [th_prog th_held th_log lwp] in Hth.
  set (rest := (l1 ≫= th_held) ++ (l2 ≫= th_held)).
  assert (Hrest : forall p h ep, (l1 ++ mkThread p h ep :: l2) ≫= th_held ≡ₚ h ++ rest).
  { intros p h ep. rewrite bind_app, bind_cons. cbn [th_held]. unfold rest. solve_Permutation. }
  destruct (lstep_vop o held Ep E rest v _ Hth HE) as [Hok Hv]; [by rewrite Hh, Hrest|]. split; [done|]. intros b v' Hb.
  destruct (Hv b v' Hb) as (held' & new & Hn & HE' & Hh'). exists held', new. split; [|split; [done|split]].
  - apply Forall2_app; [done|]. constructor; [exact Hn|done].
  - by rewrite Hrest.
  - rewrite Hlog, !bind_app, !bind_cons. cbn [th_log]. solve_Permutation.
Qed.

(** The threads that are left finish one by one. *)
Lemma one_by_one_ok C Rs ths E v : threads_ok C Rs ths E v -> vwp (one_by_one (th_prog <$> ths)) v (all_ended C Rs).
Proof.
  enough (Hall : forall Rs0 Es0 Rs ths E v,
    Forall2 (thread_ok C) Rs ths -> logged E v -> v_held v ≡ₚ (ths ≫= th_held) ->
    Forall2 (fun R E => R E) Rs0 Es0 -> E ≡ₚ concat Es0 ++ (ths ≫= th_log) ->
    vwp (one_by_one (th_prog <$> ths)) v (all_ended C (Rs0 ++ Rs))).
  { intros (Hths & HE & Hh & Hlog). by apply (Hall [] [] Rs ths E v). }
  clear Rs ths E v. intros Rs0 Es0 Rs ths E v Hths. revert Rs0 Es0 E v.
  induction Hths as [|R [p held Ep] Rs ths Hth _ IH]; intros Rs0 Es0 E v HE Hh Hdone Hlog.
  - cbn. exists E, Es0. rewrite (app_nil_r Rs0). split; [done|]. split; [by apply Permutation_nil_r|]. split; [done|].
    rewrite Hlog. change ([] ≫= th_log) with (@nil (event N J)). by rewrite (app_nil_r (concat Es0)).
  - cbn [fmap list_fmap th_prog one_by_one]. apply vwp_bind.
    change ((mkThread p held Ep :: ths) ≫= th_log) with (Ep ++ (ths ≫= th_log)) in Hlog.
    change ((mkThread p held Ep :: ths) ≫= th_held) with (held ++ (ths ≫= th_held)) in Hh.
    eapply vwp_mono; [|eapply lwp_vwp; [exact Hth|exact HE|exact Hh]]. intros res v' (a & held' & new & -> & HQ & HE' & Hh').
    destruct a as [[]|]; cbn [fmap option_fmap option_map ends] in *; [|done]. destruct HQ as [-> HR].
    replace (Rs0 ++ R :: Rs) with ((Rs0 ++ [R]) ++ Rs) by by rewrite <-app_assoc.
    apply (IH (Rs0 ++ [R]) (Es0 ++ [Ep ++ new]) (E ++ new)); [done|done| |].
    + apply Forall2_app; [done|]. by constructor.
    + rewrite Hlog, concat_app. cbn [concat]. rewrite (app_nil_r (Ep ++ new)). solve_Permutation.
Qed.

(** However the calls interleave. *)
Lemma interleave_ok C sched Rs ths E v :
  threads_ok C Rs ths E v -> vwp (interleave sched (th_prog <$> ths)) v (all_ended C Rs).
Proof.
  revert ths E v. induction sched as [|i sched IH]; intros ths E v Hths; cbn [interleave]; [by eapply one_by_one_ok|].
  rewrite list_lookup_fmap. destruct (ths !! i) as [[p held Ep]|] eqn:Hi; cbn [fmap option_fmap option_map th_prog]; [|by eapply IH].
  destruct (split_at _ _ _ Hi) as (l1 & l2 & El & Hins). destruct p as [a|e| |B o k]; [by eapply IH|..].
  - destruct Hths as (Hths & _). subst ths. apply Forall2_app_inv_r in Hths as (R1 & R2 & _ & H2 & _).
    by apply Forall2_cons_inv_r in H2 as (R & R3 & Hth & _).
  - destruct Hths as (Hths & _). subst ths. apply Forall2_app_inv_r in Hths as (R1 & R2 & _ & H2 & _).
    by apply Forall2_cons_inv_r in H2 as (R & R3 & Hth & _).
  - rewrite El in Hths. destruct (threads_call _ _ _ _ _ _ _ _ _ _ Hths) as [Hok Hv]. split; [done|]. intros b v' Hb.
    destruct (Hv b v' Hb) as (held' & new & Hths').
    assert (Eth : <[i := k b]> (th_prog <$> ths) = th_prog <$> (l1 ++ mkThread (k b) held' (Ep ++ new) :: l2)).
    { by rewrite <-(Hins (mkThread (k b) held' (Ep ++ new))), list_fmap_insert. }
    rewrite Eth. by eapply IH.
Qed.

(** Threads that have not begun. *)
Lemma interleave_emits (C : Prop) sched (ps : list (prog N J unit)) Rs v :
  logged [] v -> v_held v = [] -> Forall2 (fun R p => emits p C (fun _ => R)) Rs ps ->
  vwp (interleave sched ps) v (all_ended C Rs).
Proof.
  intros HE Hh Hps. set (ths := (fun p => mkThread p [] []) <$> ps).
  assert (Eps : ps = th_prog <$> ths) by (unfold ths; rewrite <-list_fmap_compose; symmetry; apply list_fmap_id).
  rewrite Eps. apply (interleave_ok C sched Rs ths []). split; [|split; [done|split]].
  - unfold ths. apply Forall2_fmap_r. eapply Forall2_impl; [exact Hps|]. intros R p Hp. apply Hp; [|done].
    intros a es Hes. by split.
  - rewrite Hh. unfold ths. clear. induction ps; [done|]. by cbn.
  - unfold ths. clear. induction ps; [done|]. by cbn.
Qed.

(** A program that runs after they have ended. *)
Lemma loaded_then (C : Prop) (p : prog N J unit) Rs R v :
  loaded Rs v -> emits p C (fun _ => R) -> vwp p v (all_ended C (Rs ++ [R])).
Proof.
  intros (E & Es & HE & Hh & HEs & Hlog) Hp.
  assert (Hl : lwp p [] [] (ends C R)) by (apply Hp; [intros a es Hes; by split|done]).
  eapply vwp_mono; [|eapply (lwp_vwp p [] [] E []); [exact Hl|done|by rewrite Hh]].
  intros res v' (a & held' & new & -> & HQ & HE' & Hh'). destruct a as [[]|]; [|done].
  destruct HQ as [-> HR]. exists (E ++ new), (Es ++ [new]). split; [done|].
  split; [by apply Permutation_nil_r|]. split; [apply Forall2_app; [done|by constructor]|].
  rewrite concat_app. cbn [concat]. by rewrite (app_nil_r new), Hlog.
Qed.
End log.
