(* ===== verification/TxnRoom.v ===== *)
(** * Programs that do not run out of record ids

    A bound on the inserts a program makes into each table, and tables with that
    much room: the panic for want of record ids, which the interface of
    Guarded.v leaves open, is then excluded for tables on the attribute cache. *)

From Stdlib Require Import QArith.
From S2P Require Import Prelude Query Schema External ObjAlloc OidArray CacheInner ClockCache CacheMachine Table Capacity.
From S2P Require Import Guarded Txn TxnView LoadLog.
Open Scope Z_scope.

(** ** Bounds on inserts *)
Section bounds.
Context {N J : Type} `{EqDecision N, EqDecision J}.
Abbreviation budget := (N -> nat).
Implicit Types (b : budget).

(** What an operation leaves of a budget. *)
Definition spend {B} (o : op N J B) b : option budget :=
  match o with
  | Insert t _ => match b t with O => None | S n => Some (upd b t n) end
  | _ => Some b
  end.

(** No run of [p] makes more than [b t] inserts into table [t]. *)
Fixpoint at_most {X} (p : prog N J X) b : Prop :=
  match p with
  | Do o k => exists b', spend o b = Some b' /\ forall x, at_most (k x) b'
  | _ => True
  end.

Definition plus b1 b2 : budget := fun t => (b1 t + b2 t)%nat.
Definition times (n : nat) b : budget := fun t => (n * b t)%nat.
Definition none : budget := fun _ => O.
Definition only (t : N) (n : nat) : budget := upd none t n.
Definition sums (bs : list budget) : budget := fun t => sum_list_with (fun b => b t) bs.
Definition within b b' : Prop := forall t, (b t <= b' t)%nat.

Lemma spend_within {B} (o : op N J B) b b' c : within b b' -> spend o b = Some c -> exists c', spend o b' = Some c' /\ within c c'.
Proof.
  intros Hw E. destruct o; simpl in *; try (injection E as <-; by exists b').
  pose proof (Hw t) as Ht. destruct (b t) as [|n]; [done|]. injection E as <-. destruct (b' t) as [|n'] eqn:E'; [lia|].
  eexists. split; [done|]. intros u. unfold upd. case_decide; [lia|apply Hw].
Qed.

Lemma at_most_within {X} (p : prog N J X) b b' : within b b' -> at_most p b -> at_most p b'.
Proof.
  revert b b'. induction p as [x|e| |B o k IH]; intros b b' Hw Hp; [done..|]. destruct Hp as (c & E & Hk).
  destruct (spend_within _ _ _ _ Hw E) as (c' & E' & Hw'). exists c'. split; [done|]. intros x. by eapply IH.
Qed.

Lemma spend_plus {B} (o : op N J B) b c b2 : spend o b = Some c -> exists c', spend o (plus b b2) = Some c' /\ within (plus c b2) c'.
Proof.
  intros E. destruct o; cbn [spend] in *; try (injection E as <-; eexists; split; [done|intros u; lia]).
  unfold plus at 1. destruct (b t) as [|n]; [done|]. injection E as <-. exists (upd (plus b b2) t (n + b2 t)%nat).
  split; [done|]. intros u. unfold plus, upd. case_decide; subst; lia.
Qed.

Lemma at_most_bind {X Y} (p : prog N J X) (k : X -> prog N J Y) b1 b2 :
  at_most p b1 -> (forall x, at_most (k x) b2) -> at_most (p ≫= k) (plus b1 b2).
Proof.
  intros Hp Hk. revert b1 Hp. induction p as [x|e| |B o c IH]; intros b1 Hp; [|done..|].
  - change (at_most (k x) (plus b1 b2)). eapply at_most_within; [|apply Hk]. intros t. unfold plus. lia.
  - destruct Hp as (b' & E & Hc). destruct (spend_plus o b1 b' b2 E) as (c' & E' & Hw). exists c'. split; [done|].
    intros x. eapply at_most_within; [exact Hw|]. apply IH, Hc.
Qed.

Lemma at_most_lift {X Y} (m : outcome X) (k : X -> prog N J Y) b :
  (forall x, m = Ret x -> at_most (k x) b) -> at_most (lift m ≫= k) b.
Proof. intros Hk. destruct m as [x| | |]; [by apply (Hk x)|done..]. Qed.

Lemma at_most_for n first (body : Z -> prog N J unit) b :
  (forall i, at_most (body i) b) -> at_most (for_range n first body) (times n b).
Proof.
  intros Hb. revert first. induction n as [|n IH]; intros first; [done|]. cbn [for_range].
  eapply at_most_within; [|apply at_most_bind; [apply Hb|intros _; apply IH]]. intros t. unfold plus, times. lia.
Qed.

Lemma at_most_call {B X} (o : op N J B) (k : B -> prog N J X) b :
  (match o with Insert _ _ => False | _ => True end) -> (forall x, at_most (k x) b) -> at_most (call o ≫= k) b.
Proof. intros Ho Hk. exists b. split; [by destruct o|done]. Qed.

Lemma at_most_insert {X} t x (k : Rid -> prog N J X) b :
  (forall r, at_most (k r) b) -> at_most (call (Insert t x) ≫= k) (plus (only t 1) b).
Proof.
  intros Hk. exists (upd (plus (only t 1) b) t (b t)). cbn [spend]. split.
  - unfold plus at 1, only, upd at 1. by rewrite decide_True.
  - intros r. eapply at_most_within; [|apply Hk]. intros u. unfold plus, only, upd. case_decide; subst; lia.
Qed.

Lemma at_most_record {X} t x (body : Rid -> prog N J X) b :
  (forall r, at_most (body r) b) -> at_most (with_record t x body) (plus (only t 1) b).
Proof.
  intros Hb. apply at_most_insert. intros r. eapply at_most_within; [|apply at_most_bind; [apply Hb|]].
  2: { intros a. apply (at_most_call _ _ none); [done|]. intros []. exact I. }
  intros u. unfold plus, none. lia.
Qed.

(** Threads spend what is theirs. *)
Lemma at_most_one_by_one ps bs : Forall2 at_most ps bs -> at_most (one_by_one (J := J) ps) (sums bs).
Proof.
  induction 1 as [|p b ps bs Hp _ IH]; [done|]. cbn [one_by_one].
  eapply at_most_within; [|apply at_most_bind; [exact Hp|intros _; exact IH]]. intros t. unfold plus, sums. simpl. lia.
Qed.

Lemma sums_app bs1 bs2 t : sums (bs1 ++ bs2) t = (sums bs1 t + sums bs2 t)%nat.
Proof. apply sum_list_with_app. Qed.

Lemma at_most_interleave sched ps bs : Forall2 at_most ps bs -> at_most (interleave (J := J) sched ps) (sums bs).
Proof.
  revert ps bs. induction sched as [|i sched IH]; intros ps bs Hps; cbn [interleave]; [by apply at_most_one_by_one|].
  destruct (ps !! i) as [p|] eqn:Hi; [|by apply IH]. destruct p as [x|e| |B o k]; [by apply IH|done|done|].
  destruct (split_at _ _ _ Hi) as (l1 & l2 & El & Hins). rewrite El in Hps.
  apply Forall2_app_inv_l in Hps as (b1 & b2 & H1 & H2 & ->). apply Forall2_cons_inv_l in H2 as (b & b3 & Hb & H2 & ->).
  destruct Hb as (c & E & Hk). destruct (spend_plus o b c (plus (sums b1) (sums b3)) E) as (c' & E' & Hw).
  assert (Hs : within (plus b (plus (sums b1) (sums b3))) (sums (b1 ++ b :: b3)))
    by (intros t; unfold plus; rewrite sums_app; unfold sums; simpl; lia).
  destruct (spend_within _ _ _ _ Hs E') as (c2 & E2 & Hw2). exists c2. split; [exact E2|]. intros x. rewrite Hins.
  eapply at_most_within; [|apply IH, Forall2_app; [exact H1|constructor; [apply (Hk x)|exact H2]]].
  intros t. specialize (Hw t). specialize (Hw2 t). unfold plus in Hw. rewrite sums_app. unfold sums in *. simpl. lia.
Qed.
End bounds.

(** ** Tables with room *)
Section room.
Context {N J : Type} `{EqDecision N, EqDecision J}.
Context {A : Type} `{ArtRaw A} `{!KvMapLaws Rid A} `{!RangeIndexLaws (Art A)}.
Context {T M : Type} `{KvMapLaws Z T} `{KvMapLaws TlsAllocator M}.
Context (S : N -> Schema) (cols mcols : N -> list Field) (L : forall t, SchemaLaws (S t) (cols t) (mcols t)).
Abbreviation table := (DbTable (Art A) T M).
Abbreviation database := (Txn.db N J (Art A) table QueryValue).
Implicit Types (b : N -> nat) (ts : list Z).

Definition cache_ops (t : N) : GuardedTable (Art A) table QueryValue := @DbTable_guarded A _ T M _ _ (S t).

Definition cache_laws (t : N) :
    @GuardedTableLaws (S t) (cols t) (mcols t) (Art A) table QueryValue _ _ (cache_ops t) := DbTable_laws (L := L t).

(** Room for the budget, whichever of the threads [ts] calls. *)
Definition db_room ts b (s : database) : Prop := forall t, b t <> O -> Capacity.room ts (b t) (tb_cache (db_tabs s t)).

Lemma lock_rid_r_fixed r weak (tb : table) res tb' :
  lock_rid_r r weak tb = Ret (res, tb') -> tb_fixed tb' = tb_fixed tb.
Proof.
  unfold lock_rid_r. intros E. inv_ret.
  match goal with Hl : ClockCache_read_lock _ _ _ = Ret ?x |- _ => destruct x; apply read_lock_fixed in Hl end.
  injection E as _ <-. done.
Qed.

Lemma lock_rid_w_fixed r weak (tb : table) res tb' :
  lock_rid_w r weak tb = Ret (res, tb') -> tb_fixed tb' = tb_fixed tb.
Proof.
  unfold lock_rid_w. intros E. inv_ret.
  match goal with Hl : ClockCache_write_lock _ _ _ = Ret ?x |- _ => destruct x; apply write_lock_fixed in Hl end.
  injection E as _ <-. done.
Qed.

Lemma insert_keeps_room {Sc : Schema} (columns : list Field) x d (tb : table) r tb' ts n :
  cache_inv columns (tb_cache tb) -> Capacity.room ts (Datatypes.S n) (tb_cache tb) -> d_tid d ∈ ts ->
  DbTable_insert (d_tid d) x (replicate (d_spin d) true ++ [false]) (d_u1 d) (d_weak d) tb = Ret (r, tb') ->
  Capacity.room ts n (tb_cache tb').
Proof.
  intros Hi Hr Hd E. unfold DbTable_insert in E. inv_ret.
  match goal with Hc : ClockCache_insert _ _ _ _ _ _ = Ret ?y |- _ => destruct y as [rid c] end. inv_ret. simplify_eq.
  by eapply room_insert.
Qed.

Lemma on_cache_keeps (m : outcome (ClockCache T M)) (tb tb' : table) :
  on_cache m tb = Ret tb' -> (forall c, m = Ret c -> fixed c = tb_fixed tb) -> tb_fixed tb' = tb_fixed tb.
Proof. intros (c & E & ->)%on_cache_fixed Hm. by apply Hm. Qed.

Lemma upd_fixed (s : database) t0 tb t :
  tb_fixed tb = tb_fixed (db_tabs s t0) -> tb_fixed (upd (db_tabs s) t0 tb t) = tb_fixed (db_tabs s t).
Proof. intros E. unfold upd. case_decide; [by subst|done]. Qed.

(** Only inserts use up room. *)
Lemma step_fixed {B} (o : op N J B) d (s : database) x s' t :
  (match o with Insert _ _ => False | _ => True end) -> step cache_ops o d s = Ret (x, s') ->
  tb_fixed (db_tabs s' t) = tb_fixed (db_tabs s t).
Proof.
  intros Ho E. destruct o; try done; simpl in E; unfold lock_step, read_step, drop_step in E; inv_ret;
    try match goal with p : result Rid _ * table |- _ => destruct p end;
    try match goal with p : QueryValue * table |- _ => destruct p end; simplify_eq; try done; try (apply upd_fixed).
  - by eapply read_oid_fixed.
  - by eapply write_oid_fixed.
  - by eapply lock_rid_r_fixed.
  - by eapply lock_rid_w_fixed.
  - by eapply DbTable_read_fixed.
  - by eapply DbTable_promote_fixed.
  - destruct (db_cur s t0) as [[[g q] v]|]; [|done]. inv_ret. by simplify_eq.
  - destruct (db_cur s t0) as [[[g q] v]|]; [|done]. inv_ret. simplify_eq. apply upd_fixed.
    eapply on_cache_keeps; [done|]. intros c. apply set_fixed.
  - destruct w; (eapply on_cache_keeps; [exact E1|]); intros c Hc; [by apply drop_write_fixed in Hc|by apply drop_read_fixed in Hc].
Qed.

Lemma step_room {B} (o : op N J B) d s x s' ts b b' a :
  db_sim cache_ops S cols mcols cache_laws s a -> step cache_ops o d s = Ret (x, s') -> spend o b = Some b' ->
  d_tid d ∈ ts -> db_room ts b s -> db_room ts b' s'.
Proof.
  intros (Ht & _) E Eb Hd Hr u Hu. destruct o as [| | | | | | | |t y| | | | |].
  9: { simpl in E. inv_ret. match goal with p : _ * table |- _ => destruct p as [r tb] end. simplify_eq. simpl in *.
       destruct (b t) as [|n] eqn:En; [done|]. simplify_eq. unfold upd in *. case_decide; [subst u|by apply Hr].
       eapply insert_keeps_room; [apply (Ht t)|rewrite <-En; apply Hr; by rewrite En|exact Hd|done]. }
  all: injection Eb as <-; eapply room_fixed; [refine (step_fixed _ d s x s' u _ E); exact I|by apply Hr].
Qed.

(** ** Nothing is stored beyond the memory of a table *)
Definition tab_cap (s : database) t : Z := sg_cap (cc_storage (tb_cache (db_tabs s t))).

Lemma fixed_cap (s s' : database) t : tb_fixed (db_tabs s' t) = tb_fixed (db_tabs s t) -> tab_cap s' t = tab_cap s t.
Proof. intros E. exact (f_equal snd E). Qed.

Lemma insert_cap {Sc : Schema} x d (tb : table) r tb' :
  DbTable_insert (d_tid d) x (replicate (d_spin d) true ++ [false]) (d_u1 d) (d_weak d) tb = Ret (r, tb') ->
  (tb_fixed tb').2 = (tb_fixed tb).2.
Proof.
  unfold DbTable_insert. intros E. inv_ret.
  match goal with Hc : ClockCache_insert _ _ _ _ _ _ = Ret ?y |- _ =>
    destruct y as [rid c]; apply insert_fixed in Hc as (oa & _ & Ef) end.
  injection E as _ <-. exact (f_equal snd Ef).
Qed.

Lemma step_cap {B} (o : op N J B) d (s : database) x s' t : step cache_ops o d s = Ret (x, s') -> tab_cap s' t = tab_cap s t.
Proof.
  intros E. destruct o as [| | | | | | | |t' y| | | | |].
  9: { simpl in E. inv_ret. match goal with p : _ * table |- _ => destruct p as [r tb] end. simplify_eq.
       unfold tab_cap. simpl. unfold upd. case_decide as Et; [subst t'|done].
       match goal with Hi : DbTable_insert _ _ _ _ _ _ = _ |- _ => exact (insert_cap _ _ _ _ _ Hi) end. }
  all: apply fixed_cap; refine (step_fixed _ d s x s' t _ E); exact I.
Qed.

Lemma exec_cap {X} (p : prog N J X) ds n (s : database) r s' t : exec cache_ops p ds n s = Ret (r, s') -> tab_cap s' t = tab_cap s t.
Proof.
  revert n s. induction p as [x|e| |B o k IH]; intros n s E; cbn [exec] in E; [by simplify_eq..|done|]. inv_ret.
  match goal with q : _ * database |- _ => destruct q as [b s1] end. etransitivity; [by eapply IH|by eapply step_cap].
Qed.

Lemma drop_all_cap held (s s' : database) t : drop_all cache_ops held s = Ret s' -> tab_cap s' t = tab_cap s t.
Proof.
  revert s. induction held as [|[[t' g] w] held IH]; intros s E; cbn [drop_all] in E; [by simplify_eq|]. inv_ret.
  etransitivity; [by eapply IH|]. eapply (step_cap (Drop_ t' g w) (mkDraws 0 0 0 0 0 (fun _ => (false, false))) s tt).
  cbn [step]. match goal with Hd : drop_step _ _ _ _ _ = Ret _ |- _ => by rewrite Hd end.
Qed.

Lemma transact_cap {X} (p : prog N J X) ds (s : database) r s' t : transact cache_ops p ds s = Ret (r, s') -> tab_cap s' t = tab_cap s t.
Proof.
  unfold transact. intros E. inv_ret. match goal with q : _ * database |- _ => destruct q as [r1 s1] end. inv_ret. simplify_eq.
  etransitivity; [by eapply drop_all_cap|by eapply exec_cap].
Qed.

Lemma rows_cap s a v t r :
  at_rest cache_ops S cols mcols cache_laws s a v -> is_Some (v_tab v t !! r) -> 0 <= r < tab_cap s t.
Proof.
  intros ((Ht & _) & (Hsh & _) & _) [x Hx]. destruct (shows_lookup _ _ _ _ _ Hsh Hx) as [n Hr].
  destruct (Ht t) as ((Hi & Ha & _) & _).
  assert (Hal : allocated_rid (tb_cache (db_tabs s t)) r) by (apply Ha; by eexists).
  by destruct (tuple_exists (tb_cache (db_tabs s t)) r (proj1 Hi) Hal) as (y & _ & _ & Hlt).
Qed.

(** With room the run does not come to a full table. *)
Lemma no_run_out {X} (p : prog N J X) Q ds n s a b ts :
  db_sim cache_ops S cols mcols cache_laws s a -> wp S cols mcols p a Q -> at_most p b -> db_room ts b s ->
  (forall k, d_tid (ds k) ∈ ts) -> ~ runs_out cache_ops S cols mcols cache_laws p ds n s.
Proof.
  intros Hs Hp Hb Hr Hts. revert n s a b Hs Hp Hb Hr. induction p as [x|e| |B o k IH]; intros n s a b Hs Hp Hb Hr; try by intros [].
  destruct Hp as [Hok Hp], Hb as (b' & Eb & Hb). cbn [runs_out]. intros [[_ Hno]|(x & s' & E & Hout)].
  - destruct o as [| | | | | | | |t y| | | | |]; try done. simpl in Eb, Hno. destruct (b t) as [|m] eqn:Em; [done|].
    destruct Hs as (Ht & _). eapply room_not_out; [apply (Ht t)|rewrite <-Em; apply Hr; by rewrite Em|apply (Hts n)|exact Hno].
  - destruct (step_sim cache_ops S cols mcols cache_laws o (ds n) s a Hs Hok) as [(x1 & s1 & a1 & E1 & Ha & Hs1)|[E1 _]];
      [|congruence]. rewrite E in E1. injection E1 as <- <-.
    eapply (IH x (Datatypes.S n) s' a1 b' Hs1); [by apply Hp|apply Hb|exact (step_room o (ds n) s x s' ts b b' a Hs E Eb (Hts n) Hr)|exact Hout].
Qed.

Lemma at_rest_runs {X} (p : prog N J X) Q ds s a v b ts :
  at_rest cache_ops S cols mcols cache_laws s a v -> vwp S cols mcols p v Q -> at_most p b -> db_room ts b s ->
  (forall k, d_tid (ds k) ∈ ts) -> ~ runs_out cache_ops S cols mcols cache_laws p ds 0 s.
Proof.
  intros (Hs & Hv & _) Hp Hb Hr Hts. eapply no_run_out; [exact Hs|by eapply vwp_wp|done..].
Qed.
End room.
