(* ===== verification/SpecTable.v ===== *)
(** * The abstract table, executable

    A table that keeps its records in a map, with their locks beside them: the
    state that the interface of Guarded.v promises, as an implementation of
    that interface.  Programs over tables can be run on it, and it shows what
    [DbTable] may be replaced by. *)

From Stdlib Require Import QArith.
From stdpp Require Import sorting.
From S2P Require Import Prelude Query Schema External CacheMachine Table Guarded.
Open Scope Z_scope.

(** ** A map as a radix tree: scans go by key *)
Definition in_range (low high : Z) (p : Z * Z) : bool := (low <=? p.1) && (p.1 <=? high).

Definition by_key (p q : Z * Z) : Prop := p.1 <= q.1.
#[export] Instance by_key_dec : RelDecision by_key.
Proof. intros p q. unfold by_key. apply _. Defined.
#[export] Instance by_key_trans : Transitive by_key.
Proof. intros p q r. unfold by_key. lia. Qed.
#[export] Instance by_key_total : Total by_key.
Proof. intros p q. unfold by_key. lia. Qed.

#[export] Instance gmap_art : ArtRaw (gmap Z Rid) := {
  art_range m low high n :=
    take n (merge_sort by_key (List.filter (in_range low high) (map_to_list m)));
}.

(** All pairs of a range, by key. *)
Definition range_list (i : Art (gmap Z Rid)) (low high : Z) : list (Z * Rid) :=
  merge_sort by_key (List.filter (in_range low high) (map_to_list (art i))).

Lemma elem_of_range_list i low high k r :
  (k, r) ∈ range_list i low high <-> art i !! k = Some r /\ low <= k <= high.
Proof.
  unfold range_list. rewrite merge_sort_Permutation, list_elem_of_In, filter_In, <-list_elem_of_In, elem_of_map_to_list.
  unfold in_range. by rewrite andb_true_iff, !Z.leb_le.
Qed.

Lemma nodup_filter {A B} (f : A -> B) (g : A -> bool) l : NoDup (f <$> l) -> NoDup (f <$> List.filter g l).
Proof.
  induction l as [|a l IH]; [done|]. rewrite fmap_cons. intros [Ha Hl]%NoDup_cons. simpl. destruct (g a); [|by apply IH].
  rewrite fmap_cons. constructor; [|by apply IH]. intros (b & Eb & Hb)%list_elem_of_fmap. apply Ha.
  apply list_elem_of_fmap. exists b. split; [done|]. apply list_elem_of_In in Hb. apply filter_In in Hb as [Hb _].
  by apply list_elem_of_In.
Qed.

Lemma range_list_sorted i low high j1 j2 p1 p2 :
  range_list i low high !! j1 = Some p1 -> range_list i low high !! j2 = Some p2 -> (j1 < j2)%nat -> p1.1 < p2.1.
Proof.
  intros H1 H2 Hj. assert (Hle : p1.1 <= p2.1).
  { assert (Hs : StronglySorted by_key (range_list i low high)) by (unfold range_list; apply (StronglySorted_merge_sort by_key)).
    revert j1 j2 H1 H2 Hj. induction Hs as [|p l _ IH Hp]; intros [|j1] [|j2] H1 H2 Hj; simplify_eq/=; try lia.
    - by eapply (Forall_lookup_1 _ _ _ _ Hp).
    - apply (IH j1 j2); (done || lia). }
  assert (Hnd : NoDup (fst <$> range_list i low high)).
  { unfold range_list. rewrite merge_sort_Permutation. apply nodup_filter, NoDup_fst_map_to_list. }
  assert (p1.1 <> p2.1); [|lia]. intros E.
  assert (j1 = j2); [|lia]. eapply (NoDup_lookup _ _ _ (p1.1)); [exact Hnd|by rewrite list_lookup_fmap, H1|].
  by rewrite list_lookup_fmap, H2, E.
Qed.

#[export] Instance gmap_range_laws : RangeIndexLaws (Art (gmap Z Rid)).
Proof.
  split.
  - intros i low high n k r Hin. simpl in Hin. unfold Art_range in Hin. simpl in Hin.
    apply elem_of_take in Hin as (m & Hin & _). apply list_elem_of_lookup_2 in Hin.
    rewrite merge_sort_Permutation in Hin. apply list_elem_of_In, filter_In in Hin as [Hin Hr].
    apply list_elem_of_In, elem_of_map_to_list in Hin. unfold in_range in Hr.
    rewrite andb_true_iff, !Z.leb_le in Hr. split; [|done]. simpl. unfold Art_get. simpl. by rewrite Hin.
  - intros i low high n. simpl. unfold Art_range. simpl. rewrite length_take. lia.
  - intros i low high n j1 j2 p1 p2. simpl. unfold Art_range. simpl. rewrite !lookup_take_Some.
    intros [H1 _] [H2 _] Hj. by eapply range_list_sorted.
  - intros i low high n k r k' r'. simpl. unfold Art_range, Art_get. simpl. intros Hin Hk' Hlt.
    assert (Hin' : (k, r) ∈ range_list i low high) by (eapply elem_of_take in Hin as (j & Hj & _); by eapply list_elem_of_lookup_2).
    apply elem_of_range_list in Hin' as [_ Hb].
    assert (Hk : (k', r') ∈ range_list i low high).
    { apply elem_of_range_list. split; [|lia]. destruct (art i !! k'); simpl in Hk'; congruence. }
    apply elem_of_take in Hin as (j & Hj & Hjn). apply list_elem_of_lookup in Hk as [j' Hj'].
    apply elem_of_take. exists j'. split; [done|]. destruct (Nat.lt_total j' j) as [?|[<-|?]]; [lia| |].
    + fold (range_list i low high) in Hj. simplify_eq. lia.
    + assert (k < k'); [|lia]. by apply (range_list_sorted i low high j j' (k, r) (k', r')).
  - intros i low high n k r. simpl. unfold Art_range, Art_get. simpl. fold (range_list i low high).
    rewrite length_take. intros Hn Hk Hb. rewrite take_ge by lia. apply elem_of_range_list.
    split; [|lia]. destruct (art i !! k); simpl in Hk; congruence.
  - intros i k k'. simpl. unfold Art_get. simpl.
    destruct (decide (k = k')) as [->|]; [by rewrite lookup_delete_eq|by rewrite lookup_delete_ne].
Qed.

(** ** The table *)
Section spec_table.
Context {Ix : Type} `{DbIndex Ix} `{!RangeIndex Ix} {Sc : Schema}.

Record SpecTable := mkSpec { st_index : Ix; st_recs : table_spec }.

Implicit Types (t : SpecTable) (r : Rid).

Definition set_recs t (R : table_spec) : SpecTable := mkSpec (st_index t) R.

Definition st_lock_r r (disturbed : bool) t : outcome (result Rid TransactionError * SpecTable) :=
  match st_recs t !! r with
  | Some (x, n) =>
      if disturbed then Ret (Err LockBusy, t)
      else if n <? 127 then Ret (Ok r, set_recs t (<[r := (x, n + 1)]> (st_recs t)))
      else Ret (Err ReadLockBusy, t)
  | None => Undef
  end.

Definition st_lock_w r (disturbed : bool) t : outcome (result Rid TransactionError * SpecTable) :=
  match st_recs t !! r with
  | Some (x, n) =>
      if disturbed then Ret (Err LockBusy, t)
      else if n =? 0 then Ret (Ok r, set_recs t (<[r := (x, 128)]> (st_recs t)))
      else Ret (Err WriteLockBusy, t)
  | None => Undef
  end.

Definition st_by_key (lock : Rid -> bool -> SpecTable -> outcome (result Rid TransactionError * SpecTable))
    (k : Z) (disturbed : bool) t : outcome (result Rid TransactionError * SpecTable) :=
  match index_get (st_index t) k with
  | Some r => lock r disturbed t
  | None => Ret (Err IndexNotFound, t)
  end.

Definition st_get r (f : Field) t : outcome obj :=
  match st_recs t !! r with Some (x, _) => Ret (load_field x f) | None => Undef end.

Definition st_update r (g : obj * Z -> obj * Z) t : outcome SpecTable :=
  match st_recs t !! r with
  | Some p => Ret (set_recs t (<[r := g p]> (st_recs t)))
  | None => Undef
  end.

(** The id after the highest in use. *)
Definition next_rid (R : table_spec) : Rid := foldr Z.max 0 ((fun p => p.1 + 1) <$> map_to_list R).

Definition st_insert (x : obj) t : outcome (Rid * SpecTable) :=
  k ← key x;
  let r := next_rid (st_recs t) in
  if r <? u32_MAX then Ret (r, mkSpec (index_insert (st_index t) k r) (<[r := (x, 128)]> (st_recs t)))
  else Panic.

Definition disturbed (d : draws) : bool := fst (d_weak d 0%nat).

#[export] Instance SpecTable_guarded : GuardedTable Ix SpecTable Rid := {
  gt_index t := st_index t;
  gt_read_oid k d t := st_by_key st_lock_r k (disturbed d) t;
  gt_write_oid k d t := st_by_key st_lock_w k (disturbed d) t;
  gt_lock_rid_r r d t := st_lock_r r (disturbed d) t;
  gt_lock_rid_w r d t := st_lock_w r (disturbed d) t;
  gt_read r q d t := Ret (r, t);
  gt_promote r q d t := Ret (r, t);
  gt_get r f t := st_get r f t;
  gt_set r f bs t := st_update r (fun p => (store_field p.1 f bs, p.2)) t;
  gt_drop_r r t := st_update r (fun p => (p.1, p.2 - 1)) t;
  gt_drop_w r t := st_update r (fun p => (p.1, 0)) t;
  gt_insert x d t := st_insert x t;
  gt_range low high n t := Ret (snd <$> ix_range (st_index t) low high n);
}.
End spec_table.
Arguments SpecTable Ix : clear implicits.

Section spec_laws.
Context {Ix : Type} `{DbIndexLaws Ix} `{!RangeIndex Ix} `{!RangeIndexLaws Ix}.
Context {Sc : Schema} {columns mut_columns : list Field}.
Implicit Types (t : SpecTable Ix) (R : table_spec).

Definition spec_sim t R : Prop := st_recs t = R /\ forall r, is_Some (R !! r) -> Rid_ok r.

Lemma sim_insert t R r p : spec_sim t R -> is_Some (R !! r) -> spec_sim (set_recs t (<[r := p]> R)) (<[r := p]> R).
Proof.
  intros [<- Hok] Hr. split; [done|]. intros r'. destruct (decide (r' = r)) as [->|]; [by intros _; apply Hok|].
  rewrite lookup_insert_ne by done. apply Hok.
Qed.

Lemma st_lock_r_ok t R r b :
  spec_sim t R -> lockable R r ->
  exists res t' R', st_lock_r r b t = Ret (res, t') /\ spec_sim t' R' /\ st_index t' = st_index t /\
    lock_result columns mut_columns (LReadLock r) ReadLockBusy r R res R'.
Proof.
  intros Hs (x & n & Hr & Hn). unfold st_lock_r. pose proof Hs as [-> _]. rewrite Hr. destruct b.
  - exists (Err LockBusy), t, R. split; [done|]. split; [done|]. split; [done|]. apply lock_disturbed.
  - destruct (Z.ltb_spec n 127).
    + do 2 eexists. exists (<[r := (x, n + 1)]> R). split; [done|]. split; [by apply sim_insert|].
      split; [done|]. apply lock_ok. by apply s_read_lock.
    + exists (Err ReadLockBusy), t, R. split; [done|]. split; [done|]. split; [done|].
      eapply lock_busy; [done|lia].
Qed.

Lemma st_lock_w_ok t R r b :
  spec_sim t R -> lockable R r ->
  exists res t' R', st_lock_w r b t = Ret (res, t') /\ spec_sim t' R' /\ st_index t' = st_index t /\
    lock_result columns mut_columns (LWriteLock r) WriteLockBusy r R res R'.
Proof.
  intros Hs (x & n & Hr & Hn). unfold st_lock_w. pose proof Hs as [-> _]. rewrite Hr. destruct b.
  - exists (Err LockBusy), t, R. split; [done|]. split; [done|]. split; [done|]. apply lock_disturbed.
  - destruct (Z.eqb_spec n 0) as [->|].
    + do 2 eexists. exists (<[r := (x, 128)]> R). split; [done|]. split; [by apply sim_insert|].
      split; [done|]. apply lock_ok. by apply s_write_lock.
    + exists (Err WriteLockBusy), t, R. split; [done|]. split; [done|]. split; [done|]. by eapply lock_busy.
Qed.

Lemma st_update_ok t R r p g :
  spec_sim t R -> R !! r = Some p ->
  st_update r g t = Ret (set_recs t (<[r := g p]> R)) /\ spec_sim (set_recs t (<[r := g p]> R)) (<[r := g p]> R).
Proof.
  intros Hs Hr. unfold st_update. pose proof Hs as [-> _]. rewrite Hr. split; [done|].
  apply sim_insert; [done|by eexists].
Qed.

Lemma next_rid_fresh R : R !! next_rid R = None /\ 0 <= next_rid R.
Proof.
  assert (Hmax : forall l : list Z, 0 <= foldr Z.max 0 l /\ forall z, z ∈ l -> z <= foldr Z.max 0 l).
  { induction l as [|z l [H0' IH]]; simpl; [split; [done|]; by intros z Hz%not_elem_of_nil|].
    split; [lia|]. intros z' [->|Hz]%elem_of_cons; [lia|]. specialize (IH _ Hz). lia. }
  unfold next_rid. destruct (Hmax ((fun p => p.1 + 1) <$> map_to_list R)) as [H0' H1']. split; [|done].
  destruct (R !! _) as [p|] eqn:E; [|done]. apply elem_of_map_to_list in E.
  eapply (list_elem_of_fmap_2 (fun p : Z * (list Z * Z) => p.1 + 1)) in E. specialize (H1' _ E). simpl in H1'. lia.
Qed.

#[export] Program Instance SpecTable_laws :
    GuardedTableLaws Sc columns mut_columns Ix (SpecTable Ix) Rid := {
  gt_sim := spec_sim;
  gt_valid t r q v := v = r;
  gt_full t d := u32_MAX <= next_rid (st_recs t);
}.
Next Obligation. intros t R r d. apply st_lock_r_ok. Qed.
Next Obligation. intros t R r d. apply st_lock_w_ok. Qed.
Next Obligation.
  intros t R k d Ht Hk. simpl in *. unfold st_by_key. destruct (index_get (st_index t) k) as [r|] eqn:E.
  - destruct (st_lock_r_ok t R r (disturbed d) Ht (Hk r eq_refl)) as (res & t' & R' & ? & ? & ? & ?).
    exists res, t', R'. split; [done|]. split; [done|]. split; [done|]. by eapply oid_found.
  - exists (Err IndexNotFound), t, R. split; [done|]. split; [done|]. split; [done|]. by apply oid_missing.
Qed.
Next Obligation.
  intros t R k d Ht Hk. simpl in *. unfold st_by_key. destruct (index_get (st_index t) k) as [r|] eqn:E.
  - destruct (st_lock_w_ok t R r (disturbed d) Ht (Hk r eq_refl)) as (res & t' & R' & ? & ? & ? & ?).
    exists res, t', R'. split; [done|]. split; [done|]. split; [done|]. by eapply oid_found.
  - exists (Err IndexNotFound), t, R. split; [done|]. split; [done|]. split; [done|]. by apply oid_missing.
Qed.
Next Obligation. intros t R r x n q d Ht Hr. by exists r, t. Qed.
Next Obligation. intros t R r x q d Ht Hr. by exists r, t. Qed.
Next Obligation. intros t R r x n q v f [<- _] Hr -> _ _. simpl. unfold st_get. by rewrite Hr. Qed.
Next Obligation.
  intros t R r x n q v f bs Ht Hr -> _ _ _. simpl.
  destruct (st_update_ok t R r _ (fun p => (store_field p.1 f bs, p.2)) Ht Hr) as [E Hs]. eexists. by split.
Qed.
Next Obligation.
  intros t R r x n Ht Hr _. simpl.
  destruct (st_update_ok t R r _ (fun p => (p.1, p.2 - 1)) Ht Hr) as [E Hs]. eexists. by split.
Qed.
Next Obligation.
  intros t R r x Ht Hr. simpl.
  destruct (st_update_ok t R r _ (fun p => (p.1, 0)) Ht Hr) as [E Hs]. eexists. by split.
Qed.
Next Obligation. intros t R r [_ Hok] Hr. by apply Hok. Qed.
Next Obligation. done. Qed.
Next Obligation.
  intros t R x k d [<- Hok] _ Hk. simpl. unfold st_insert. rewrite Hk. runm.
  destruct (next_rid_fresh (st_recs t)) as [Hf H0'].
  destruct (Z.ltb_spec (next_rid (st_recs t)) u32_MAX); [left|by right].
  do 2 eexists. split; [done|]. split; [done|]. split; [|done]. split; [done|]. intros r.
  destruct (decide (r = next_rid (st_recs t))) as [->|]; [done|]. rewrite lookup_insert_ne by done. apply Hok.
Qed.
End spec_laws.
