(* ===== verification/TxnReset.v ===== *)
(** * Resetting a table of a database, and what a program leaves alone

    Between transactions a table can be reset: the database stays at rest and
    the table is empty.  A thread can be given its clock hand ([thread_init]),
    which no transaction sees.  A program writes only the tables and indexes that its
    calls name; all others are as they were. *)

From Stdlib Require Import QArith.
From S2P Require Import Prelude Query Schema External ObjAlloc OidArray CacheInner ClockCache CacheMachine Table Capacity Reset.
From S2P Require Import Guarded Txn TxnView LoadLog TxnRoom SpecTable.
Open Scope Z_scope.

(** ** What a program writes *)
Section writes.
Context {N J : Type} `{EqDecision N, EqDecision J}.
Context (W : N -> Prop) (WJ : J -> Prop).

Definition op_writes {B} (o : op N J B) : Prop :=
  match o with
  | Insert t _ | Put t _ _ => W t
  | IdxInsert j _ _ | IdxRemove j _ => WJ j
  | _ => True
  end.

(** [p] writes only tables in [W] and indexes in [WJ]. *)
Fixpoint may_write {A} (p : prog N J A) : Prop :=
  match p with
  | Do o k => op_writes o /\ forall b, may_write (k b)
  | _ => True
  end.

Lemma writes_bind {A B} (p : prog N J A) (k : A -> prog N J B) : may_write p -> (forall a, may_write (k a)) -> may_write (p ≫= k).
Proof. intros Hp Hk. induction p as [a|e| |C o c IH]; [apply Hk|done..|]. split; [apply Hp|]. intros b. by apply IH, Hp. Qed.

Lemma writes_lift {A B} (m : outcome A) (k : A -> prog N J B) : (forall a, may_write (k a)) -> may_write (lift m ≫= k).
Proof. intros Hk. destruct m as [a| | |]; [apply Hk|done..]. Qed.

Lemma writes_call {B} (o : op N J B) : op_writes o -> may_write (call o).
Proof. by split. Qed.

Lemma writes_record {A} t x (body : Rid -> prog N J A) : W t -> (forall r, may_write (body r)) -> may_write (with_record t x body).
Proof.
  intros Ht Hb. unfold with_record. apply writes_bind; [by apply writes_call|]. intros r. apply writes_bind; [apply Hb|].
  intros a. by apply writes_bind.
Qed.

Lemma writes_for n first (body : Z -> prog N J unit) : (forall i, may_write (body i)) -> may_write (for_range n first body).
Proof. intros Hb. revert first. induction n as [|n IH]; intros first; [done|]. by apply writes_bind. Qed.

Lemma writes_one_by_one (ps : list (prog N J unit)) : Forall may_write ps -> may_write (one_by_one ps).
Proof. induction 1 as [|p ps Hp _ IH]; [done|]. by apply writes_bind. Qed.

Lemma writes_interleave sched (ps : list (prog N J unit)) : Forall may_write ps -> may_write (interleave sched ps).
Proof.
  revert ps. induction sched as [|i sched IH]; intros ps Hps; cbn [interleave]; [by apply writes_one_by_one|].
  destruct (ps !! i) as [[a|e| |B o k]|] eqn:Hi; [by apply IH|done|done| |by apply IH].
  destruct (Forall_lookup_1 _ _ _ _ Hps Hi) as [Ho Hk]. split; [done|]. intros b. apply IH. apply Forall_insert; [done|apply Hk].
Qed.

(** ** The frame *)
Context {Ix : Type} `{DbIndex Ix} `{!RangeIndex Ix}.
Context (S : N -> Schema) (cols mcols : N -> list Field).
Abbreviation view := (view N J Ix).
Implicit Types (v : view).

Definition framed v v' : Prop :=
  (forall t, ~ W t -> v_tab v' t = v_tab v t /\ v_index v' t = v_index v t) /\
  (forall j, ~ WJ j -> v_idx v' j = v_idx v j).

#[export] Instance framed_preorder : PreOrder framed.
Proof.
  split; [by split|]. intros v1 v2 v3 [H1 J1] [H2 J2]. split.
  - intros t Ht. destruct (H1 t Ht) as [<- <-]. by apply H2.
  - intros j Hj. rewrite <-J1 by done. by apply J2.
Qed.

Lemma vop_framed {B} (o : op N J B) v b v' : op_writes o -> vop S o v b v' -> framed v v'.
Proof.
  assert (Hn : forall t t' {X} (f : N -> X) x, W t -> ~ W t' -> upd f t x t' = f t').
  { intros t t' X f x Ht Ht'. unfold upd. case_decide; [by subst|done]. }
  assert (Hj : forall j j' (f : J -> Ix) x, WJ j -> ~ WJ j' -> upd f j x j' = f j').
  { intros j j' f x Hj Hj'. unfold upd. case_decide; [by subst|done]. }
  intros Ho Hv. destruct o; simpl in *; unfold v_lock_key, v_lock in *;
    repeat match goal with
    | Hm : match ?m with _ => _ end |- _ => destruct m
    | Hx : exists _, _ |- _ => destruct Hx
    | Ha : _ /\ _ |- _ => destruct Ha
    end; subst; try done; split; simpl; auto.
Qed.

Lemma vwp_framed {A} (p : prog N J A) v Q :
  may_write p -> vwp S cols mcols p v Q -> vwp S cols mcols p v (fun r v' => Q r v' /\ framed v v').
Proof.
  revert v. induction p as [a|e| |B o k IH]; intros v Hw Hp; [by split..|]. destruct Hp as [Hok Hp]. split; [done|].
  intros b v' Hv. eapply vwp_mono; [|apply IH; [apply Hw|by apply Hp]]. intros r v2 [HQ Hf]. split; [done|].
  etransitivity; [|exact Hf]. eapply vop_framed; [apply Hw|done].
Qed.
End writes.

(** ** A table without records *)
Section emptied.
Context {N J : Type} `{EqDecision N, EqDecision J} {Ix : Type} `{DbIndexLaws Ix} `{!RangeIndex Ix}.
Context (S : N -> Schema).

Definition a_emptied (t : N) (a : adb N J Ix) : adb N J Ix :=
  mkAdb (upd (a_recs a) t ∅) (upd (a_index a) t index_new) (a_idx a) (upd (a_cur a) t None) (a_held a).

Definition v_emptied (t : N) (v : view N J Ix) : view N J Ix :=
  mkView (upd (v_tab v) t ∅) (upd (v_index v) t index_new) (v_idx v) (upd (v_cur v) t None) (v_held v).

Lemma emptied_sees t v a : sees S v a -> v_held v = [] -> sees S (v_emptied t v) (a_emptied t a).
Proof.
  intros ((Ht & Hi & Hj & Hc & Hh) & Hb & Hr & Hl1 & Hl2) Hv. unfold v_emptied, a_emptied, upd. split; [|split; [|split]].
  - split; [|split; [|split; [|split]]]; simpl; intros *; try case_decide; by rewrite ?fmap_empty.
  - intros t' r. simpl. rewrite <-Hh, Hv. destruct (decide (t = t')); [by rewrite lookup_empty|].
    specialize (Hb t' r). by rewrite <-Hh, Hv in Hb.
  - intros t' r l. unfold others_lock. simpl. destruct (decide (t = t')); [by rewrite lookup_empty|]. apply Hr.
  - split; cbn [v_tab v_index]; intros t' r x; destruct (decide (t = t')); [by rewrite index_get_new|apply Hl1|by rewrite lookup_empty|apply Hl2].
Qed.
End emptied.

(** ** Resetting *)
Section reset.
Context {N J : Type} `{EqDecision N, EqDecision J}.
Context {A : Type} `{ArtRaw A} `{!KvMapLaws Rid A} `{!RangeIndexLaws (Art A)}.
Context {T M : Type} `{KvMapLaws Z T} `{KvMapLaws TlsAllocator M}.
Context (S : N -> Schema) (cols mcols : N -> list Field) (L : forall t, SchemaLaws (S t) (cols t) (mcols t)).
Abbreviation table := (DbTable (Art A) T M).
Abbreviation database := (Txn.db N J (Art A) table QueryValue).
Abbreviation at_rest := (at_rest (cache_ops S) S cols mcols (cache_laws S cols mcols L)).

(** [reset] of table [t]: no query value outlives it. *)
Definition reset_table (t : N) (s : database) : outcome database :=
  tb ← DbTable_reset (db_tabs s t);
  Ret (set_tab s t tb None).

Lemma emptied_sim (s : database) a t cc :
  db_sim (cache_ops S) S cols mcols (cache_laws S cols mcols L) s a ->
  balanced (a_emptied t a) -> cache_inv (Sc := S t) (cols t) cc -> (forall r, ~ allocated_rid cc r) ->
  db_sim (cache_ops S) S cols mcols (cache_laws S cols mcols L) (set_tab s t (mkTable cc index_new) None) (a_emptied t a).
Proof.
  intros (Ht & Hj & Hh & Hb) Hb' Hi Hna. split; [|done]. intros t'. specialize (Ht t'). unfold tab_sim in *. simpl. unfold upd.
  destruct (decide (t = t')) as [<-|]; [|exact Ht]. split; [|done]. split; [exact Hi|]. split.
  - intros r. rewrite lookup_empty. split; [intros Ha; by apply Hna in Ha|by intros []].
  - intros r x n. by rewrite lookup_empty.
Qed.

(** A table that is reset at rest is empty and has room for as many records as
    it has ids; the others are as they were. *)
Lemma reset_table_ok s a v t :
  at_rest s a v -> exists s', reset_table t s = Ret s' /\ at_rest s' (a_emptied t a) (v_emptied t v) /\
    (forall t', t' <> t -> db_tabs s' t' = db_tabs s t') /\ (forall t', tab_cap s' t' = tab_cap s t') /\
    forall ts n, Z.of_nat n + 64 * (Z.of_nat (length ts) - 1) <= tab_cap s t -> Capacity.room ts n (tb_cache (db_tabs s' t)).
Proof.
  intros (Hsim & Hsees & Hv). pose proof (emptied_sees S t v a Hsees Hv) as Hsees'.
  pose proof Hsim as (Ht & _). destruct (Ht t) as ((Hi & _) & _).
  destruct (ClockCache_reset_ok (columns := cols t) (tb_cache (db_tabs s t)) Hi) as (cc & E & Hi' & Hna & Hcap & Hth).
  assert (Hc : forall c, cache_inv (Sc := S t) (cols t) c -> oa_cap (cc_oids c) = sg_cap (cc_storage c)).
  { by intros c ((_ & _ & _ & -> & _) & _). }
  unfold reset_table, DbTable_reset. rewrite E. runm. eexists. split; [done|]. split; [split; [|by split]|split; [|split]].
  - apply emptied_sim; [exact Hsim|by apply Hsees'|exact Hi'|exact Hna].
  - intros t' Hne. simpl. unfold upd. by case_decide.
  - intros t'. unfold tab_cap. simpl. unfold upd. case_decide; [subst t'|done]. simpl.
    by rewrite <-(Hc _ Hi'), <-(Hc _ Hi), Hcap.
  - intros ts n Hn. simpl. unfold upd. rewrite decide_True by done. apply no_threads_room; [exact Hna|exact Hth|].
    cbn [tb_cache]. rewrite Hcap, (Hc _ Hi). exact Hn.
Qed.

(** One of the other indexes is replaced by a new one. *)
Lemma reset_idx_ok (s : database) a v j :
  at_rest s a v ->
  at_rest (set_idx s j index_new) (mkAdb (a_recs a) (a_index a) (upd (a_idx a) j index_new) (a_cur a) (a_held a))
    (v_set_idx v j index_new).
Proof.
  intros ((Ht & Hj & Hh & Hb) & ((I1 & I2 & I3 & I4 & I5) & Hb' & Hr & Hl) & Hv). split; [|split; [|done]].
  - split; [exact Ht|]. split; [|by split]. intros j'. simpl. unfold upd. case_decide; [done|apply Hj].
  - split; [|by split]. split; [exact I1|]. split; [exact I2|]. split; [|by split].
    intros j'. simpl. unfold upd. case_decide; [done|apply I3].
Qed.
End reset.

(** ** A thread's clock hand *)
Section thread_init.
Context {Sc : Schema} {columns : list Field}.
Context {T M : Type} `{KvMapLaws Z T} `{KvMapLaws TlsAllocator M}.

(** A new hand changes no record and no reference to one. *)
Lemma ClockCache_thread_init_ok tid draw (cc : ClockCache T M) :
  cache_inv columns cc -> 0 <= draw < ci_capacity (cc_inner cc) ->
  exists inner, ClockCache_thread_init tid draw cc = Ret (mkCache inner (cc_storage cc) (cc_oids cc)) /\
    ci_entries inner = ci_entries (cc_inner cc) /\ same_params (cc_inner cc) inner /\
    cache_inv columns (mkCache inner (cc_storage cc) (cc_oids cc)) /\
    is_Some (kv_get (ci_tls inner) tid).
Proof.
  intros [((Hc1 & Hc2 & Hh & Hm & Hp) & Hoa & Hlink & Hst) Hag] Hd. unfold ClockCache_thread_init, CacheInner_thread_init.
  destruct (kv_get (ci_tls (cc_inner cc)) tid) as [i|] eqn:Ei.
  - runm. exists (cc_inner cc). split; [done|]. split; [done|]. split; [done|]. split; [|by eexists].
    destruct cc as [inner st oids]. by split.
  - rewrite (proj2 (Z.ltb_lt _ _)) by lia. runm. eexists. split; [done|]. split; [done|]. split; [done|].
    split; [|simpl; rewrite kv_get_insert_eq; by eexists].
    split; [|exact Hag]. split; [|by split]. split; [done|]. split; [done|]. split; [|done].
    intros tid' i. simpl. destruct (decide (tid' = tid)) as [->|Hne].
    + rewrite kv_get_insert_eq. intros [= <-]. exact Hd.
    + rewrite kv_get_insert_ne by done. apply Hh.
Qed.
End thread_init.

Section init_table.
Context {N J : Type} `{EqDecision N, EqDecision J}.
Context {A : Type} `{ArtRaw A} `{!KvMapLaws Rid A} `{!RangeIndexLaws (Art A)}.
Context {T M : Type} `{KvMapLaws Z T} `{KvMapLaws TlsAllocator M}.
Context (S : N -> Schema) (cols mcols : N -> list Field) (L : forall t, SchemaLaws (S t) (cols t) (mcols t)).
Abbreviation table := (DbTable (Art A) T M).
Abbreviation database := (Txn.db N J (Art A) table QueryValue).
Abbreviation at_rest := (at_rest (cache_ops S) S cols mcols (cache_laws S cols mcols L)).

(** [thread_init]: [rng_idx] is the draw for the clock hand. *)
Definition DbTable_thread_init (tid rng_idx : Z) (t : table) : outcome table :=
  cc ← ClockCache_thread_init tid rng_idx (tb_cache t);
  Ret (mkTable cc (tb_index t)).

Definition init_table (tid rng_idx : Z) (t : N) (s : database) : outcome database :=
  tb ← DbTable_thread_init tid rng_idx (db_tabs s t);
  Ret (set_tab s t tb (db_cur s t)).

(** The slots of a table's cache. *)
Definition slots (s : database) (t : N) : Z := ci_capacity (cc_inner (tb_cache (db_tabs s t))).

Lemma init_table_ok tid rng_idx t (s : database) a v :
  at_rest s a v -> 0 <= rng_idx < slots s t ->
  exists s', init_table tid rng_idx t s = Ret s' /\ at_rest s' a v /\
    (forall t', slots s' t' = slots s t') /\ (forall t', tab_cap s' t' = tab_cap s t') /\
    is_Some (kv_get (ci_tls (cc_inner (tb_cache (db_tabs s' t)))) tid) /\
    (forall t', t' <> t -> db_tabs s' t' = db_tabs s t').
Proof.
  intros ((Ht & Hj & Hh & Hb) & Hsees & Hv) Hd. destruct (Ht t) as ((Hi & Hal & Hrec) & Hix & Hcur).
  destruct (ClockCache_thread_init_ok (Sc := S t) tid rng_idx (tb_cache (db_tabs s t)) Hi Hd)
    as (inner & E & Een & (Ecap & _) & Hi' & Htls).
  unfold init_table, DbTable_thread_init. rewrite E. runm. eexists. split; [done|].
  split; [split; [|done]|split; [|split; [|split]]]; cbn [set_tab db_tabs]; unfold upd.
  - split; [|by split]. intros t'. unfold tab_sim. cbn [set_tab db_tabs db_cur]. unfold upd.
    destruct (decide (t = t')) as [<-|]; [|apply Ht]. split; [|split; [exact Hix|]].
    + split; [exact Hi'|]. split; [exact Hal|]. intros r x n Hr. destruct (Hrec r x n Hr) as [Hx Hl].
      split; [|exact Hl]. rewrite <-Hx. unfold record_value. cbn [tb_cache cc_oids cc_inner]. by rewrite Een.
    + destruct (db_cur s t) as [[[g q] w]|], (a_cur a t) as [[g' q']|]; done.
  - intros t'. unfold slots. simpl. unfold upd. destruct (decide (t = t')) as [<-|]; [exact Ecap|done].
  - intros t'. unfold tab_cap. simpl. unfold upd. by destruct (decide (t = t')) as [<-|].
  - rewrite decide_True by done. exact Htls.
  - intros t' Hne. by rewrite decide_False by congruence.
Qed.
End init_table.
