(* ===== verification/AsyncTask.v ===== *)
(** * Futures and the round-robin executor (src/async_task)

    A future is a state with a [poll]; transactions suspend on prefetches and
    the executor interleaves [N] of them on one thread. *)

From S2P Require Import Prelude.

(** [Future]: the polled state, and the output when it is ready. *)
Class Future (F O : Type) := poll : F -> F * option O.

(** ** The futures of the program *)

(** prefetcher.rs: the prefetch instructions have no effect on values. *)
Record Prefetcher := mkPrefetcher { pf_is_first_poll : bool }.

Definition fetch_ptr : Prefetcher := mkPrefetcher true.

#[export] Instance Prefetcher_poll : Future Prefetcher unit := fun p =>
  if pf_is_first_poll p then (mkPrefetcher false, None) else (p, Some tt).

Record PrefetchRef (V : Type) := mkPrefetchRef { pr_value : V; pr_fetched : bool }.
Arguments mkPrefetchRef {V}.
Arguments pr_value {V}.
Arguments pr_fetched {V}.

Definition PrefetchRef_new {V} (reference : V) : PrefetchRef V := mkPrefetchRef reference false.

#[export] Instance PrefetchRef_poll V : Future (PrefetchRef V) V := fun p =>
  if negb (pr_fetched p) then (mkPrefetchRef (pr_value p) true, None) else (p, Some (pr_value p)).

(** task_switcher.rs *)
Record DummySwitcher := mkSwitcher { sw_remaining : nat }.

Definition DummySwitcher_new (round : nat) : DummySwitcher := mkSwitcher round.

#[export] Instance DummySwitcher_poll : Future DummySwitcher unit := fun s =>
  match sw_remaining s with
  | O => (s, Some tt)
  | S n => (mkSwitcher n, None)
  end.

(** ** [block_on] *)
Fixpoint block_on {F O} `{Future F O} (fuel : nat) (task : F) : outcome O :=
  match fuel with
  | 0%nat => Spin
  | S fuel =>
      match poll task with
      | (_, Some out) => Ret out
      | (task, None) => block_on fuel task
      end
  end.

(** ** [Executor<F, N>] *)
Section executor.
Context {F O : Type} `{Future F O}.

(** [N] is the length of the queue. *)
Record Executor := mkExecutor { task_queue : list (option F) }.

Definition Executor_new (N : nat) : Executor := mkExecutor (replicate N None).

(** The first free slot takes the task; a full queue panics. *)
Fixpoint spawn_in (queue : list (option F)) (task : F) : outcome (list (option F)) :=
  match queue with
  | [] => Panic
  | None :: queue => Ret (Some task :: queue)
  | Some t :: queue =>
      queue ← spawn_in queue task;
      Ret (Some t :: queue)
  end.

Definition spawn (e : Executor) (task : F) : outcome Executor :=
  queue ← spawn_in (task_queue e) task;
  Ret (mkExecutor queue).

(** [output] starts uninitialised; reading an element that was never written
    is undefined. *)
Fixpoint read_outputs (output : list (option O)) : outcome (list O) :=
  match output with
  | [] => Ret []
  | None :: _ => Undef
  | Some o :: output =>
      rest ← read_outputs output;
      Ret (o :: rest)
  end.

(** The loop of [run_ready_tasks]: [pos] is the slot to poll, [ready_task] a
    [u8]. *)
Fixpoint ready_loop (fuel : nat) (queue : list (option F)) (pos ready_task : Z)
    (output : list (option O)) : outcome (list O * list (option F)) :=
  match fuel with
  | 0%nat => Spin
  | S fuel =>
      let N := Z.of_nat (length queue) in
      slot ← index queue pos;
      '(queue, ready_task, output) ←
        match slot with
        | Some task =>
            match poll task with
            | (_, Some sum) =>
                ready_task ← chk 8 (ready_task + 1);
                Ret (<[Z.to_nat pos := None]> queue, ready_task, <[Z.to_nat pos := Some sum]> output)
            | (task, None) => Ret (<[Z.to_nat pos := Some task]> queue, ready_task, output)
            end
        | None => Ret (queue, ready_task, output)
        end;
      let pos := pos + 1 in
      if ready_task =? wrap 8 N then
        out ← read_outputs output;
        Ret (out, queue)
      else ready_loop fuel queue (pos mod N) ready_task output
  end.

Definition run_ready_tasks (fuel : nat) (e : Executor) : outcome (list O * Executor) :=
  '(out, queue) ← ready_loop fuel (task_queue e) 0 0 (replicate (length (task_queue e)) None);
  Ret (out, mkExecutor queue).
End executor.
Arguments Executor F : clear implicits.

(** ** Properties *)

(** The task is ready with [o] after [k] pending polls. *)
Fixpoint finishes {F O} `{Future F O} (k : nat) (f : F) (o : O) : Prop :=
  match k with
  | 0%nat => snd (poll f) = Some o
  | S k => snd (poll f) = None /\ finishes k (fst (poll f)) o
  end.

Lemma block_on_finishes {F O} `{Future F O} k (f : F) (o : O) fuel :
  finishes k f o -> (k < fuel)%nat -> block_on fuel f = Ret o.
Proof.
  revert f fuel. induction k as [|k IH]; intros f [|fuel] Hf Hk; try lia; simpl in *;
    destruct (poll f) as [f' [o'|]]; simpl in *; [congruence|done| |].
  - by destruct Hf.
  - apply IH; [tauto|lia].
Qed.

(** The suspension points of the program return to the caller once ([fetch],
    [PrefetchRef]) or [round] times, then complete. *)
Theorem suspensions_complete {V} (reference : V) round :
  finishes 1 fetch_ptr tt /\ finishes 1 (PrefetchRef_new reference) reference /\
  finishes round (DummySwitcher_new round) tt.
Proof.
  split_and!; [done..|].
  induction round as [|n IH]; [done|]. simpl. by split.
Qed.

(** The empty slots of a queue. *)
Section free_slots.
Context {F : Type}.

Fixpoint free_slots (queue : list (option F)) : nat :=
  match queue with
  | [] => 0
  | None :: queue => S (free_slots queue)
  | Some _ :: queue => free_slots queue
  end.

Lemma free_slots_insert queue p s :
  queue !! p = Some (Some s) -> free_slots (<[p := None]> queue) = S (free_slots queue).
Proof.
  revert p. induction queue as [|[x|] queue IH]; intros [|p] Hs; simpl in *; try done; by rewrite (IH p).
Qed.

Lemma free_slots_poll queue p s s' :
  queue !! p = Some (Some s) -> free_slots (<[p := Some s']> queue) = free_slots queue.
Proof.
  revert p. induction queue as [|[x|] queue IH]; intros [|p] Hs; simpl in *; try done; by rewrite (IH p).
Qed.

Lemma free_slots_le queue : (free_slots queue <= length queue)%nat.
Proof. induction queue as [|[x|] queue IH]; simpl; lia. Qed.

Lemma free_slots_all queue i :
  free_slots queue = length queue -> (i < length queue)%nat -> queue !! i = Some None.
Proof.
  revert i. induction queue as [|[x|] queue IH]; intros [|i] Hf Hi; simpl in *; try lia; try done.
  - pose proof (free_slots_le queue). lia.
  - pose proof (free_slots_le queue). lia.
  - apply IH; lia.
Qed.
End free_slots.

Section executor_run.
Context {F O : Type} `{Future F O}.
(** What each slot's task needs and returns. *)
Variables (ks : list nat) (os : list O).
Hypothesis Hlen : length ks = length os.

(** Slot [i] after its task was polled [m] times. *)
Definition slot_state (m i : nat) (queue : list (option F)) (output : list (option O)) : Prop :=
  exists k o, ks !! i = Some k /\ os !! i = Some o /\
    ((m <= k)%nat /\ (exists f, queue !! i = Some (Some f) /\ finishes (k - m) f o) \/
     (k < m)%nat /\ queue !! i = Some None /\ output !! i = Some (Some o)).

(** In round [j], before slot [p]: the slots below [p] have one poll more. *)
Definition loop_inv (j p : nat) (queue : list (option F)) (ready : Z) (output : list (option O)) : Prop :=
  length queue = length ks /\ length output = length ks /\ (p < length ks)%nat /\
  ready = Z.of_nat (free_slots queue) /\
  forall i, (i < length ks)%nat -> slot_state (if decide (i < p)%nat then S j else j) i queue output.

Lemma read_outputs_all output :
  length output = length os -> (forall i o, os !! i = Some o -> output !! i = Some (Some o)) ->
  read_outputs output = Ret os.
Proof.
  clear Hlen. revert os. induction output as [|x output IH]; intros [|o os'] Hl Ha; simpl in *; try lia; [done|].
  pose proof (Ha 0%nat o eq_refl) as E. simpl in E. injection E as ->. rewrite (IH os'); [done|lia|].
  intros i o' Hi. exact (Ha (S i) o' Hi).
Qed.

(** Polling slot [p] of round [j]. *)
Lemma poll_slot j p queue ready output :
  loop_inv j p queue ready output -> (length ks < 256)%nat ->
  exists queue' ready' output',
    (slot ← index queue (Z.of_nat p);
     match slot with
     | Some task =>
         match poll task with
         | (_, Some sum) =>
             ready_task ← chk 8 (ready + 1);
             Ret (<[p := None]> queue, ready_task, <[p := Some sum]> output)
         | (task, None) => Ret (<[p := Some task]> queue, ready, output)
         end
     | None => Ret (queue, ready, output)
     end) = Ret (queue', ready', output') /\
    length queue' = length ks /\ length output' = length ks /\
    ready' = Z.of_nat (free_slots queue') /\
    forall i, (i < length ks)%nat ->
      slot_state (if decide (i < S p)%nat then S j else j) i queue' output'.
Proof.
  intros (Hq & Ho & Hp & Hr & Hs) HN.
  assert (Hother : forall q' o', (forall i, i <> p -> q' !! i = queue !! i /\ o' !! i = output !! i) ->
    slot_state (S j) p q' o' -> forall i, (i < length ks)%nat ->
    slot_state (if decide (i < S p)%nat then S j else j) i q' o').
  { intros q' o' Heq Hpp i Hi. destruct (decide (i = p)) as [->|Hne].
    - by rewrite decide_True by lia.
    - destruct (Heq i Hne) as [Eq Eo]. specialize (Hs i Hi). unfold slot_state. rewrite Eq, Eo.
      destruct (decide (i < p)%nat), (decide (i < S p)%nat); try lia; exact Hs. }
  destruct (Hs p Hp) as (k & o & Ek & Eo & Hst). rewrite decide_False in Hst by lia.
  destruct Hst as [(Hm & f & Ef & Hf)|(Hm & Ef & Eout)]; rewrite (proj2 (index_Ret _ _ _) (conj (Nat2Z.is_nonneg p)
    (eq_trans (f_equal (fun n => queue !! n) (Nat2Z.id p)) Ef))); runm.
  - destruct (k - j)%nat as [|n] eqn:En; simpl in Hf; destruct (poll f) as [f' [sum|]] eqn:Epoll; simpl in Hf;
      try congruence; try (by destruct Hf).
    + injection Hf as ->. pose proof (free_slots_insert queue p f Ef) as Hfree.
      pose proof (free_slots_le (<[p := None]> queue)) as Hle. rewrite length_insert in Hle.
      rewrite chk_ok by (unfold fits; lia). runm. do 3 eexists. split; [done|].
      rewrite !length_insert. split; [done|]. split; [done|]. split; [lia|].
      apply Hother; [intros; by rewrite !list_lookup_insert_ne|].
      exists k, o. split; [done|]. split; [done|]. right. split; [lia|].
      rewrite !list_lookup_insert_eq by lia. done.
    + do 3 eexists. split; [done|]. rewrite length_insert. split; [done|]. split; [done|].
      split; [by rewrite (free_slots_poll _ _ f)|].
      apply Hother; [intros; by rewrite !list_lookup_insert_ne|].
      exists k, o. split; [done|]. split; [done|]. left. split; [lia|]. exists f'.
      rewrite list_lookup_insert_eq by lia. replace (k - S j)%nat with n by lia. split; [done|tauto].
  - do 3 eexists. split; [done|]. split; [done|]. split; [done|]. split; [done|].
    apply Hother; [done|]. exists k, o. split; [done|]. split; [done|]. right. split; [lia|done].
Qed.

(** When all slots are free the outputs are complete. *)
Lemma all_free_done m queue output :
  length queue = length ks -> length output = length ks ->
  (forall i, (i < length ks)%nat -> exists m', slot_state m' i queue output) ->
  free_slots queue = m -> m = length ks -> read_outputs output = Ret os /\ queue = replicate (length ks) None.
Proof.
  intros Hq Ho Hs Hf Hm. assert (Hall : forall i, (i < length ks)%nat -> queue !! i = Some None).
  { intros i Hi. apply free_slots_all; lia. }
  split.
  - apply read_outputs_all; [lia|]. intros i o Hi. pose proof (lookup_lt_Some _ _ _ Hi).
    destruct (Hs i) as (m' & k & o' & _ & Eo & Hst); [lia|]. rewrite Hi in Eo. injection Eo as <-.
    destruct Hst as [(_ & f & Ef & _)|(_ & _ & ?)]; [|done]. rewrite Hall in Ef by lia. congruence.
  - apply list_eq. intros i. destruct (decide (i < length ks)%nat) as [Hi|Hi].
    + rewrite Hall by done. by rewrite lookup_replicate_2 by done.
    + rewrite !lookup_ge_None_2; [done|rewrite length_replicate; lia|lia].
Qed.

(** A slot that was polled more often than its task needs is free. *)
Lemma loop_measure K j p queue ready output :
  loop_inv j p queue ready output -> Forall (fun k => (k <= K)%nat) ks ->
  (free_slots queue < length ks)%nat -> (j * length ks + p < (K + 1) * length ks)%nat.
Proof.
  intros (Hq & Ho & Hp & _ & Hs) HK Hf. destruct (decide (j <= K)%nat) as [|Hj]; [nia|exfalso].
  assert (Hall : forall (q : list (option F)) n, (forall i, (i < length q)%nat -> q !! i = Some None) -> n = length q -> free_slots q = n).
  { induction q as [|x q IH]; intros n Ha ->; simpl in *; [done|].
    pose proof (Ha 0%nat ltac:(lia)) as E. injection E as ->. f_equal. apply IH; [|done].
    intros i Hi. apply (Ha (S i)). lia. }
  rewrite (Hall queue (length ks)) in Hf; [lia| |done]. intros i Hi. rewrite Hq in Hi.
  destruct (Hs i Hi) as (k & o & Ek & _ & Hst). rewrite Forall_lookup in HK. specialize (HK i k Ek).
  destruct Hst as [(Hm & _)|(_ & ? & _)]; [|done]. destruct (decide (i < p)%nat); lia.
Qed.

Lemma ready_loop_done K fuel j p queue ready output :
  loop_inv j p queue ready output -> (length ks < 256)%nat -> Forall (fun k => (k <= K)%nat) ks ->
  (free_slots queue < length ks)%nat ->
  ((K + 1) * length ks <= fuel + (j * length ks + p))%nat ->
  ready_loop fuel queue (Z.of_nat p) ready output = Ret (os, replicate (length ks) None).
Proof.
  revert j p queue ready output.
  induction fuel as [|fuel IH]; intros j p queue ready output Hinv HN HK Hfree Hfuel.
  { pose proof (loop_measure K j p _ _ _ Hinv HK Hfree). lia. }
  pose proof Hinv as (Hq & _ & Hp & _). destruct (poll_slot j p queue ready output Hinv HN)
    as (q' & r' & o' & E & Hq' & Ho' & Hr' & Hs'). apply bind_Ret_inv in E as (slot & Eslot & Ebody).
  cbn [ready_loop]. rewrite Eslot. runm. rewrite Nat2Z.id, Ebody. runm.
  assert (Hw : wrap 8 (Z.of_nat (length queue)) = Z.of_nat (length ks)).
  { rewrite Hq. apply wrap_small. unfold fits. lia. }
  rewrite Hw, Hr'. pose proof (free_slots_le q') as Hle. destruct (Z.eqb_spec (Z.of_nat (free_slots q')) (Z.of_nat (length ks))) as [Ed|Ed].
  - destruct (all_free_done (free_slots q') q' o') as [-> ->]; [done|done| |done|lia|done].
    intros i Hi. eauto.
  - rewrite Hq. destruct (decide (S p < length ks)%nat) as [Hlt|Hge].
    + rewrite Z.mod_small by lia. replace (Z.of_nat p + 1) with (Z.of_nat (S p)) by lia.
      apply (IH j (S p)); [|done|done|lia|lia]. by split_and!.
    + replace (Z.of_nat p + 1) with (Z.of_nat (length ks)) by lia. rewrite Z.mod_same by lia.
      change 0 with (Z.of_nat 0). apply (IH (S j) 0%nat); [|done|done|lia|nia].
      split_and!; [done|done|lia|done|]. intros i Hi. rewrite decide_False by lia.
      specialize (Hs' i Hi). by rewrite decide_True in Hs' by lia.
Qed.
End executor_run.

Lemma run_ready_tasks_all {F O} `{Future F O} (fs : list F) (ks : list nat) (os : list O) K fuel :
  (0 < length fs < 256)%nat -> length ks = length fs -> length os = length fs ->
  (forall i f k o, fs !! i = Some f -> ks !! i = Some k -> os !! i = Some o -> finishes k f o) ->
  Forall (fun k => (k <= K)%nat) ks -> ((K + 1) * length fs <= fuel)%nat ->
  run_ready_tasks fuel (mkExecutor (Some <$> fs)) = Ret (os, Executor_new (length fs)).
Proof.
  intros HN Hk Ho Hfin HK Hfuel. unfold run_ready_tasks. cbn [task_queue]. rewrite length_fmap.
  assert (Hfree : free_slots (Some <$> fs) = 0%nat).
  { clear. induction fs as [|f fs IH]; [done|]. exact IH. }
  assert (E : ready_loop fuel (Some <$> fs) 0 0 (replicate (length fs) None)
            = Ret (os, replicate (length ks) None)); [|rewrite E; runm; by rewrite Hk].
  apply (ready_loop_done ks os ltac:(lia) K fuel 0 0); [|lia|done|rewrite Hfree; lia|rewrite Hk; lia].
  split; [by rewrite length_fmap|]. split; [by rewrite length_replicate|]. split; [lia|].
  split; [by rewrite Hfree|]. intros i Hi. rewrite decide_False by lia.
  destruct (lookup_lt_is_Some_2 fs i) as [f Ef]; [lia|]. destruct (lookup_lt_is_Some_2 ks i) as [k Ek]; [lia|].
  destruct (lookup_lt_is_Some_2 os i) as [o Eo]; [lia|].
  exists k, o. split; [done|]. split; [done|]. left. split; [lia|]. exists f.
  rewrite list_lookup_fmap, Ef, Nat.sub_0_r. split; [done|]. by eapply Hfin.
Qed.

(** C30: The executor with [0 < N < 256] slots, all occupied, returns after at most
    [(K + 1) * N] polls when no task needs more than [K] suspensions; it
    returns every task's own output in the order of the slots, however the
    tasks' suspensions interleave, and leaves the queue empty. *)
Theorem executor_runs_all {F O} `{Future F O} (fs : list F) (ks : list nat) (os : list O) K fuel :
  (0 < length fs < 256)%nat -> length ks = length fs -> length os = length fs ->
  (forall i f k o, fs !! i = Some f -> ks !! i = Some k -> os !! i = Some o -> finishes k f o) ->
  Forall (fun k => (k <= K)%nat) ks -> ((K + 1) * length fs <= fuel)%nat ->
  run_ready_tasks fuel (mkExecutor (Some <$> fs)) = Ret (os, Executor_new (length fs)).
Proof. apply run_ready_tasks_all. Qed.

Lemma executor_runs_all_witness :
  run_ready_tasks 12 (mkExecutor (Some <$> [DummySwitcher_new 3; DummySwitcher_new 0; DummySwitcher_new 1]))
    = Ret ([tt; tt; tt], Executor_new 3).
Proof.
  apply (executor_runs_all [DummySwitcher_new 3; DummySwitcher_new 0; DummySwitcher_new 1] [3; 0; 1]%nat [tt; tt; tt] 3).
  - simpl. lia.
  - reflexivity.
  - reflexivity.
  - intros [|[|[|i]]] f k o E1 E2 E3; simpl in *; simplify_eq; repeat split.
  - repeat constructor.
  - simpl. lia.
Defined.

(** Completed tasks and tasks still in the queue that cannot make up the number
    of slots, which the loop cuts down to eight bits. *)
Lemma ready_loop_spins {F O} `{Future F O} N fuel (q : list (option F)) p r (out : list (option O)) :
  length q = N -> 0 <= p < Z.of_nat N -> 0 <= r ->
  r + Z.of_nat (N - free_slots q)%nat < wrap 8 (Z.of_nat N) -> ready_loop fuel q p r out = Spin.
Proof.
  pose proof (wrap_fits 8 (Z.of_nat N) ltac:(lia)) as HN. unfold fits in HN. change (2 ^ 8) with 256 in HN.
  revert q p r out. induction fuel as [|fuel IH]; intros q p r out Hq Hp Hr Hb; [done|].
  cbn [ready_loop]. destruct (lookup_lt_is_Some_2 q (Z.to_nat p)) as [s Es]; [lia|].
  rewrite (proj2 (index_Ret q p s)) by (split; [lia|done]). runm. rewrite Hq.
  pose proof (free_slots_le q) as Hle. pose proof (Z.mod_pos_bound (p + 1) (Z.of_nat N) ltac:(lia)) as Hmod.
  destruct s as [task|].
  - destruct (poll task) as [task' [sum|]].
    + pose proof (free_slots_insert q (Z.to_nat p) task Es) as Hfree.
      pose proof (free_slots_le (<[Z.to_nat p := None]> q)) as Hle'. rewrite length_insert in Hle'.
      rewrite chk_ok by (unfold fits; lia). runm. rewrite (proj2 (Z.eqb_neq _ _)) by lia.
      apply IH; [by rewrite length_insert|done|lia|lia].
    + runm. rewrite (proj2 (Z.eqb_neq _ _)) by lia.
      apply IH; [by rewrite length_insert|done|done|by rewrite (free_slots_poll _ _ task)].
  - runm. rewrite (proj2 (Z.eqb_neq _ _)) by lia. by apply IH.
Qed.

(** C40: With fewer tasks than [N mod 256] - below 256 slots, with a slot that was
    never filled - the loop has no way out: it is still running however long it
    ran. *)
Theorem executor_underfull_spins {F O} `{Future F O} (fs : list F) (N fuel : nat) :
  (Z.of_nat (length fs) < Z.of_nat N mod 256) ->
  run_ready_tasks fuel (mkExecutor ((Some <$> fs) ++ replicate (N - length fs) None)) = Spin.
Proof.
  intros Hlt. assert (Hle : (length fs < N)%nat) by (pose proof (Z.mod_le (Z.of_nat N) 256); lia).
  unfold run_ready_tasks. cbn [task_queue]. set (q := (Some <$> fs) ++ _).
  assert (Hq : length q = N).
  { unfold q. rewrite length_app, length_fmap, length_replicate. lia. }
  assert (Hf : free_slots q = (N - length fs)%nat).
  { unfold q. clear. generalize (N - length fs)%nat. intros n. induction fs as [|f fs IH]; simpl; [|exact IH].
    induction n; simpl; congruence. }
  rewrite (ready_loop_spins N); [done|done|lia|lia|]. unfold wrap. change (2 ^ 8) with 256. lia.
Qed.

Lemma executor_underfull_spins_witness :
  run_ready_tasks 1000 (mkExecutor [Some (DummySwitcher_new 1); None]) = Spin.
Proof. apply (executor_underfull_spins [DummySwitcher_new 1] 2 1000). reflexivity. Defined.

(** The number of slots is cut down to a [u8]: an executor of 256 slots takes
    nothing to be all, and reads outputs that no task has written. *)
Example executor_of_256 : run_ready_tasks 1 (mkExecutor (replicate 256 (Some (DummySwitcher_new 1)))) = Undef.
Proof. vm_compute. reflexivity. Qed.
