(* ===== verification/AsyncBench.v ===== *)
(** * Linked-list traversals and task switches (src/async_task: test_utils.rs,
    tests.rs, benches.rs)

    What the executor is measured with: a list of cells that is traversed with
    a prefetch before every step, and tasks that only yield.  An [async fn] is
    the state between two of its suspensions; its output is an [outcome], so
    that a panic in the task is one of its results.  The traversals interleaved
    by the executor give the sum of the plain loops, which is the sum of the
    cells. *)

From S2P Require Import Prelude AsyncTask.

Definition GROUP_SIZE : nat := 8.

(** ** test_utils.rs

    A [Cell] is its [next_index]; the padding is never read. *)
Record ArrayList := mkArrayList { al_list : list Z }.

(** [self.list[i].set(value)]. *)
Definition set_cell (l : list Z) (i value : Z) : outcome (list Z) :=
  _ ← index l i;
  Ret (<[Z.to_nat i := value]> l).

Fixpoint link_cells (values : list Z) (pre_idx : Z) (l : list Z) : outcome (list Z) :=
  match values with
  | [] => Ret l
  | elem :: values =>
      l ← set_cell l pre_idx elem;
      link_cells values elem l
  end.

(** [shuffled] is the result of shuffling [1, .., array_size - 1]. *)
Definition ArrayList_new (array_size : nat) (shuffled : list Z) : outcome ArrayList :=
  _ ← chk 64 (Z.of_nat array_size - 1);
  l ← link_cells shuffled 0 (replicate array_size 0);
  Ret (mkArrayList l).

Definition ground_truth_sum (w : ArrayList) : outcome Z :=
  let len := Z.of_nat (length (al_list w)) in
  n ← chk 64 (len - 1);
  s ← chk 64 (n * len);
  Ret (s / 2).

Fixpoint traverse_steps (n : nat) (l : list Z) (pre_idx sum : Z) : outcome Z :=
  match n with
  | O => Ret sum
  | S n =>
      value ← index l pre_idx;
      sum ← chk 64 (sum + value);
      traverse_steps n l value sum
  end.

Fixpoint simple_traverse_from (sum : Z) (workloads : list ArrayList) : outcome Z :=
  match workloads with
  | [] => Ret sum
  | w :: workloads =>
      sum ← traverse_steps (length (al_list w)) (al_list w) 0 sum;
      simple_traverse_from sum workloads
  end.

Definition simple_traverse (workloads : list ArrayList) : outcome Z := simple_traverse_from 0 workloads.

(** [traverse_one] between two suspensions: the iterations that are left, the
    locals, and the prefetch it awaits. *)
Record Traverse := mkTraverse {
  tv_list : list Z; tv_left : nat; tv_pre_idx : Z; tv_sum : Z; tv_await : option Prefetcher }.

Definition traverse_one (w : ArrayList) : Traverse :=
  mkTraverse (al_list w) (length (al_list w)) 0 0 None.

(** From the head of the loop to the next suspension or the end. *)
Definition traverse_head (s : Traverse) : Traverse * option (outcome Z) :=
  match tv_left s with
  | O => (s, Some (Ret (tv_sum s)))
  | S _ =>
      match index (tv_list s) (tv_pre_idx s) with
      | Ret _ =>
          let '(f, _) := poll fetch_ptr in
          (mkTraverse (tv_list s) (tv_left s) (tv_pre_idx s) (tv_sum s) (Some f), None)
      | _ => (s, Some Panic)
      end
  end.

(** The body of the loop after the prefetch. *)
Definition traverse_body (s : Traverse) : Traverse * option (outcome Z) :=
  match (value ← index (tv_list s) (tv_pre_idx s); sum ← chk 64 (tv_sum s + value); Ret (value, sum)) with
  | Ret (value, sum) => traverse_head (mkTraverse (tv_list s) (pred (tv_left s)) value sum None)
  | _ => (s, Some Panic)
  end.

#[export] Instance Traverse_poll : Future Traverse (outcome Z) := fun s =>
  match tv_await s with
  | None => traverse_head s
  | Some f =>
      match poll f with
      | (_, Some tt) => traverse_body s
      | (f, None) => (mkTraverse (tv_list s) (tv_left s) (tv_pre_idx s) (tv_sum s) (Some f), None)
      end
  end.

Section spawn_all.
Context {F O : Type} `{Future F O}.

Fixpoint spawn_all (tasks : list F) (e : Executor F) : outcome (Executor F) :=
  match tasks with
  | [] => Ret e
  | t :: tasks =>
      e ← spawn e t;
      spawn_all tasks e
  end.
End spawn_all.

(** [iter().sum()] of the tasks' outputs. *)
Fixpoint sum_outputs (sum : Z) (os : list (outcome Z)) : outcome Z :=
  match os with
  | [] => Ret sum
  | o :: os =>
      v ← o;
      sum ← chk 64 (sum + v);
      sum_outputs sum os
  end.

Definition async_traverse (fuel : nat) (workloads : list ArrayList) : outcome Z :=
  e ← spawn_all (traverse_one <$> workloads) (Executor_new GROUP_SIZE);
  '(os, _) ← run_ready_tasks fuel e;
  sum_outputs 0 os.

(** ** benches.rs *)
Record SimpleFuture := mkSimple { is_first_poll : bool }.

Definition SimpleFuture_new : SimpleFuture := mkSimple true.

#[export] Instance SimpleFuture_poll : Future SimpleFuture Z := fun f =>
  if is_first_poll f then (mkSimple false, None) else (f, Some 1).

(** [simple_yield] and [stackful_yield]: the iterations that are left, the sum,
    the awaited future, and the words of [large_array] that live across the
    suspensions. *)
Record Yielder := mkYielder { yl_left : nat; yl_sum : Z; yl_await : option SimpleFuture; yl_array : list Z }.

Definition simple_yield : Yielder := mkYielder 10000 0 None [].

Definition stackful_yield : Yielder := mkYielder 10000 0 None (replicate 32 42).

Definition yield_head (y : Yielder) : Yielder * option (outcome Z) :=
  match yl_left y with
  | O => (y, Some (s ← sum_outputs 0 (Ret <$> yl_array y); chk 64 (yl_sum y + s)))
  | S _ =>
      let '(f, _) := poll SimpleFuture_new in
      (mkYielder (yl_left y) (yl_sum y) (Some f) (yl_array y), None)
  end.

#[export] Instance Yielder_poll : Future Yielder (outcome Z) := fun y =>
  match yl_await y with
  | None => yield_head y
  | Some f =>
      match poll f with
      | (f, None) => (mkYielder (yl_left y) (yl_sum y) (Some f) (yl_array y), None)
      | (_, Some v) =>
          match chk 64 (yl_sum y + v) with
          | Ret sum => yield_head (mkYielder (pred (yl_left y)) sum None (yl_array y))
          | _ => (y, Some Panic)
          end
      end
  end.

(** One iteration of [switch_bench] with either task. *)
Definition switch_bench (fuel : nat) (task : Yielder) : outcome (list (outcome Z)) :=
  e ← spawn_all (replicate GROUP_SIZE task) (Executor_new GROUP_SIZE);
  '(os, _) ← run_ready_tasks fuel e;
  Ret os.

(** One iteration of each function of [linked_list_bench]. *)
Fixpoint map_outcome {A B} (f : A -> outcome B) (l : list A) : outcome (list B) :=
  match l with
  | [] => Ret []
  | a :: l =>
      b ← f a;
      bs ← map_outcome f l;
      Ret (b :: bs)
  end.

Definition linked_list_bench (fuel : nat) (shuffles : list (list Z)) : outcome unit :=
  let array_size := (1024 * 1024)%nat in
  workloads ← map_outcome (ArrayList_new array_size) shuffles;
  w ← index workloads 0;
  gt ← ground_truth_sum w;
  gt_sum ← chk 64 (gt * Z.of_nat GROUP_SIZE);
  sum ← async_traverse fuel workloads;
  _ ← rassert (sum =? gt_sum);
  sum ← simple_traverse workloads;
  rassert (sum =? gt_sum).

(** ** tests.rs *)
Fixpoint total (sum : Z) (workloads : list ArrayList) : outcome Z :=
  match workloads with
  | [] => Ret sum
  | w :: workloads =>
      g ← ground_truth_sum w;
      sum ← chk 64 (sum + g);
      total sum workloads
  end.

Definition simple_traverse_is_correct (shuffles : list (list Z)) : outcome unit :=
  workloads ← map_outcome (ArrayList_new 1024) shuffles;
  workload_sum ← total 0 workloads;
  sum ← simple_traverse workloads;
  rassert (sum =? workload_sum).

Definition async_yield_same_as_simple (fuel : nat) (shuffles : list (list Z)) : outcome unit :=
  workloads ← map_outcome (ArrayList_new 1024) shuffles;
  sync_sum ← simple_traverse workloads;
  async_sum ← async_traverse fuel workloads;
  rassert (sync_sum =? async_sum).

(** ** The suspensions of the tasks *)

(** A traversal that waits for the prefetch of a cell needs as many polls as
    there are cells behind it. *)
Lemma waiting_finishes n l pre sum v :
  traverse_steps (S n) l pre sum = Ret v ->
  finishes n (mkTraverse l (S n) pre sum (Some (mkPrefetcher false))) (Ret v).
Proof.
  revert pre sum. induction n as [|n IH]; intros pre sum E; cbn [traverse_steps] in E;
    apply bind_Ret_inv in E as (value & Ei & E); apply bind_Ret_inv in E as (sum' & Ec & E).
  - cbn [finishes]. unfold poll, Traverse_poll. cbn. unfold traverse_body. cbn.
    rewrite Ei. runm. rewrite Ec. runm. injection E as ->. done.
  - assert (Ep : poll (mkTraverse l (S (S n)) pre sum (Some (mkPrefetcher false)))
               = (mkTraverse l (S n) value sum' (Some (mkPrefetcher false)), None)).
    { unfold poll at 1, Traverse_poll. cbn. unfold traverse_body. cbn. rewrite Ei. runm. rewrite Ec. runm.
      unfold traverse_head. cbn. apply bind_Ret_inv in E as (value' & -> & _). done. }
    cbn [finishes]. rewrite Ep. split; [done|]. by apply IH.
Qed.

Lemma traverse_finishes w v :
  traverse_steps (length (al_list w)) (al_list w) 0 0 = Ret v ->
  finishes (length (al_list w)) (traverse_one w) (Ret v).
Proof.
  unfold traverse_one. destruct (length (al_list w)) as [|n]; intros E.
  - injection E as <-. done.
  - cbn [finishes]. unfold poll, Traverse_poll, traverse_head. cbn -[index].
    pose proof E as E'. cbn [traverse_steps] in E'. apply bind_Ret_inv in E' as (value & Ei & _).
    rewrite Ei. split; [done|]. by apply waiting_finishes.
Qed.

Lemma spawn_in_ok {F} (done : list F) (t : F) n :
  spawn_in ((Some <$> done) ++ replicate (S n) None) t = Ret ((Some <$> (done ++ [t])) ++ replicate n None).
Proof.
  induction done as [|d done IH]; [done|]. rewrite !fmap_cons, <-!app_comm_cons. cbn [spawn_in].
  rewrite IH. by runm.
Qed.

Lemma spawn_all_ok {F O} `{Future F O} (tasks : list F) n :
  length tasks = n -> spawn_all tasks (Executor_new n) = Ret (mkExecutor (Some <$> tasks)).
Proof.
  intros <-.
  enough (Hd : forall done, spawn_all tasks (mkExecutor ((Some <$> done) ++ replicate (length tasks) None))
            = Ret (mkExecutor (Some <$> (done ++ tasks)))) by apply (Hd []). induction tasks as [|t tasks IH]; intros done; cbn [spawn_all length].
  - by rewrite app_nil_r, app_nil_r.
  - unfold spawn. cbn [task_queue]. rewrite (spawn_in_ok done). runm. rewrite IH. by rewrite <-app_assoc.
Qed.

(** ** The plain loops *)
Lemma traverse_steps_shift n l pre sum s :
  Forall (fits 64) l -> 0 <= sum -> traverse_steps n l pre sum = Ret s ->
  exists v, traverse_steps n l pre 0 = Ret v /\ 0 <= v /\ s = sum + v.
Proof.
  intros Hl. assert (Hgen : forall n pre sum s d, 0 <= d -> 0 <= sum -> traverse_steps n l pre (d + sum) = Ret s ->
    exists v, traverse_steps n l pre sum = Ret v /\ sum <= v /\ s = d + v).
  { clear n pre sum s. induction n as [|n IH]; intros pre sum s d Hd Hs E; cbn [traverse_steps] in *.
    - injection E as <-. exists sum. split; [done|]. lia.
    - apply bind_Ret_inv in E as (value & Ei & E). apply bind_Ret_inv in E as (sum' & Ec & E).
      rewrite Ei. runm. apply chk_Ret in Ec as [-> Hf]. apply index_Ret in Ei as [_ Ei].
      pose proof (Forall_lookup_1 _ _ _ _ Hl Ei) as Hv. rewrite chk_ok by (unfold fits in *; lia). runm.
      rewrite <-Z.add_assoc in E. unfold fits in Hv. destruct (IH value (sum + value) s d) as (v & -> & ? & ->); [lia|lia|done|].
      exists v. split; [done|]. lia. }
  intros Hs E. rewrite <-(Z.add_0_r sum) in E. destruct (Hgen n pre 0 s sum Hs (Z.le_refl 0) E) as (v & Ev & Hv & ->). eauto.
Qed.

Lemma traverse_steps_fits n l pre sum s : fits 64 sum -> traverse_steps n l pre sum = Ret s -> fits 64 s.
Proof.
  revert pre sum. induction n as [|n IH]; intros pre sum Hs E; cbn [traverse_steps] in E; [by injection E as <-|].
  apply bind_Ret_inv in E as (value & _ & E). apply bind_Ret_inv in E as (x & [-> Hx]%chk_Ret & E). by eapply IH.
Qed.

(** The plain sum is the sum of the traversals' sums, in the order in which the
    executor returns them. *)
Lemma simple_traverse_sums sum ws s :
  Forall (fun w => Forall (fits 64) (al_list w)) ws -> fits 64 sum -> simple_traverse_from sum ws = Ret s ->
  exists vs, length vs = length ws /\ sum_outputs sum (Ret <$> vs) = Ret s /\
    forall i w v, ws !! i = Some w -> vs !! i = Some v ->
      traverse_steps (length (al_list w)) (al_list w) 0 0 = Ret v.
Proof.
  intros Hws. revert sum. induction Hws as [|w ws Hw _ IH]; intros sum Hs E; cbn [simple_traverse_from] in E.
  { injection E as <-. exists []. by split. }
  apply bind_Ret_inv in E as (sum' & Et & E). pose proof (traverse_steps_fits _ _ _ _ _ Hs Et) as Hf.
  apply traverse_steps_shift in Et as (v & Ev & Hv & ->); [|done|unfold fits in Hs; lia].
  destruct (IH (sum + v) Hf E) as (vs & Hl & Eo & Hi). exists (v :: vs). split; [simpl; lia|].
  split; [cbn [fmap list_fmap sum_outputs]; runm; rewrite chk_ok by done; by runm|].
  intros [|i] w' v'; simpl; [by intros [= <-] [= <-]|by apply Hi].
Qed.

Lemma async_traverse_ok K fuel ws s :
  length ws = GROUP_SIZE -> Forall (fun w => Forall (fits 64) (al_list w) /\ (length (al_list w) <= K)%nat) ws ->
  ((K + 1) * GROUP_SIZE <= fuel)%nat -> simple_traverse ws = Ret s -> async_traverse fuel ws = Ret s.
Proof.
  intros Hlen Hws Hfuel E.
  destruct (simple_traverse_sums 0 ws s) as (vs & Hl & Eo & Hi); [eapply Forall_impl; [done|by intros ? []]|done|done|].
  unfold async_traverse.
  rewrite spawn_all_ok by (by rewrite length_fmap). runm.
  rewrite (run_ready_tasks_all (traverse_one <$> ws) ((fun w => length (al_list w)) <$> ws) (Ret <$> vs) K fuel).
  - by runm.
  - rewrite length_fmap, Hlen. unfold GROUP_SIZE. lia.
  - by rewrite !length_fmap.
  - by rewrite !length_fmap.
  - intros i f k o Ef Ek Eo'. apply list_lookup_fmap_Some in Ef as (w & -> & Ew), Ek as (w' & -> & Ew'), Eo' as (v & -> & Ev).
    rewrite Ew in Ew'. injection Ew' as <-. by eapply traverse_finishes, Hi.
  - apply Forall_fmap. eapply Forall_impl; [done|]. by intros ? [].
  - rewrite length_fmap, Hlen. done.
Qed.

(** ** Lists linked in a shuffled order *)

(** From cell [pre] the links lead through [values] to a cell that holds 0. *)
Fixpoint path (l : list Z) (pre : Z) (values : list Z) : Prop :=
  match values with
  | [] => l !! Z.to_nat pre = Some 0
  | e :: values => l !! Z.to_nat pre = Some e /\ path l e values
  end.

Lemma link_cells_ok (values : list Z) pre l :
  NoDup (pre :: values) -> (forall x, x ∈ pre :: values -> 0 <= x /\ l !! Z.to_nat x = Some 0) ->
  Forall (fits 64) values -> Forall (fits 64) l ->
  exists l', link_cells values pre l = Ret l' /\ length l' = length l /\ path l' pre values /\
    Forall (fits 64) l' /\ (forall i, (forall x, x ∈ pre :: values -> i <> Z.to_nat x) -> l' !! i = l !! i).
Proof.
  revert pre l. induction values as [|e values IH]; intros pre l Hnd Hz Hv Hl.
  { exists l. split; [done|]. split; [done|]. split; [by apply Hz; left|]. by split. }
  apply NoDup_cons in Hnd as [Hpre Hnd]. apply Forall_cons in Hv as [He Hv].
  destruct (Hz pre) as [Hp0 Hp]; [by left|]. pose proof (lookup_lt_Some _ _ _ Hp) as Hlt.
  cbn [link_cells]. unfold set_cell. rewrite (proj2 (index_Ret l pre 0)) by done. runm.
  assert (Hne : forall x, x ∈ e :: values -> Z.to_nat x <> Z.to_nat pre).
  { intros x Hx Ex. destruct (Hz x) as [? _]; [by right|]. by replace x with pre in Hx by lia. }
  destruct (IH e (<[Z.to_nat pre := e]> l)) as (l' & -> & Hl' & Hpath & Hf & Hsame).
  - done.
  - intros x Hx. split; [by apply Hz; right|]. rewrite list_lookup_insert_ne by (symmetry; by apply Hne).
    by apply Hz; right.
  - done.
  - by apply Forall_insert.
  - exists l'. split; [done|]. rewrite length_insert in Hl'. split; [done|]. split; [split; [|done]|split; [done|]].
    + rewrite Hsame by (intros x Hx; symmetry; by apply Hne). by apply list_lookup_insert_eq.
    + intros i Hi. rewrite Hsame by (intros x Hx; apply Hi; by right).
      apply list_lookup_insert_ne. intros Ei. by apply (Hi pre); [left|].
Qed.

Definition sum_of (l : list Z) : Z := foldr Z.add 0 l.

Lemma path_steps l pre (values : list Z) sum :
  0 <= pre -> path l pre values -> Forall (fits 64) values -> 0 <= sum -> sum + sum_of values < 2 ^ 64 ->
  traverse_steps (S (length values)) l pre sum = Ret (sum + sum_of values).
Proof.
  revert pre sum. induction values as [|e values IH]; intros pre sum Hp Hpath Hv Hs Hb; cbn [length traverse_steps path sum_of foldr] in *.
  - rewrite (proj2 (index_Ret l pre 0)) by done. runm. rewrite chk_ok by (unfold fits; lia). done.
  - destruct Hpath as [He Hpath]. apply Forall_cons in Hv as [Hfe Hv]. fold (sum_of values) in *.
    assert (Hnn : 0 <= sum_of values).
    { clear -Hv. induction Hv as [|x l Hx _ IH]; [done|]. unfold fits in Hx. cbn. fold (sum_of l). lia. }
    unfold fits in Hfe.
    rewrite (proj2 (index_Ret l pre e)) by done. runm. rewrite chk_ok by (unfold fits; lia). runm.
    rewrite IH by (done || lia). f_equal. lia.
Qed.

#[local] Instance sum_of_perm : Proper ((≡ₚ) ==> eq) sum_of.
Proof. intros l k. induction 1; simpl; lia. Qed.

Lemma sum_of_seqZ m : 2 * sum_of (seqZ 1 (Z.of_nat m)) = Z.of_nat m * (Z.of_nat m + 1).
Proof.
  induction m as [|m IH]; [done|]. replace (Z.of_nat (S m)) with (Z.of_nat m + 1) by lia.
  rewrite seqZ_app by lia. change (seqZ (1 + Z.of_nat m) 1) with [1 + Z.of_nat m].
  rewrite (Permutation_app_comm _ [_]). cbn [app sum_of foldr]. fold (sum_of (seqZ 1 (Z.of_nat m))). lia.
Qed.

(** The sum of the numbers below [n]. *)
Definition cells_sum (n : nat) : Z := (Z.of_nat n - 1) * Z.of_nat n / 2.

(** [ArrayList::new] with any shuffle: a cycle through all the cells. *)
Definition shuffle_of (n : nat) (values : list Z) : Prop := values ≡ₚ seqZ 1 (Z.of_nat n - 1).

Lemma ArrayList_new_ok n (values : list Z) :
  (0 < n)%nat -> Z.of_nat n <= 2 ^ 20 -> shuffle_of n values ->
  let g := cells_sum n in
  exists w, ArrayList_new n values = Ret w /\ length (al_list w) = n /\ Forall (fits 64) (al_list w) /\
    ground_truth_sum w = Ret g /\ 0 <= g < 2 ^ 40 /\
    forall sum, 0 <= sum -> sum + g < 2 ^ 64 -> traverse_steps n (al_list w) 0 sum = Ret (sum + g).
Proof.
  intros Hn Hb Hsh g. unfold shuffle_of in Hsh.
  assert (Hin : forall x, x ∈ values -> 1 <= x < Z.of_nat n).
  { intros x Hx. rewrite Hsh in Hx. apply elem_of_seqZ in Hx. lia. }
  assert (Hfv : Forall (fits 64) values).
  { apply Forall_forall. intros x Hx%Hin. unfold fits. lia. }
  destruct (link_cells_ok values 0 (replicate n 0)) as (l & El & Hl & Hpath & Hfl & _).
  - apply NoDup_cons. split; [intros H0%Hin; lia|]. rewrite Hsh. apply NoDup_seqZ.
  - intros x [->|Hx%Hin]%elem_of_cons; (split; [lia|]); apply lookup_replicate_2; lia.
  - done.
  - by apply Forall_replicate.
  - rewrite length_replicate in Hl.
    assert (Hlen : S (length values) = n).
    { rewrite Hsh, length_seqZ. lia. }
    assert (Hsum : 2 * sum_of values = (Z.of_nat n - 1) * Z.of_nat n).
    { rewrite Hsh. replace (Z.of_nat n - 1) with (Z.of_nat (n - 1)) by lia. rewrite sum_of_seqZ.
      replace (Z.of_nat (n - 1)) with (Z.of_nat n - 1) by lia. lia. }
    assert (Eg : g = sum_of values).
    { unfold g, cells_sum. rewrite <-Hsum, Z.mul_comm. by apply Z.div_mul. }
    rewrite Eg. exists (mkArrayList l). unfold ArrayList_new. rewrite chk_ok by (unfold fits; lia). runm.
    rewrite El. runm. cbn [al_list]. split; [done|]. split; [done|]. split; [done|]. split; [|split].
    + unfold ground_truth_sum. cbn [al_list]. rewrite Hl, chk_ok by (unfold fits; lia). runm.
      rewrite chk_ok by (unfold fits; nia). runm. by rewrite <-Eg.
    + assert ((Z.of_nat n - 1) * Z.of_nat n <= 2 ^ 20 * 2 ^ 20) by (apply Z.mul_le_mono_nonneg; lia).
      assert (0 <= (Z.of_nat n - 1) * Z.of_nat n) by (apply Z.mul_nonneg_nonneg; lia). lia.
    + intros sum Hs0 Hs. rewrite <-Hlen. by apply path_steps.
Qed.


(** Several such lists: the plain sum is the sum of the lists. *)
Lemma map_outcome_ok n shuffles :
  (0 < n)%nat -> Z.of_nat n <= 2 ^ 20 -> Forall (shuffle_of n) shuffles ->
  let g := cells_sum n in
  0 <= g < 2 ^ 40 /\
  exists ws, map_outcome (ArrayList_new n) shuffles = Ret ws /\ length ws = length shuffles /\
    Forall (fun w => Forall (fits 64) (al_list w) /\ (length (al_list w) <= n)%nat) ws /\
    Forall (fun w => ground_truth_sum w = Ret g) ws /\
    forall sum, 0 <= sum -> sum + Z.of_nat (length shuffles) * g < 2 ^ 64 ->
      simple_traverse_from sum ws = Ret (sum + Z.of_nat (length shuffles) * g) /\
      total sum ws = Ret (sum + Z.of_nat (length shuffles) * g).
Proof.
  intros Hn Hb Hs g.
  destruct (ArrayList_new_ok n (seqZ 1 (Z.of_nat n - 1)) Hn Hb) as (_ & _ & _ & _ & _ & Hg & _);
    [unfold shuffle_of; reflexivity|].
  split; [exact Hg|]. fold g in Hg.
  induction Hs as [|p shuffles Hp _ (ws & Ew & Hl & Hws & Hgt & Hsum)].
  { exists []. split; [done|]. split; [done|]. split; [done|]. split; [done|].
    intros sum _ _. cbn. by rewrite Z.add_0_r. }
  destruct (ArrayList_new_ok n p Hn Hb Hp) as (w & E & Hlw & Hf & Hgw & _ & Ht). fold g in Hgw, Ht.
  exists (w :: ws). cbn [map_outcome]. rewrite E. runm. rewrite Ew. runm. split; [done|].
  split; [simpl; lia|]. split; [constructor; [split; [done|lia]|done]|]. split; [by constructor|].
  intros sum H0 Hb'. cbn [length] in Hb' |- *.
  destruct (Hsum (sum + g)) as [E1 E2]; [lia..|]. cbn [simple_traverse_from total]. rewrite Hlw, Ht by lia. runm.
  rewrite Hgw. runm. rewrite chk_ok by (unfold fits; lia). runm. rewrite E1, E2.
  split; f_equal; lia.
Qed.

(** The tests and the benchmark pass with every shuffle: the plain loops give
    the sum of the cells, and so do the eight tasks the executor interleaves,
    within [(n + 1) * 8] polls. *)
Lemma simple_traverse_is_correct_passes shuffles :
  length shuffles = GROUP_SIZE -> Forall (shuffle_of 1024) shuffles ->
  simple_traverse_is_correct shuffles = Ret tt.
Proof.
  intros Hl Hs. destruct (map_outcome_ok 1024 shuffles ltac:(lia) ltac:(lia) Hs) as (Hg & ws & E & _ & _ & _ & Hsum).
  rewrite Hl in Hsum. unfold simple_traverse_is_correct. rewrite E. runm.
  destruct (Hsum 0) as [E1 E2]; [lia|unfold GROUP_SIZE; lia|]. rewrite E2. runm.
  unfold simple_traverse. rewrite E1. runm. by rewrite Z.eqb_refl.
Qed.

Lemma async_yield_same_as_simple_passes fuel shuffles :
  length shuffles = GROUP_SIZE -> Forall (shuffle_of 1024) shuffles -> ((1024 + 1) * GROUP_SIZE <= fuel)%nat ->
  async_yield_same_as_simple fuel shuffles = Ret tt.
Proof.
  intros Hl Hs Hf. destruct (map_outcome_ok 1024 shuffles ltac:(lia) ltac:(lia) Hs) as (Hg & ws & E & Hlw & Hw & _ & Hsum).
  rewrite Hl in Hsum. unfold async_yield_same_as_simple. rewrite E. runm.
  destruct (Hsum 0) as [E1 _]; [lia|unfold GROUP_SIZE; lia|]. unfold simple_traverse. rewrite E1. runm.
  erewrite (async_traverse_ok 1024 fuel ws) by (done || congruence). runm. by rewrite Z.eqb_refl.
Qed.

Lemma linked_list_bench_passes fuel shuffles :
  length shuffles = GROUP_SIZE -> Forall (shuffle_of (1024 * 1024)) shuffles ->
  ((1024 * 1024 + 1) * GROUP_SIZE <= fuel)%nat -> linked_list_bench fuel shuffles = Ret tt.
Proof.
  intros Hl Hs Hf. destruct (map_outcome_ok (1024 * 1024) shuffles ltac:(lia) ltac:(lia) Hs)
    as (Hg & ws & E & Hlw & Hw & Hgt & Hsum).
  rewrite Hl in Hsum. unfold linked_list_bench. cbv zeta. rewrite E. runm.
  destruct ws as [|w ws]; [by rewrite Hl in Hlw|]. change (index (w :: ws) 0) with (Ret w). runm.
  apply Forall_cons in Hgt as [-> _]. runm. rewrite chk_ok by (unfold fits, GROUP_SIZE; lia). runm.
  destruct (Hsum 0) as [E1 _]; [lia|unfold GROUP_SIZE; lia|].
  erewrite (async_traverse_ok (1024 * 1024) fuel (w :: ws)) by (done || congruence). runm.
  rewrite Z.add_0_l, Z.mul_comm, Z.eqb_refl. runm. unfold simple_traverse. rewrite E1. runm.
  by rewrite Z.add_0_l, Z.mul_comm, Z.eqb_refl.
Qed.

(** A task that yields [n] times and adds up [n] ones and its array. *)
Lemma yielding_finishes n sum (arr : list Z) a :
  0 <= sum -> 0 <= a -> sum_outputs 0 (Ret <$> arr) = Ret a -> sum + Z.of_nat (S n) + a < 2 ^ 64 ->
  finishes n (mkYielder (S n) sum (Some (mkSimple false)) arr) (Ret (sum + Z.of_nat (S n) + a)).
Proof.
  intros Hs Ha Earr. revert sum Hs. induction n as [|n IH]; intros sum Hs Hb.
  - cbn [finishes]. unfold poll, Yielder_poll. cbn -[chk Z.of_nat]. rewrite chk_ok by (unfold fits; lia). unfold yield_head.
    cbn -[chk Z.of_nat]. rewrite Earr. runm. rewrite chk_ok by (unfold fits; lia). cbn [snd]. do 2 f_equal.
  - assert (Ep : poll (mkYielder (S (S n)) sum (Some (mkSimple false)) arr)
               = (mkYielder (S n) (sum + 1) (Some (mkSimple false)) arr, None)).
    { unfold poll at 1, Yielder_poll. cbn -[chk]. by rewrite chk_ok by (unfold fits; lia). }
    cbn [finishes]. rewrite Ep. split; [done|]. cbn [fst].
    replace (sum + Z.of_nat (S (S n)) + a) with (sum + 1 + Z.of_nat (S n) + a) by lia. apply IH; lia.
Qed.

Lemma yield_finishes n (arr : list Z) a :
  0 <= a -> sum_outputs 0 (Ret <$> arr) = Ret a -> Z.of_nat n + a < 2 ^ 64 ->
  finishes n (mkYielder n 0 None arr) (Ret (Z.of_nat n + a)).
Proof.
  intros Ha Earr Hb. destruct n as [|n].
  - cbn [finishes]. unfold poll, Yielder_poll, yield_head. cbn -[chk]. rewrite Earr. runm.
    by rewrite chk_ok by (unfold fits; lia).
  - cbn [finishes]. split; [done|]. by apply (yielding_finishes n 0 arr a).
Qed.

Lemma switch_bench_ok fuel n (arr : list Z) a :
  0 <= a -> sum_outputs 0 (Ret <$> arr) = Ret a -> Z.of_nat n + a < 2 ^ 64 -> ((n + 1) * GROUP_SIZE <= fuel)%nat ->
  switch_bench fuel (mkYielder n 0 None arr) = Ret (replicate GROUP_SIZE (Ret (Z.of_nat n + a))).
Proof.
  intros Ha Earr Hb Hf. unfold switch_bench. rewrite spawn_all_ok by done. runm.
  rewrite (run_ready_tasks_all (replicate GROUP_SIZE _) (replicate GROUP_SIZE n)
             (replicate GROUP_SIZE (Ret (Z.of_nat n + a))) n fuel); [by runm|..].
  - rewrite length_replicate. unfold GROUP_SIZE. lia.
  - done.
  - done.
  - intros i f k o Ef Ek Eo. apply lookup_replicate in Ef as [-> _], Ek as [-> _], Eo as [-> _].
    by apply yield_finishes.
  - by apply Forall_replicate.
  - by rewrite length_replicate.
Qed.

(** Both tasks of [switch_bench] are done after 10001 rounds. *)
Lemma switch_bench_passes fuel :
  ((10000 + 1) * GROUP_SIZE <= fuel)%nat ->
  switch_bench fuel simple_yield = Ret (replicate GROUP_SIZE (Ret 10000)) /\
  switch_bench fuel stackful_yield = Ret (replicate GROUP_SIZE (Ret 11344)).
Proof.
  intros Hf. split.
  - exact (switch_bench_ok fuel 10000 [] 0 (Z.le_refl 0) eq_refl eq_refl Hf).
  - exact (switch_bench_ok fuel 10000 (replicate 32 42) 1344 ltac:(done) eq_refl eq_refl Hf).
Qed.

(** ** Property *)

(** C31: Eight tasks that traverse linked lists, however their suspensions are
    interleaved by the executor, give the sum of the plain loops over the same
    lists, within as many rounds as the longest list has cells and one more. *)
Theorem async_traverse_same_as_simple K fuel (workloads : list ArrayList) s :
  length workloads = GROUP_SIZE ->
  Forall (fun w => Forall (fits 64) (al_list w) /\ (length (al_list w) <= K)%nat) workloads ->
  ((K + 1) * GROUP_SIZE <= fuel)%nat -> simple_traverse workloads = Ret s ->
  async_traverse fuel workloads = Ret s.
Proof. apply async_traverse_ok. Qed.

(** Lists of different lengths, whose traversals end in different rounds. *)
Definition eight_lists : list ArrayList :=
  mkArrayList <$> [[1; 2; 0]; [0]; []; [3; 0; 1; 2]; [0]; [0; 0]; [1; 0]; []].

Lemma async_traverse_same_as_simple_witness :
  simple_traverse eight_lists = Ret 10 /\ async_traverse 40 eight_lists = Ret 10.
Proof.
  split; [reflexivity|]. apply (async_traverse_same_as_simple 4 40 eight_lists 10).
  - reflexivity.
  - repeat constructor; simpl; lia || discriminate.
  - unfold GROUP_SIZE. lia.
  - reflexivity.
Defined.
