(* ===== verification/Logger.v ===== *)
(** * The log buffers (src/log/mod.rs)

    Two buffers of [buffer_size] bytes, filled in turn at a shared offset; a
    dedicated thread writes a buffer to the file once it is full.  The log file
    is the bytes written so far; the results of [write] and [fsync] are the
    system's. *)

From S2P Require Import Prelude.

Definition DEFAULT_BUFFER_SIZE : Z := 1024 * 1024 * 64.
Definition MAX_LOG_LEN : Z := 512.
Definition MIN_BUFF_ALIGN : Z := 512.

Record Logger := mkLogger {
  lg_lsn : Z;
  lg_cur_offset : Z;
  lg_flushed_offset : Z;
  lg_buffer_size : Z;
  lg_should_stop : bool;
  lg_buffers : list obj;
  lg_file : obj;
}.

(** The allocated buffers are uninitialised: [b0] and [b1] are their bytes.  The
    log file is new. *)
Definition Logger_with_buffer_size (buffer_size : Z) (b0 b1 : obj) : outcome Logger :=
  _ ← layout_ok buffer_size MAX_LOG_LEN;
  Ret (mkLogger 0 0 0 buffer_size false [b0; b1] []).

Definition Logger_new (b0 b1 : obj) : outcome Logger := Logger_with_buffer_size DEFAULT_BUFFER_SIZE b0 b1.

(** [fetch_add] wraps; the previous value is the sequence number. *)
Definition acquire_lsn (lg : Logger) : Z * Logger :=
  (lg_lsn lg,
   mkLogger (wrap 64 (lg_lsn lg + 1)) (lg_cur_offset lg) (lg_flushed_offset lg) (lg_buffer_size lg)
     (lg_should_stop lg) (lg_buffers lg) (lg_file lg)).

Definition set_offsets (lg : Logger) (cur flushed : Z) : Logger :=
  mkLogger (lg_lsn lg) cur flushed (lg_buffer_size lg) (lg_should_stop lg) (lg_buffers lg) (lg_file lg).

Definition set_buffers (lg : Logger) (bs : list obj) (file : obj) : Logger :=
  mkLogger (lg_lsn lg) (lg_cur_offset lg) (lg_flushed_offset lg) (lg_buffer_size lg)
    (lg_should_stop lg) bs file.

(** [written] is how many bytes [write] accepts ([None]: it fails, which is only
    reported), [synced] whether [fsync] succeeds. *)
Definition flush_buffer (buffer_id : Z) (written : option nat) (synced : bool) (lg : Logger)
    : outcome Logger :=
  b ← index (lg_buffers lg) buffer_id;
  let lg := set_buffers lg (lg_buffers lg) (lg_file lg ++ take (default 0%nat written) b) in
  _ ← rassert synced;
  Ret lg.

Definition try_flush_logs (written : option nat) (synced : bool) (lg : Logger)
    : outcome (result Z Z * Logger) :=
  let cur_offset := lg_cur_offset lg in
  let flushed := lg_flushed_offset lg in
  distance ← chk 64 (cur_offset - flushed);
  if distance <? lg_buffer_size lg then Ret (Err cur_offset, lg)
  else
    limit ← chk 64 (lg_buffer_size lg * Z.of_nat (length (lg_buffers lg)));
    _ ← rassert (distance <? limit);
    _ ← rassert (negb (lg_buffer_size lg =? 0));
    let buffer_id := (flushed / lg_buffer_size lg) mod Z.of_nat (length (lg_buffers lg)) in
    lg ← flush_buffer buffer_id written synced lg;
    let flushed := lg_flushed_offset lg in
    Ret (Ok flushed, set_offsets lg (lg_cur_offset lg) (wrap 64 (flushed + lg_buffer_size lg))).

(** The slice [acquire_log_buffer] returns: a buffer and an offset in it.  It is
    built without a bounds check. *)
Definition acquire_log_buffer (size : Z) (lg : Logger) : outcome (Z * Z * Logger) :=
  _ ← rassert (size <=? MAX_LOG_LEN);
  let loc := lg_cur_offset lg in
  let lg := set_offsets lg (wrap 64 (loc + size)) (lg_flushed_offset lg) in
  _ ← rassert (negb (lg_buffer_size lg =? 0));
  let offset := loc mod lg_buffer_size lg in
  let buffer_id := (loc / lg_buffer_size lg) mod Z.of_nat (length (lg_buffers lg)) in
  b ← index (lg_buffers lg) buffer_id;
  _ ← in_bounds (offset + size <=? Z.of_nat (length b));
  Ret (buffer_id, offset, lg).

Definition append_log (val : obj) (lg : Logger) : outcome Logger :=
  '(buffer_id, offset, lg) ← acquire_log_buffer (Z.of_nat (length val)) lg;
  b ← index (lg_buffers lg) buffer_id;
  b ← raw_write b offset val;
  Ret (set_buffers lg (<[Z.to_nat buffer_id := b]> (lg_buffers lg)) (lg_file lg)).

Definition stop_logger (lg : Logger) : Logger :=
  mkLogger (lg_lsn lg) (lg_cur_offset lg) (lg_flushed_offset lg) (lg_buffer_size lg) true
    (lg_buffers lg) (lg_file lg).

(** ** The back-off of the flushing thread (src/utils/backoff.rs)

    A step counter; spinning itself has no effect. *)
Definition SPIN_LIMIT : Z := 6.
Definition YIELD_LIMIT : Z := 10.

Definition Backoff_new : Z := 0.

Definition Backoff_reset (step : Z) : Z := 0.

(** The number of [spin_loop] hints, and the next step. *)
Definition Backoff_spin (step : Z) : Z * Z :=
  (Z.shiftl 1 (Z.min step SPIN_LIMIT), if step <=? SPIN_LIMIT then step + 1 else step).

(** [None] is a yield to the scheduler. *)
Definition Backoff_snooze (step : Z) : option Z * Z :=
  (if step <=? SPIN_LIMIT then Some (Z.shiftl 1 step) else None,
   if step <=? YIELD_LIMIT then step + 1 else step).

Definition Backoff_is_completed (step : Z) : bool := step >? YIELD_LIMIT.

(** One round of the flushing thread: nothing more when asked to stop. *)
Definition logger_thread_round (written : option nat) (synced : bool) (step : Z) (lg : Logger)
    : outcome (option Z * Logger) :=
  if lg_should_stop lg then Ret (None, lg)
  else
    '(r, lg) ← try_flush_logs written synced lg;
    Ret (Some (match r with Err _ => snd (Backoff_spin step) | Ok _ => Backoff_reset step end), lg).

(** ** Properties *)

(** The back-off stays within its limits, and each spin is at most 64 hints. *)
Lemma Backoff_bounded step :
  0 <= step <= 11 ->
  1 <= fst (Backoff_spin step) <= 64 /\ 0 <= snd (Backoff_spin step) <= 11 /\
  0 <= snd (Backoff_snooze step) <= 11.
Proof.
  intros Hs. unfold Backoff_spin, Backoff_snooze, SPIN_LIMIT, YIELD_LIMIT. simpl.
  rewrite Z.shiftl_mul_pow2, Z.mul_1_l by lia.
  assert (2 ^ 0 <= 2 ^ Z.min step 6 <= 2 ^ 6) by (split; apply Z.pow_le_mono_r; lia).
  change (2 ^ 6) with 64 in *. change (2 ^ 0) with 1 in *.
  destruct (Z.leb_spec step 6), (Z.leb_spec step 10); lia.
Qed.

(** The log so far is [log]: the file holds its flushed part, the buffers the
    rest, and the next entry fits behind it. *)
Definition byte_at (lg : Logger) (x : Z) : option Z :=
  b ← lg_buffers lg !! Z.to_nat ((x / lg_buffer_size lg) mod 2);
  b !! Z.to_nat (x mod lg_buffer_size lg).

Definition log_inv (lg : Logger) (log : obj) : Prop :=
  let B := lg_buffer_size lg in
  0 < B /\ length (lg_buffers lg) = 2%nat /\
  Forall (fun b => Z.of_nat (length b) = B) (lg_buffers lg) /\
  lg_cur_offset lg = Z.of_nat (length log) /\ lg_flushed_offset lg mod B = 0 /\
  0 <= lg_flushed_offset lg <= lg_cur_offset lg /\
  lg_cur_offset lg - lg_flushed_offset lg < 2 * B /\
  lg_file lg = take (Z.to_nat (lg_flushed_offset lg)) log /\
  forall x, lg_flushed_offset lg <= x < lg_cur_offset lg -> byte_at lg x = log !! Z.to_nat x.

Lemma new_log_inv B b0 b1 :
  0 < B -> Z.of_nat (length b0) = B -> Z.of_nat (length b1) = B ->
  log_inv (mkLogger 0 0 0 B false [b0; b1] []) [].
Proof. intros. split_and!; simpl; try done; try lia. by repeat constructor. Qed.

(** Two log positions less than two buffers apart share no byte of a buffer. *)
Lemma same_place B x y :
  0 < B -> (x / B) mod 2 = (y / B) mod 2 -> x mod B = y mod B -> - (2 * B) < x - y < 2 * B -> x = y.
Proof.
  intros HB Hd Hm Hxy. pose proof (Z.div_mod x B ltac:(lia)) as Ex. pose proof (Z.div_mod y B ltac:(lia)) as Ey.
  assert (x / B = y / B) as Eq; [|rewrite Ex, Ey, Eq, Hm; done].
  assert (- 2 < x / B - y / B < 2) by nia. Z.div_mod_to_equations. lia.
Qed.

(** Entries of a size that divides the buffer never cross its end. *)
Lemma divides_fits a s B :
  0 < s -> 0 <= a < B -> a mod s = 0 -> B mod s = 0 -> a + s <= B.
Proof.
  intros Hs Ha Ea EB. apply Z.mod_divide in Ea as [q ->]; [|lia]. apply Z.mod_divide in EB as [r ->]; [|lia].
  assert (q < r) by (apply Z.mul_lt_mono_pos_r with s; lia).
  assert ((q + 1) * s <= r * s) by (apply Z.mul_le_mono_nonneg_r; lia). lia.
Qed.

Lemma mod_of_multiple x s B : 0 < s -> 0 < B -> x mod s = 0 -> B mod s = 0 -> (x mod B) mod s = 0.
Proof.
  intros Hs HB [q ->]%Z.mod_divide [r ->]%Z.mod_divide; [|lia..]. rewrite (Z.mod_eq (q * s) (r * s)) by lia.
  replace (q * s - r * s * (q * s / (r * s))) with ((q - r * (q * s / (r * s))) * s) by ring.
  apply Z.mod_mul. lia.
Qed.

(** Where a byte of the current entry goes, and that it hits no byte still to
    be flushed. *)
Lemma offset_split B c d :
  0 < B -> 0 <= d -> c mod B + d < B -> (c + d) / B = c / B /\ (c + d) mod B = c mod B + d.
Proof.
  intros HB Hd Hlt. pose proof (Z.mod_pos_bound c B HB). pose proof (Z.div_mod c B ltac:(lia)) as E.
  assert (Hq : (c + d) / B = c / B) by (symmetry; apply Z.div_unique with (c mod B + d); lia).
  split; [done|]. rewrite Z.mod_eq, Hq by lia. lia.
Qed.

Lemma unflushed_apart B c s x :
  0 < B -> 0 <= s -> c mod B + s <= B -> x < c -> c + s < x + 2 * B ->
  (x / B) mod 2 <> (c / B) mod 2 \/ x mod B < c mod B \/ c mod B + s <= x mod B.
Proof.
  intros HB Hs Hc Hx1 Hx2. pose proof (Z.mod_pos_bound c B HB). pose proof (Z.mod_pos_bound x B HB).
  pose proof (Z.div_mod c B ltac:(lia)). pose proof (Z.div_mod x B ltac:(lia)).
  destruct (decide ((x / B) mod 2 = (c / B) mod 2)) as [E|]; [right|by left].
  set (q := c / B) in *. set (p := x / B) in *.
  assert (p = q \/ p = q - 2) as [->| ->]; [|left|right]; [|lia|lia].
  assert (q - 2 <= p <= q) by nia. Z.div_mod_to_equations. lia.
Qed.

(** *** Appending *)

(** The byte at log position [x] after a write of [val] at position [c]. *)
Lemma byte_at_write lg b val c x :
  let B := lg_buffer_size lg in let k := Z.to_nat ((c / B) mod 2) in
  0 < B -> 0 <= c -> 0 <= x -> lg_buffers lg !! k = Some b -> Z.of_nat (length b) = B ->
  c mod B + Z.of_nat (length val) <= B ->
  forall cur fl file,
  byte_at (set_buffers (set_offsets lg cur fl) (<[k := store b (Z.to_nat (c mod B)) val]> (lg_buffers lg)) file) x =
  if decide ((x / B) mod 2 = (c / B) mod 2 /\ c mod B <= x mod B < c mod B + Z.of_nat (length val))
  then val !! Z.to_nat (x mod B - c mod B) else byte_at lg x.
Proof.
  intros B k HB Hc Hx Hb Hlen Hfit cur fl file. unfold byte_at. cbn [lg_buffers lg_buffer_size set_buffers set_offsets].
  fold B. pose proof (Z.mod_pos_bound c B HB). pose proof (Z.mod_pos_bound x B HB).
  pose proof (Z.mod_pos_bound (x / B) 2 ltac:(lia)). pose proof (Z.mod_pos_bound (c / B) 2 ltac:(lia)).
  destruct (decide ((x / B) mod 2 = (c / B) mod 2)) as [E|E].
  - rewrite E. fold k. rewrite list_lookup_insert_eq by (by eapply lookup_lt_Some). cbn [mbind option_bind].
    rewrite lookup_store, Hb. cbn [mbind option_bind].
    destruct (decide (c mod B <= x mod B < c mod B + Z.of_nat (length val))) as [Hin|Hout].
    + rewrite !decide_True by lia. f_equal. lia.
    + rewrite !decide_False by lia. done.
  - rewrite list_lookup_insert_ne by (unfold k; lia). rewrite decide_False by tauto. done.
Qed.

Definition log_shape (lg : Logger) : Prop :=
  0 < lg_buffer_size lg /\ length (lg_buffers lg) = 2%nat /\
  Forall (fun b => Z.of_nat (length b) = lg_buffer_size lg) (lg_buffers lg).

Lemma log_inv_shape lg log : log_inv lg log -> log_shape lg.
Proof. intros (? & ? & ? & _). done. Qed.

Lemma buffer_at lg c :
  log_shape lg -> 0 <= c ->
  exists b, lg_buffers lg !! Z.to_nat ((c / lg_buffer_size lg) mod 2) = Some b /\
    index (lg_buffers lg) ((c / lg_buffer_size lg) mod 2) = Ret b /\
    Z.of_nat (length b) = lg_buffer_size lg.
Proof.
  intros (HB & H2 & Hall) Hc. pose proof (Z.mod_pos_bound (c / lg_buffer_size lg) 2 ltac:(lia)).
  destruct (lookup_lt_is_Some_2 (lg_buffers lg) (Z.to_nat ((c / lg_buffer_size lg) mod 2))) as [b Hb]; [lia|].
  exists b. split; [done|]. split; [|by eapply Forall_lookup_1 in Hall].
  apply index_Ret. split; [lia|done].
Qed.

Lemma acquire_ok lg s :
  log_shape lg -> 0 <= lg_cur_offset lg -> 0 <= s <= MAX_LOG_LEN -> lg_cur_offset lg mod lg_buffer_size lg + s <= lg_buffer_size lg ->
  lg_cur_offset lg + s < 2 ^ 64 ->
  acquire_log_buffer s lg =
    Ret ((lg_cur_offset lg / lg_buffer_size lg) mod 2, lg_cur_offset lg mod lg_buffer_size lg,
         set_offsets lg (lg_cur_offset lg + s) (lg_flushed_offset lg)).
Proof.
  intros I Hcur Hs Hfit H64. destruct (buffer_at lg (lg_cur_offset lg) I Hcur) as (b & _ & Hb & Hlen).
  destruct I as (HB & H2 & _). unfold acquire_log_buffer.
  rewrite (proj2 (Z.leb_le s MAX_LOG_LEN)) by lia. cbn [rassert mbind outcome_bind].
  cbn [lg_buffer_size lg_buffers set_offsets]. rewrite (proj2 (Z.eqb_neq _ 0)) by lia. cbn [negb rassert mbind outcome_bind].
  rewrite H2. change (Z.of_nat 2) with 2. rewrite Hb. cbn [mbind outcome_bind].
  rewrite (proj2 (Z.leb_le _ (Z.of_nat (length b)))) by lia. cbn.
  rewrite wrap_small by (unfold fits; lia). done.
Qed.

(** An entry that fits in the current buffer, and does not overtake the flushed
    part by two buffers, is appended to the log and changes nothing else. *)
Lemma append_log_ok lg log val :
  log_inv lg log -> Z.of_nat (length val) <= MAX_LOG_LEN ->
  lg_cur_offset lg mod lg_buffer_size lg + Z.of_nat (length val) <= lg_buffer_size lg ->
  lg_cur_offset lg + Z.of_nat (length val) < 2 ^ 64 ->
  lg_cur_offset lg + Z.of_nat (length val) < lg_flushed_offset lg + 2 * lg_buffer_size lg ->
  exists lg', append_log val lg = Ret lg' /\ log_inv lg' (log ++ val) /\
    lg_buffer_size lg' = lg_buffer_size lg /\ lg_flushed_offset lg' = lg_flushed_offset lg.
Proof.
  intros I Hs Hfit H64 Hpace. pose proof I as (HB & H2 & Hall & Hcur & Hfm & Hfl & Hd & Hfile & Hbytes).
  set (c := lg_cur_offset lg) in *. set (B := lg_buffer_size lg) in *.
  destruct (buffer_at lg c (log_inv_shape _ _ I)) as (b & Hb & Hib & Hlen); [lia|]. fold B in Hb, Hib, Hlen.
  pose proof (Z.mod_pos_bound c B HB). eexists. split.
  { unfold append_log. rewrite (acquire_ok lg) by (done || lia). fold c B. cbn [mbind outcome_bind lg_buffers set_offsets].
    rewrite Hib. cbn [mbind outcome_bind]. rewrite raw_write_ok by lia. done. }
  split; [|done]. split; [done|]. split; [cbn; by rewrite length_insert|]. split.
  { cbn. apply Forall_insert; [done|]. by rewrite length_store. }
  cbn [set_buffers set_offsets lg_cur_offset lg_flushed_offset lg_buffer_size lg_file]. fold B.
  split; [rewrite length_app; lia|]. split; [done|]. split; [lia|]. split; [lia|].
  split. { rewrite Hfile, take_app_le by lia. done. }
  intros x Hx. cbn [lg_file]. rewrite (byte_at_write lg b val c x) by (done || lia). fold B.
  destruct (decide (x < c)) as [Hxc|Hxc].
  - rewrite decide_False; [rewrite lookup_app_l by lia; apply Hbytes; lia|]. intros [E1 E2].
    destruct (unflushed_apart B c (Z.of_nat (length val)) x); [done|lia|done|lia|lia|contradiction|lia].
  - destruct (offset_split B c (x - c)) as [Ed Em]; [done|lia|lia|]. replace (c + (x - c)) with x in * by lia.
    rewrite Ed, Em, decide_True by (split; [done|lia]). rewrite lookup_app_r by lia. f_equal. lia.
Qed.

(** *** Flushing *)

(** A full buffer holds the next [B] bytes of the log. *)
Lemma full_buffer lg log b :
  log_inv lg log -> lg_buffer_size lg <= lg_cur_offset lg - lg_flushed_offset lg ->
  lg_buffers lg !! Z.to_nat ((lg_flushed_offset lg / lg_buffer_size lg) mod 2) = Some b ->
  b = load log (Z.to_nat (lg_flushed_offset lg)) (Z.to_nat (lg_buffer_size lg)).
Proof.
  intros I Hfull Hb. pose proof I as (HB & _ & Hall & _ & Hfm & Hfl & _ & _ & Hbytes).
  pose proof (Forall_lookup_1 _ _ _ _ Hall Hb) as Hlen. cbn in Hlen.
  apply list_eq. intros i. rewrite lookup_load. case_decide; [|by rewrite lookup_ge_None_2 by lia].
  set (B := lg_buffer_size lg) in *. set (f := lg_flushed_offset lg) in *.
  specialize (Hbytes (f + Z.of_nat i) ltac:(lia)). unfold byte_at in Hbytes. fold B in Hbytes.
  destruct (offset_split B f (Z.of_nat i)) as [Ed Em]; [done|lia|lia|]. rewrite Ed, Em, Hfm, Hb in Hbytes.
  cbn [mbind option_bind] in Hbytes. rewrite Z.add_0_l, Nat2Z.id in Hbytes. rewrite Hbytes. f_equal. lia.
Qed.

(** With a buffer full, the flush writes it out; otherwise it changes nothing. *)
Lemma flush_ok lg log :
  log_inv lg log -> lg_cur_offset lg < 2 ^ 64 -> 2 * lg_buffer_size lg < 2 ^ 64 ->
  exists r lg', try_flush_logs (Some (Z.to_nat (lg_buffer_size lg))) true lg = Ret (r, lg') /\
    log_inv lg' log /\ lg_buffer_size lg' = lg_buffer_size lg /\
    match r with
    | Err c => c = lg_cur_offset lg /\ lg' = lg /\ c - lg_flushed_offset lg < lg_buffer_size lg
    | Ok f => f = lg_flushed_offset lg /\ lg_flushed_offset lg' = f + lg_buffer_size lg /\
        lg_buffer_size lg <= lg_cur_offset lg - f
    end.
Proof.
  intros I H64 H64B. pose proof I as (HB & H2 & Hall & Hcur & Hfm & Hfl & Hd & Hfile & Hbytes).
  destruct (buffer_at lg (lg_flushed_offset lg) (log_inv_shape _ _ I)) as (b & Hb & Hib & Hlen); [lia|].
  unfold try_flush_logs. rewrite (chk_ok 64 (lg_cur_offset lg - lg_flushed_offset lg)) by (unfold fits; lia). cbn [mbind outcome_bind].
  destruct (Z.ltb_spec (lg_cur_offset lg - lg_flushed_offset lg) (lg_buffer_size lg)) as [Hlt|Hge].
  { eexists _, _. split; [reflexivity|]. split; [done|]. split; [done|]. by split; [|split]. }
  rewrite H2, chk_ok by (unfold fits; lia). cbn [mbind outcome_bind].
  rewrite (proj2 (Z.ltb_lt _ _)), (proj2 (Z.eqb_neq _ 0)) by lia. cbn [mbind outcome_bind rassert negb].
  change (Z.of_nat 2) with 2. unfold flush_buffer. rewrite Hib. cbn [mbind outcome_bind rassert default].
  eexists _, _. split; [done|]. cbn [set_offsets set_buffers lg_flushed_offset lg_buffer_size lg_cur_offset].
  rewrite wrap_small by (unfold fits; lia). split; [|split; [done|lia]].
  pose proof (full_buffer lg log b I Hge Hb) as Eb.
  split; [done|]. split; [done|]. split; [done|]. split; [done|]. cbn [set_offsets set_buffers lg_flushed_offset lg_buffer_size lg_cur_offset lg_file].
  split. { rewrite <-Zplus_mod_idemp_l, Hfm, Z.add_0_l. apply Z.mod_same. lia. }
  split; [lia|]. split; [lia|]. split.
  - rewrite Hfile, Eb, take_load, Nat.min_id. unfold load. rewrite take_take_drop. f_equal. lia.
  - intros x Hx. apply Hbytes. lia.
Qed.

(** *** Any schedule of appends and flushes

    [paced] is the assumption in the assertion of [try_flush_logs]: the buffers
    do not fill faster than they are flushed.  It is computed on the two
    offsets only. *)
Inductive log_op := Append (val : obj) | Flush.

Definition log_step (op : log_op) (lg : Logger) : outcome Logger :=
  match op with
  | Append val => append_log val lg
  | Flush => '(_, lg) ← try_flush_logs (Some (Z.to_nat (lg_buffer_size lg))) true lg; Ret lg
  end.

Fixpoint log_run (ops : list log_op) (lg : Logger) : outcome Logger :=
  match ops with
  | [] => Ret lg
  | op :: ops => lg ← log_step op lg; log_run ops lg
  end.

Definition op_bytes (op : log_op) : obj := match op with Append val => val | Flush => [] end.

Fixpoint paced (B s c f : Z) (ops : list log_op) : bool :=
  match ops with
  | [] => true
  | Append val :: ops =>
      (Z.of_nat (length val) =? s) && (c + s <? f + 2 * B) && (c + s <? 2 ^ 64) && paced B s (c + s) f ops
  | Flush :: ops => paced B s c (if c - f <? B then f else f + B) ops
  end.

Lemma log_run_ok s ops lg log :
  log_inv lg log -> 0 < s <= MAX_LOG_LEN -> lg_buffer_size lg mod s = 0 -> lg_cur_offset lg mod s = 0 ->
  lg_cur_offset lg < 2 ^ 64 -> 2 * lg_buffer_size lg < 2 ^ 64 ->
  paced (lg_buffer_size lg) s (lg_cur_offset lg) (lg_flushed_offset lg) ops = true ->
  exists lg', log_run ops lg = Ret lg' /\ log_inv lg' (log ++ concat (map op_bytes ops)) /\
    lg_buffer_size lg' = lg_buffer_size lg.
Proof.
  revert lg log. induction ops as [|[val|] ops IH]; intros lg log I Hs HBs Hcs H64 H2B; cbn [paced log_run log_step].
  - intros _. exists lg. rewrite app_nil_r. done.
  - rewrite !andb_true_iff, Z.eqb_eq, !Z.ltb_lt. intros [[[Hlen Hp] Hc] Hrest]. pose proof I as (HB & _ & _ & Hcur & _).
    pose proof (Z.mod_pos_bound (lg_cur_offset lg) _ HB).
    assert (Hfit : lg_cur_offset lg mod lg_buffer_size lg + s <= lg_buffer_size lg)
      by (apply divides_fits; [lia|lia|apply mod_of_multiple; lia|done]).
    destruct (append_log_ok lg log val I) as (lg1 & -> & I1 & EB & Ef); [lia..|]. cbn [mbind outcome_bind].
    assert (Ec : lg_cur_offset lg1 = lg_cur_offset lg + s)
      by (destruct I1 as (_ & _ & _ & -> & _); rewrite length_app; lia).
    destruct (IH lg1 _ I1) as (lg2 & -> & I2 & E2); rewrite ?EB, ?Ef, ?Ec; try done.
    { rewrite <-Zplus_mod_idemp_l, Hcs. apply Z.mod_same. lia. }
    exists lg2. split; [done|]. split; [|congruence]. cbn. by rewrite app_assoc.
  - intros Hrest. destruct (flush_ok lg log I H64 H2B) as (r & lg1 & -> & I1 & EB & Hr). cbn [mbind outcome_bind].
    assert (Ec : lg_cur_offset lg1 = lg_cur_offset lg) by
      (destruct I as (_ & _ & _ & -> & _), I1 as (_ & _ & _ & -> & _); done).
    destruct (IH lg1 _ I1) as (lg2 & -> & I2 & E2); rewrite ?EB, ?Ec; try done.
    + destruct (Z.ltb_spec (lg_cur_offset lg - lg_flushed_offset lg) (lg_buffer_size lg)); destruct r;
        destruct Hr as (? & ? & ?); subst; try lia; [congruence..].
    + exists lg2. split; [done|]. split; [done|congruence].
Qed.

(** For entries of one size that divides the buffer size (at most
    [MAX_LOG_LEN]), every schedule of appends and flushes in which the flushing
    keeps up runs without a failure, and afterwards the file holds exactly the
    first [flushed_offset] bytes of all entries in the order they were appended,
    and fewer than two buffers of entries are not in the file. *)
Theorem log_flushed_in_order B s b0 b1 ops :
  0 < s <= MAX_LOG_LEN -> 0 < B < 2 ^ 62 -> B mod s = 0 ->
  Z.of_nat (length b0) = B -> Z.of_nat (length b1) = B ->
  paced B s 0 0 ops = true ->
  let log := concat (map op_bytes ops) in
  exists lg, (lg ← Logger_with_buffer_size B b0 b1; log_run ops lg) = Ret lg /\
    lg_file lg = take (Z.to_nat (lg_flushed_offset lg)) log /\
    lg_flushed_offset lg mod B = 0 /\ 0 <= lg_flushed_offset lg <= Z.of_nat (length log) /\
    Z.of_nat (length log) - lg_flushed_offset lg < 2 * B.
Proof.
  intros Hs HB HBs H0 H1 Hp log. unfold Logger_with_buffer_size, layout_ok, MAX_LOG_LEN.
  rewrite (proj2 (Z.leb_le _ _)) by lia. runm.
  destruct (log_run_ok s ops (mkLogger 0 0 0 B false [b0; b1] [])) with (log := @nil Z) as (lg & E & I & EB);
    try done; try (cbn; lia).
  { apply new_log_inv; [lia|done|done]. }
  destruct I as (_ & _ & _ & Hcur & Hfm & Hfl & Hd & Hfile & _). cbn in EB. rewrite EB in *.
  rewrite app_nil_l in *. fold log in Hfile, Hcur. exists lg. rewrite <-Hcur. done.
Qed.

Lemma log_flushed_in_order_witness :
  exists lg, (lg ← Logger_with_buffer_size 4 [0; 0; 0; 0] [0; 0; 0; 0];
    log_run (map Append [[1; 2]; [3; 4]; [5; 6]] ++ [Flush; Flush; Append [7; 8]; Flush]) lg) = Ret lg /\ lg_file lg = [1; 2; 3; 4; 5; 6; 7; 8].
Proof.
  pose proof (log_flushed_in_order 4 2 [0; 0; 0; 0] [0; 0; 0; 0]
    (map Append [[1; 2]; [3; 4]; [5; 6]] ++ [Flush; Flush; Append [7; 8]; Flush])
    ltac:(unfold MAX_LOG_LEN; lia) ltac:(lia) eq_refl eq_refl eq_refl eq_refl) as (lg & E & Hf & _).
  exists lg. split; [exact E|]. rewrite Hf. vm_compute in E. injection E as <-. reflexivity.
Defined.

(** When the entry sizes do not divide the buffer size, an entry can start less
    than its length before the end of a buffer: the slice handed out then
    reaches past the allocation. *)
Theorem log_buffer_overflow lg log val :
  log_inv lg log -> Z.of_nat (length val) <= MAX_LOG_LEN ->
  lg_buffer_size lg < lg_cur_offset lg mod lg_buffer_size lg + Z.of_nat (length val) ->
  append_log val lg = Undef.
Proof.
  intros I Hs Hover. destruct (buffer_at lg (lg_cur_offset lg) (log_inv_shape _ _ I)) as (b & _ & Hb & Hlen).
  { destruct I as (_ & _ & _ & -> & _). lia. }
  destruct I as (HB & H2 & _). unfold append_log, acquire_log_buffer.
  rewrite (proj2 (Z.leb_le _ MAX_LOG_LEN)) by lia. cbn [rassert mbind outcome_bind].
  cbn [lg_buffer_size lg_buffers set_offsets]. rewrite (proj2 (Z.eqb_neq _ 0)) by lia. cbn [negb rassert mbind outcome_bind].
  rewrite H2. change (Z.of_nat 2) with 2. rewrite Hb. cbn [mbind outcome_bind].
  rewrite (proj2 (Z.leb_gt _ _)) by lia. done.
Qed.

Lemma log_buffer_overflow_witness :
  exists lg, (lg ← Logger_with_buffer_size 4 [0; 0; 0; 0] [0; 0; 0; 0]; append_log [1; 2; 3] lg) = Ret lg /\
    append_log [4; 5; 6] lg = Undef.
Proof.
  destruct (append_log_ok (mkLogger 0 0 0 4 false [[0; 0; 0; 0]; [0; 0; 0; 0]] []) [] [1; 2; 3]) as (lg & E & I & EB & _);
    [apply new_log_inv; reflexivity|vm_compute; congruence..|].
  exists lg. split; [exact E|]. apply (log_buffer_overflow lg _ [4; 5; 6] I); vm_compute in E; injection E as <-; vm_compute; congruence.
Defined.
