(* ===== verification/LogMachine.v ===== *)
(** * The log with copies in flight (src/log/mod.rs)

    [append_log] reserves its part of a buffer with one [fetch_add] and then
    copies into it, while the flushing thread writes buffers to the file.  Here
    the copies and the write proceed byte by byte and interleave in any order.
    The comment on [Logger] names the missing synchronisation: the flush does
    not wait for the copies into the buffer it writes.  The invariant below
    says what a flush that did wait would guarantee, and an example what may
    happen otherwise. *)

From stdpp Require Import sorting.
From S2P Require Import Prelude Logger.

(** ** The machine *)

(** A [copy_from_slice] of [cp_val] to a buffer, [cp_done] bytes of it done;
    [cp_loc] is the log offset [acquire_log_buffer] reserved. *)
Record copying := mkCopy { cp_id : Z; cp_off : Z; cp_val : obj; cp_done : nat; cp_loc : Z }.

(** Where the flushing thread is. *)
Inductive flusher :=
| FPoll                       (* before it looks at [should_stop] *)
| FTry                        (* before it loads [cur_offset] *)
| FLoaded (cur : Z)           (* before it loads [flushed_offset] *)
| FWrite (id : Z) (n : nat)   (* in [write]: [n] bytes of buffer [id] are in the file *)
| FWritten                    (* before [fsync] *)
| FSynced                     (* before it advances [flushed_offset] *)
| FStopped.

(** [lm_log] is the log so far, in the order of the reservations: no part of
    the program, but what the file should hold. *)
Record log_machine := mkLM {
  lm_lg : Logger;
  lm_copies : list copying;
  lm_flusher : flusher;
  lm_log : obj;
}.

(** How the device answers: [write] may take fewer bytes, [fsync] may fail. *)
Record device := mkDevice { dev_short : bool; dev_synced : bool }.

Definition reliable : device := mkDevice false true.

Definition do_acquire (val : obj) (lg : Logger) : outcome (copying * Logger) :=
  '(id, off, lg') ← acquire_log_buffer (Z.of_nat (length val)) lg;
  Ret (mkCopy id off val 0 (lg_cur_offset lg), lg').

(** The next byte of a copy. *)
Definition do_copy (c : copying) (lg : Logger) : outcome (copying * Logger) :=
  v ← index (cp_val c) (Z.of_nat (cp_done c));
  b ← index (lg_buffers lg) (cp_id c);
  b ← raw_write b (cp_off c + Z.of_nat (cp_done c)) [v];
  Ret (mkCopy (cp_id c) (cp_off c) (cp_val c) (S (cp_done c)) (cp_loc c),
       set_buffers lg (<[Z.to_nat (cp_id c) := b]> (lg_buffers lg)) (lg_file lg)).

(** [try_flush_logs] once both offsets are loaded, up to the flush. *)
Definition do_check (cur : Z) (lg : Logger) : outcome flusher :=
  let flushed := lg_flushed_offset lg in
  distance ← chk 64 (cur - flushed);
  if distance <? lg_buffer_size lg then Ret FPoll
  else
    limit ← chk 64 (lg_buffer_size lg * Z.of_nat (length (lg_buffers lg)));
    _ ← rassert (distance <? limit);
    _ ← rassert (negb (lg_buffer_size lg =? 0));
    Ret (FWrite ((flushed / lg_buffer_size lg) mod Z.of_nat (length (lg_buffers lg))) 0).

(** [write] reads the next byte of the buffer. *)
Definition do_write (id : Z) (n : nat) (lg : Logger) : outcome Logger :=
  b ← index (lg_buffers lg) id;
  v ← index b (Z.of_nat n);
  Ret (set_buffers lg (lg_buffers lg) (lg_file lg ++ [v])).

Definition do_advance (lg : Logger) : Logger :=
  set_offsets lg (lg_cur_offset lg) (wrap 64 (lg_flushed_offset lg + lg_buffer_size lg)).

(** One access of one thread; [entry] are the values threads append. *)
Inductive mstep (dev : device) (entry : obj -> Prop) (m : log_machine) : outcome log_machine -> Prop :=
| step_acquire val :
    entry val ->
    mstep dev entry m
      ('(c, lg) ← do_acquire val (lm_lg m);
       Ret (mkLM lg (c :: lm_copies m) (lm_flusher m) (lm_log m ++ val)))
| step_copy p1 c p2 :
    lm_copies m = p1 ++ c :: p2 -> (cp_done c < length (cp_val c))%nat ->
    mstep dev entry m
      ('(c, lg) ← do_copy c (lm_lg m);
       Ret (mkLM lg (p1 ++ c :: p2) (lm_flusher m) (lm_log m)))
| step_appended p1 c p2 :
    lm_copies m = p1 ++ c :: p2 -> cp_done c = length (cp_val c) ->
    mstep dev entry m (Ret (mkLM (lm_lg m) (p1 ++ p2) (lm_flusher m) (lm_log m)))
| step_stop :
    mstep dev entry m (Ret (mkLM (stop_logger (lm_lg m)) (lm_copies m) (lm_flusher m) (lm_log m)))
| step_poll :
    lm_flusher m = FPoll ->
    mstep dev entry m (Ret (mkLM (lm_lg m) (lm_copies m)
      (if lg_should_stop (lm_lg m) then FStopped else FTry) (lm_log m)))
| step_load :
    lm_flusher m = FTry ->
    mstep dev entry m (Ret (mkLM (lm_lg m) (lm_copies m) (FLoaded (lg_cur_offset (lm_lg m))) (lm_log m)))
| step_check cur :
    lm_flusher m = FLoaded cur ->
    mstep dev entry m (f ← do_check cur (lm_lg m); Ret (mkLM (lm_lg m) (lm_copies m) f (lm_log m)))
| step_write id n :
    lm_flusher m = FWrite id n -> Z.of_nat n < lg_buffer_size (lm_lg m) ->
    mstep dev entry m
      (lg ← do_write id n (lm_lg m); Ret (mkLM lg (lm_copies m) (FWrite id (S n)) (lm_log m)))
| step_written id n :
    lm_flusher m = FWrite id n -> Z.of_nat n = lg_buffer_size (lm_lg m) \/ dev_short dev = true ->
    mstep dev entry m (Ret (mkLM (lm_lg m) (lm_copies m) FWritten (lm_log m)))
| step_sync :
    lm_flusher m = FWritten ->
    mstep dev entry m
      (_ ← rassert (dev_synced dev); Ret (mkLM (lm_lg m) (lm_copies m) FSynced (lm_log m)))
| step_advance :
    lm_flusher m = FSynced ->
    mstep dev entry m (Ret (mkLM (do_advance (lm_lg m)) (lm_copies m) FPoll (lm_log m))).

Definition start (lg : Logger) : log_machine := mkLM lg [] FPoll [].

(** Steps to states in which [P] holds. *)
Definition msteps (dev : device) (entry : obj -> Prop) (P : log_machine -> Prop)
    : log_machine -> log_machine -> Prop :=
  rtc (fun m m' => mstep dev entry m (Ret m') /\ P m').

(** What the code leaves to its users.  [paced]: the log is less than two buffers
    ahead of the file (which [try_flush_logs] asserts when it looks), and of
    every unfinished copy.  [disciplined]: moreover no copy into the buffer being
    flushed is still running. *)
Definition ahead (lg : Logger) : Prop :=
  lg_cur_offset lg - lg_flushed_offset lg < 2 * lg_buffer_size lg /\ lg_cur_offset lg < 2 ^ 63.

Definition paced (m : log_machine) : Prop :=
  let lg := lm_lg m in
  ahead lg /\ Forall (fun c => lg_cur_offset lg - cp_loc c < 2 * lg_buffer_size lg) (lm_copies m).

Definition flushing (f : flusher) : bool :=
  match f with FWrite _ _ | FWritten | FSynced => true | _ => false end.

Definition disciplined (m : log_machine) : Prop :=
  let lg := lm_lg m in
  lg_cur_offset lg - lg_flushed_offset lg < 2 * lg_buffer_size lg /\ lg_cur_offset lg < 2 ^ 63 /\
  (flushing (lm_flusher m) = true ->
   Forall (fun c => lg_flushed_offset lg + lg_buffer_size lg <= cp_loc c) (lm_copies m)).

(** ** One thread alone

    Without interference the machine's accesses add up to [append_log] and
    [try_flush_logs]. *)
Fixpoint copy_loop (k : nat) (c : copying) (lg : Logger) : outcome (copying * Logger) :=
  match k with
  | O => Ret (c, lg)
  | S k => '(c, lg) ← do_copy c lg; copy_loop k c lg
  end.

Lemma store_cons b off v bs : store (store b off [v]) (S off) bs = store b off (v :: bs).
Proof. unfold store. rewrite (list_inserts_app_l [v] bs). done. Qed.

(** One byte of a copy whose slice lies in its buffer. *)
Lemma do_copy_ok c lg b v :
  cp_val c !! cp_done c = Some v -> 0 <= cp_id c -> lg_buffers lg !! Z.to_nat (cp_id c) = Some b ->
  0 <= cp_off c -> cp_off c + Z.of_nat (length (cp_val c)) <= Z.of_nat (length b) ->
  do_copy c lg =
    Ret (mkCopy (cp_id c) (cp_off c) (cp_val c) (S (cp_done c)) (cp_loc c),
         set_buffers lg (<[Z.to_nat (cp_id c) := store b (Z.to_nat (cp_off c + Z.of_nat (cp_done c))) [v]]> (lg_buffers lg))
           (lg_file lg)).
Proof.
  intros Hv Hid Hb Hoff Hfit. pose proof (lookup_lt_Some _ _ _ Hv). unfold do_copy.
  rewrite (proj2 (index_Ret (cp_val c) _ v)) by (rewrite Nat2Z.id; split; [lia|done]). runm.
  rewrite (proj2 (index_Ret (lg_buffers lg) _ b)) by done. runm.
  rewrite raw_write_ok by (simpl; lia). done.
Qed.

Lemma copy_loop_ok k : forall c lg b,
  (cp_done c + k = length (cp_val c))%nat -> 0 <= cp_id c -> lg_buffers lg !! Z.to_nat (cp_id c) = Some b ->
  0 <= cp_off c -> cp_off c + Z.of_nat (length (cp_val c)) <= Z.of_nat (length b) ->
  copy_loop k c lg =
    Ret (mkCopy (cp_id c) (cp_off c) (cp_val c) (length (cp_val c)) (cp_loc c),
         set_buffers lg
           (<[Z.to_nat (cp_id c) := store b (Z.to_nat (cp_off c + Z.of_nat (cp_done c))) (drop (cp_done c) (cp_val c))]>
              (lg_buffers lg)) (lg_file lg)).
Proof.
  induction k as [|k IH]; intros c lg b Hk Hid Hb Hoff Hfit; cbn [copy_loop].
  - rewrite drop_ge by lia. unfold store. cbn [list_inserts]. rewrite list_insert_id by done.
    replace (length (cp_val c)) with (cp_done c) by lia. by destruct c, lg.
  - destruct (lookup_lt_is_Some_2 (cp_val c) (cp_done c)) as [v Hv]; [lia|].
    rewrite (do_copy_ok c lg b v) by done. runm.
    rewrite (IH _ _ (store b (Z.to_nat (cp_off c + Z.of_nat (cp_done c))) [v])); cbn [cp_id cp_off cp_val cp_done cp_loc].
    + f_equal. f_equal. unfold set_buffers. cbn [lg_buffers lg_lsn lg_cur_offset lg_flushed_offset lg_buffer_size lg_should_stop lg_file].
      rewrite list_insert_insert_eq, (drop_S _ _ _ Hv).
      replace (Z.to_nat (cp_off c + Z.of_nat (S (cp_done c)))) with (S (Z.to_nat (cp_off c + Z.of_nat (cp_done c)))) by lia.
      rewrite (store_cons b (Z.to_nat (cp_off c + Z.of_nat (cp_done c))) v (drop (S (cp_done c)) (cp_val c))). done.
    + lia.
    + done.
    + unfold set_buffers. cbn [lg_buffers]. apply list_lookup_insert_eq. by eapply lookup_lt_Some.
    + done.
    + by rewrite length_store.
Qed.

(** A reservation and its copy, alone, are [append_log]. *)
Lemma append_log_alone val lg :
  0 <= lg_cur_offset lg -> 0 <= lg_buffer_size lg ->
  append_log val lg =
    ('(c, lg1) ← do_acquire val lg; '(_, lg2) ← copy_loop (length val) c lg1; Ret lg2).
Proof.
  intros Hc HB0. unfold append_log, do_acquire, acquire_log_buffer.
  destruct (rassert (Z.of_nat (length val) <=? MAX_LOG_LEN)); [|done..]. cbn [mbind outcome_bind].
  cbn [lg_buffer_size lg_buffers set_offsets].
  destruct (Z.eqb_spec (lg_buffer_size lg) 0) as [|HB]; [done|]. cbn [negb rassert mbind outcome_bind].
  set (id := _ mod Z.of_nat (length (lg_buffers lg))). set (off := lg_cur_offset lg mod lg_buffer_size lg).
  destruct (index (lg_buffers lg) id) as [b| | |] eqn:Hb; [|done..]. cbn [mbind outcome_bind].
  apply index_Ret in Hb as [Hid Hb]. unfold in_bounds.
  destruct (Z.leb_spec (off + Z.of_nat (length val)) (Z.of_nat (length b))) as [Hfit|]; [|done].
  cbn [mbind outcome_bind]. pose proof (Z.mod_pos_bound (lg_cur_offset lg) (lg_buffer_size lg) ltac:(lia)).
  set (lg1 := set_offsets _ _ _). rewrite (proj2 (index_Ret (lg_buffers lg1) id b)) by done. cbn [mbind outcome_bind].
  rewrite raw_write_ok by lia. cbn [mbind outcome_bind].
  rewrite (copy_loop_ok (length val) _ _ b) by (done || (simpl; lia)).
  cbn [mbind outcome_bind cp_id cp_off cp_val cp_done]. rewrite Z.add_0_r. done.
Qed.

(** The flushing thread alone, from the loads of both offsets to its advance. *)
Fixpoint write_loop (k n : nat) (id : Z) (lg : Logger) : outcome Logger :=
  match k with
  | O => Ret lg
  | S k => lg ← do_write id n lg; write_loop k (S n) id lg
  end.

Lemma write_loop_ok k : forall n id lg b,
  0 <= id -> lg_buffers lg !! Z.to_nat id = Some b -> (n + k <= length b)%nat ->
  write_loop k n id lg = Ret (set_buffers lg (lg_buffers lg) (lg_file lg ++ load b n k)).
Proof.
  induction k as [|k IH]; intros n id lg b Hid Hb Hn; cbn [write_loop].
  - unfold load. rewrite take_0, app_nil_r. by destruct lg.
  - destruct (lookup_lt_is_Some_2 b n) as [v Hv]; [lia|]. unfold do_write.
    rewrite (proj2 (index_Ret (lg_buffers lg) id b)) by done. runm.
    rewrite (proj2 (index_Ret b _ v)) by (rewrite Nat2Z.id; split; [lia|done]). runm.
    rewrite (IH _ _ _ b) by (done || lia). unfold set_buffers. cbn. unfold load.
    by rewrite (drop_S b v n Hv), <-(assoc_L app).
Qed.

Lemma try_flush_logs_alone lg :
  log_shape lg ->
  try_flush_logs (Some (Z.to_nat (lg_buffer_size lg))) true lg =
    (f ← do_check (lg_cur_offset lg) lg;
     match f with
     | FWrite id n =>
         lg' ← write_loop (Z.to_nat (lg_buffer_size lg)) n id lg;
         Ret (Ok (lg_flushed_offset lg), do_advance lg')
     | _ => Ret (Err (lg_cur_offset lg), lg)
     end).
Proof.
  intros (HB & H2 & Hall). unfold try_flush_logs, do_check.
  destruct (chk 64 (lg_cur_offset lg - lg_flushed_offset lg)) as [d| | |]; [|done..]. cbn [mbind outcome_bind].
  destruct (d <? lg_buffer_size lg); [done|].
  destruct (chk 64 _) as [l| | |]; [|done..]. cbn [mbind outcome_bind].
  destruct (rassert (d <? l)) as [?| | |]; [|done..]. cbn [mbind outcome_bind].
  destruct (rassert (negb _)) as [?| | |]; [|done..]. cbn [mbind outcome_bind].
  rewrite H2. change (Z.of_nat 2) with 2. set (id := _ mod 2).
  pose proof (Z.mod_pos_bound (lg_flushed_offset lg / lg_buffer_size lg) 2 ltac:(lia)) as Hid. fold id in Hid.
  destruct (lookup_lt_is_Some_2 (lg_buffers lg) (Z.to_nat id)) as [b Hb]; [lia|].
  pose proof (Forall_lookup_1 _ _ _ _ Hall Hb) as Hlen. cbn in Hlen. unfold flush_buffer.
  rewrite (proj2 (index_Ret (lg_buffers lg) id b)) by (split; [lia|done]). cbn [mbind outcome_bind rassert default].
  rewrite (write_loop_ok _ _ _ _ b) by (done || lia). cbn [mbind outcome_bind]. unfold load. rewrite drop_0. done.
Qed.

(** ** Where the copies are

    Entries may have any size.  A reservation that is longer than [MAX_LOG_LEN],
    or reaches past the end of its buffer, does not return; all others do. *)
Definition clen (c : copying) : Z := Z.of_nat (length (cp_val c)).

Lemma do_acquire_spec val lg :
  log_shape lg -> 0 <= lg_cur_offset lg < 2 ^ 63 ->
  let n := Z.of_nat (length val) in let loc := lg_cur_offset lg in let B := lg_buffer_size lg in
  do_acquire val lg =
    if MAX_LOG_LEN <? n then Panic
    else if B <? loc mod B + n then Undef
    else Ret (mkCopy ((loc / B) mod 2) (loc mod B) val 0 loc, set_offsets lg (loc + n) (lg_flushed_offset lg)).
Proof.
  intros Hsh Hc n loc B. unfold do_acquire. fold n. assert (MAX_LOG_LEN = 512) by done.
  destruct (Z.ltb_spec MAX_LOG_LEN n) as [Hn|Hn].
  { unfold acquire_log_buffer. by rewrite (proj2 (Z.leb_gt _ _)) by lia. }
  destruct (Z.ltb_spec B (loc mod B + n)) as [Hf|Hf].
  - destruct (buffer_at lg loc Hsh ltac:(lia)) as (b & _ & Hb & Hlen). destruct Hsh as (HB & H2 & _).
    unfold acquire_log_buffer. rewrite (proj2 (Z.leb_le n _)) by lia. runm. cbn [set_offsets lg_buffer_size lg_buffers].
    rewrite (proj2 (Z.eqb_neq _ 0)) by lia. runm. rewrite H2. change (Z.of_nat 2) with 2. fold loc. rewrite Hb. runm.
    by rewrite (proj2 (Z.leb_gt _ _)) by (fold B in Hlen |- *; lia).
  - rewrite acquire_ok by (done || lia). done.
Qed.

Section invariant.
Context (B : Z) (HB : 0 < B < 2 ^ 62).

Definition placed (lg : Logger) (log : obj) (c : copying) : Prop :=
  cp_id c = (cp_loc c / B) mod 2 /\ cp_off c = cp_loc c mod B /\ cp_off c + clen c <= B /\
  0 <= cp_loc c /\ cp_loc c + clen c <= lg_cur_offset lg /\
  cp_val c = load log (Z.to_nat (cp_loc c)) (length (cp_val c)) /\ (cp_done c <= length (cp_val c))%nat.

(** The log offsets reserved for a copy; later reservations are above. *)
Definition span (c : copying) : Z * Z := (cp_loc c, cp_loc c + clen c).
Definition above (r r' : Z * Z) : Prop := r'.2 <= r.1.

Definition flusher_at (lg : Logger) (f : flusher) : Prop :=
  let fl := lg_flushed_offset lg in
  match f with
  | FPoll | FTry | FStopped => True
  | FLoaded cur => fl <= cur <= lg_cur_offset lg
  | FWrite id n => id = (fl / B) mod 2 /\ Z.of_nat n <= B /\ fl + B <= lg_cur_offset lg
  | FWritten | FSynced => fl + B <= lg_cur_offset lg
  end.

Definition base_inv (m : log_machine) : Prop :=
  let lg := lm_lg m in let log := lm_log m in
  log_shape lg /\ lg_buffer_size lg = B /\ lg_cur_offset lg = Z.of_nat (length log) /\
  lg_flushed_offset lg mod B = 0 /\ 0 <= lg_flushed_offset lg <= lg_cur_offset lg /\
  Forall (placed lg log) (lm_copies m) /\ StronglySorted above (span <$> lm_copies m) /\
  flusher_at lg (lm_flusher m).

Lemma start_base b0 b1 :
  Z.of_nat (length b0) = B -> Z.of_nat (length b1) = B -> base_inv (start (mkLogger 0 0 0 B false [b0; b1] [])).
Proof.
  intros H0 H1. unfold base_inv, log_shape, start. cbn. split_and!; try done; try lia.
  - by repeat constructor.
  - constructor.
Qed.

(** The bytes of a copy lie in its buffer. *)
Lemma copy_slice lg log c :
  log_shape lg -> lg_buffer_size lg = B -> placed lg log c ->
  0 <= cp_id c /\ 0 <= cp_off c /\
  exists b, lg_buffers lg !! Z.to_nat (cp_id c) = Some b /\ Z.of_nat (length b) = B.
Proof.
  intros Hsh EB (Eid & Eoff & _ & Hl & _). rewrite Eid, Eoff.
  pose proof (Z.mod_pos_bound (cp_loc c / B) 2 ltac:(lia)). pose proof (Z.mod_pos_bound (cp_loc c) B ltac:(lia)).
  split; [lia|]. split; [lia|].
  destruct (buffer_at lg (cp_loc c) Hsh) as (b & Hb & _ & Hlen); [lia|]. rewrite EB in Hb, Hlen. by exists b.
Qed.

(** The next byte of a copy changes that byte of the buffers only. *)
Lemma do_copy_at lg log c :
  log_shape lg -> lg_buffer_size lg = B -> placed lg log c -> (cp_done c < length (cp_val c))%nat ->
  exists v lg', cp_val c !! cp_done c = Some v /\
    do_copy c lg = Ret (mkCopy (cp_id c) (cp_off c) (cp_val c) (S (cp_done c)) (cp_loc c), lg') /\
    log_shape lg' /\ lg_buffer_size lg' = B /\ lg_cur_offset lg' = lg_cur_offset lg /\
    lg_flushed_offset lg' = lg_flushed_offset lg /\ lg_file lg' = lg_file lg /\
    forall x, 0 <= x -> - (2 * B) < x - (cp_loc c + Z.of_nat (cp_done c)) < 2 * B ->
      byte_at lg' x = if decide (x = cp_loc c + Z.of_nat (cp_done c)) then Some v else byte_at lg x.
Proof.
  intros Hsh EB Hok Hd. destruct (copy_slice lg log c Hsh EB Hok) as (Hid & Hoff & b & Hb & Hlen).
  destruct Hok as (Eid & Eoff & Hfit & Hl & Hend & _). unfold clen in *.
  destruct (lookup_lt_is_Some_2 (cp_val c) (cp_done c)) as [v Hv]; [done|].
  eexists v, _. split; [done|]. split; [apply (do_copy_ok c lg b v); (done || lia)|].
  split; [|split; [done|split; [done|split; [done|split; [done|]]]]].
  { destruct Hsh as (? & ? & ?). split; [done|]. cbn [set_buffers lg_buffers lg_buffer_size].
    split; [by rewrite length_insert|]. apply Forall_insert; [done|]. rewrite length_store. lia. }
  set (x0 := cp_loc c + Z.of_nat (cp_done c)). intros x Hx Hnear.
  destruct (offset_split B (cp_loc c) (Z.of_nat (cp_done c))) as [Ed Em]; [lia|lia|lia|]. fold x0 in Ed, Em.
  pose proof (byte_at_write lg b [v] x0 x) as W. cbn zeta in W. rewrite EB, Ed, Em, <-Eid in W.
  specialize (W ltac:(lia) ltac:(lia) ltac:(lia) Hb Hlen ltac:(simpl; lia) (lg_cur_offset lg) (lg_flushed_offset lg) (lg_file lg)).
  rewrite Eoff. etransitivity; [exact W|]. destruct (decide (x = x0)) as [->|Hne].
  - rewrite decide_True by (rewrite Ed, Em; split; [done|simpl; lia]). by rewrite Em, Z.sub_diag.
  - rewrite decide_False; [done|]. intros [H1 H2]. apply Hne. apply (same_place B); [lia|by rewrite Ed, <-Eid|simpl in H2; lia|lia].
Qed.

(** What an access must keep for the copies. *)
Lemma placed_mono lg lg' log val c :
  lg_cur_offset lg <= lg_cur_offset lg' -> lg_cur_offset lg = Z.of_nat (length log) ->
  placed lg log c -> placed lg' (log ++ val) c.
Proof.
  intros Hle Hc (E1 & E2 & E3 & E4 & E5 & E6 & E7). unfold placed, clen in *. split_and!; try done; try lia.
  rewrite E6 at 1. unfold load. rewrite drop_app_le by lia. rewrite take_app_le; [done|]. rewrite length_drop. lia.
Qed.

Lemma placed_frame lg lg' log c :
  lg_cur_offset lg' = lg_cur_offset lg -> placed lg log c -> placed lg' log c.
Proof. intros Ec. unfold placed. by rewrite Ec. Qed.

Lemma sorted_without (l1 l2 : list (Z * Z)) x :
  StronglySorted above (l1 ++ x :: l2) -> StronglySorted above (l1 ++ l2).
Proof.
  rewrite !StronglySorted_app, StronglySorted_cons. intros (H & H1 & _ & H2). split; [|done].
  intros y z Hy Hz. apply H; [done|by right].
Qed.

Lemma sorted_lookup (l : list (Z * Z)) i j x y :
  StronglySorted above l -> l !! i = Some x -> l !! j = Some y -> (i < j)%nat -> above x y.
Proof.
  intros H. revert i j. induction H as [|z l _ IH Hz]; intros [|i] [|j] Hi Hj Hij; simplify_eq/=; try lia.
  - by eapply Forall_lookup_1.
  - apply (IH i j); (done || lia).
Qed.

(** *** Each access keeps the base invariant *)
Lemma acquire_base m val :
  base_inv m -> lg_cur_offset (lm_lg m) < 2 ^ 63 ->
  forall c lg, do_acquire val (lm_lg m) = Ret (c, lg) ->
    c = mkCopy ((lg_cur_offset (lm_lg m) / B) mod 2) (lg_cur_offset (lm_lg m) mod B) val 0 (lg_cur_offset (lm_lg m)) /\
    lg = set_offsets (lm_lg m) (lg_cur_offset (lm_lg m) + Z.of_nat (length val)) (lg_flushed_offset (lm_lg m)) /\
    base_inv (mkLM lg (c :: lm_copies m) (lm_flusher m) (lm_log m ++ val)).
Proof.
  intros (Hsh & EB & Hc & Hfm & Hf & Hcop & Hso & Hfl) H63 c lg. rewrite do_acquire_spec by (done || lia).
  rewrite EB. destruct (Z.ltb_spec MAX_LOG_LEN (Z.of_nat (length val))); [done|].
  destruct (Z.ltb_spec B (lg_cur_offset (lm_lg m) mod B + Z.of_nat (length val))) as [|Hfit]; [done|].
  intros [= <- <-]. split; [done|]. split; [done|]. unfold base_inv. cbn [lm_lg lm_copies lm_flusher lm_log].
  set (lg := lm_lg m) in *. split; [done|]. split; [done|].
  cbn [set_offsets lg_cur_offset lg_flushed_offset lg_buffer_size].
  split; [rewrite length_app; lia|]. split; [done|]. split; [lia|]. split; [|split].
  - constructor.
    + unfold placed, clen. cbn. split_and!; try done; try lia. unfold load.
      rewrite drop_app_length' by lia. by rewrite take_ge by lia.
    + eapply Forall_impl; [exact Hcop|]. intros c. apply placed_mono; [cbn; lia|done].
  - cbn [fmap list_fmap]. constructor; [done|]. apply Forall_fmap. eapply Forall_impl; [exact Hcop|].
    intros c (_ & _ & _ & _ & He & _). exact He.
  - destruct (lm_flusher m); cbn in Hfl |- *; fold lg in Hfl |- *; intuition lia.
Qed.

Lemma copy_base m p1 c p2 c' lg' :
  base_inv m -> lm_copies m = p1 ++ c :: p2 -> (cp_done c < length (cp_val c))%nat ->
  do_copy c (lm_lg m) = Ret (c', lg') -> base_inv (mkLM lg' (p1 ++ c' :: p2) (lm_flusher m) (lm_log m)).
Proof.
  intros (Hsh & EB & Hc & Hfm & Hf & Hcop & Hso & Hfl) Ecop Hd E.
  rewrite Ecop in *. pose proof Hcop as [Hp1 [Hok Hp2]%Forall_cons]%Forall_app.
  destruct (do_copy_at _ _ c Hsh EB Hok Hd) as (v & lg & _ & E' & Hsh' & EB' & Ec & Ef & _).
  rewrite E in E'. injection E' as -> ->. unfold base_inv. cbn [lm_lg lm_copies lm_flusher lm_log]. rewrite Ec, Ef.
  do 5 (split; [done|]). split; [|split].
  - apply Forall_app. split; [|constructor]; [| |]; try (eapply Forall_impl; [done|]; intros; by eapply placed_frame).
    eapply placed_frame; [done|]. destruct Hok as (? & ? & ? & ? & ? & ? & ?). unfold placed, clen. cbn. split_and!; (done || lia).
  - rewrite !fmap_app, !fmap_cons in *. exact Hso.
  - destruct (lm_flusher m); simpl in *; rewrite ?Ec, ?Ef; done.
Qed.

Lemma appended_base m p1 c p2 :
  base_inv m -> lm_copies m = p1 ++ c :: p2 -> base_inv (mkLM (lm_lg m) (p1 ++ p2) (lm_flusher m) (lm_log m)).
Proof.
  intros (Hsh & EB & Hc & Hfm & Hf & Hcop & Hso & Hfl) Ecop. unfold base_inv. cbn [lm_lg lm_copies lm_flusher lm_log].
  rewrite Ecop in *. apply Forall_app in Hcop as [Hp1 [Hok Hp2]%Forall_cons].
  do 5 (split; [done|]). split; [by apply Forall_app|]. split; [|done].
  rewrite fmap_app, fmap_cons in Hso. rewrite fmap_app. by eapply sorted_without.
Qed.

(** The flushing thread's accesses leave the copies alone. *)
Lemma base_flusher m f :
  base_inv m -> flusher_at (lm_lg m) f -> base_inv (mkLM (lm_lg m) (lm_copies m) f (lm_log m)).
Proof. intros (? & ? & ? & ? & ? & ? & ? & _) Hf. repeat (split; [done|]). done. Qed.

Lemma check_flusher m cur :
  base_inv m -> ahead (lm_lg m) -> lm_flusher m = FLoaded cur ->
  exists f, do_check cur (lm_lg m) = Ret f /\ flusher_at (lm_lg m) f /\
    (f = FPoll \/ f = FWrite ((lg_flushed_offset (lm_lg m) / B) mod 2) 0).
Proof.
  intros (Hsh & EB & Hc & Hfm & Hf & _ & _ & Hfl) [Hpace H63] Ef. rewrite Ef in Hfl. simpl in Hfl.
  destruct Hsh as (_ & H2 & _). unfold do_check. rewrite EB, H2. rewrite EB in Hpace. change (Z.of_nat 2) with 2.
  rewrite (chk_ok 64 (cur - lg_flushed_offset (lm_lg m))) by (unfold fits; lia). runm. destruct (Z.ltb_spec (cur - lg_flushed_offset (lm_lg m)) B).
  { exists FPoll. split; [done|]. split; [done|by left]. }
  rewrite chk_ok by (unfold fits; lia). runm. rewrite (proj2 (Z.ltb_lt _ _)) by lia. runm.
  rewrite (proj2 (Z.eqb_neq _ 0)) by lia. runm. eexists. split; [done|]. split; [|by right]. simpl. split; [done|lia].
Qed.

Lemma check_base m cur f :
  base_inv m -> lg_cur_offset (lm_lg m) < 2 ^ 63 -> lm_flusher m = FLoaded cur -> do_check cur (lm_lg m) = Ret f ->
  flusher_at (lm_lg m) f.
Proof.
  intros (Hsh & EB & Hc & Hfm & Hf & _ & _ & Hfl) H63 Ef. rewrite Ef in Hfl. simpl in Hfl.
  destruct Hsh as (_ & H2 & _). unfold do_check. rewrite EB, H2. change (Z.of_nat 2) with 2.
  rewrite (chk_ok 64 (cur - lg_flushed_offset (lm_lg m))) by (unfold fits; lia). runm. destruct (Z.ltb_spec (cur - lg_flushed_offset (lm_lg m)) B).
  { by intros [= <-]. }
  rewrite chk_ok by (unfold fits; lia). runm. destruct (_ <? _); [|done]. runm. destruct (negb _); [|done]. runm.
  intros [= <-]. simpl. split; [done|lia].
Qed.

Lemma write_read m id n :
  base_inv m -> lm_flusher m = FWrite id n -> Z.of_nat n < B ->
  exists v, byte_at (lm_lg m) (lg_flushed_offset (lm_lg m) + Z.of_nat n) = Some v /\
    do_write id n (lm_lg m) = Ret (set_buffers (lm_lg m) (lg_buffers (lm_lg m)) (lg_file (lm_lg m) ++ [v])).
Proof.
  intros (Hsh & EB & Hc & Hfm & Hf & _ & _ & Hfl) Ef Hn. rewrite Ef in Hfl. destruct Hfl as (-> & Hb & Hfull).
  set (lg := lm_lg m) in *. set (f := lg_flushed_offset lg) in *.
  destruct (buffer_at lg f Hsh) as (b & Hlb & Hib & Hlen); [lia|]. rewrite EB in Hlb, Hib, Hlen.
  destruct (lookup_lt_is_Some_2 b n) as [v Hv]; [lia|]. exists v. split.
  - unfold byte_at. rewrite EB. destruct (offset_split B f (Z.of_nat n)) as [Ed Em]; [lia|lia|lia|].
    rewrite Ed, Em, Hlb, Hfm, Z.add_0_l, Nat2Z.id. exact Hv.
  - unfold do_write. rewrite Hib. runm. rewrite (proj2 (index_Ret b _ v)) by (rewrite Nat2Z.id; split; [lia|done]). done.
Qed.

Lemma advance_base m :
  base_inv m -> lg_cur_offset (lm_lg m) < 2 ^ 63 -> lm_flusher m = FSynced ->
  lg_flushed_offset (do_advance (lm_lg m)) = lg_flushed_offset (lm_lg m) + B /\
  base_inv (mkLM (do_advance (lm_lg m)) (lm_copies m) FPoll (lm_log m)).
Proof.
  intros (Hsh & EB & Hc & Hfm & Hf & Hcop & Hso & Hfl) H63 Ef. rewrite Ef in Hfl. simpl in Hfl.
  unfold base_inv, do_advance. cbn [lm_lg lm_copies lm_flusher lm_log]. rewrite EB in *.
  rewrite wrap_small by (unfold fits; lia). cbn [set_offsets lg_flushed_offset lg_cur_offset]. split; [done|].
  split; [done|]. split; [done|]. split; [done|]. split.
  { rewrite <-Zplus_mod_idemp_l, Hfm. apply Z.mod_same. lia. }
  split; [lia|]. done.
Qed.

(** Whatever the device answers. *)
Lemma mstep_base dev entry m m' :
  base_inv m -> lg_cur_offset (lm_lg m) < 2 ^ 63 -> mstep dev entry m (Ret m') -> base_inv m'.
Proof.
  intros I H63 Hm. pose proof I as (_ & EB & _ & _ & Hf & _ & _ & Hfl).
  inversion Hm as [val Hval E|p1 c p2 Ec Hd E|p1 c p2 Ec Hd E|E|Ef E|Ef E|cur Ef E|id n Ef Hn E|id n Ef Hn E|Ef E|Ef E];
    rewrite ?Ef in Hfl; simpl in Hfl; subst.
  - apply bind_Ret_inv in E as ([c lg] & E & [= <-]). by apply (acquire_base m val I H63 c lg E).
  - apply bind_Ret_inv in E as ([c' lg] & E & [= <-]). by eapply copy_base.
  - by eapply appended_base.
  - exact I.
  - apply base_flusher; [done|]. by case_match.
  - apply base_flusher; [done|]. simpl. lia.
  - apply bind_Ret_inv in E as (f & E & [= <-]). apply base_flusher; [done|]. by eapply check_base.
  - rewrite EB in Hn. apply bind_Ret_inv in E as (lg & E & [= <-]). destruct (write_read m id n I Ef Hn) as (v & _ & E').
    rewrite E in E'. injection E' as ->. destruct I as (? & ? & ? & ? & ? & ? & ? & _). repeat (split; [done|]).
    simpl. destruct Hfl as (? & ? & ?). split; [done|lia].
  - apply base_flusher; [done|]. by destruct Hfl as (_ & _ & ?).
  - apply bind_Ret_inv in E as ([] & _ & [= <-]). by apply base_flusher.
  - by apply advance_base.
Qed.

Lemma paced_inv dev entry m m' :
  base_inv m -> paced m -> msteps dev entry paced m m' -> base_inv m' /\ paced m'.
Proof.
  intros I D Hm. induction Hm as [|m1 m2 m3 [Hm D'] _ IH]; [done|].
  apply IH; [|done]. eapply mstep_base; [done| |done]. by destruct D as [[_ ?] _].
Qed.

(** ** Disciplined runs: the contents *)

(** The bytes of [c] that are still to come. *)
Definition pending (c : copying) (x : Z) : Prop := cp_loc c + Z.of_nat (cp_done c) <= x < cp_loc c + clen c.

(** How much of the log is in the file. *)
Definition filed (lg : Logger) (f : flusher) : Z :=
  lg_flushed_offset lg +
  match f with FWrite _ n => Z.of_nat n | FWritten | FSynced => B | _ => 0 end.

Definition content_inv (m : log_machine) : Prop :=
  let lg := lm_lg m in
  Forall (fun c => lg_flushed_offset lg <= cp_loc c) (lm_copies m) /\
  lg_file lg = take (Z.to_nat (filed lg (lm_flusher m))) (lm_log m) /\
  (forall x, lg_flushed_offset lg <= x < lg_cur_offset lg ->
     byte_at lg x = lm_log m !! Z.to_nat x \/ exists c, c ∈ lm_copies m /\ pending c x).

Lemma filed_bound m : base_inv m -> lg_flushed_offset (lm_lg m) <= filed (lm_lg m) (lm_flusher m) <= lg_cur_offset (lm_lg m).
Proof. intros (_ & _ & _ & _ & Hf & _ & _ & Hfl). unfold filed. destruct (lm_flusher m); simpl in Hfl; lia. Qed.

Lemma acquire_content m val c lg :
  base_inv m -> content_inv m -> lg_cur_offset (lm_lg m) < 2 ^ 63 -> do_acquire val (lm_lg m) = Ret (c, lg) ->
  content_inv (mkLM lg (c :: lm_copies m) (lm_flusher m) (lm_log m ++ val)).
Proof.
  intros I (Hcop & Hfile & Hby) H63 E. destruct (acquire_base m val I H63 c lg E) as (-> & -> & _).
  pose proof (filed_bound m I) as Hb. destruct I as (_ & _ & Hc & _ & Hf & _).
  unfold content_inv. cbn [lm_lg lm_copies lm_flusher lm_log set_offsets lg_flushed_offset lg_cur_offset lg_file].
  split; [constructor; [simpl; lia|done]|]. split.
  - rewrite Hfile. unfold filed in *. cbn [set_offsets lg_flushed_offset]. by rewrite take_app_le by lia.
  - intros x Hx. destruct (decide (x < lg_cur_offset (lm_lg m))) as [Hlt|Hge].
    + destruct (Hby x ltac:(lia)) as [E'|(c & Hin & Hp)]; [left|right; exists c; split; [by right|done]].
      rewrite lookup_app_l by lia. exact E'.
    + right. eexists. split; [by left|]. unfold pending, clen. cbn. lia.
Qed.

Lemma copy_content m p1 c p2 c' lg' :
  base_inv m -> content_inv m -> ahead (lm_lg m) -> lm_copies m = p1 ++ c :: p2 -> (cp_done c < length (cp_val c))%nat ->
  do_copy c (lm_lg m) = Ret (c', lg') -> content_inv (mkLM lg' (p1 ++ c' :: p2) (lm_flusher m) (lm_log m)).
Proof.
  intros (Hsh & EB & Hc & Hfm & Hf & Hpl & _) (Hcop & Hfile & Hby) [Hpace _] Ecop Hd E.
  rewrite Ecop in *. pose proof Hpl as [_ [Hok _]%Forall_cons]%Forall_app.
  pose proof Hcop as [Hp1 [Hfc Hp2]%Forall_cons]%Forall_app.
  destruct (do_copy_at _ _ c Hsh EB Hok Hd) as (v & lg & Hv & E' & _ & _ & Ec & Efl & Efi & Hbyte).
  rewrite E in E'. injection E' as -> ->. destruct Hok as (_ & _ & _ & _ & Hend & Ev & _). rewrite EB in Hpace.
  unfold content_inv, filed. cbn [lm_lg lm_copies lm_flusher lm_log]. rewrite Ec, Efl, Efi.
  split; [|split; [exact Hfile|]].
  { apply Forall_app. split; [done|]. by constructor. }
  intros x Hx. unfold clen in Hend. rewrite Hbyte by lia. destruct (decide (x = _)) as [->|Hne].
  - left. rewrite <-Hv, Ev. unfold load. rewrite lookup_take_lt, lookup_drop by lia. f_equal. lia.
  - destruct (Hby x Hx) as [E'|(c1 & Hin & Hp)]; [by left|right].
    apply elem_of_app in Hin as [Hin|[->|Hin]%elem_of_cons].
    + exists c1. split; [apply elem_of_app; by left|done].
    + eexists. split; [apply elem_of_app; right; by left|]. unfold pending, clen in *. cbn. lia.
    + exists c1. split; [apply elem_of_app; right; by right|done].
Qed.

Lemma appended_content m p1 c p2 :
  content_inv m -> lm_copies m = p1 ++ c :: p2 -> cp_done c = length (cp_val c) ->
  content_inv (mkLM (lm_lg m) (p1 ++ p2) (lm_flusher m) (lm_log m)).
Proof.
  intros (Hcop & Hfile & Hby) Ecop Hd. unfold content_inv. cbn [lm_lg lm_copies lm_flusher lm_log].
  rewrite Ecop in *. apply Forall_app in Hcop as [Hp1 [_ Hp2]%Forall_cons].
  split; [by apply Forall_app|]. split; [done|]. intros x Hx. destruct (Hby x Hx) as [E|(c1 & Hin & Hp)]; [by left|right].
  apply elem_of_app in Hin as [Hin|[->|Hin]%elem_of_cons]; [exists c1| |exists c1].
  - split; [apply elem_of_app; by left|done].
  - unfold pending, clen in Hp. lia.
  - split; [apply elem_of_app; by right|done].
Qed.

Lemma content_flusher m f :
  content_inv m -> filed (lm_lg m) f = filed (lm_lg m) (lm_flusher m) ->
  content_inv (mkLM (lm_lg m) (lm_copies m) f (lm_log m)).
Proof. intros (Hcop & Hfile & Hby) E. unfold content_inv. cbn [lm_lg lm_copies lm_flusher lm_log]. rewrite E. done. Qed.

Lemma write_content m id n :
  base_inv m -> content_inv m -> disciplined m -> lm_flusher m = FWrite id n -> Z.of_nat n < B ->
  exists lg, do_write id n (lm_lg m) = Ret lg /\ content_inv (mkLM lg (lm_copies m) (FWrite id (S n)) (lm_log m)).
Proof.
  intros I (Hcop & Hfile & Hby) (_ & _ & Hepoch) Ef Hn. destruct (write_read m id n I Ef Hn) as (v & Hv & E).
  destruct I as (_ & EB & Hc & _ & Hf & _ & _ & Hfl). rewrite Ef in Hfl, Hepoch, Hfile. specialize (Hepoch eq_refl).
  simpl in Hepoch, Hfl. rewrite EB in Hepoch. eexists. split; [exact E|].
  unfold content_inv, filed in *. cbn [lm_lg lm_copies lm_flusher lm_log set_buffers lg_flushed_offset lg_cur_offset lg_file].
  split; [done|]. split; [|exact Hby].
  destruct (Hby (lg_flushed_offset (lm_lg m) + Z.of_nat n) ltac:(lia)) as [Hl|(c & Hin & Hp)].
  - rewrite Hv in Hl. rewrite Hfile.
    replace (Z.to_nat (lg_flushed_offset (lm_lg m) + Z.of_nat (S n)))
      with (S (Z.to_nat (lg_flushed_offset (lm_lg m) + Z.of_nat n))) by lia. by rewrite (take_S_r _ _ v).
  - pose proof (proj1 (Forall_forall _ _) Hepoch c Hin) as Hlo. cbn in Hlo. unfold pending in Hp. lia.
Qed.

Lemma advance_content m :
  base_inv m -> content_inv m -> disciplined m -> lm_flusher m = FSynced ->
  content_inv (mkLM (do_advance (lm_lg m)) (lm_copies m) FPoll (lm_log m)).
Proof.
  intros I (Hcop & Hfile & Hby) (_ & H63 & Hepoch) Ef. destruct (advance_base m I H63 Ef) as [Efl _].
  destruct I as (_ & EB & _). rewrite Ef in Hfile, Hepoch. specialize (Hepoch eq_refl). simpl in Hepoch. rewrite EB in Hepoch.
  unfold content_inv, filed in *. cbn [lm_lg lm_copies lm_flusher lm_log]. rewrite Efl, Z.add_0_r.
  split; [done|]. split; [exact Hfile|]. intros x Hx. change (lg_cur_offset (do_advance (lm_lg m))) with (lg_cur_offset (lm_lg m)) in Hx.
  destruct (Hby x ltac:(lia)) as [E|E]; [left|by right]. exact E.
Qed.

Lemma disciplined_ahead m : disciplined m -> ahead (lm_lg m).
Proof. intros (? & ? & _). done. Qed.

Lemma mstep_content entry m m' :
  base_inv m -> content_inv m -> disciplined m -> mstep reliable entry m (Ret m') -> content_inv m'.
Proof.
  intros I C D Hm. pose proof I as (_ & EB & _). pose proof (disciplined_ahead m D) as P. pose proof P as [_ H63].
  inversion Hm as [val Hval E|p1 c p2 Ec Hd E|p1 c p2 Ec Hd E|E|Ef E|Ef E|cur Ef E|id n Ef Hn E|id n Ef Hn E|Ef E|Ef E]; subst.
  - apply bind_Ret_inv in E as ([c lg] & E & [= <-]). by apply acquire_content.
  - apply bind_Ret_inv in E as ([c' lg] & E & [= <-]). by eapply copy_content.
  - by eapply appended_content.
  - exact C.
  - apply content_flusher; [done|]. rewrite Ef. by case_match.
  - apply content_flusher; [done|]. by rewrite Ef.
  - apply bind_Ret_inv in E as (f & E & [= <-]). apply content_flusher; [done|]. rewrite Ef.
    destruct (check_flusher m cur I P Ef) as (f' & E' & _ & Hf). rewrite E in E'. injection E' as ->. by destruct Hf as [-> | ->].
  - rewrite EB in Hn. apply bind_Ret_inv in E as (lg & E & [= <-]). destruct (write_content m id n I C D Ef Hn) as (lg1 & E' & C').
    rewrite E in E'. by injection E' as ->.
  - destruct Hn as [Hn|Hn]; [|done]. apply content_flusher; [done|]. rewrite Ef. unfold filed. lia.
  - apply content_flusher; [done|]. by rewrite Ef.
  - by apply advance_content.
Qed.

(** Every access but a reservation returns. *)
Lemma mstep_returns m o :
  base_inv m -> disciplined m -> mstep reliable (fun _ => False) m o -> exists m', o = Ret m'.
Proof.
  intros I D Hm. pose proof I as (Hsh & EB & _ & _ & _ & Hpl & _). pose proof (disciplined_ahead m D) as P.
  destruct Hm as [val []|p1 c p2 Ec Hd|p1 c p2 Ec Hd| |Ef|Ef|cur Ef|id n Ef Hn|id n Ef Hn|Ef|Ef]; try by eexists.
  - rewrite Ec in Hpl. apply Forall_app in Hpl as [_ [Hok _]%Forall_cons].
    destruct (do_copy_at _ _ c Hsh EB Hok Hd) as (v & lg & _ & -> & _). by eexists.
  - destruct (check_flusher m cur I P Ef) as (f & -> & _). by eexists.
  - rewrite EB in Hn. destruct (write_read m id n I Ef Hn) as (v & _ & ->). by eexists.
Qed.

Lemma disciplined_inv entry m m' :
  base_inv m -> content_inv m -> disciplined m -> msteps reliable entry disciplined m m' ->
  base_inv m' /\ content_inv m' /\ disciplined m'.
Proof.
  intros I C D Hm. induction Hm as [|m1 m2 m3 [Hm D'] _ IH]; [done|]. pose proof (disciplined_ahead m1 D) as [_ H63].
  apply IH; [by eapply mstep_base|by eapply mstep_content|done].
Qed.
End invariant.

(** Two slices reserved less than two buffers apart share no byte. *)
Lemma spans_apart B li ni lj nj :
  0 < B -> 0 <= ni -> 0 <= nj -> 0 <= lj -> lj + nj <= li -> li + ni < lj + 2 * B ->
  li mod B + ni <= B -> lj mod B + nj <= B ->
  (li / B) mod 2 <> (lj / B) mod 2 \/ li mod B + ni <= lj mod B \/ lj mod B + nj <= li mod B.
Proof.
  intros HB Hni Hnj Hlj Hab Hnear Hfi Hfj. pose proof (Z.mod_pos_bound li B HB). pose proof (Z.mod_pos_bound lj B HB).
  pose proof (Z.div_mod li B ltac:(lia)) as Ei. pose proof (Z.div_mod lj B ltac:(lia)) as Ej.
  destruct (decide ((li / B) mod 2 = (lj / B) mod 2)) as [E|]; [right|by left].
  assert (li / B = lj / B \/ li / B = lj / B + 2) as [Eq|Eq].
  - assert (lj / B <= li / B <= lj / B + 2) by nia. Z.div_mod_to_equations. lia.
  - right. rewrite Eq in Ei. lia.
  - left. rewrite Eq in Ei. lia.
Qed.

(** A log offset is in the buffer at [f] exactly when it is in the [B] bytes
    from there, if it is less than a buffer before and two after. *)
Lemma same_buffer B f l :
  0 < B -> f mod B = 0 -> f - B <= l < f + 2 * B -> (l / B) mod 2 = (f / B) mod 2 <-> f <= l < f + B.
Proof.
  intros HB Hf Hl. pose proof (Z.mod_pos_bound l B HB). pose proof (Z.div_mod l B ltac:(lia)).
  pose proof (Z.div_mod f B ltac:(lia)). set (p := l / B) in *. set (q := f / B) in *.
  assert (q - 1 <= p <= q + 1) by nia. split.
  - intros E. assert (p = q) as Epq by (Z.div_mod_to_equations; lia). rewrite Epq in *. lia.
  - intros Hr. assert (p = q) as ->; [nia|done].
Qed.

(** ** Theorems *)
Section theorems.
Context (B : Z) (HB : 0 < B < 2 ^ 62).
Context (b0 b1 : obj) (H0 : Z.of_nat (length b0) = B) (H1 : Z.of_nat (length b1) = B).

Lemma start_state lg :
  Logger_with_buffer_size B b0 b1 = Ret lg ->
  base_inv B (start lg) /\ content_inv B (start lg) /\ ahead lg /\ lg_flushed_offset lg = 0.
Proof.
  unfold Logger_with_buffer_size, layout_ok, MAX_LOG_LEN. rewrite (proj2 (Z.leb_le _ _)) by lia.
  cbn [rassert mbind outcome_bind]. intros [= <-]. split; [by apply start_base|].
  split; [|unfold ahead; cbn; lia]. split; [constructor|]. split; [done|]. intros x Hx. cbn in Hx. lia.
Qed.

(** C7: Entries may have any sizes.  In every interleaving of appends, their copies
    and the flushing thread in which the log stays less than two buffers ahead
    and no copy into the buffer being flushed is unfinished, the file is at any
    time a prefix of the log in the order of the reservations, at least the
    flushed part of it, and the next access of every thread returns, with one
    exception: a reservation of more than [MAX_LOG_LEN] bytes fails its debug
    assertion, and one that crosses the end of its buffer returns a slice
    outside the allocation. *)
Theorem flush_keeps_log_prefix entry lg m :
  Logger_with_buffer_size B b0 b1 = Ret lg -> msteps reliable entry disciplined (start lg) m ->
  (exists n, lg_file (lm_lg m) = take n (lm_log m) /\ lg_flushed_offset (lm_lg m) <= Z.of_nat n <= Z.of_nat (length (lm_log m))) /\
  Z.of_nat (length (lm_log m)) - lg_flushed_offset (lm_lg m) < 2 * B /\
  (forall o, mstep reliable (fun _ => False) m o -> exists m', o = Ret m') /\
  (forall val, let n := Z.of_nat (length val) in let loc := Z.of_nat (length (lm_log m)) in
     (MAX_LOG_LEN < n -> do_acquire val (lm_lg m) = Panic) /\
     (n <= MAX_LOG_LEN -> B < loc mod B + n -> do_acquire val (lm_lg m) = Undef) /\
     (n <= MAX_LOG_LEN -> loc mod B + n <= B -> exists c lg', do_acquire val (lm_lg m) = Ret (c, lg') /\ cp_loc c = loc)).
Proof.
  intros Hlg Hm. destruct (start_state lg Hlg) as (I0 & C0 & A0 & _).
  destruct (disciplined_inv B HB entry _ _ I0 C0 ltac:(destruct A0; split_and!; done) Hm) as (I & (_ & Hfile & _) & D).
  pose proof (filed_bound B HB m I) as Hb. pose proof (mstep_returns B HB m) as Hret.
  pose proof I as (Hsh & EB & Hc & _ & Hf & _). pose proof D as (Hp & H63 & _). rewrite EB in Hp. rewrite <-Hc.
  split; [|split; [done|split; [by intros; apply Hret|]]].
  - eexists. split; [exact Hfile|]. lia.
  - intros val n loc. rewrite do_acquire_spec by (done || lia). rewrite EB. fold n loc.
    destruct (Z.ltb_spec MAX_LOG_LEN n), (Z.ltb_spec B (loc mod B + n)); split_and!; try done; try lia; intros; by do 2 eexists.
Qed.

(** C18: Whatever the sizes of the entries and the answers of the device, in every
    interleaving in which the log stays less than two buffers ahead of the file
    and of the unfinished copies, the slices of two unfinished copies are
    disjoint, and a copy goes into the buffer the flushing thread is writing to
    the file exactly when its log offset is in the part being flushed: waiting
    for these copies, which the code does not, is all that the flush needs. *)
Theorem log_accesses_race_free dev entry lg m :
  Logger_with_buffer_size B b0 b1 = Ret lg -> msteps dev entry paced (start lg) m ->
  (forall i j ci cj, lm_copies m !! i = Some ci -> lm_copies m !! j = Some cj -> i <> j ->
     cp_id ci <> cp_id cj \/ cp_off ci + clen ci <= cp_off cj \/ cp_off cj + clen cj <= cp_off ci) /\
  (forall id n c, lm_flusher m = FWrite id n -> c ∈ lm_copies m ->
     (cp_id c = id <-> lg_flushed_offset (lm_lg m) <= cp_loc c < lg_flushed_offset (lm_lg m) + B)).
Proof.
  intros Hlg Hm. destruct (start_state lg Hlg) as (I0 & _ & A0 & _).
  destruct (paced_inv B HB dev entry _ _ I0 ltac:(by split) Hm) as [(Hsh & EB & Hc & Hfm & Hf & Hpl & Hso & Hfl) [[Hp H63] Hq]].
  split.
  - assert (Hlt : forall i j ci cj, (i < j)%nat -> lm_copies m !! i = Some ci -> lm_copies m !! j = Some cj ->
              cp_id ci <> cp_id cj \/ cp_off ci + clen ci <= cp_off cj \/ cp_off cj + clen cj <= cp_off ci);
      [|intros i j ci cj Hi Hj Hij; destruct (Nat.lt_total i j) as [?|[?|?]];
        [by eapply (Hlt i j)|done|destruct (Hlt j i cj ci) as [?|[?|?]]; auto]].
    intros i j ci cj Hij Hi Hj.
    assert (Hab : cp_loc cj + clen cj <= cp_loc ci).
    { apply (sorted_lookup _ i j (span ci) (span cj) Hso); [by rewrite list_lookup_fmap, Hi|by rewrite list_lookup_fmap, Hj|done]. }
    rewrite EB in Hq.
    pose proof (Forall_lookup_1 _ _ _ _ Hq Hj) as Qj. pose proof (Forall_lookup_1 _ _ _ _ Hpl Hi) as (-> & Oi & Fi & Li & Ei & _).
    pose proof (Forall_lookup_1 _ _ _ _ Hpl Hj) as (-> & Oj & Fj & Lj & Ej & _). simpl in Qj.
    rewrite Oi, Oj in *. unfold clen in *. apply (spans_apart B); lia.
  - intros id n c Ef Hin. rewrite Ef in Hfl. destruct Hfl as (-> & _ & Hfull). rewrite EB in *.
    pose proof (proj1 (Forall_forall _ _) Hq c Hin) as Qc. pose proof (proj1 (Forall_forall _ _) Hpl c Hin) as (-> & _ & _ & Hl & Hend & _).
    simpl in Qc. unfold clen in Hend. apply (same_buffer B); lia.
Qed.
End theorems.

(** *** Concrete runs

    A schedule names the next access: a reservation, the next byte of the
    [i]-th copy (or its return, once complete), or the next access of the
    flushing thread. *)
Inductive access := Acquire (val : obj) | Advance (i : nat) | FlushStep.

Definition play1 (a : access) (m : log_machine) : option (outcome log_machine) :=
  let to lg f := mkLM lg (lm_copies m) f (lm_log m) in
  match a with
  | Acquire val =>
      Some ('(c, lg) ← do_acquire val (lm_lg m);
            Ret (mkLM lg (c :: lm_copies m) (lm_flusher m) (lm_log m ++ val)))
  | Advance i =>
      c ← lm_copies m !! i;
      if (cp_done c <? length (cp_val c))%nat then
        Some ('(c, lg) ← do_copy c (lm_lg m);
              Ret (mkLM lg (take i (lm_copies m) ++ c :: drop (S i) (lm_copies m)) (lm_flusher m) (lm_log m)))
      else if (cp_done c =? length (cp_val c))%nat then
        Some (Ret (mkLM (lm_lg m) (take i (lm_copies m) ++ drop (S i) (lm_copies m)) (lm_flusher m) (lm_log m)))
      else None
  | FlushStep =>
      match lm_flusher m with
      | FPoll => Some (Ret (to (lm_lg m) (if lg_should_stop (lm_lg m) then FStopped else FTry)))
      | FTry => Some (Ret (to (lm_lg m) (FLoaded (lg_cur_offset (lm_lg m)))))
      | FLoaded cur => Some (f ← do_check cur (lm_lg m); Ret (to (lm_lg m) f))
      | FWrite id n =>
          if Z.of_nat n <? lg_buffer_size (lm_lg m)
          then Some (lg ← do_write id n (lm_lg m); Ret (to lg (FWrite id (S n))))
          else if Z.of_nat n =? lg_buffer_size (lm_lg m) then Some (Ret (to (lm_lg m) FWritten)) else None
      | FWritten => Some (Ret (to (lm_lg m) FSynced))
      | FSynced => Some (Ret (to (do_advance (lm_lg m)) FPoll))
      | FStopped => None
      end
  end.

Lemma play1_mstep (entry : obj -> Prop) a m o :
  play1 a m = Some o -> (forall val, a = Acquire val -> entry val) -> mstep reliable entry m o.
Proof.
  intros Ho He. destruct a as [val|i|]; simpl in Ho.
  - injection Ho as <-. by apply step_acquire, He.
  - destruct (lm_copies m !! i) as [c|] eqn:Hi; [|done]. simpl in Ho. pose proof (take_drop_middle _ _ _ Hi) as E.
    destruct (Nat.ltb_spec (cp_done c) (length (cp_val c))).
    + injection Ho as <-. by apply step_copy.
    + destruct (Nat.eqb_spec (cp_done c) (length (cp_val c))); [|done]. injection Ho as <-. by eapply step_appended.
  - destruct (lm_flusher m) as [| |cur|id n| | |] eqn:Ef.
    + injection Ho as <-. by apply step_poll.
    + injection Ho as <-. by apply step_load.
    + injection Ho as <-. by apply step_check.
    + destruct (Z.ltb_spec (Z.of_nat n) (lg_buffer_size (lm_lg m))); [injection Ho as <-; by apply step_write|].
      destruct (Z.eqb_spec (Z.of_nat n) (lg_buffer_size (lm_lg m))); [|done]. injection Ho as <-.
      eapply step_written; [done|by left].
    + injection Ho as <-. by apply (step_sync reliable).
    + injection Ho as <-. by apply step_advance.
    + done.
Qed.

Fixpoint play (ok : log_machine -> bool) (accesses : list access) (m : log_machine) : option log_machine :=
  match accesses with
  | [] => Some m
  | a :: accesses =>
      match play1 a m with
      | Some (Ret m') => if ok m' then play ok accesses m' else None
      | _ => None
      end
  end.

Definition entry_of (a : access) : obj := match a with Acquire val => val | _ => [] end.

Lemma play_msteps (entry : obj -> Prop) (P : log_machine -> Prop) ok accesses m m' :
  (forall m, ok m = true -> P m) -> Forall (fun a => a = Acquire (entry_of a) -> entry (entry_of a)) accesses ->
  play ok accesses m = Some m' -> msteps reliable entry P m m'.
Proof.
  intros HP Hall. revert m. induction Hall as [|a accesses Ha _ IH]; intros m; simpl.
  - intros [= ->]. apply rtc_refl.
  - destruct (play1 a m) as [[m1| | |]|] eqn:E; [|done..]. destruct (ok m1) eqn:Eok; [|done]. intros Hp.
    eapply rtc_l; [|by apply IH]. split; [|by apply HP]. eapply play1_mstep; [done|].
    intros val ->. by apply Ha.
Qed.

#[export] Instance disciplined_dec m : Decision (disciplined m).
Proof. unfold disciplined. apply _. Defined.

Definition small_log : Logger := mkLogger 0 0 0 2 false [[0; 0]; [0; 0]] [].

(** Two appends, then a third while the flushing thread is writing. *)
Definition overlapping : log_machine :=
  mkLM (mkLogger 0 3 0 2 false [[7; 8]; [0; 0]] [7]) [mkCopy 1 0 [9] 0 2] (FWrite 0 1) [7; 8; 9].

Lemma overlapping_run : msteps reliable (fun _ => True) disciplined (start small_log) overlapping.
Proof.
  eapply (play_msteps _ _ (fun m => bool_decide (disciplined m))
            [Acquire [7]; Advance 0; FlushStep; Acquire [8]; Advance 0; Advance 1; FlushStep; Advance 0;
             FlushStep; FlushStep; Acquire [9]]).
  - intros m. apply bool_decide_eq_true_1.
  - repeat constructor; done.
  - vm_compute. reflexivity.
Qed.

(** While the first buffer is written, a reservation of two bytes would cross
    the end of the second. *)
Lemma flush_keeps_log_prefix_witness :
  (exists n, lg_file (lm_lg overlapping) = take n (lm_log overlapping) /\ 0 <= Z.of_nat n <= 3) /\
  do_acquire [10; 11] (lm_lg overlapping) = Undef.
Proof.
  destruct (flush_keeps_log_prefix 2 ltac:(lia) [0; 0] [0; 0] eq_refl eq_refl _
              small_log overlapping eq_refl overlapping_run) as (H & _ & _ & Hacq).
  split; [exact H|]. apply (Hacq [10; 11]); vm_compute; congruence.
Defined.

#[export] Instance paced_dec m : Decision (paced m).
Proof. unfold paced, ahead. apply _. Defined.

(** Entries of one and of two bytes; the copy of the first is late when its
    buffer is written. *)
Definition racing : log_machine :=
  mkLM (mkLogger 0 5 0 3 false [[0; 8; 9]; [0; 0; 0]] [0])
    [mkCopy 1 0 [6; 5] 0 3; mkCopy 0 0 [7] 0 0] (FWrite 0 1) [7; 8; 9; 6; 5].

Lemma racing_run : msteps reliable (fun _ => True) paced (start (mkLogger 0 0 0 3 false [[0; 0; 0]; [0; 0; 0]] [])) racing.
Proof.
  eapply (play_msteps _ _ (fun m => bool_decide (paced m))
            [Acquire [7]; Acquire [8; 9]; Advance 0; Advance 0; Advance 0; FlushStep; FlushStep; FlushStep; FlushStep; Acquire [6; 5]]).
  - intros m. apply bool_decide_eq_true_1.
  - repeat constructor; done.
  - vm_compute. reflexivity.
Qed.

(** The late copy's slice is in the buffer being written, the other's is not. *)
Lemma log_accesses_race_free_witness :
  cp_id (mkCopy 0 0 [7] 0 0) = 0 /\ cp_id (mkCopy 1 0 [6; 5] 0 3) <> 0.
Proof.
  destruct (log_accesses_race_free 3 ltac:(lia) [0; 0; 0] [0; 0; 0] eq_refl eq_refl _ _ _ racing eq_refl racing_run) as [_ H].
  split.
  - apply (H 0 1%nat); [reflexivity|right; left|simpl; lia].
  - intros E. apply (H 0 1%nat) in E; [simpl in E; lia|reflexivity|left].
Defined.

(** The log after an entry has been lost. *)
Definition stale : log_machine :=
  mkLM (mkLogger 0 2 2 2 false [[7; 8]; [0; 0]] [0; 8]) [] FPoll [7; 8].

(** Appended values of [s] bytes. *)
Definition fixed_size (s : Z) (val : obj) : Prop := Z.of_nat (length val) = s.

(** C19: Without the discipline, what the comment on [Logger] warns of: an entry is
    reserved, the buffer it belongs to fills up and is flushed before the entry
    is copied, and the file holds stale bytes in its place, for good. *)
Theorem flush_may_lose_entry :
  msteps reliable (fixed_size 1) (fun _ => True) (start small_log) stale /\
  lg_flushed_offset (lm_lg stale) = Z.of_nat (length (lm_log stale)) /\
  ~ exists n, lg_file (lm_lg stale) = take n (lm_log stale).
Proof.
  split; [|split; [reflexivity|]].
  - eapply (play_msteps _ _ (fun _ => true)
              [Acquire [7]; Acquire [8]; Advance 0; Advance 0; FlushStep; FlushStep; FlushStep; FlushStep; FlushStep;
               FlushStep; FlushStep; FlushStep; Advance 0; Advance 0]); [done|repeat constructor; done|].
    vm_compute. reflexivity.
  - intros (n & Hn). destruct n; discriminate Hn.
Qed.
