(* ===== verification/LogTests.v ===== *)
(** * The test of the log (src/log/mod.rs, [tests::basic])

    Threads log entries of one size while the main thread polls
    [try_flush_logs] until all have finished; then the number of flushes and
    the sequence number are asserted.  The model runs a schedule of the
    threads and of the main loop. *)

From S2P Require Import Prelude Logger.

(** The turn of a logging thread, or of the main loop. *)
Inductive turn := TThread (i : nat) | TMain.

(** [bt_left] has, for each thread, how many entries it still logs; [None] once
    it has counted itself as finished. *)
Record basic_test := mkBasic { bt_logger : Logger; bt_left : list (option nat); bt_flush_cnt : Z }.

Definition finished (left : list (option nat)) : bool := forallb (fun l => negb (bool_decide (is_Some l))) left.

Section basic.
(** [buffer] is the entry that every thread logs. *)
Variable buffer : obj.

Definition log_entry_turn (lg : Logger) : outcome Logger :=
  let '(_lsn, lg) := acquire_lsn lg in
  append_log buffer lg.

(** A turn of a thread that has finished, or of the main loop after it has left
    the loop, is no step. *)
Definition basic_turn (tn : turn) (bt : basic_test) : outcome basic_test :=
  match tn with
  | TThread i =>
      match bt_left bt !! i with
      | Some (Some (S k)) =>
          lg ← log_entry_turn (bt_logger bt);
          Ret (mkBasic lg (<[i := Some k]> (bt_left bt)) (bt_flush_cnt bt))
      | Some (Some O) => Ret (mkBasic (bt_logger bt) (<[i := None]> (bt_left bt)) (bt_flush_cnt bt))
      | _ => Ret bt
      end
  | TMain =>
      if finished (bt_left bt) then Ret bt
      else
        '(r, lg) ← try_flush_logs (Some (Z.to_nat (lg_buffer_size (bt_logger bt)))) true (bt_logger bt);
        Ret (mkBasic lg (bt_left bt) (match r with Ok _ => bt_flush_cnt bt + 1 | Err _ => bt_flush_cnt bt end))
  end.

Fixpoint basic_turns (sched : list turn) (bt : basic_test) : outcome basic_test :=
  match sched with
  | [] => Ret bt
  | tn :: sched => bt ← basic_turn tn bt; basic_turns sched bt
  end.

(** The main loop and the joins return only once all threads have finished. *)
Definition basic (buffer_size : Z) (logger_thread log_entry : nat) (b0 b1 : obj) (sched : list turn) : outcome unit :=
  lg ← Logger_with_buffer_size buffer_size b0 b1;
  bt ← basic_turns sched (mkBasic lg (replicate logger_thread (Some log_entry)) 0);
  if negb (finished (bt_left bt)) then Spin
  else
    let log_bytes := Z.of_nat log_entry * Z.of_nat logger_thread * Z.of_nat (length buffer) in
    let expected_flush := log_bytes / buffer_size in
    let expected_diff := bt_flush_cnt bt - expected_flush in
    _ ← rassert (0 <=? expected_diff);
    _ ← rassert (expected_diff <=? 1);
    let expected_lsn := Z.of_nat log_entry * Z.of_nat logger_thread in
    rassert (expected_lsn =? lg_lsn (bt_logger bt)).

(** ** The state of the test *)
Variables (B : Z) (total : nat).
Abbreviation s := (Z.of_nat (length buffer)).
Hypothesis Hs : 0 < s <= MAX_LOG_LEN.
Hypothesis HB : 0 < B < 2 ^ 61.
Hypothesis HBs : B mod s = 0.
Hypothesis Htotal : Z.of_nat total * s < 2 ^ 62.

(** How many entries the threads still log. *)
Definition entries_left (left : list (option nat)) : nat := sum_list (default O <$> left).

Definition basic_inv (bt : basic_test) : Prop :=
  exists log, log_inv (bt_logger bt) log /\ lg_buffer_size (bt_logger bt) = B /\
    lg_cur_offset (bt_logger bt) = (Z.of_nat total - Z.of_nat (entries_left (bt_left bt))) * s /\
    (entries_left (bt_left bt) <= total)%nat /\
    lg_flushed_offset (bt_logger bt) = bt_flush_cnt bt * B /\
    lg_lsn (bt_logger bt) = Z.of_nat total - Z.of_nat (entries_left (bt_left bt)).

(** The buffers have room for one more entry. *)
Definition keeps_up (bt : basic_test) : bool :=
  lg_cur_offset (bt_logger bt) + s <? lg_flushed_offset (bt_logger bt) + 2 * lg_buffer_size (bt_logger bt).

(** They have before every turn of a thread. *)
Definition turn_ok (tn : turn) (bt : basic_test) : bool :=
  match tn with TThread _ => keeps_up bt | TMain => true end.

Fixpoint paced_turns (sched : list turn) (bt : basic_test) : bool :=
  match sched with
  | [] => true
  | tn :: sched =>
      turn_ok tn bt && match basic_turn tn bt with Ret bt => paced_turns sched bt | _ => true end
  end.

Lemma entries_insert left i k l :
  left !! i = Some l -> (entries_left (<[i := k]> left) + default O l = entries_left left + default O k)%nat.
Proof.
  unfold entries_left. revert i. induction left as [|x left IH]; intros [|i] E; simplify_eq/=; [lia|].
  apply IH in E. lia.
Qed.

Lemma log_entry_turn_ok lg log :
  log_inv lg log -> lg_buffer_size lg = B -> lg_cur_offset lg mod s = 0 -> lg_cur_offset lg + s < 2 ^ 64 ->
  lg_cur_offset lg + s < lg_flushed_offset lg + 2 * B ->
  exists lg', log_entry_turn lg = Ret lg' /\ log_inv lg' (log ++ buffer) /\ lg_buffer_size lg' = B /\
    lg_cur_offset lg' = lg_cur_offset lg + s /\ lg_flushed_offset lg' = lg_flushed_offset lg /\
    lg_lsn lg' = wrap 64 (lg_lsn lg + 1).
Proof.
  intros I EB Hm H64 Hp. unfold log_entry_turn, acquire_lsn. set (lg1 := mkLogger _ _ _ _ _ _ _).
  assert (I1 : log_inv lg1 log) by exact I. pose proof I as (_ & _ & _ & Hcur & _).
  destruct (append_log_ok lg1 log buffer I1) as (lg' & E & I' & EB' & Ef); cbn [lg_buffer_size lg_cur_offset lg_flushed_offset lg1] in *;
    [lia| |lia|lia|].
  - rewrite EB. pose proof (Z.mod_pos_bound (lg_cur_offset lg) B).
    apply divides_fits; [lia|lia|apply mod_of_multiple; lia|done].
  - exists lg'. split; [exact E|]. split; [done|]. split; [congruence|].
    assert (Ec : lg_cur_offset lg' = lg_cur_offset lg + s)
      by (destruct I' as (_ & _ & _ & -> & _); rewrite length_app; lia).
    split; [done|]. split; [done|]. unfold append_log, acquire_log_buffer in E. inv_ret.
    destruct x as [[? ?] ?]. inv_ret. by simplify_eq.
Qed.

Lemma try_flush_lsn written synced lg r lg' : try_flush_logs written synced lg = Ret (r, lg') -> lg_lsn lg' = lg_lsn lg.
Proof.
  unfold try_flush_logs, flush_buffer. intros E. apply bind_Ret_inv in E as (d & _ & E).
  destruct (d <? _); inv_ret; by simplify_eq.
Qed.

Lemma basic_turn_ok tn bt :
  basic_inv bt -> turn_ok tn bt = true -> exists bt', basic_turn tn bt = Ret bt' /\ basic_inv bt'.
Proof.
  intros (log & I & EB & Ec & Hle & Ef & El) Hup. destruct tn as [i|]; cbn [basic_turn turn_ok] in *.
  - apply Z.ltb_lt in Hup. destruct (bt_left bt !! i) as [[[|k]|]|] eqn:Ei; try by (exists bt; split; [done|]; by exists log).
    + eexists. split; [done|]. exists log. pose proof (entries_insert _ _ None _ Ei) as E. cbn [bt_left bt_logger bt_flush_cnt default] in *. unfold id in E.
      split; [done|]. split; [done|]. split; [rewrite Ec; f_equal; lia|]. split; [lia|]. split; [done|lia].
    + pose proof (entries_insert _ _ (Some k) _ Ei) as E. cbn [default] in E. unfold id in E.
      destruct (log_entry_turn_ok _ _ I EB) as (lg' & -> & I' & EB' & Ec' & Ef' & El'); [|nia|lia|].
      { rewrite Ec. apply Z.mod_mul. lia. }
      runm. eexists. split; [done|]. exists (log ++ buffer). cbn [bt_left bt_logger bt_flush_cnt].
      split; [done|]. split; [done|]. split; [rewrite Ec', Ec; nia|]. split; [lia|]. split; [congruence|].
      rewrite El', El. rewrite wrap_small; [lia|unfold fits; nia].
  - destruct (finished _); [by (exists bt; split; [done|]; by exists log)|].
    destruct (flush_ok _ _ I) as (r & lg' & E & I' & EB' & Hr); [nia|lia|]. rewrite E. runm. eexists. split; [done|].
    assert (Ec' : lg_cur_offset lg' = lg_cur_offset (bt_logger bt))
      by (destruct I as (_ & _ & _ & -> & _), I' as (_ & _ & _ & -> & _); done).
    exists log. cbn [bt_left bt_logger bt_flush_cnt].
    split; [done|]. split; [congruence|]. split; [congruence|]. split; [done|]. rewrite (try_flush_lsn _ _ _ _ _ E).
    split; [|done]. destruct r; destruct Hr as (? & Hr & _); [rewrite Hr; lia|by subst lg'].
Qed.

Lemma basic_turns_ok sched bt :
  basic_inv bt -> paced_turns sched bt = true -> exists bt', basic_turns sched bt = Ret bt' /\ basic_inv bt'.
Proof.
  revert bt. induction sched as [|tn sched IH]; intros bt Hi; [by exists bt|]. cbn [basic_turns paced_turns].
  intros [Hup Hp]%andb_true_iff. destruct (basic_turn_ok tn bt Hi Hup) as (bt1 & E & Hi1). rewrite E in *. runm. by apply IH.
Qed.
End basic.

(** For schedules in which the flushing keeps up, the test passes exactly if the
    main loop polled once more after the last full buffer: if the threads
    finish with a full buffer left to flush, it is never flushed and the test
    fails. *)
Theorem basic_passes buffer B logger_thread log_entry b0 b1 sched :
  0 < Z.of_nat (length buffer) <= MAX_LOG_LEN -> 0 < B < 2 ^ 61 -> B mod Z.of_nat (length buffer) = 0 ->
  Z.of_nat (log_entry * logger_thread) * Z.of_nat (length buffer) < 2 ^ 62 ->
  Z.of_nat (length b0) = B -> Z.of_nat (length b1) = B ->
  let bt0 := mkBasic (mkLogger 0 0 0 B false [b0; b1] []) (replicate logger_thread (Some log_entry)) 0 in
  paced_turns buffer sched bt0 = true ->
  exists bt, basic_turns buffer sched bt0 = Ret bt /\
    basic buffer B logger_thread log_entry b0 b1 sched =
      if negb (finished (bt_left bt)) then Spin
      else if lg_cur_offset (bt_logger bt) - lg_flushed_offset (bt_logger bt) <? B then Ret tt else Panic.
Proof.
  intros Hs HB HBs Htotal H0 H1 bt0 Hup.
  destruct (basic_turns_ok buffer B (log_entry * logger_thread) Hs ltac:(lia) HBs Htotal sched bt0) as (bt & E & Hi); [|done|].
  - exists []. unfold bt0. cbn [bt_logger bt_left bt_flush_cnt lg_buffer_size lg_cur_offset lg_flushed_offset lg_lsn].
    assert (Ee : entries_left (replicate logger_thread (Some log_entry)) = (log_entry * logger_thread)%nat).
    { clear. unfold entries_left. induction logger_thread as [|m IH]; cbn [replicate fmap list_fmap sum_list]; [lia|].
      change (id (default 0%nat (Some log_entry))) with log_entry. lia. }
    rewrite Ee. split; [by apply new_log_inv; [lia|..]|]. split; [done|]. split; [lia|]. split; [done|]. lia.
  - exists bt. split; [done|]. unfold basic, Logger_with_buffer_size, layout_ok, MAX_LOG_LEN in *.
    rewrite (proj2 (Z.leb_le _ _)) by lia. runm. unfold bt0 in E. rewrite E. runm.
    destruct (finished (bt_left bt)) eqn:Ef; [|done]. cbn [negb].
    destruct Hi as (log & (_ & _ & _ & _ & _ & Hfl & Hd & _) & EB & Ec & _ & Efl & El).
    assert (entries_left (bt_left bt) = O) as E0.
    { clear -Ef. unfold entries_left. induction (bt_left bt) as [|[k|] l IH]; [done|done|]. by apply IH. }
    rewrite E0 in *. rewrite EB in *. rewrite Nat2Z.inj_mul in *. rewrite Z.sub_0_r in *.
    set (f := bt_flush_cnt bt) in *. set (c := Z.of_nat log_entry * Z.of_nat logger_thread * Z.of_nat (length buffer)) in *.
    rewrite El, Ec, Efl, Z.eqb_refl. unfold rassert.
    destruct (Z.ltb_spec (c - f * B) B).
    + assert (c / B = f) as -> by (symmetry; apply Z.div_unique with (c - f * B); lia).
      rewrite Z.sub_diag. done.
    + assert (c / B = f + 1) as -> by (symmetry; apply Z.div_unique with (c - f * B - B); lia).
      replace (f - (f + 1)) with (-1) by lia. done.
Qed.

(** One thread logs two entries, each of which fills a buffer: polled after the
    second one, or not. *)
Lemma basic_passes_witness :
  basic [1; 2] 2 1 2 [0; 0] [0; 0] [TThread 0; TMain; TThread 0; TMain; TThread 0] = Ret tt.
Proof.
  destruct (basic_passes [1; 2] 2 1 2 [0; 0] [0; 0] [TThread 0; TMain; TThread 0; TMain; TThread 0]) as (bt & E & ->);
    [unfold MAX_LOG_LEN; simpl; lia|lia|done|simpl; lia|done|done|reflexivity|vm_compute in E; injection E as <-; reflexivity].
Defined.

(** Not polled after the second entry, the test fails. *)
Example basic_unpolled :
  basic [1; 2] 2 1 2 [0; 0] [0; 0] [TThread 0; TMain; TThread 0; TThread 0] = Panic.
Proof. reflexivity. Qed.
