(* ===== verification/InsertOnly.v ===== *)
(** * The insert-only table (src/table.rs)

    Each thread fills a page of its own and, when it is full, copies it to the
    next free page of the mapped pool; nothing is ever read back.  The pages of
    the pool are blocks of the allocator of [ObjAlloc], in the same memory of
    words. *)

From S2P Require Import Prelude Query Schema External ObjAlloc.

Definition HUGEPAGE_SIZE : Z := 2 * 1024 * 1024.

Lemma HUGEPAGE_SIZE_eq : HUGEPAGE_SIZE = 2097152.
Proof. reflexivity. Qed.

#[global] Opaque HUGEPAGE_SIZE.

(** ** [nt_copy_nonoverlapping] (src/utils/nt_copy.rs), into the pool *)
Fixpoint copy_words (n : nat) (i : Z) (src : obj) (dst : Z) (mem : wmem) : wmem :=
  match n with
  | O => mem
  | S n => copy_words n (i + 1) src dst (<[dst + 8 * i := le_word (load src (Z.to_nat (8 * i)) 8)]> mem)
  end.

Definition nt_copy_nonoverlapping (src : obj) (dst size : Z) (mem : wmem) : outcome wmem :=
  _ ← in_bounds (size <=? Z.of_nat (length src));
  Ret (copy_words (Z.to_nat (size / 8)) 0 src dst mem).

(** ** [PageBuffer<T>]: a page being filled, [next] the next free place *)
Record PageBuffer := mkPage { pb_next : Z; pb_data : obj }.

Section insert_only.
Context {M : Type} `{KvMap PageBuffer M}.
(** [size_of::<T>()]. *)
Variable sz : Z.

Definition CAP : Z := HUGEPAGE_SIZE / sz.

Definition PageBuffer_new : PageBuffer := mkPage 0 (replicate (Z.to_nat HUGEPAGE_SIZE) 0).

Definition try_insert (value : obj) (p : PageBuffer) : outcome (result unit obj * PageBuffer) :=
  let next := pb_next p in
  if next <? CAP then
    data ← raw_write (pb_data p) (next * sz) value;
    Ret (Ok tt, mkPage (wrap 64 (next + 1)) data)
  else Ret (Err value, p).

Definition reset_index (p : PageBuffer) : PageBuffer := mkPage 0 (pb_data p).

(** ** [InsertonlyTable<T>] *)
Record InsertonlyTable := mkInsertonly {
  io_storage : ArrayAllocator;
  io_tls_pages : M;
  io_mem : wmem;
}.

(** [addr] is the mapping that [PmHeap::alloc_frame] returns for the rounded
    size. *)
Definition InsertonlyTable_new (cap : Z) (addr : Z) (mem : wmem) : outcome InsertonlyTable :=
  size ← chk 64 (cap * sz);
  size ← align_up size HUGEPAGE_SIZE;
  let pm_page_cnt := size / HUGEPAGE_SIZE in
  '(storage, mem) ← ArrayAllocator_new HUGEPAGE_SIZE 8 pm_page_cnt addr mem;
  Ret (mkInsertonly storage kv_empty mem).

Definition InsertonlyTable_reset (t : InsertonlyTable) : outcome InsertonlyTable :=
  '(storage, mem) ← ArrayAllocator_reset HUGEPAGE_SIZE (io_storage t) (io_mem t);
  Ret (mkInsertonly storage kv_empty mem).

(** A page is shared by reference: an update of it is an update of the map. *)
Definition put_page (t : InsertonlyTable) (tid : Z) (p : PageBuffer) : InsertonlyTable :=
  mkInsertonly (io_storage t) (kv_insert (io_tls_pages t) tid p) (io_mem t).

(** Calls itself once more after inserting a new page. *)
Fixpoint get_tls_page (fuel : nat) (tid : Z) (t : InsertonlyTable)
    : outcome (PageBuffer * InsertonlyTable) :=
  match fuel with
  | O => Spin
  | S fuel =>
      match kv_get (io_tls_pages t) tid with
      | Some v => Ret (v, t)
      | None => get_tls_page fuel tid (put_page t tid PageBuffer_new)
      end
  end.

Definition InsertonlyTable_insert (tid : Z) (tuple : obj) (t : InsertonlyTable)
    : outcome InsertonlyTable :=
  '(page, t) ← get_tls_page 2 tid t;
  '(r, page) ← try_insert tuple page;
  match r with
  | Ok _ => Ret (put_page t tid page)
  | Err tuple =>
      '(a, storage) ← ArrayAllocator_alloc HUGEPAGE_SIZE (io_storage t) (io_mem t);
      '(_, pm_page) ← unwrap_ok a;
      mem ← nt_copy_nonoverlapping (pb_data page) pm_page HUGEPAGE_SIZE (io_mem t);
      let page := reset_index page in
      '(_, page) ← try_insert tuple page;
      Ret (put_page (mkInsertonly storage (io_tls_pages t) mem) tid page)
  end.
End insert_only.
Arguments InsertonlyTable M : clear implicits.

(** ** Pages in the pool *)

(** The page at [addr] holds the bytes [bs]. *)
Definition page_at (mem : wmem) (addr : Z) (bs : obj) : Prop :=
  forall j, 0 <= j < HUGEPAGE_SIZE / 8 ->
    mem !! (addr + 8 * j) = Some (le_word (load bs (Z.to_nat (8 * j)) 8)).

Lemma copy_words_ok n i src dst mem :
  (forall j, i <= j < i + Z.of_nat n ->
     copy_words n i src dst mem !! (dst + 8 * j) = Some (le_word (load src (Z.to_nat (8 * j)) 8))) /\
  (forall a, a < dst + 8 * i \/ dst + 8 * (i + Z.of_nat n) <= a -> copy_words n i src dst mem !! a = mem !! a).
Proof.
  revert i mem. induction n as [|n IH]; intros i mem; cbn [copy_words]; [split; [lia|done]|].
  destruct (IH (i + 1) (<[dst + 8 * i := le_word (load src (Z.to_nat (8 * i)) 8)]> mem)) as [H1 H2].
  split.
  - intros j Hj. destruct (decide (j = i)) as [->|]; [|apply H1; lia].
    rewrite H2 by lia. apply lookup_insert_eq.
  - intros a Ha. rewrite H2 by lia. apply lookup_insert_ne. lia.
Qed.

Lemma nt_copy_ok src dst mem :
  Z.of_nat (length src) = HUGEPAGE_SIZE ->
  exists mem', nt_copy_nonoverlapping src dst HUGEPAGE_SIZE mem = Ret mem' /\ page_at mem' dst src /\
    (forall a, a < dst \/ dst + HUGEPAGE_SIZE <= a -> mem' !! a = mem !! a).
Proof.
  intros Hl. unfold nt_copy_nonoverlapping. rewrite (proj2 (Z.leb_le _ _)) by lia. runm.
  eexists. split; [done|]. pose proof HUGEPAGE_SIZE_eq as E.
  destruct (copy_words_ok (Z.to_nat (HUGEPAGE_SIZE / 8)) 0 src dst mem) as [H1 H2].
  rewrite E in *. change (2097152 / 8) with 262144 in *. split.
  - intros j Hj. apply H1. rewrite E in Hj. change (2097152 / 8) with 262144 in Hj. lia.
  - intros a Ha. apply H2. lia.
Qed.

(** The words of a page determine its bytes. *)
Lemma le_word_inj bs bs' :
  length bs = length bs' -> Forall (fits 8) bs -> Forall (fits 8) bs' -> le_word bs = le_word bs' -> bs = bs'.
Proof.
  intros Hl Hb. revert bs' Hl. induction Hb as [|b bs Hb _ IH]; intros [|b' bs'] Hl Hb'; try discriminate Hl; [done|].
  inversion Hb' as [|? ? Hb1 Hb2]; subst. unfold fits in *. cbn [le_word]. intros E.
  assert (b = b' /\ le_word bs = le_word bs') as [-> E'] by lia. f_equal. apply IH; [simpl in Hl; lia|done|done].
Qed.

Lemma page_at_inj mem addr bs bs' :
  page_at mem addr bs -> page_at mem addr bs' -> Z.of_nat (length bs) = HUGEPAGE_SIZE ->
  length bs' = length bs -> Forall (fits 8) bs -> Forall (fits 8) bs' -> bs = bs'.
Proof.
  intros H1 H2 Hl Hl' Hb Hb'. pose proof HUGEPAGE_SIZE_eq as E. apply list_eq. intros i.
  destruct (decide (i < length bs)%nat); [|by rewrite !lookup_ge_None_2 by lia].
  assert (Hw : load bs (8 * (i / 8)) 8 = load bs' (8 * (i / 8)) 8).
  { assert (Hi : Z.of_nat (i / 8) < 262144)
      by (rewrite Nat2Z.inj_div; apply Z.div_lt_upper_bound; lia).
    specialize (H1 (Z.of_nat (i / 8))). specialize (H2 (Z.of_nat (i / 8))). rewrite E in H1, H2.
    change (2097152 / 8) with 262144 in *. rewrite H1 in H2 by lia. specialize (H2 ltac:(lia)).
    replace (Z.to_nat (8 * Z.of_nat (i / 8))) with (8 * (i / 8))%nat in H2 by lia. injection H2 as H2.
    assert (8 * Z.of_nat (i / 8) + 8 <= Z.of_nat (length bs)) by lia.
    apply le_word_inj; [rewrite !length_load by lia; done| | |done];
      unfold load; by apply Forall_take, Forall_drop. }
  pose proof (Nat.div_mod i 8 ltac:(lia)) as Ei. pose proof (Nat.mod_upper_bound i 8 ltac:(lia)).
  apply (f_equal (lookup (i mod 8)%nat)) in Hw. rewrite !lookup_load, !decide_True in Hw by lia.
  by replace (8 * (i / 8) + i mod 8)%nat with i in Hw by lia.
Qed.

(** ** What the table holds *)
Section insert_only_ok.
Context {M : Type} `{KvMapLaws PageBuffer M}.
Variable sz : Z.
Hypothesis Hsz : 0 < sz <= HUGEPAGE_SIZE.
(** The pages of the pool. *)
Variable C : Z.

Definition page_tuples (n : Z) (data : obj) : list obj :=
  map (fun j => load data (j * Z.to_nat sz) (Z.to_nat sz)) (seq 0 (Z.to_nat n)).

(** [pages] are the full pages in the pool, oldest first, with the thread that
    filled each; the allocator hands out the blocks from the last one down. *)
Definition page_addr (t : InsertonlyTable M) (n : nat) : Z :=
  aa_start (io_storage t) + (aa_cap (io_storage t) - 1 - Z.of_nat n) * HUGEPAGE_SIZE.

Definition page_ok (p : PageBuffer) : Prop :=
  0 <= pb_next p <= CAP sz /\ Z.of_nat (length (pb_data p)) = HUGEPAGE_SIZE.

Definition io_inv (t : InsertonlyTable M) (pages : list (Z * obj)) : Prop :=
  aa_inv HUGEPAGE_SIZE (io_mem t) (io_storage t) /\ aa_cap (io_storage t) = C /\
  Z.of_nat (length pages) = C - remaining HUGEPAGE_SIZE (io_storage t) /\
  (forall n tid bs, pages !! n = Some (tid, bs) -> page_at (io_mem t) (page_addr t n) bs) /\
  (forall tid p, kv_get (io_tls_pages t) tid = Some p -> page_ok p).

(** All tuples of a thread, in the order of its places. *)
Definition buffered (t : InsertonlyTable M) (tid : Z) : list obj :=
  match kv_get (io_tls_pages t) tid with
  | Some p => page_tuples (pb_next p) (pb_data p)
  | None => []
  end.

Definition thread_tuples (t : InsertonlyTable M) (pages : list (Z * obj)) (tid : Z) : list obj :=
  concat (map (fun p => page_tuples (CAP sz) p.2) (filter (fun p => p.1 = tid) pages)) ++ buffered t tid.

(** The table holds the tuples of [log], each with the thread that inserted it:
    per thread, all of them and in their order. *)
Definition io_holds (t : InsertonlyTable M) (pages : list (Z * obj)) (log : list (Z * obj)) : Prop :=
  io_inv t pages /\ forall tid, thread_tuples t pages tid = map snd (filter (fun e => e.1 = tid) log).

Lemma CAP_fits n : 0 <= n < CAP sz -> 0 <= n * sz /\ n * sz + sz <= HUGEPAGE_SIZE.
Proof.
  intros Hn. unfold CAP in Hn. pose proof (Z.mul_div_le HUGEPAGE_SIZE sz ltac:(lia)).
  assert ((n + 1) * sz <= HUGEPAGE_SIZE / sz * sz) by (apply Z.mul_le_mono_nonneg_r; lia). nia.
Qed.

Lemma CAP_bounds : 0 < CAP sz /\ CAP sz <= HUGEPAGE_SIZE.
Proof.
  unfold CAP. split; [apply Z.div_str_pos; lia|]. apply Z.div_le_upper_bound; [lia|]. nia.
Qed.

Lemma page_tuples_store n data v :
  0 <= n < CAP sz -> Z.of_nat (length data) = HUGEPAGE_SIZE -> Z.of_nat (length v) = sz ->
  page_tuples (n + 1) (store data (Z.to_nat (n * sz)) v) = page_tuples n data ++ [v].
Proof.
  intros Hn Hd Hv. pose proof (CAP_fits n Hn). unfold page_tuples.
  replace (Z.to_nat (n + 1)) with (Z.to_nat n + 1)%nat by lia. rewrite seq_app, map_app. f_equal.
  - apply map_ext_in. intros j Hj%in_seq. apply load_store_disjoint. left. nia.
  - cbn [seq map]. f_equal. replace (Z.to_nat (n * sz)) with ((0 + Z.to_nat n) * Z.to_nat sz)%nat by nia.
    replace (Z.to_nat sz) with (length v) by lia. apply load_store_same. nia.
Qed.

Lemma try_insert_ok v p :
  page_ok p -> pb_next p < CAP sz -> Z.of_nat (length v) = sz ->
  exists p', try_insert sz v p = Ret (Ok tt, p') /\ page_ok p' /\
    page_tuples (pb_next p') (pb_data p') = page_tuples (pb_next p) (pb_data p) ++ [v].
Proof.
  intros [Hn Hd] Hlt Hv. pose proof (CAP_fits (pb_next p) ltac:(lia)). pose proof CAP_bounds.
  pose proof HUGEPAGE_SIZE_eq. unfold try_insert. rewrite (proj2 (Z.ltb_lt _ _)) by done.
  rewrite raw_write_ok by lia. runm. rewrite wrap_small by (unfold fits; lia).
  eexists. split; [done|]. split; [split; cbn; [lia|by rewrite length_store]|].
  cbn [pb_next pb_data]. apply page_tuples_store; [lia|done|done].
Qed.

Lemma try_insert_full v p : pb_next p = CAP sz -> try_insert sz v p = Ret (Err v, p).
Proof. intros E. unfold try_insert. by rewrite (proj2 (Z.ltb_ge _ _)) by lia. Qed.

Lemma buffered_put t tid p tid' :
  buffered (put_page t tid p) tid' =
    if decide (tid = tid') then page_tuples (pb_next p) (pb_data p) else buffered t tid'.
Proof. unfold buffered. cbn. rewrite kv_get_insert. by case_decide. Qed.

Lemma io_inv_put t pages tid p : io_inv t pages -> page_ok p -> io_inv (put_page t tid p) pages.
Proof.
  intros (H1 & HC & H2 & H3 & H4) Hp. split; [done|]. split; [done|]. split; [done|]. split; [done|].
  intros tid' p'. cbn. rewrite kv_get_insert. case_decide; [by intros [= <-]|apply H4].
Qed.

Lemma new_page_ok : page_ok PageBuffer_new.
Proof.
  pose proof CAP_bounds. pose proof HUGEPAGE_SIZE_eq. split; cbn [PageBuffer_new pb_next pb_data]; [lia|].
  rewrite length_replicate. lia.
Qed.

Lemma get_tls_page_ok t pages log tid :
  io_holds t pages log ->
  exists p t1, get_tls_page 2 tid t = Ret (p, t1) /\ io_holds t1 pages log /\
    kv_get (io_tls_pages t1) tid = Some p /\ page_ok p /\
    io_storage t1 = io_storage t /\ io_mem t1 = io_mem t.
Proof.
  intros [Hi Hl]. cbn [get_tls_page]. destruct (kv_get (io_tls_pages t) tid) as [p|] eqn:E.
  - exists p, t. split; [done|]. split; [done|]. split; [done|]. split; [by eapply Hi|done].
  - cbn [put_page io_tls_pages]. rewrite kv_get_insert_eq. eexists _, _. split; [done|].
    split; [|split; [apply kv_get_insert_eq|split; [apply new_page_ok|done]]].
    split; [apply io_inv_put; [done|apply new_page_ok]|]. intros tid'. rewrite <-Hl. unfold thread_tuples. f_equal.
    fold (put_page t tid PageBuffer_new). rewrite buffered_put. case_decide; [subst|done].
    unfold buffered. by rewrite E.
Qed.

(** Tables that differ only in how their maps were built. *)
Definition io_eq (t t' : InsertonlyTable M) : Prop :=
  io_storage t = io_storage t' /\ io_mem t = io_mem t' /\
  forall tid, kv_get (io_tls_pages t) tid = kv_get (io_tls_pages t') tid.

#[local] Instance io_eq_equiv : Equivalence io_eq.
Proof.
  split.
  - done.
  - intros t t' (? & ? & ?). by split.
  - intros t1 t2 t3 (? & ? & E) (? & ? & E'). split; [congruence|]. split; [congruence|]. intros. by rewrite E, E'.
Qed.

#[local] Instance io_holds_proper : Proper (io_eq ==> eq ==> eq ==> iff) io_holds.
Proof.
  assert (forall t t' pages log, io_eq t t' -> io_holds t pages log -> io_holds t' pages log) as Himp.
  { intros t t' pages log (Es & Em & Ek) [(Ha & HC & Hn & Hpg & Hb) Hl]. split.
    - split; [by rewrite <-Es, <-Em|]. split; [by rewrite <-Es|]. split; [by rewrite <-Es|]. split.
      + intros n tid bs Hbs. unfold page_addr. rewrite <-Es, <-Em. by eapply Hpg.
      + intros tid p. rewrite <-Ek. apply Hb.
    - intros tid. rewrite <-Hl. unfold thread_tuples, buffered. by rewrite Ek. }
  intros t t' E pages ? <- log ? <-. split; apply Himp; [done|by symmetry].
Qed.

Lemma put_page_twice t tid p p' : io_eq (put_page (put_page t tid p) tid p') (put_page t tid p').
Proof. split; [done|]. split; [done|]. intros. cbn. rewrite !kv_get_insert. by repeat case_decide. Qed.

(** The thread's tuples after its buffer [p] took one more. *)
Lemma io_holds_push t pages log tid p p' v :
  io_holds t pages log -> kv_get (io_tls_pages t) tid = Some p -> page_ok p' ->
  page_tuples (pb_next p') (pb_data p') = page_tuples (pb_next p) (pb_data p) ++ [v] ->
  io_holds (put_page t tid p') pages (log ++ [(tid, v)]).
Proof.
  intros [Hi Hl] Hk Hp' E. split; [by apply io_inv_put|]. intros tid'. unfold thread_tuples.
  rewrite buffered_put, filter_app, map_app, <-Hl. unfold thread_tuples. rewrite <-app_assoc. f_equal.
  cbn [filter list_filter]. case_decide as D; case_decide as D'; cbn [fst] in *; try congruence.
  - subst. unfold buffered. by rewrite Hk, E.
  - by rewrite app_nil_r.
Qed.

(** The full buffer of a thread moves to the pool. *)
Definition flushed (t : InsertonlyTable M) (tid : Z) (p : PageBuffer) (storage : ArrayAllocator) (mem : wmem) :=
  put_page (mkInsertonly storage (io_tls_pages t) mem) tid (reset_index p).

Lemma io_holds_flush t pages log tid p :
  io_holds t pages log -> kv_get (io_tls_pages t) tid = Some p -> pb_next p = CAP sz -> page_ok p ->
  0 < remaining HUGEPAGE_SIZE (io_storage t) ->
  exists addr i storage mem,
    ArrayAllocator_alloc HUGEPAGE_SIZE (io_storage t) (io_mem t) = Ret (Ok (i, addr), storage) /\
    nt_copy_nonoverlapping (pb_data p) addr HUGEPAGE_SIZE (io_mem t) = Ret mem /\
    io_holds (flushed t tid p storage mem) (pages ++ [(tid, pb_data p)]) log.
Proof.
  intros [(Ha & HC & Hn & Hpg & Hb) Hl] Hk Hfull [Hnx Hd] Hr. pose proof HUGEPAGE_SIZE_eq as E.
  destruct (alloc_take HUGEPAGE_SIZE (io_storage t) (io_mem t)) as (Ealloc & Ha' & Hr'); [lia|done|done|].
  set (k := remaining HUGEPAGE_SIZE (io_storage t)) in *. pose proof Ha as (Hk' & _).
  set (start := aa_start (io_storage t)) in *. set (a' := mkArrayAllocator _ _ _) in *.
  destruct (nt_copy_ok (pb_data p) (start + (k - 1) * HUGEPAGE_SIZE) (io_mem t) Hd) as (mem & Ecopy & Hat & Hframe).
  exists (start + (k - 1) * HUGEPAGE_SIZE), (k - 1), a', mem. split; [done|]. split; [done|].
  split.
  - apply io_inv_put; [|pose proof CAP_bounds; split; cbn; [lia|done]].
    split; [|split; [done|split; [|split]]]; cbn [io_storage io_mem io_tls_pages].
    + apply (aa_inv_frame _ (io_mem t)); [done|]. rewrite Hr'. intros i Hi. apply Hframe. left. cbn. fold start.
      nia.
    + rewrite Hr', length_app. cbn. lia.
    + intros n tid' bs Hbs. unfold page_addr. cbn. fold start. apply lookup_app_Some in Hbs as [Hbs|[Hge Hbs]].
      * apply lookup_lt_Some in Hbs as Hlt. specialize (Hpg n tid' bs Hbs). unfold page_addr in Hpg. fold start in Hpg.
        intros j Hj. rewrite Hframe; [by apply Hpg|]. right. rewrite E in *. change (2097152 / 8) with 262144 in Hj.
        nia.
      * apply list_lookup_singleton_Some in Hbs as [Hz [= <- <-]].
        by replace (aa_cap (io_storage t) - 1 - Z.of_nat n) with (k - 1) by lia.
    + done.
  - intros tid'. rewrite <-Hl. unfold thread_tuples, flushed. rewrite buffered_put, filter_app, map_app, concat_app, <-app_assoc.
    f_equal. cbn [filter list_filter]. case_decide as D; case_decide as D'; cbn [fst] in *; try congruence.
    + subst. cbn [map concat snd]. rewrite app_nil_r. unfold buffered. rewrite Hk, Hfull. by rewrite app_nil_r.
    + done.
Qed.

(** The pool has no page left for the thread's full buffer. *)
Definition out_of_pages (t : InsertonlyTable M) (pages : list (Z * obj)) (tid : Z) : Prop :=
  Z.of_nat (length pages) = C /\
  exists p, kv_get (io_tls_pages t) tid = Some p /\ pb_next p = CAP sz.

Lemma insert_ok t pages log tid v :
  io_holds t pages log -> Z.of_nat (length v) = sz ->
  (exists t' pages', InsertonlyTable_insert sz tid v t = Ret t' /\ io_holds t' pages' (log ++ [(tid, v)])) \/
  (InsertonlyTable_insert sz tid v t = Panic /\ out_of_pages t pages tid).
Proof.
  intros Hh Hv. destruct (get_tls_page_ok t pages log tid Hh) as (p & t1 & Eg & Hh1 & Hk & Hp & Es & Em).
  unfold InsertonlyTable_insert. rewrite Eg. runm.
  destruct (decide (pb_next p < CAP sz)) as [Hlt|Hge].
  - destruct (try_insert_ok v p Hp Hlt Hv) as (p' & -> & Hp' & Et). runm. left.
    exists (put_page t1 tid p'), pages. split; [done|]. by eapply io_holds_push.
  - assert (Hfull : pb_next p = CAP sz) by (destruct Hp; lia).
    rewrite (try_insert_full v p Hfull). runm.
    pose proof Hh1 as [(Ha & HC & Hn & _ & _) _]. pose proof Ha as (Hrem & _).
    destruct (decide (remaining HUGEPAGE_SIZE (io_storage t1) = 0)) as [Hz|Hnz].
    + right. rewrite (alloc_full _ _ _ Ha Hz). runm. split; [done|]. split; [lia|].
      exists p. split; [|done]. cbn [get_tls_page] in Eg. destruct (kv_get (io_tls_pages t) tid) eqn:E0; [congruence|].
      cbn in Eg. rewrite kv_get_insert_eq in Eg. injection Eg as <- _. cbn in Hfull. pose proof CAP_bounds. lia.
    + destruct (io_holds_flush t1 pages log tid p Hh1 Hk Hfull Hp) as (addr & i & st & mem & -> & Ec & Hh2); [lia|].
      runm. rewrite Ec. runm. pose proof CAP_bounds as [Hcap _].
      destruct (try_insert_ok v (reset_index p)) as (p' & -> & Hp' & Et); [split; [cbn; lia|apply Hp]|done|done|]. runm.
      left. eexists _, (pages ++ [(tid, pb_data p)]). split; [done|].
      rewrite <-(put_page_twice _ _ (reset_index p)).
      eapply io_holds_push; [exact Hh2|apply kv_get_insert_eq|done|done].
Qed.

(** ** Any sequence of inserts by any threads *)
Fixpoint insert_all (log : list (Z * obj)) (t : InsertonlyTable M) : outcome (InsertonlyTable M) :=
  match log with
  | [] => Ret t
  | (tid, v) :: log =>
      t ← InsertonlyTable_insert sz tid v t;
      insert_all log t
  end.

Lemma insert_all_ok log t pages done_log :
  io_holds t pages done_log -> Forall (fun e => Z.of_nat (length e.2) = sz) log ->
  exists pre post t' pages', log = pre ++ post /\ insert_all pre t = Ret t' /\
    io_holds t' pages' (done_log ++ pre) /\
    (post = [] \/ exists e post', post = e :: post' /\ InsertonlyTable_insert sz e.1 e.2 t' = Panic /\
       out_of_pages t' pages' e.1).
Proof.
  intros Ht Hok. revert t pages done_log Ht. induction Hok as [|[tid v] log Hv _ IH]; intros t pages done_log Ht.
  { exists [], [], t, pages. rewrite (app_nil_r done_log). split; [done|]. split; [done|]. split; [done|]. by left. }
  destruct (insert_ok t pages done_log tid v Ht Hv) as [(t1 & pages1 & E & Ht1)|[E Ho]].
  - destruct (IH t1 pages1 _ Ht1) as (pre & post & t' & pages' & -> & Er & Hh & Hpost).
    exists ((tid, v) :: pre), post, t', pages'. split; [done|]. cbn [insert_all]. rewrite E. runm.
    split; [done|]. split; [by rewrite <-app_assoc in Hh|done].
  - exists [], ((tid, v) :: log), t, pages. rewrite (app_nil_r done_log). split; [done|]. split; [done|]. split; [done|].
    right. by exists (tid, v), log.
Qed.

End insert_only_ok.
Arguments io_holds {M _} sz C t pages log.

Section insert_only_run.
Context {M : Type} `{KvMapLaws PageBuffer M}.
Variable sz : Z.
Hypothesis Hsz : 0 < sz <= HUGEPAGE_SIZE.

Lemma InsertonlyTable_new_ok cap addr mem :
  0 <= cap * sz -> 0 < addr < 2 ^ 62 -> cap * sz < 2 ^ 62 ->
  exists C (t : InsertonlyTable M), InsertonlyTable_new sz cap addr mem = Ret t /\ io_holds sz C t [] [] /\
    cap * sz <= C * HUGEPAGE_SIZE < cap * sz + HUGEPAGE_SIZE.
Proof.
  intros Hc Ha Hb. pose proof HUGEPAGE_SIZE_eq as E. unfold InsertonlyTable_new.
  rewrite chk_ok by (unfold fits; lia). runm.
  assert (E21 : HUGEPAGE_SIZE = 2 ^ 21) by (rewrite E; reflexivity).
  destruct (align_up_ok (cap * sz) 21) as (r & Er & Hr & Hm); [lia|lia|lia|]. rewrite <-E21 in *. rewrite Er. runm.
  apply Z.mod_divide in Hm as [q ->]; [|lia]. rewrite Z.div_mul by lia.
  destruct (ArrayAllocator_new_ok HUGEPAGE_SIZE 8 q addr mem) as (a & mem' & -> & Hi & Hrem & Hcap & _); [lia|lia|nia|lia|lia|].
  runm. exists q. eexists. split; [done|]. split; [|lia]. split.
  - split; [done|]. cbn. split; [done|]. split; [lia|]. split; [done|]. intros tid p. by rewrite kv_get_empty.
  - intros tid. unfold thread_tuples, buffered. cbn. by rewrite kv_get_empty.
Qed.

(** After a reset the pool is whole again and the table holds nothing. *)
Theorem insert_only_reset C (t : InsertonlyTable M) pages log :
  io_holds sz C t pages log -> 0 <= C ->
  exists t', InsertonlyTable_reset t = Ret t' /\ io_holds sz C t' [] [] /\
    remaining HUGEPAGE_SIZE (io_storage t') = C.
Proof.
  intros [((_ & Hst & Hend & _) & HC & _) _] Hpos. pose proof HUGEPAGE_SIZE_eq as E.
  unfold InsertonlyTable_reset, ArrayAllocator_reset. rewrite HC in *.
  set (start := aa_start (io_storage t)) in *.
  destruct (link_blocks_ok (Z.to_nat C) start HUGEPAGE_SIZE 0 (io_mem t)) as (mem & Hr & Hl & _); [lia..|].
  rewrite Z.add_0_l, Z2Nat.id in Hr, Hl by done. change AtomicListNode_new with (block_link start HUGEPAGE_SIZE 0).
  rewrite Hr. runm. eexists. split; [done|]. cbn [io_storage].
  assert (R : remaining HUGEPAGE_SIZE (mkArrayAllocator C start (block_link start HUGEPAGE_SIZE C)) = C)
    by (apply remaining_link; lia).
  split; [|done]. split.
  - split; [|cbn; split; [done|split; [lia|split; [done|intros tid p; by rewrite kv_get_empty]]]].
    unfold aa_inv. cbn [io_mem io_storage aa_cap aa_start aa_list_node]. rewrite R.
    split; [lia|]. split; [done|]. split; [done|]. split; [done|]. intros i Hi. apply Hl. lia.
  - intros tid. unfold thread_tuples, buffered. cbn. by rewrite kv_get_empty.
Qed.

(** C29: The tuples inserted into a new table are all kept: after any sequence of
    inserts by any threads, the pages copied to the pool together with the
    threads' own pages hold, for each thread, exactly the tuples it inserted, in
    order; the inserts stop (with a panic) only when a thread's page is full
    and all pages of the pool, the fewest that can hold the bytes of [cap]
    tuples, are taken. *)
Theorem insert_only_keeps_tuples cap addr mem log :
  0 <= cap * sz < 2 ^ 62 -> 0 < addr < 2 ^ 62 -> Forall (fun e => Z.of_nat (length e.2) = sz) log ->
  exists C (t0 : InsertonlyTable M) pre post t pages,
    InsertonlyTable_new sz cap addr mem = Ret t0 /\
    cap * sz <= C * HUGEPAGE_SIZE < cap * sz + HUGEPAGE_SIZE /\
    log = pre ++ post /\ insert_all sz pre t0 = Ret t /\ io_holds sz C t pages pre /\
    (post = [] \/ exists e post', post = e :: post' /\ InsertonlyTable_insert sz e.1 e.2 t = Panic /\
       out_of_pages sz C t pages e.1).
Proof.
  intros Hc Ha Hlog. destruct (InsertonlyTable_new_ok cap addr mem) as (C & t0 & E & Hh & HC); [lia..|].
  destruct (insert_all_ok sz Hsz C log t0 [] [] Hh Hlog) as (pre & post & t & pages & -> & Er & Hh' & Hpost).
  by exists C, t0, pre, post, t, pages.
Qed.
End insert_only_run.

Lemma insert_only_keeps_tuples_witness :
  exists C t0 pre post (t : InsertonlyTable (gmap Z PageBuffer)) pages,
    InsertonlyTable_new 2 3 4096 ∅ = Ret t0 /\ [(1, [1; 2]); (2, [3; 4]); (1, [5; 6])] = pre ++ post /\
    insert_all 2 pre t0 = Ret t /\ io_holds 2 C t pages pre.
Proof.
  pose proof HUGEPAGE_SIZE_eq as E.
  destruct (insert_only_keeps_tuples (M := gmap Z PageBuffer) 2 ltac:(lia) 3 4096 ∅ [(1, [1; 2]); (2, [3; 4]); (1, [5; 6])])
    as (C & t0 & pre & post & t & pages & E0 & _ & El & Er & Hh & _); [lia|lia|by repeat constructor|].
  exists C, t0, pre, post, t, pages. split; [exact E0|]. split; [exact El|]. split; [exact Er|exact Hh].
Defined.

Lemma insert_only_reset_witness :
  exists C (t t' : InsertonlyTable (gmap Z PageBuffer)),
    InsertonlyTable_reset t = Ret t' /\ io_holds 2 C t' [] [].
Proof.
  pose proof HUGEPAGE_SIZE_eq as E.
  destruct (InsertonlyTable_new_ok (M := gmap Z PageBuffer) 2 3 4096 ∅) as (C & t & _ & Hh & HC); [lia..|].
  destruct (insert_only_reset 2 C t [] [] Hh) as (t' & Er & Hh' & _); [rewrite E in *; lia..|].
  exists C, t, t'. split; [exact Er|exact Hh'].
Defined.
