(* ===== verification/Metric.v ===== *)
(** * Metrics (src/metric)

    Counters, histograms and timers are recorded per thread and summed up at
    the end.  Overflow of a count panics like any other addition. *)

From Stdlib Require Import QArith.
From S2P Require Import Prelude External.
Open Scope Z_scope.

(** ** The events, and what [derive(MetricEnum)] generates for them *)
Inductive Counter :=
| ReadHit
| ReadMiss
| ProbeMiss
| ReadSchemaMiss
| ReadCnt
| UpdateCnt
| InsertCnt
| UpdateSchemaMiss
| UpdateHit
| UpdateMiss
| AbortRLockBusy
| AbortWLockBusy
| AbortUpgradeBusy
| AbortIdxNotFound
| AbortLockBusy
| DeliveryNewOrderNotFound
| NewOrderRollback.

Definition Counter_num (c : Counter) : Z :=
  match c with
  | ReadHit => 0
  | ReadMiss => 1
  | ProbeMiss => 2
  | ReadSchemaMiss => 3
  | ReadCnt => 4
  | UpdateCnt => 5
  | InsertCnt => 6
  | UpdateSchemaMiss => 7
  | UpdateHit => 8
  | UpdateMiss => 9
  | AbortRLockBusy => 10
  | AbortWLockBusy => 11
  | AbortUpgradeBusy => 12
  | AbortIdxNotFound => 13
  | AbortLockBusy => 14
  | DeliveryNewOrderNotFound => 15
  | NewOrderRollback => 16
  end.

Definition Counter_LENGTH : Z := 17.

Definition Counter_from_num (num : Z) : outcome Counter :=
  if num =? 0 then Ret ReadHit else
  if num =? 1 then Ret ReadMiss else
  if num =? 2 then Ret ProbeMiss else
  if num =? 3 then Ret ReadSchemaMiss else
  if num =? 4 then Ret ReadCnt else
  if num =? 5 then Ret UpdateCnt else
  if num =? 6 then Ret InsertCnt else
  if num =? 7 then Ret UpdateSchemaMiss else
  if num =? 8 then Ret UpdateHit else
  if num =? 9 then Ret UpdateMiss else
  if num =? 10 then Ret AbortRLockBusy else
  if num =? 11 then Ret AbortWLockBusy else
  if num =? 12 then Ret AbortUpgradeBusy else
  if num =? 13 then Ret AbortIdxNotFound else
  if num =? 14 then Ret AbortLockBusy else
  if num =? 15 then Ret DeliveryNewOrderNotFound else
  if num =? 16 then Ret NewOrderRollback else
  Panic.

Inductive Histogram :=
| ProbeLen
| Hotness
| Scanned
| PaymentCustomerScan
| OSOrderScan
| OrderLineScan
| StockLevelQuantity.

Definition Histogram_num (c : Histogram) : Z :=
  match c with
  | ProbeLen => 0
  | Hotness => 1
  | Scanned => 2
  | PaymentCustomerScan => 3
  | OSOrderScan => 4
  | OrderLineScan => 5
  | StockLevelQuantity => 6
  end.

Definition Histogram_LENGTH : Z := 7.

Definition Histogram_from_num (num : Z) : outcome Histogram :=
  if num =? 0 then Ret ProbeLen else
  if num =? 1 then Ret Hotness else
  if num =? 2 then Ret Scanned else
  if num =? 3 then Ret PaymentCustomerScan else
  if num =? 4 then Ret OSOrderScan else
  if num =? 5 then Ret OrderLineScan else
  if num =? 6 then Ret StockLevelQuantity else
  Panic.

Inductive Timer :=
| Read
| Tpcc.

Definition Timer_num (c : Timer) : Z :=
  match c with
  | Read => 0
  | Tpcc => 1
  end.

Definition Timer_LENGTH : Z := 2.

Definition Timer_from_num (num : Z) : outcome Timer :=
  if num =? 0 then Ret Read else
  if num =? 1 then Ret Tpcc else
  Panic.

Inductive CtxCounter :=
| Customer
| Stock
| Order.

Definition CtxCounter_num (c : CtxCounter) : Z :=
  match c with
  | Customer => 2
  | Stock => 3
  | Order => 4
  end.

Definition CtxCounter_from_num (num : Z) : outcome CtxCounter :=
  if num =? 2 then Ret Customer else
  if num =? 3 then Ret Stock else
  if num =? 4 then Ret Order else
  Panic.

#[export] Instance CtxCounter_eq_dec : EqDecision CtxCounter.
Proof. solve_decision. Defined.

#[export] Instance CtxCounter_countable : Countable CtxCounter.
Proof.
  apply (inj_countable' (fun c => match c with Customer => 0%nat | Stock => 1%nat | Order => 2%nat end)
    (fun n => match n with 0%nat => Customer | 1%nat => Stock | _ => Order end)).
  by intros [].
Defined.

(** An element of a fixed-size array that is not bounds-checked. *)
Definition get_unchecked {A} (l : list A) (i : Z) : outcome A :=
  match l !! Z.to_nat i with Some a => Ret a | None => Undef end.

(** ** counter.rs *)
Abbreviation CounterRecorder := (list Z) (only parsing).

Definition CounterRecorder_default : CounterRecorder := replicate (Z.to_nat Counter_LENGTH) 0.

Definition CounterRecorder_increment (event : Counter) (amount : Z) (r : CounterRecorder)
    : outcome CounterRecorder :=
  counter ← get_unchecked r (Counter_num event);
  counter ← chk 64 (counter + amount);
  Ret (<[Z.to_nat (Counter_num event) := counter]> r).

Definition CounterRecorder_reset (r : CounterRecorder) : CounterRecorder := map (fun _ => 0) r.

(** [a += b], from index [i] on. *)
Fixpoint add_counters (n : nat) (i : Z) (a b : list Z) : outcome (list Z) :=
  match n with
  | O => Ret a
  | S n =>
      x ← index a i;
      y ← index b i;
      z ← chk 64 (x + y);
      add_counters n (i + 1) (<[Z.to_nat i := z]> a) b
  end.

Definition CounterRecorder_add_assign (a b : CounterRecorder) : outcome CounterRecorder :=
  add_counters (Z.to_nat Counter_LENGTH) 0 a b.

Definition Counter_name (c : Counter) : string :=
  match c with
  | ReadHit => "read_hit"
  | ReadMiss => "read_miss"
  | ProbeMiss => "probe_miss"
  | ReadSchemaMiss => "read_schema_miss"
  | ReadCnt => "read_cnt"
  | UpdateCnt => "update_cnt"
  | InsertCnt => "insert_cnt"
  | UpdateSchemaMiss => "update_schema_miss"
  | UpdateHit => "update_hit"
  | UpdateMiss => "update_miss"
  | AbortRLockBusy => "abort_read_lock_busy"
  | AbortWLockBusy => "abort_write_lock_busy"
  | AbortUpgradeBusy => "abort_upgrade_lock_busy"
  | AbortIdxNotFound => "abort_idx_not_found"
  | AbortLockBusy => "abort_lock_busy"
  | DeliveryNewOrderNotFound => "delivery_new_order_not_found"
  | NewOrderRollback => "new_order_rollback"
  end%string.

(** The fields written by [serialize], in order. *)
Fixpoint serialize_counters (n : nat) (i : Z) (r : CounterRecorder) : outcome (list (string * Z)) :=
  match n with
  | O => Ret []
  | S n =>
      c ← Counter_from_num i;
      v ← index r (Counter_num c);
      rest ← serialize_counters n (i + 1) r;
      Ret ((Counter_name c, v) :: rest)
  end.

Definition CounterRecorder_serialize (r : CounterRecorder) : outcome (list (string * Z)) :=
  serialize_counters (length r) 0 r.

(** ** histogram.rs: a map from 16-bit keys per histogram *)
Abbreviation HistogramRecorder := (list (gmap Z Z)) (only parsing).

Definition HistogramRecorder_default : HistogramRecorder := replicate (Z.to_nat Histogram_LENGTH) ∅.

Definition hit_map (key : Z) (hist : gmap Z Z) : outcome (gmap Z Z) :=
  match hist !! wrap 16 key with
  | Some v =>
      v ← chk 64 (v + 1);
      Ret (<[wrap 16 key := v]> hist)
  | None => Ret (<[wrap 16 key := 1]> hist)
  end.

Definition HistogramRecorder_hit (event : Histogram) (key : Z) (r : HistogramRecorder)
    : outcome HistogramRecorder :=
  hist ← get_unchecked r (Histogram_num event);
  hist ← hit_map key hist;
  Ret (<[Z.to_nat (Histogram_num event) := hist]> r).

Definition HistogramRecorder_reset (r : HistogramRecorder) : HistogramRecorder := map (fun _ => ∅) r.

(** The inner loop of [a += b]: the entries of one map, in the order its
    iterator gives them. *)
Fixpoint add_entries (entries : list (Z * Z)) (h : gmap Z Z) : outcome (gmap Z Z) :=
  match entries with
  | [] => Ret h
  | (k, v) :: entries =>
      match h !! k with
      | Some value =>
          value ← chk 64 (value + v);
          add_entries entries (<[k := value]> h)
      | None => add_entries entries (<[k := v]> h)
      end
  end.

(** The outer loop, over the histograms of [b] from index [i] on. *)
Fixpoint add_histograms (bs : list (gmap Z Z)) (i : Z) (a : HistogramRecorder)
    : outcome HistogramRecorder :=
  match bs with
  | [] => Ret a
  | h :: bs =>
      x ← index a i;
      x ← add_entries (map_to_list h) x;
      add_histograms bs (i + 1) (<[Z.to_nat i := x]> a)
  end.

Definition HistogramRecorder_add_assign (a b : HistogramRecorder) : outcome HistogramRecorder :=
  add_histograms b 0 a.

Definition Histogram_name (c : Histogram) : string :=
  match c with
  | ProbeLen => "prob_len"
  | Hotness => "hotness"
  | Scanned => "scanned"
  | PaymentCustomerScan => "payment_customer_scan"
  | OSOrderScan => "os_order_scan"
  | OrderLineScan => "order_line_scan"
  | StockLevelQuantity => "stock_level_quantity"
  end%string.

Fixpoint serialize_histograms (i : Z) (r : HistogramRecorder) : outcome (list (string * gmap Z Z)) :=
  match r with
  | [] => Ret []
  | h :: r =>
      c ← Histogram_from_num i;
      rest ← serialize_histograms (i + 1) r;
      Ret ((Histogram_name c, h) :: rest)
  end.

(** ** timer.rs: the sampled durations in nanoseconds *)
Abbreviation TimerRecorder := (list (list Z)) (only parsing).

Definition TimerRecorder_default : TimerRecorder := replicate (Z.to_nat Timer_LENGTH) [].

Definition TimerRecorder_add_time (event : Timer) (nanos : Z) (r : TimerRecorder)
    : outcome TimerRecorder :=
  t ← get_unchecked r (Timer_num event);
  Ret (<[Z.to_nat (Timer_num event) := t ++ [wrap 64 nanos]]> r).

Definition TimerRecorder_reset (r : TimerRecorder) : TimerRecorder := map (fun _ => []) r.

(** [a += b], over the timers of [a] from index [i] on. *)
Fixpoint add_timers (ts : list (list Z)) (i : Z) (b : TimerRecorder) : outcome (list (list Z)) :=
  match ts with
  | [] => Ret []
  | t :: ts =>
      u ← index b i;
      rest ← add_timers ts (i + 1) b;
      Ret ((t ++ u) :: rest)
  end.

Definition TimerRecorder_add_assign (a b : TimerRecorder) : outcome TimerRecorder := add_timers a 0 b.

Definition Timer_name (c : Timer) : string :=
  match c with Read => "read" | Tpcc => "tpcc" end%string.

Fixpoint serialize_timers (i : Z) (r : TimerRecorder) : outcome (list (string * list Z)) :=
  match r with
  | [] => Ret []
  | t :: r =>
      c ← Timer_from_num i;
      rest ← serialize_timers (i + 1) r;
      Ret ((Timer_name c, t) :: rest)
  end.

(** A running timer, and when it was started. *)
Record TimerGuard := mkTimerGuard { tg_event : Timer; tg_start : Z }.

(** [now] is the time at which the guard is made. *)
Definition TimerGuard_new (event : Timer) (now : Z) : TimerGuard := mkTimerGuard event now.

Definition TimerRecorder_start (event : Timer) (now : Z) (r : TimerRecorder) : TimerGuard := TimerGuard_new event now.

(** ** ctx_counter.rs: counters per context *)
Abbreviation CtxCounterRecorder := (gmap CtxCounter CounterRecorder) (only parsing).

Definition CtxCounterRecorder_increment (event : Counter) (amount : Z) (tag : CtxCounter)
    (r : CtxCounterRecorder) : outcome CtxCounterRecorder :=
  c ← CounterRecorder_increment event amount (default CounterRecorder_default (r !! tag));
  Ret (<[tag := c]> r).

Definition CtxCounterRecorder_reset (r : CtxCounterRecorder) : CtxCounterRecorder := ∅.

Fixpoint add_ctx (entries : list (CtxCounter * CounterRecorder)) (a : CtxCounterRecorder)
    : outcome CtxCounterRecorder :=
  match entries with
  | [] => Ret a
  | (rk, rv) :: entries =>
      match a !! rk with
      | Some v =>
          v ← CounterRecorder_add_assign v rv;
          add_ctx entries (<[rk := v]> a)
      | None => add_ctx entries (<[rk := rv]> a)
      end
  end.

Definition CtxCounterRecorder_add_assign (a b : CtxCounterRecorder) : outcome CtxCounterRecorder :=
  add_ctx (map_to_list b) a.

(** The name of a context, as its derived [Serialize] writes it. *)
Definition CtxCounter_name (c : CtxCounter) : string :=
  match c with Customer => "Customer" | Stock => "Stock" | Order => "Order" end%string.

Fixpoint serialize_contexts (entries : list (CtxCounter * CounterRecorder)) : outcome (list (string * list (string * Z))) :=
  match entries with
  | [] => Ret []
  | (k, v) :: entries =>
      c ← CounterRecorder_serialize v;
      rest ← serialize_contexts entries;
      Ret ((CtxCounter_name k, c) :: rest)
  end.

Definition CtxCounterRecorder_serialize (r : CtxCounterRecorder) : outcome (list (string * list (string * Z))) :=
  serialize_contexts (map_to_list r).

(** ** recorders.rs *)
Record TlsRecorder := mkRecorder {
  counters : CounterRecorder;
  histograms : HistogramRecorder;
  timers : TimerRecorder;
  ctx_counter : CtxCounterRecorder;
}.

Definition TlsRecorder_default : TlsRecorder :=
  mkRecorder CounterRecorder_default HistogramRecorder_default TimerRecorder_default ∅.

Definition increment_counter (event : Counter) (amount : Z) (r : TlsRecorder) : outcome TlsRecorder :=
  c ← CounterRecorder_increment event amount (counters r);
  Ret (mkRecorder c (histograms r) (timers r) (ctx_counter r)).

Definition TlsRecorder_ctx_counter (event : Counter) (amount : Z) (tag : CtxCounter) (r : TlsRecorder)
    : outcome TlsRecorder :=
  c ← CtxCounterRecorder_increment event amount tag (ctx_counter r);
  Ret (mkRecorder (counters r) (histograms r) (timers r) c).

Definition hit_histogram (event : Histogram) (key : Z) (r : TlsRecorder) : outcome TlsRecorder :=
  h ← HistogramRecorder_hit event key (histograms r);
  Ret (mkRecorder (counters r) h (timers r) (ctx_counter r)).

Definition add_time (event : Timer) (nanos : Z) (r : TlsRecorder) : outcome TlsRecorder :=
  t ← TimerRecorder_add_time event nanos (timers r);
  Ret (mkRecorder (counters r) (histograms r) t (ctx_counter r)).

Definition TlsRecorder_reset (r : TlsRecorder) : TlsRecorder :=
  mkRecorder (CounterRecorder_reset (counters r)) (HistogramRecorder_reset (histograms r))
    (TimerRecorder_reset (timers r)) (CtxCounterRecorder_reset (ctx_counter r)).

Definition TlsRecorder_add_assign (a b : TlsRecorder) : outcome TlsRecorder :=
  c ← CounterRecorder_add_assign (counters a) (counters b);
  h ← HistogramRecorder_add_assign (histograms a) (histograms b);
  t ← TimerRecorder_add_assign (timers a) (timers b);
  x ← CtxCounterRecorder_add_assign (ctx_counter a) (ctx_counter b);
  Ret (mkRecorder c h t x).

(** [a + b] works on a clone of [a]. *)
Definition TlsRecorder_add (a b : TlsRecorder) : outcome TlsRecorder := TlsRecorder_add_assign a b.

Definition timer_guard (event : Timer) (now : Z) (r : TlsRecorder) : TimerGuard :=
  TimerRecorder_start event now (timers r).

(** What the derived [Serialize] writes: the four parts, in order. *)
Record Serialized := mkSerialized {
  js_counters : list (string * Z);
  js_histograms : list (string * gmap Z Z);
  js_timers : list (string * list Z);
  js_ctx_counter : list (string * list (string * Z));
}.

Definition TlsRecorder_serialize (r : TlsRecorder) : outcome Serialized :=
  c ← CounterRecorder_serialize (counters r);
  h ← serialize_histograms 0 (histograms r);
  t ← serialize_timers 0 (timers r);
  x ← CtxCounterRecorder_serialize (ctx_counter r);
  Ret (mkSerialized c h t x).

(** A dropped [TimerGuard] records one in a thousand durations; [u] is the
    draw, [now] the time of the drop; a clock that went back counts as zero. *)
Definition TimerGuard_drop (g : TimerGuard) (now : Z) (u : Q) (r : TlsRecorder)
    : outcome TlsRecorder :=
  let elapsed := Z.max 0 (now - tg_start g) in
  should_sample ← gen_bool (1 # 1000) u;
  if (should_sample : bool) then add_time (tg_event g) elapsed r else Ret r.

(** lib.rs: the macros, for the build with and without the [metrics] feature. *)
Definition counter_macro (metrics : bool) (event : Counter) (amount : Z) (r : TlsRecorder)
    : outcome TlsRecorder :=
  if metrics then increment_counter event amount r else Ret r.

Definition counter_tag_macro (metrics : bool) (event : Counter) (tag : option CtxCounter)
    (r : TlsRecorder) : outcome TlsRecorder :=
  if metrics then
    match tag with
    | Some v => TlsRecorder_ctx_counter event 1 v r
    | None => increment_counter event 1 r
    end
  else Ret r.

Definition histogram_macro (metrics : bool) (event : Histogram) (value : Z) (r : TlsRecorder)
    : outcome TlsRecorder :=
  if metrics then hit_histogram event value r else Ret r.

Definition timer_macro (metrics latency : bool) (event : Timer) (now : Z) (r : TlsRecorder) : option TimerGuard :=
  if metrics && latency then Some (timer_guard event now r) else None.

(** ** The enumerations *)
Definition all_Counter : list Counter :=
  [ReadHit; ReadMiss; ProbeMiss; ReadSchemaMiss; ReadCnt; UpdateCnt; InsertCnt; UpdateSchemaMiss;
   UpdateHit; UpdateMiss; AbortRLockBusy; AbortWLockBusy; AbortUpgradeBusy; AbortIdxNotFound;
   AbortLockBusy; DeliveryNewOrderNotFound; NewOrderRollback].

Definition all_Histogram : list Histogram :=
  [ProbeLen; Hotness; Scanned; PaymentCustomerScan; OSOrderScan; OrderLineScan; StockLevelQuantity].

Definition all_Timer : list Timer := [Read; Tpcc].

#[export] Instance Counter_eq_dec : EqDecision Counter.
Proof. solve_decision. Defined.

#[export] Instance Histogram_eq_dec : EqDecision Histogram.
Proof. solve_decision. Defined.

#[export] Instance Timer_eq_dec : EqDecision Timer.
Proof. solve_decision. Defined.

(** The numbers of the events index the arrays, and [from_num] is their
    inverse; any other number panics. *)
Theorem metric_numbers :
  (forall c, 0 <= Counter_num c < Counter_LENGTH /\ Counter_from_num (Counter_num c) = Ret c) /\
  (forall h, 0 <= Histogram_num h < Histogram_LENGTH /\ Histogram_from_num (Histogram_num h) = Ret h) /\
  (forall t, 0 <= Timer_num t < Timer_LENGTH /\ Timer_from_num (Timer_num t) = Ret t) /\
  (forall x, CtxCounter_from_num (CtxCounter_num x) = Ret x).
Proof. split_and!; intros []; vm_compute; split_and?; congruence. Qed.

Lemma all_Counter_num c : all_Counter !! Z.to_nat (Counter_num c) = Some c.
Proof. by destruct c. Qed.

Lemma all_Histogram_num h : all_Histogram !! Z.to_nat (Histogram_num h) = Some h.
Proof. by destruct h. Qed.

Lemma all_Timer_num t : all_Timer !! Z.to_nat (Timer_num t) = Some t.
Proof. by destruct t. Qed.

Lemma lookup_map {A B} (f : A -> B) l i : map f l !! i = f <$> l !! i.
Proof. apply list_lookup_fmap. Qed.

(** An array with one element per event, changed at one event. *)
Lemma insert_map_num {A E} `{EqDecision E} (num : E -> Z) (all : list E) (f : E -> A) e a :
  (forall e, all !! Z.to_nat (num e) = Some e) -> NoDup all ->
  <[Z.to_nat (num e) := a]> (map f all) = map (fun x => if decide (x = e) then a else f x) all.
Proof.
  intros Hn Hd. apply list_eq. intros i. destruct (decide (i = Z.to_nat (num e))) as [->|Hne].
  - rewrite list_lookup_insert_eq.
    + rewrite lookup_map, Hn. cbn. by rewrite decide_True.
    + rewrite length_map. eapply lookup_lt_Some. apply Hn.
  - rewrite list_lookup_insert_ne by done. rewrite !lookup_map.
    destruct (all !! i) as [x|] eqn:Ex; [|done]. cbn. rewrite decide_False; [done|]. intros ->.
    apply Hne. eapply NoDup_lookup; [done|done|apply Hn].
Qed.

Lemma nodup_Counter : NoDup all_Counter.
Proof. apply (bool_decide_unpack _). vm_compute. done. Qed.

Lemma nodup_Histogram : NoDup all_Histogram.
Proof. apply (bool_decide_unpack _). vm_compute. done. Qed.

Lemma nodup_Timer : NoDup all_Timer.
Proof. apply (bool_decide_unpack _). vm_compute. done. Qed.

Lemma get_unchecked_map {A E} (num : E -> Z) (all : list E) (f : E -> A) e :
  (forall e, all !! Z.to_nat (num e) = Some e) -> get_unchecked (map f all) (num e) = Ret (f e).
Proof.
  intros Hn. unfold get_unchecked. by rewrite lookup_map, Hn.
Qed.

Lemma increment_map f c amount :
  fits 64 (f c + amount) ->
  CounterRecorder_increment c amount (map f all_Counter) =
    Ret (map (fun x => if decide (x = c) then f c + amount else f x) all_Counter).
Proof.
  intros Hf. unfold CounterRecorder_increment. rewrite (get_unchecked_map Counter_num) by apply all_Counter_num.
  runm. rewrite chk_ok by done. runm. f_equal. apply insert_map_num; [apply all_Counter_num|apply nodup_Counter].
Qed.

Lemma add_map f g :
  (forall c, fits 64 (f c + g c)) ->
  CounterRecorder_add_assign (map f all_Counter) (map g all_Counter) =
    Ret (map (fun c => f c + g c) all_Counter).
Proof.
  intros Hf. unfold CounterRecorder_add_assign. cbn [map all_Counter].
  change (Z.to_nat Counter_LENGTH) with 17%nat. simpl. by rewrite !chk_ok by apply Hf.
Qed.

Lemma hit_map_ok key h (f : Z -> Z) :
  (forall k, 0 <= f k) -> (forall k, h !! k = if decide (f k = 0) then None else Some (f k)) ->
  fits 64 (f (wrap 16 key) + 1) ->
  exists h', hit_map key h = Ret h' /\
    forall k, h' !! k = if decide (k = wrap 16 key) then Some (f k + 1) else if decide (f k = 0) then None else Some (f k).
Proof.
  intros Hpos Hh Hf. unfold hit_map. rewrite Hh. case_decide as E.
  - eexists. split; [done|]. intros k. case_decide as Ek; [subst; rewrite lookup_insert_eq; f_equal; lia|].
    by rewrite lookup_insert_ne by done.
  - rewrite chk_ok by done. runm. eexists. split; [done|]. intros k.
    case_decide as Ek; [subst; apply lookup_insert_eq|]. by rewrite lookup_insert_ne by done.
Qed.

(** ** Merging two maps, an entry at a time *)
Section merge.
Context {K V : Type} `{Countable K}.
Variable add : V -> V -> outcome V.

Fixpoint merge_entries (entries : list (K * V)) (h : gmap K V) : outcome (gmap K V) :=
  match entries with
  | [] => Ret h
  | (k, v) :: entries =>
      match h !! k with
      | Some x => x ← add x v; merge_entries entries (<[k := x]> h)
      | None => merge_entries entries (<[k := v]> h)
      end
  end.

(** What becomes of the two values under one key. *)
Definition joined (x y : option V) (z : option V) : Prop :=
  match x, y with
  | _, None => z = x
  | None, Some v => z = Some v
  | Some x, Some v => exists s, add x v = Ret s /\ z = Some s
  end.

Lemma merge_entries_ok entries h :
  NoDup entries.*1 ->
  (forall k v x, (k, v) ∈ entries -> h !! k = Some x -> exists s, add x v = Ret s) ->
  exists h', merge_entries entries h = Ret h' /\
    forall k, joined (h !! k) ((list_to_map entries : gmap K V) !! k) (h' !! k).
Proof.
  revert h. induction entries as [|[k v] entries IH]; intros h Hd Hadd; cbn [merge_entries].
  { exists h. split; [done|]. intros k. cbn [list_to_map foldr]. rewrite lookup_empty. by destruct (h !! k). }
  apply NoDup_cons in Hd as [Hk Hd]. cbn in Hk, Hd.
  assert (Hrest : forall h1, (forall k', k' <> k -> h1 !! k' = h !! k') -> joined (h !! k) (Some v) (h1 !! k) ->
    exists h', merge_entries entries h1 = Ret h' /\
      forall k', joined (h !! k') ((list_to_map ((k, v) :: entries) : gmap K V) !! k') (h' !! k')).
  { intros h1 Hne Heq. destruct (IH h1 Hd) as (h' & Er & Hj).
    { intros k' v' x Hin Hx. assert (k' <> k) by (intros ->; apply Hk; by apply (list_elem_of_fmap_2 fst) in Hin).
      eapply Hadd; [by right|]. by rewrite <-Hne. }
    exists h'. split; [done|]. intros k'. cbn [list_to_map foldr fst snd]. destruct (decide (k' = k)) as [->|Hk'].
    - rewrite lookup_insert_eq. specialize (Hj k). rewrite (not_elem_of_list_to_map_1 _ _ Hk) in Hj.
      assert (h' !! k = h1 !! k) as -> by (unfold joined in Hj; by destruct (h1 !! k)). done.
    - rewrite lookup_insert_ne by done. rewrite <-Hne by done. apply Hj. }
  destruct (h !! k) as [x|] eqn:Ex.
  - destruct (Hadd k v x) as [s Es]; [by left|done|]. rewrite Es. runm.
    apply Hrest; [intros; by apply lookup_insert_ne|]. rewrite lookup_insert_eq. by exists s.
  - apply Hrest; [intros; by apply lookup_insert_ne|]. by rewrite lookup_insert_eq.
Qed.

Lemma merge_map_ok (h g : gmap K V) :
  (forall k x v, h !! k = Some x -> g !! k = Some v -> exists s, add x v = Ret s) ->
  exists h', merge_entries (map_to_list g) h = Ret h' /\ forall k, joined (h !! k) (g !! k) (h' !! k).
Proof.
  intros Hadd. destruct (merge_entries_ok (map_to_list g) h) as (h' & E & Hj).
  - apply NoDup_fst_map_to_list.
  - intros k v x Hin%elem_of_map_to_list Hx. by eapply Hadd.
  - exists h'. split; [done|]. intros k. specialize (Hj k). by rewrite list_to_map_to_list in Hj.
Qed.
End merge.

Lemma add_entries_merge entries h :
  add_entries entries h = merge_entries (fun x y => chk 64 (x + y)) entries h.
Proof.
  revert h. induction entries as [|[k v] entries IH]; intros h; [done|]. cbn. destruct (h !! k); [|apply IH].
  destruct (chk 64 _); [apply IH|done..].
Qed.

Lemma add_ctx_merge entries h : add_ctx entries h = merge_entries CounterRecorder_add_assign entries h.
Proof.
  revert h. induction entries as [|[k v] entries IH]; intros h; [done|]. cbn. destruct (h !! k); [|apply IH].
  destruct (CounterRecorder_add_assign _ _); [apply IH|done..].
Qed.

(** ** Recording a sequence of events *)
Inductive event :=
| ECount (c : Counter) (amount : Z)
| ECtx (c : Counter) (amount : Z) (tag : CtxCounter)
| EHit (h : Histogram) (key : Z)
| ETime (t : Timer) (nanos : Z).

Definition record_event (e : event) (r : TlsRecorder) : outcome TlsRecorder :=
  match e with
  | ECount c amount => increment_counter c amount r
  | ECtx c amount tag => TlsRecorder_ctx_counter c amount tag r
  | EHit h key => hit_histogram h key r
  | ETime t nanos => add_time t nanos r
  end.

Fixpoint record_all (evs : list event) (r : TlsRecorder) : outcome TlsRecorder :=
  match evs with
  | [] => Ret r
  | e :: evs => r ← record_event e r; record_all evs r
  end.

(** What a sequence of events adds up to. *)
Definition sum_of (f : event -> Z) (evs : list event) : Z := foldr (fun e n => f e + n) 0 evs.

Definition count_of (c : Counter) (e : event) : Z :=
  match e with ECount c' a => if decide (c = c') then a else 0 | _ => 0 end.
Definition hit_of (h : Histogram) (k : Z) (e : event) : Z :=
  match e with EHit h' key => if decide (h = h' /\ k = wrap 16 key) then 1 else 0 | _ => 0 end.
Definition ctx_of (tag : CtxCounter) (c : Counter) (e : event) : Z :=
  match e with ECtx c' a tag' => if decide (tag = tag' /\ c = c') then a else 0 | _ => 0 end.
Definition tagged (tag : CtxCounter) (e : event) : Prop :=
  match e with ECtx _ _ tag' => tag = tag' | _ => False end.
#[export] Instance tagged_dec tag e : Decision (tagged tag e).
Proof. destruct e; cbn; apply _. Defined.
Definition times_of (t : Timer) (e : event) : list Z :=
  match e with ETime t' n => if decide (t = t') then [wrap 64 n] else [] | _ => [] end.

Definition event_ok (e : event) : Prop :=
  match e with ECount _ a | ECtx _ a _ => 0 <= a | _ => True end.

(** No total overflows. *)
Definition totals_fit (evs : list event) : Prop :=
  (forall c, sum_of (count_of c) evs < 2 ^ 64) /\ (forall h k, sum_of (hit_of h k) evs < 2 ^ 64) /\
  (forall tag c, sum_of (ctx_of tag c) evs < 2 ^ 64).

(** The recorders of exactly these events. *)
Definition counters_ok (evs : list event) (l : CounterRecorder) : Prop :=
  l = map (fun c => sum_of (count_of c) evs) all_Counter.

Definition histograms_ok (evs : list event) (hs : HistogramRecorder) : Prop :=
  exists F, hs = map F all_Histogram /\ forall h k,
    F h !! k = if decide (sum_of (hit_of h k) evs = 0) then None else Some (sum_of (hit_of h k) evs).

Definition timers_ok (evs : list event) (ts : TimerRecorder) : Prop :=
  ts = map (fun t => concat (map (times_of t) evs)) all_Timer.

Definition ctx_ok (evs : list event) (x : CtxCounterRecorder) : Prop :=
  forall tag, x !! tag =
    if decide (Exists (tagged tag) evs)
    then Some (map (fun c => sum_of (ctx_of tag c) evs) all_Counter) else None.

Definition records (evs : list event) (r : TlsRecorder) : Prop :=
  counters_ok evs (counters r) /\ histograms_ok evs (histograms r) /\ timers_ok evs (timers r) /\
  ctx_ok evs (ctx_counter r).

Lemma sum_of_app f e1 e2 : sum_of f (e1 ++ e2) = sum_of f e1 + sum_of f e2.
Proof. induction e1 as [|e e1 IH]; cbn; [done|]. unfold sum_of in *. cbn. rewrite IH. lia. Qed.

Lemma sum_of_nonneg f evs : Forall (fun e => 0 <= f e) evs -> 0 <= sum_of f evs.
Proof. induction 1; cbn; [done|]. unfold sum_of in *. lia. Qed.

Lemma count_of_nonneg evs c : Forall event_ok evs -> 0 <= sum_of (count_of c) evs.
Proof.
  intros Hok. apply sum_of_nonneg. eapply Forall_impl; [done|]. intros [] Ha; cbn in *; try case_decide; lia.
Qed.

Lemma ctx_of_nonneg evs tag c : Forall event_ok evs -> 0 <= sum_of (ctx_of tag c) evs.
Proof.
  intros Hok. apply sum_of_nonneg. eapply Forall_impl; [done|]. intros [] Ha; cbn in *; try case_decide; lia.
Qed.

Lemma hit_of_nonneg evs h k : 0 <= sum_of (hit_of h k) evs.
Proof. apply sum_of_nonneg, Forall_forall. intros [] _; cbn; try case_decide; lia. Qed.

(** Without an event of its tag a context has no counts. *)
Lemma ctx_untagged evs tag c : ~ Exists (tagged tag) evs -> sum_of (ctx_of tag c) evs = 0.
Proof.
  induction evs as [|e evs IH]; [done|]. intros Hn. rewrite Exists_cons in Hn. unfold sum_of in *. cbn.
  rewrite IH by tauto. destruct e; cbn in *; try done. case_decide as D; [|done]. destruct D. tauto.
Qed.

(** Equal totals are recorded by equal recorders. *)
Lemma records_unique evs r r' : records evs r -> records evs r' -> r = r'.
Proof.
  destruct r as [c1 h1 t1 x1], r' as [c2 h2 t2 x2]. unfold records, counters_ok, histograms_ok, timers_ok, ctx_ok.
  cbn [counters histograms timers ctx_counter]. intros (-> & (F & -> & HF) & -> & Hx) (-> & (G & -> & HG) & -> & Hy). f_equal.
  - apply map_ext. intros h. apply map_eq. intros k. by rewrite HF, HG.
  - apply map_eq. intros tag. by rewrite Hx, Hy.
Qed.

Lemma records_default : records [] TlsRecorder_default.
Proof.
  split; [done|]. split; [by exists (fun _ => ∅)|]. split; [done|]. intros tag. cbn.
  rewrite lookup_empty. case_decide as D; [by apply Exists_nil in D|done].
Qed.

(** *** One more event *)
Lemma sum_of_snoc f evs e : sum_of f (evs ++ [e]) = sum_of f evs + f e.
Proof. rewrite sum_of_app. cbn. lia. Qed.

Lemma Exists_snoc (P : event -> Prop) evs e : Exists P (evs ++ [e]) <-> Exists P evs \/ P e.
Proof. rewrite Exists_app, Exists_cons, Exists_nil. tauto. Qed.

(** A recorder that the event is not for. *)
Lemma counters_frame evs e l : (forall c, count_of c e = 0) -> counters_ok evs l -> counters_ok (evs ++ [e]) l.
Proof. intros E ->. apply map_ext. intros c. rewrite sum_of_snoc, E. lia. Qed.

Lemma histograms_frame evs e hs :
  (forall h k, hit_of h k e = 0) -> histograms_ok evs hs -> histograms_ok (evs ++ [e]) hs.
Proof. intros E (F & -> & HF). exists F. split; [done|]. intros h k. by rewrite sum_of_snoc, E, Z.add_0_r. Qed.

Lemma timers_frame evs e ts : (forall t, times_of t e = []) -> timers_ok evs ts -> timers_ok (evs ++ [e]) ts.
Proof. intros E ->. apply map_ext. intros t. rewrite map_app, concat_app. cbn. by rewrite E, !app_nil_r. Qed.

Lemma ctx_frame evs e x : (forall tag, ~ tagged tag e) -> ctx_ok evs x -> ctx_ok (evs ++ [e]) x.
Proof.
  intros E Hx tag. rewrite Hx. specialize (E tag).
  rewrite (decide_ext (Exists (tagged tag) (evs ++ [e])) (Exists (tagged tag) evs)) by (rewrite Exists_snoc; tauto).
  case_decide; [|done]. f_equal. apply map_ext. intros c. rewrite sum_of_snoc. destruct e; cbn in *; try lia.
  rewrite decide_False by tauto. lia.
Qed.

(** The recorder that it is for. *)
Lemma counters_step evs c a l :
  counters_ok evs l -> fits 64 (sum_of (count_of c) (evs ++ [ECount c a])) ->
  exists l', CounterRecorder_increment c a l = Ret l' /\ counters_ok (evs ++ [ECount c a]) l'.
Proof.
  rewrite sum_of_snoc. cbn. rewrite decide_True by done. intros -> Hf. rewrite increment_map by done.
  eexists. split; [done|]. apply map_ext. intros x. rewrite sum_of_snoc. cbn. case_decide; [by subst|lia].
Qed.

Lemma histograms_step evs h key hs :
  histograms_ok evs hs -> (forall k, fits 64 (sum_of (hit_of h k) (evs ++ [EHit h key]))) ->
  exists hs', HistogramRecorder_hit h key hs = Ret hs' /\ histograms_ok (evs ++ [EHit h key]) hs'.
Proof.
  intros (F & -> & HF) Hf. unfold HistogramRecorder_hit.
  rewrite (get_unchecked_map Histogram_num) by apply all_Histogram_num. runm.
  destruct (hit_map_ok key (F h) (fun k => sum_of (hit_of h k) evs)) as (m & -> & Hm); [|done| |].
  { intros k. apply hit_of_nonneg. }
  { specialize (Hf (wrap 16 key)). rewrite sum_of_snoc in Hf. cbn in Hf. by rewrite decide_True in Hf. }
  runm. eexists. split; [done|]. exists (fun x => if decide (x = h) then m else F x). split.
  { apply insert_map_num; [apply all_Histogram_num|apply nodup_Histogram]. }
  intros x k. rewrite sum_of_snoc. cbn. pose proof (hit_of_nonneg evs x k).
  destruct (decide (x = h)) as [->|Hne]; [rewrite Hm; destruct (decide (k = wrap 16 key)) as [->|]|].
  - rewrite (decide_True (P := h = h /\ wrap 16 key = wrap 16 key)) by done. by rewrite decide_False by lia.
  - rewrite (decide_False (P := h = h /\ k = wrap 16 key)) by tauto. by rewrite Z.add_0_r.
  - rewrite (decide_False (P := x = h /\ k = wrap 16 key)) by tauto. rewrite Z.add_0_r. apply HF.
Qed.

Lemma timers_step evs t nanos ts :
  timers_ok evs ts ->
  exists ts', TimerRecorder_add_time t nanos ts = Ret ts' /\ timers_ok (evs ++ [ETime t nanos]) ts'.
Proof.
  intros ->. unfold TimerRecorder_add_time. rewrite (get_unchecked_map Timer_num) by apply all_Timer_num. runm.
  eexists. split; [done|]. rewrite (insert_map_num Timer_num) by (apply all_Timer_num || apply nodup_Timer).
  apply map_ext. intros x. rewrite map_app, concat_app. cbn. rewrite app_nil_r.
  case_decide; [by subst|by rewrite app_nil_r].
Qed.

Lemma ctx_step evs c a tag x :
  ctx_ok evs x -> fits 64 (sum_of (ctx_of tag c) (evs ++ [ECtx c a tag])) ->
  exists x', CtxCounterRecorder_increment c a tag x = Ret x' /\ ctx_ok (evs ++ [ECtx c a tag]) x'.
Proof.
  rewrite sum_of_snoc. cbn. rewrite decide_True by done. intros Hx Hf. unfold CtxCounterRecorder_increment.
  assert (default CounterRecorder_default (x !! tag) = map (fun c => sum_of (ctx_of tag c) evs) all_Counter) as ->.
  { rewrite Hx. case_decide as D; [done|]. cbn [default]. rewrite (map_ext _ (fun _ => 0)); [done|].
    intros c'. by apply ctx_untagged. }
  rewrite increment_map by done. runm. eexists. split; [done|]. intros tag'.
  destruct (decide (tag' = tag)) as [->|Hne].
  - rewrite lookup_insert_eq, decide_True by (apply Exists_snoc; by right). f_equal. apply map_ext. intros c'.
    rewrite sum_of_snoc. cbn. destruct (decide (c' = c)) as [->|]; [by rewrite decide_True by done|].
    rewrite decide_False by tauto. lia.
  - rewrite lookup_insert_ne by done. rewrite Hx.
    rewrite (decide_ext (Exists (tagged tag') (evs ++ [ECtx c a tag])) (Exists (tagged tag') evs))
      by (rewrite Exists_snoc; cbn; naive_solver).
    case_decide; [|done]. f_equal. apply map_ext. intros c'. rewrite sum_of_snoc. cbn.
    rewrite decide_False by tauto. lia.
Qed.

Lemma record_event_ok evs e r :
  records evs r -> Forall event_ok (evs ++ [e]) -> totals_fit (evs ++ [e]) ->
  exists r', record_event e r = Ret r' /\ records (evs ++ [e]) r'.
Proof.
  intros (Hc & Hh & Ht & Hx) Hok (Bc & Bh & Bx).
  destruct e as [c a|c a tag|h key|t nanos]; cbn [record_event].
  - destruct (counters_step evs c a _ Hc) as (l & E & Hl); [split; [by apply count_of_nonneg|apply Bc]|].
    unfold increment_counter. rewrite E. eexists. split; [done|].
    split; [done|]. split; [by apply histograms_frame|]. split; [by apply timers_frame|]. apply ctx_frame; auto.
  - destruct (ctx_step evs c a tag _ Hx) as (l & E & Hl); [split; [by apply ctx_of_nonneg|apply Bx]|].
    unfold TlsRecorder_ctx_counter. rewrite E. eexists. split; [done|].
    split; [by apply counters_frame|]. split; [by apply histograms_frame|]. by split; [apply timers_frame|].
  - destruct (histograms_step evs h key _ Hh) as (l & E & Hl); [intros k; split; [apply hit_of_nonneg|apply Bh]|].
    unfold hit_histogram. rewrite E. eexists. split; [done|].
    split; [by apply counters_frame|]. split; [done|]. split; [by apply timers_frame|]. apply ctx_frame; auto.
  - destruct (timers_step evs t nanos _ Ht) as (l & E & Hl).
    unfold add_time. rewrite E. eexists. split; [done|].
    split; [by apply counters_frame|]. split; [by apply histograms_frame|]. split; [done|]. apply ctx_frame; auto.
Qed.

Lemma totals_fit_app e1 e2 :
  Forall event_ok (e1 ++ e2) -> totals_fit (e1 ++ e2) -> totals_fit e1 /\ totals_fit e2.
Proof.
  intros [H1 H2]%Forall_app (Bc & Bh & Bx). split; (split; [|split]); intros;
    [specialize (Bc c)|specialize (Bh h k)|specialize (Bx tag c)|
     specialize (Bc c)|specialize (Bh h k)|specialize (Bx tag c)]; rewrite sum_of_app in *.
  - pose proof (count_of_nonneg e2 c H2). lia.
  - pose proof (hit_of_nonneg e2 h k). lia.
  - pose proof (ctx_of_nonneg e2 tag c H2). lia.
  - pose proof (count_of_nonneg e1 c H1). lia.
  - pose proof (hit_of_nonneg e1 h k). lia.
  - pose proof (ctx_of_nonneg e1 tag c H1). lia.
Qed.

Lemma record_all_ok evs evs0 r :
  records evs0 r -> Forall event_ok (evs0 ++ evs) -> totals_fit (evs0 ++ evs) ->
  exists r', record_all evs r = Ret r' /\ records (evs0 ++ evs) r'.
Proof.
  revert evs0 r. induction evs as [|e evs IH]; intros evs0 r Hr Hok Hf.
  { exists r. by rewrite app_nil_r. }
  replace (evs0 ++ e :: evs) with ((evs0 ++ [e]) ++ evs) in * by (by rewrite <-app_assoc).
  destruct (record_event_ok evs0 e r Hr) as (r1 & E & Hr1).
  - by apply Forall_app in Hok as [? _].
  - by apply totals_fit_app in Hf as [? _].
  - cbn [record_all]. rewrite E. runm. by apply IH.
Qed.

(** *** Summing two recorders *)
Lemma counters_add e1 e2 l1 l2 :
  counters_ok e1 l1 -> counters_ok e2 l2 -> Forall event_ok (e1 ++ e2) -> totals_fit (e1 ++ e2) ->
  exists l, CounterRecorder_add_assign l1 l2 = Ret l /\ counters_ok (e1 ++ e2) l.
Proof.
  intros -> -> Hok (Bc & _). rewrite add_map.
  - eexists. split; [done|]. apply map_ext. intros c. by rewrite sum_of_app.
  - intros c. rewrite <-sum_of_app. split; [by apply count_of_nonneg|apply Bc].
Qed.

Lemma histogram_add e1 e2 h m1 m2 :
  (forall k, m1 !! k = if decide (sum_of (hit_of h k) e1 = 0) then None else Some (sum_of (hit_of h k) e1)) ->
  (forall k, m2 !! k = if decide (sum_of (hit_of h k) e2 = 0) then None else Some (sum_of (hit_of h k) e2)) ->
  (forall k, sum_of (hit_of h k) (e1 ++ e2) < 2 ^ 64) ->
  exists m, add_entries (map_to_list m2) m1 = Ret m /\
    forall k, m !! k = if decide (sum_of (hit_of h k) (e1 ++ e2) = 0) then None else Some (sum_of (hit_of h k) (e1 ++ e2)).
Proof.
  intros H1 H2 Hf. rewrite add_entries_merge.
  assert (Hchk : forall k x v, m1 !! k = Some x -> m2 !! k = Some v -> chk 64 (x + v) = Ret (sum_of (hit_of h k) (e1 ++ e2))).
  { intros k x v. rewrite H1, H2. repeat case_decide; intros; simplify_eq. rewrite <-sum_of_app. apply chk_ok.
    split; [apply hit_of_nonneg|apply Hf]. }
  destruct (merge_map_ok (fun x y => chk 64 (x + y)) m1 m2) as (m & E & Hj); [intros; eauto|].
  exists m. split; [done|]. intros k. specialize (Hj k). specialize (Hchk k).
  destruct (m1 !! k) as [x|] eqn:E1, (m2 !! k) as [v|] eqn:E2; cbn [joined] in Hj;
    try (destruct Hj as (s & Es & ->); rewrite (Hchk x v eq_refl eq_refl) in Es; injection Es as <-); try rewrite Hj;
    rewrite H1 in E1; rewrite H2 in E2; rewrite sum_of_app in *;
    pose proof (hit_of_nonneg e1 h k); pose proof (hit_of_nonneg e2 h k);
    repeat case_decide; simplify_eq; (lia || done || (f_equal; lia)).
Qed.

Lemma histograms_add e1 e2 hs1 hs2 :
  histograms_ok e1 hs1 -> histograms_ok e2 hs2 -> totals_fit (e1 ++ e2) ->
  exists hs, HistogramRecorder_add_assign hs1 hs2 = Ret hs /\ histograms_ok (e1 ++ e2) hs.
Proof.
  intros (F & -> & HF) (G & -> & HG) (_ & Bh & _).
  assert (Hall : forall h, exists m, add_entries (map_to_list (G h)) (F h) = Ret m /\
    forall k, m !! k = if decide (sum_of (hit_of h k) (e1 ++ e2) = 0) then None else Some (sum_of (hit_of h k) (e1 ++ e2)))
    by (intros h; by apply histogram_add).
  (* The result of each histogram as a function. *)
  assert (exists K, forall h, add_entries (map_to_list (G h)) (F h) = Ret (K h) /\
    forall k, K h !! k = if decide (sum_of (hit_of h k) (e1 ++ e2) = 0) then None else Some (sum_of (hit_of h k) (e1 ++ e2)))
    as (K & HK).
  { exists (fun h => match add_entries (map_to_list (G h)) (F h) with Ret m => m | _ => ∅ end).
    intros h. destruct (Hall h) as (m & E & Hm). by rewrite E. }
  exists (map K all_Histogram). split; [|exists K; split; [done|apply HK]].
  unfold HistogramRecorder_add_assign, all_Histogram. cbn [map]. simpl. by rewrite !(fun h => proj1 (HK h)).
Qed.

Lemma timers_add e1 e2 ts1 ts2 :
  timers_ok e1 ts1 -> timers_ok e2 ts2 ->
  exists ts, TimerRecorder_add_assign ts1 ts2 = Ret ts /\ timers_ok (e1 ++ e2) ts.
Proof.
  intros -> ->. exists (map (fun t => concat (map (times_of t) e1) ++ concat (map (times_of t) e2)) all_Timer).
  split; [reflexivity|]. apply map_ext. intros t. by rewrite map_app, concat_app.
Qed.

Lemma ctx_add e1 e2 x1 x2 :
  ctx_ok e1 x1 -> ctx_ok e2 x2 -> Forall event_ok (e1 ++ e2) -> totals_fit (e1 ++ e2) ->
  exists x, CtxCounterRecorder_add_assign x1 x2 = Ret x /\ ctx_ok (e1 ++ e2) x.
Proof.
  intros H1 H2 Hok (_ & _ & Bx). unfold CtxCounterRecorder_add_assign. rewrite add_ctx_merge.
  assert (Hadd : forall tag a b, x1 !! tag = Some a -> x2 !! tag = Some b ->
    CounterRecorder_add_assign a b = Ret (map (fun c => sum_of (ctx_of tag c) (e1 ++ e2)) all_Counter)).
  { intros tag a b. rewrite H1, H2. repeat case_decide; intros Ea Eb; simplify_eq. rewrite add_map.
    - f_equal. apply map_ext. intros c. by rewrite sum_of_app.
    - intros c. rewrite <-sum_of_app. split; [by apply ctx_of_nonneg|apply Bx]. }
  destruct (merge_map_ok CounterRecorder_add_assign x1 x2) as (x & E & Hj); [intros; eauto|].
  exists x. split; [done|]. intros tag. specialize (Hj tag). specialize (Hadd tag).
  assert (Hs : forall c, sum_of (ctx_of tag c) (e1 ++ e2) = sum_of (ctx_of tag c) e1 + sum_of (ctx_of tag c) e2)
    by (intros; apply sum_of_app).
  rewrite (decide_ext (Exists (tagged tag) (e1 ++ e2)) (Exists (tagged tag) e1 \/ Exists (tagged tag) e2))
    by apply Exists_app.
  destruct (x1 !! tag) as [a|] eqn:E1, (x2 !! tag) as [b|] eqn:E2; cbn [joined] in Hj;
    try (destruct Hj as (s & Es & ->); rewrite (Hadd a b eq_refl eq_refl) in Es; injection Es as <-); try rewrite Hj;
    rewrite H1 in E1; rewrite H2 in E2; repeat case_decide; simplify_eq; try tauto; try done;
    f_equal; apply map_ext; intros c; rewrite Hs.
  - rewrite (ctx_untagged e2) by done. lia.
  - rewrite (ctx_untagged e1) by done. lia.
Qed.

(** C34: The sum of two threads' recorders is the recorder of a thread that recorded
    the events of both: nothing is counted twice or lost, as long as no total
    overflows. *)
Theorem recorders_sum e1 e2 :
  Forall event_ok (e1 ++ e2) -> totals_fit (e1 ++ e2) ->
  exists r1 r2 r,
    record_all e1 TlsRecorder_default = Ret r1 /\ record_all e2 TlsRecorder_default = Ret r2 /\
    TlsRecorder_add r1 r2 = Ret r /\ record_all (e1 ++ e2) TlsRecorder_default = Ret r.
Proof.
  intros Hok Hf. destruct (totals_fit_app e1 e2 Hok Hf) as [F1 F2]. pose proof Hok as [Ok1 Ok2]%Forall_app.
  destruct (record_all_ok e1 [] _ records_default Ok1 F1) as (r1 & E1 & R1).
  destruct (record_all_ok e2 [] _ records_default Ok2 F2) as (r2 & E2 & R2).
  destruct (record_all_ok (e1 ++ e2) [] _ records_default Hok Hf) as (r & E & R). cbn [app] in *.
  pose proof R1 as (C1 & H1 & T1 & X1). pose proof R2 as (C2 & H2 & T2 & X2).
  destruct (counters_add e1 e2 _ _ C1 C2 Hok Hf) as (c & Ec & Rc).
  destruct (histograms_add e1 e2 _ _ H1 H2 Hf) as (h & Eh & Rh).
  destruct (timers_add e1 e2 _ _ T1 T2) as (t & Et & Rt).
  destruct (ctx_add e1 e2 _ _ X1 X2 Hok Hf) as (x & Ex & Rx).
  exists r1, r2, r. split; [done|]. split; [done|]. split; [|done].
  unfold TlsRecorder_add, TlsRecorder_add_assign. rewrite Ec. runm. rewrite Eh. runm. rewrite Et. runm. rewrite Ex. runm.
  f_equal. by apply (records_unique (e1 ++ e2)).
Qed.

Lemma recorders_sum_witness :
  exists r1 r2 r,
    record_all [ECount ReadHit 2; EHit ProbeLen 70000; ECtx UpdateHit 1 Stock] TlsRecorder_default = Ret r1 /\
    record_all [ECount ReadHit 3; ETime Tpcc 5; ECtx UpdateHit 4 Stock] TlsRecorder_default = Ret r2 /\
    TlsRecorder_add r1 r2 = Ret r.
Proof.
  destruct (recorders_sum [ECount ReadHit 2; EHit ProbeLen 70000; ECtx UpdateHit 1 Stock]
              [ECount ReadHit 3; ETime Tpcc 5; ECtx UpdateHit 4 Stock]) as (r1 & r2 & r & E1 & E2 & E & _).
  - repeat constructor; cbn; lia.
  - split; [|split]; intros; unfold sum_of; cbn; repeat case_decide; lia.
  - exists r1, r2, r. split; [exact E1|]. split; [exact E2|exact E].
Defined.

(** The serialised counters carry every counter once, under its own name. *)
Theorem serialize_names f :
  CounterRecorder_serialize (map f all_Counter) = Ret (map (fun c => (Counter_name c, f c)) all_Counter) /\
  NoDup (map Counter_name all_Counter) /\ NoDup (map Histogram_name all_Histogram).
Proof.
  split; [reflexivity|]. split; apply (bool_decide_unpack _); vm_compute; done.
Qed.

(** Without the feature the macros do nothing. *)
Lemma macros_off event amount h v tag r :
  counter_macro false event amount r = Ret r /\ counter_tag_macro false event tag r = Ret r /\
  histogram_macro false h v r = Ret r.
Proof. done. Qed.

(** ** What is serialised *)

(** One element per event in every array. *)
Record shaped (r : TlsRecorder) : Prop := mkShaped {
  sh_counters : length (counters r) = 17%nat;
  sh_histograms : length (histograms r) = 7%nat;
  sh_timers : length (timers r) = 2%nat;
  sh_ctx k c : ctx_counter r !! k = Some c -> length c = 17%nat;
}.

Lemma serialize_counters_full (c : CounterRecorder) :
  length c = 17%nat -> CounterRecorder_serialize c = Ret (zip (Counter_name <$> all_Counter) c).
Proof. intros Hl. do 17 (destruct c as [|? c]; [done|]). by destruct c. Qed.

Lemma serialize_contexts_ok (l : list (CtxCounter * CounterRecorder)) :
  Forall (fun e => length e.2 = 17%nat) l ->
  serialize_contexts l = Ret (map (fun e => (CtxCounter_name e.1, zip (Counter_name <$> all_Counter) e.2)) l).
Proof.
  induction 1 as [|[k c] l Hc _ IH]; [done|]. cbn [serialize_contexts map fst snd].
  rewrite serialize_counters_full by done. runm. by rewrite IH.
Qed.

Lemma ctx_entries r : shaped r -> Forall (fun e => length e.2 = 17%nat) (map_to_list (ctx_counter r)).
Proof. intros Hs. apply Forall_forall. intros [k c] Hin%elem_of_map_to_list. by eapply (sh_ctx r Hs). Qed.

(** *** What a reader of the result finds

    Objects are read by the names of their fields, in whatever order they were
    written; [named] finds the value of a name. *)
Definition named {A} (name : string) (fs : list (string * A)) : option A := (list_to_map fs : gmap string A) !! name.

Definition counter_fields : list (string * Counter) :=
  [("read_hit", ReadHit); ("read_miss", ReadMiss); ("probe_miss", ProbeMiss); ("read_schema_miss", ReadSchemaMiss);
   ("read_cnt", ReadCnt); ("update_cnt", UpdateCnt); ("insert_cnt", InsertCnt);
   ("update_schema_miss", UpdateSchemaMiss); ("update_hit", UpdateHit); ("update_miss", UpdateMiss);
   ("abort_read_lock_busy", AbortRLockBusy); ("abort_write_lock_busy", AbortWLockBusy);
   ("abort_upgrade_lock_busy", AbortUpgradeBusy); ("abort_idx_not_found", AbortIdxNotFound);
   ("abort_lock_busy", AbortLockBusy); ("delivery_new_order_not_found", DeliveryNewOrderNotFound);
   ("new_order_rollback", NewOrderRollback)]%string.

Definition histogram_fields : list (string * Histogram) :=
  [("prob_len", ProbeLen); ("hotness", Hotness); ("scanned", Scanned);
   ("payment_customer_scan", PaymentCustomerScan); ("os_order_scan", OSOrderScan);
   ("order_line_scan", OrderLineScan); ("stock_level_quantity", StockLevelQuantity)]%string.

Definition timer_fields : list (string * Timer) := [("read", Read); ("tpcc", Tpcc)]%string.

Definition context_fields : list (string * CtxCounter) :=
  [("Customer", Customer); ("Stock", Stock); ("Order", Order)]%string.

(** No name comes twice, and every event's value is found under its name. *)
Definition found_by_name {E A} (fields : list (string * E)) (num : E -> Z) (values : list A) (fs : list (string * A)) : Prop :=
  NoDup fs.*1 /\ Forall (fun f => named f.1 fs = values !! Z.to_nat (num f.2)) fields.

Record read_back (r : TlsRecorder) (js : Serialized) : Prop := mkReadBack {
  rb_counters : found_by_name counter_fields Counter_num (counters r) (js_counters js);
  rb_histograms : found_by_name histogram_fields Histogram_num (histograms r) (js_histograms js);
  rb_timers : found_by_name timer_fields Timer_num (timers r) (js_timers js);
  rb_names : NoDup (js_ctx_counter js).*1;
  rb_ctx : Forall (fun f =>
    match ctx_counter r !! f.2, named f.1 (js_ctx_counter js) with
    | Some c, Some fs => found_by_name counter_fields Counter_num c fs
    | None, None => True
    | _, _ => False
    end) context_fields;
}.

(** The fields that are written are those that are read. *)
Lemma counters_found (c : CounterRecorder) :
  length c = 17%nat -> found_by_name counter_fields Counter_num c (zip (Counter_name <$> all_Counter) c).
Proof.
  intros Hl. do 17 (destruct c as [|? c]; [done|]). destruct c; [|done].
  split; [apply (bool_decide_unpack _); vm_compute; exact I|]. repeat constructor.
Qed.

Lemma histograms_found (h : HistogramRecorder) :
  length h = 7%nat -> found_by_name histogram_fields Histogram_num h (zip (Histogram_name <$> all_Histogram) h).
Proof.
  intros Hl. do 7 (destruct h as [|? h]; [done|]). destruct h; [|done].
  split; [apply (bool_decide_unpack _); vm_compute; exact I|]. repeat constructor.
Qed.

Lemma timers_found (t : TimerRecorder) :
  length t = 2%nat -> found_by_name timer_fields Timer_num t (zip (Timer_name <$> all_Timer) t).
Proof.
  intros Hl. do 2 (destruct t as [|? t]; [done|]). destruct t; [|done].
  split; [apply (bool_decide_unpack _); vm_compute; exact I|]. repeat constructor.
Qed.

Lemma CtxCounter_name_inj c c' : CtxCounter_name c = CtxCounter_name c' -> c = c'.
Proof. by destruct c, c'. Qed.

(** Reading under a name what was written under the names of the contexts. *)
Lemma named_contexts {B C} (f : B -> C) (x : gmap CtxCounter B) tag :
  named (CtxCounter_name tag) (map (fun e => (CtxCounter_name e.1, f e.2)) (map_to_list x)) = f <$> x !! tag.
Proof.
  rewrite <-(list_to_map_to_list x) at 2. pose proof (NoDup_fst_map_to_list x) as Hd. revert Hd.
  unfold named. induction (map_to_list x) as [|[k b] l IH]; intros Hd; cbn [map list_to_map foldr fst snd] in *; [by rewrite !lookup_empty|].
  apply NoDup_cons in Hd as [_ Hd]. destruct (decide (k = tag)) as [->|Hne]; [by rewrite !lookup_insert_eq|].
  rewrite !lookup_insert_ne; [by apply IH|done|]. intros E%CtxCounter_name_inj. done.
Qed.

Lemma context_names_nodup {B C} (f : B -> C) (x : gmap CtxCounter B) :
  NoDup (map (fun e => (CtxCounter_name e.1, f e.2)) (map_to_list x)).*1.
Proof.
  pose proof (NoDup_fst_map_to_list x) as Hd. revert Hd. induction (map_to_list x) as [|[k b] l IH]; intros Hd; [constructor|].
  apply NoDup_cons in Hd as [Hk Hd]. cbn. constructor; [|by apply IH]. intros ([k' c] & E & Hin)%list_elem_of_fmap.
  cbn in E. apply list_elem_of_In, in_map_iff in Hin as ([k2 b2] & [= <- <-] & Hin). apply CtxCounter_name_inj in E as ->.
  apply Hk. apply list_elem_of_fmap. exists (k2, b2). split; [done|]. by apply list_elem_of_In.
Qed.

(** Two arrays that are read alike are equal: every element has a name. *)
Lemma found_inj {E A} (fields : list (string * E)) (num : E -> Z) (v v' : list A) fs :
  (forall i, (i < length v)%nat -> i ∈ (fun f => Z.to_nat (num f.2)) <$> fields) -> length v' = length v ->
  found_by_name fields num v fs -> found_by_name fields num v' fs -> v' = v.
Proof.
  intros Hall Hl [_ H1] [_ H2]. apply list_eq_same_length with (length v); [done|done|]. intros i x y Hi Hx Hy.
  specialize (Hall i Hi). apply list_elem_of_fmap in Hall as ([name e] & Ei & Hin). cbn in Ei.
  pose proof (proj1 (Forall_forall _ _) H1 _ Hin) as E1. pose proof (proj1 (Forall_forall _ _) H2 _ Hin) as E2.
  cbn in E1, E2. rewrite <-Ei in E1, E2. congruence.
Qed.

Lemma all_indexes {E} (fields : list (string * E)) (num : E -> Z) (n : nat) :
  forallb (fun i => bool_decide (i ∈ (fun f => Z.to_nat (num f.2)) <$> fields)) (seq 0 n) = true ->
  forall i, (i < n)%nat -> i ∈ (fun f => Z.to_nat (num f.2)) <$> fields.
Proof. intros H i Hi. rewrite forallb_forall in H. eapply bool_decide_eq_true_1, H, in_seq. lia. Qed.

Lemma counters_inj (c c' : CounterRecorder) fs :
  length c = 17%nat -> length c' = 17%nat ->
  found_by_name counter_fields Counter_num c fs -> found_by_name counter_fields Counter_num c' fs -> c' = c.
Proof. intros Hc Hc'. apply found_inj; [rewrite Hc; apply all_indexes; by vm_compute|lia]. Qed.

Lemma read_back_inj r r' js : shaped r -> shaped r' -> read_back r js -> read_back r' js -> r' = r.
Proof.
  intros [L1 L2 L3 L4] [L1' L2' L3' L4'] [C1 H1 T1 _ X1] [C2 H2 T2 _ X2].
  destruct r as [c h t x], r' as [c' h' t' x']. cbn [counters histograms timers ctx_counter] in *. f_equal.
  - by eapply counters_inj.
  - eapply (found_inj histogram_fields Histogram_num); [rewrite L2; apply all_indexes; by vm_compute|lia|done|done].
  - eapply (found_inj timer_fields Timer_num); [rewrite L3; apply all_indexes; by vm_compute|lia|done|done].
  - apply map_eq. intros tag. rewrite Forall_forall in X1, X2.
    assert (Htag : (CtxCounter_name tag, tag) ∈ context_fields) by (apply (bool_decide_unpack _); by destruct tag).
    specialize (X1 _ Htag). specialize (X2 _ Htag). cbn [fst snd] in X1, X2.
    destruct (x !! tag) as [a|] eqn:Ea, (x' !! tag) as [b|] eqn:Eb, (named _ _) as [fs|]; try done.
    f_equal. eapply counters_inj; eauto.
Qed.

(** C38: Nothing a recorder holds is lost when it is written out: every recorder with
    an element per event is serialised; whoever reads the result by the names of
    its fields finds no name twice and every event's value, of every context too,
    under the event's own name ("read_hit", "tpcc" and so on), and no other
    recorder can be read so. *)
Theorem serialize_faithful r :
  shaped r ->
  exists js, TlsRecorder_serialize r = Ret js /\ read_back r js /\
    forall r', shaped r' -> read_back r' js -> r' = r.
Proof.
  intros Hs.
  assert (E : TlsRecorder_serialize r =
    Ret (mkSerialized (zip (Counter_name <$> all_Counter) (counters r)) (zip (Histogram_name <$> all_Histogram) (histograms r))
           (zip (Timer_name <$> all_Timer) (timers r))
           (map (fun e => (CtxCounter_name e.1, zip (Counter_name <$> all_Counter) e.2)) (map_to_list (ctx_counter r))))).
  { unfold TlsRecorder_serialize. rewrite serialize_counters_full by apply Hs. runm.
    unfold CtxCounterRecorder_serialize. rewrite serialize_contexts_ok by by apply ctx_entries.
    destruct Hs as [_ H2 H3 _]. destruct r as [c h t x]. simpl in *.
    do 7 (destruct h as [|? h]; [done|]). destruct h; [|done]. do 2 (destruct t as [|? t]; [done|]). by destruct t. }
  eexists. split; [exact E|]. clear E. match goal with |- read_back r ?js /\ _ => assert (Hb : read_back r js) end.
  - split; cbn [js_counters js_histograms js_timers js_ctx_counter];
      [apply counters_found, Hs|apply histograms_found, Hs|apply timers_found, Hs
      |apply (context_names_nodup (zip (Counter_name <$> all_Counter)))|].
    apply Forall_forall. intros [name tag] Hin.
    assert (name = CtxCounter_name tag) as -> by (unfold context_fields in Hin; set_solver).
    cbn [fst snd]. rewrite (named_contexts (zip (Counter_name <$> all_Counter))).
    destruct (ctx_counter r !! tag) as [c|] eqn:Ec; [|done]. cbn [fmap option_fmap option_map].
    eapply counters_found, (sh_ctx r Hs), Ec.
  - split; [exact Hb|]. intros r' Hs' Hr'. by eapply read_back_inj.
Qed.

Lemma serialize_faithful_witness :
  exists js, TlsRecorder_serialize TlsRecorder_default = Ret js /\ read_back TlsRecorder_default js.
Proof.
  destruct (serialize_faithful TlsRecorder_default) as (js & E & Hn & _); [by split|]. exists js. split; [exact E|exact Hn].
Defined.
