(* ===== verification/Mmap.v ===== *)
(** * Memory mappings and the pool heap (src/utils/mmap.rs, src/storage/pm_heap.rs)

    The system calls are parameters: [mmap] answers a request with an address,
    [-1] being [MAP_FAILED].  The flag constants are those of the libc crate,
    of which the code relies on their bits being apart. *)

From stdpp Require Import pretty.
From S2P Require Import Prelude Schema External.

(** ** libc *)
Record Libc := mkLibc {
  MAP_FIXED : Z;
  MAP_HUGE_2MB : Z;
  MAP_HUGETLB : Z;
  MAP_SYNC : Z;
  MAP_SHARED_VALIDATE : Z;
  MAP_ANONYMOUS : Z;
  MAP_PRIVATE : Z;
}.

Definition linux : Libc := mkLibc 0x10 (Z.shiftl 21 26) 0x40000 0x80000 0x3 0x20 0x2.

(** The bit that says a mapping is anonymous is in none of the other flags. *)
Record LibcLaws (C : Libc) : Prop := {
  anon_bit : exists b, 0 <= b /\ MAP_ANONYMOUS C = 2 ^ b /\
    Forall (fun f => Z.testbit f b = false)
      [MAP_FIXED C; MAP_HUGE_2MB C; MAP_HUGETLB C; MAP_SYNC C; MAP_SHARED_VALIDATE C; MAP_PRIVATE C];
}.

Lemma linux_laws : LibcLaws linux.
Proof. split. exists 5. split; [done|]. split; [reflexivity|]. by repeat constructor. Qed.

Section mmap.
Variable C : Libc.

(** The arguments of a call of [mmap] that differ between calls. *)
Record MapRequest := mkRequest { rq_addr : Z; rq_len : Z; rq_flags : Z; rq_fd : Z }.

(** ** [MemoryMapper] *)
Record MemoryMapper := mkMapper {
  heap_size : Z;
  mm_addr : option Z;
  mm_fd : option Z;
  mm_flags : Z;
}.

Definition MemoryMapper_new (heap_size : Z) : MemoryMapper :=
  mkMapper heap_size None None (MAP_HUGE_2MB C).

Definition set_addr (addr : Z) (m : MemoryMapper) : MemoryMapper :=
  mkMapper (heap_size m) (Some addr) (mm_fd m) (Z.lor (mm_flags m) (MAP_FIXED C)).

Definition set_flags (flags : Z) (m : MemoryMapper) : MemoryMapper :=
  mkMapper (heap_size m) (mm_addr m) (mm_fd m) (Z.lor (mm_flags m) flags).

Definition huge_page (m : MemoryMapper) : MemoryMapper := set_flags (MAP_HUGETLB C) m.

Definition nvm_file (fd : Z) (m : MemoryMapper) : MemoryMapper :=
  mkMapper (heap_size m) (mm_addr m) (Some fd)
    (Z.lor (mm_flags m) (Z.lor (MAP_SYNC C) (MAP_SHARED_VALIDATE C))).

Definition disk_file (fd : Z) (m : MemoryMapper) : MemoryMapper :=
  mkMapper (heap_size m) (mm_addr m) (Some fd) (mm_flags m).

Definition request (m : MemoryMapper) : MapRequest :=
  mkRequest (default 0 (mm_addr m)) (heap_size m) (mm_flags m) (default (-1) (mm_fd m)).

(** [map], given the answer of [mmap] to its request. *)
Definition map_result (m : MemoryMapper) (mapped_addr : Z) : result Z SystemError :=
  if mapped_addr =? -1 then Err MmapFail
  else
    match mm_addr m with
    | Some addr => if negb (mapped_addr =? addr) then Err MmapMismatchAddr else Ok mapped_addr
    | None => Ok mapped_addr
    end.

Definition map_nvm_builder (heap_size : Z) (addr : option Z) (fd : Z) : MemoryMapper :=
  let builder := nvm_file fd (MemoryMapper_new heap_size) in
  match addr with Some addr => set_addr addr builder | None => builder end.

Definition map_dram_builder (heap_size : Z) (addr : option Z) (fd : option Z) : MemoryMapper :=
  let builder := MemoryMapper_new heap_size in
  let builder := match fd with Some fd => disk_file fd builder | None => builder end in
  let builder := match addr with Some addr => set_addr addr builder | None => builder end in
  set_flags (Z.lor (MAP_ANONYMOUS C) (MAP_PRIVATE C)) builder.

(** ** [create_and_map_pool] *)

(** What the system answers when the pool's file is created: whether opening,
    sizing and syncing it succeed, and its descriptor. *)
Record FileAnswers := mkFile { open_ok : bool; set_len_ok : bool; sync_ok : bool; file_fd : Z }.

Definition create_and_allocate_file (f : FileAnswers) : outcome (result Z SystemError) :=
  if negb (open_ok f) then Ret (Err FileAlloc)
  else if negb (set_len_ok f) then Ret (Err FileAlloc)
  else
    _ ← rassert (sync_ok f);
    Ret (Ok (file_fd f)).

(** [mmap n] answers the request made as the [n]-th call; the requests made are
    returned with the result. *)
Definition create_and_map_pool (f : FileAnswers) (size : Z) (addr : option Z)
    (mmap : nat -> MapRequest -> Z) : outcome (result Z SystemError * list MapRequest) :=
  file ← create_and_allocate_file f;
  match file with
  | Err e => Ret (Err e, [])
  | Ok fd =>
      let nvm := map_nvm_builder size addr fd in
      let r0 := request nvm in
      match map_result nvm (mmap 0%nat r0) with
      | Ok a => Ret (Ok a, [r0])
      | Err _ =>
          let huge := huge_page (map_dram_builder size addr (Some fd)) in
          let r1 := request huge in
          match map_result huge (mmap 1%nat r1) with
          | Ok a => Ret (Ok a, [r0; r1])
          | Err _ =>
              let small := map_dram_builder size addr (Some fd) in
              let r2 := request small in
              Ret (map_result small (mmap 2%nat r2), [r0; r1; r2])
          end
      end
  end.
End mmap.

(** ** [PmHeap] (src/storage/pm_heap.rs)

    The heap, the pool files that exist, and the mappings that are live, by
    address with their size. *)
Section heap.
Variable C : Libc.
Context {M : Type} `{KvMap (string * Z) M}.

Record PmHeap := mkHeap { file_id : Z; file_mapping : M }.

Record World := mkWorld { files : gset string; mapped : gmap Z Z }.

Definition PmHeap_new : PmHeap := mkHeap 0 kv_empty.

(** The file of the pool, in the directory of the pools. *)
Definition pool_path (id : Z) : string := ("caching-" +:+ pretty (Z.to_N id) +:+ ".pool")%string.

(** [f] and [mmap] are the answers of the system. *)
Definition alloc_frame (size : Z) (f : FileAnswers) (mmap : nat -> MapRequest -> Z)
    (h : PmHeap) (w : World) : outcome (Z * PmHeap * World) :=
  let id := file_id h in
  let h := mkHeap (wrap 64 (id + 1)) (file_mapping h) in
  let path := pool_path id in
  '(r, _) ← create_and_map_pool C f size None mmap;
  addr ← unwrap_ok r;
  Ret (addr, mkHeap (file_id h) (kv_insert (file_mapping h) addr (path, size)),
       mkWorld ({[path]} ∪ files w) (<[addr := size]> (mapped w))).

(** [remove_file] fails on a file that does not exist. *)
Definition dealloc_frame (ptr size : Z) (h : PmHeap) (w : World) : outcome (PmHeap * World) :=
  frame_meta ← unwrap (kv_get (file_mapping h) ptr);
  let h := mkHeap (file_id h) (kv_remove (file_mapping h) ptr) in
  let w := mkWorld (files w) (delete ptr (mapped w)) in
  _ ← rassert (bool_decide (fst frame_meta ∈ files w));
  Ret (h, mkWorld (files w ∖ {[fst frame_meta]}) (mapped w)).
End heap.
Arguments PmHeap M : clear implicits.

(** ** Properties *)

(** The three attempts and what each asks for: the first success is the
    result, the error is that of the last attempt, and an attempt is made only
    when those before it failed.  A file that cannot be created or sized is an
    error before any attempt. *)
Theorem pool_mapping_fallback C f size mmap :
  let fd := file_fd f in
  let ask flags := mkRequest 0 size flags fd in
  let nvm := ask (Z.lor (MAP_HUGE_2MB C) (Z.lor (MAP_SYNC C) (MAP_SHARED_VALIDATE C))) in
  let small := ask (Z.lor (MAP_HUGE_2MB C) (Z.lor (MAP_ANONYMOUS C) (MAP_PRIVATE C))) in
  let huge := ask (Z.lor (rq_flags small) (MAP_HUGETLB C)) in
  create_and_map_pool C f size None mmap =
    if negb (open_ok f && set_len_ok f) then Ret (Err FileAlloc, [])
    else if negb (sync_ok f) then Panic
    else if negb (mmap 0%nat nvm =? -1) then Ret (Ok (mmap 0%nat nvm), [nvm])
    else if negb (mmap 1%nat huge =? -1) then Ret (Ok (mmap 1%nat huge), [nvm; huge])
    else Ret (if mmap 2%nat small =? -1 then Err MmapFail else Ok (mmap 2%nat small), [nvm; huge; small]).
Proof.
  cbv zeta. unfold create_and_map_pool, create_and_allocate_file, map_result, request.
  destruct f as [o l y fd], o, l, y; try done. cbn.
  destruct (_ =? -1); cbn; [|done]. destruct (_ =? -1); cbn; [|done]. by destruct (_ =? -1).
Qed.

(** Only the first attempt maps the pool's file: the fallbacks, meant to map it
    as a disk file, ask for an anonymous mapping whatever the descriptor, so
    nothing written to it reaches the file. *)
Theorem fallback_is_anonymous C size addr fd :
  LibcLaws C ->
  Z.land (mm_flags (map_dram_builder C size addr (Some fd))) (MAP_ANONYMOUS C) = MAP_ANONYMOUS C /\
  Z.land (mm_flags (huge_page C (map_dram_builder C size addr (Some fd)))) (MAP_ANONYMOUS C) = MAP_ANONYMOUS C /\
  Z.land (mm_flags (map_nvm_builder C size addr fd)) (MAP_ANONYMOUS C) = 0.
Proof.
  intros [(b & Hb & E & Hall)]. rewrite !Forall_cons in Hall. destruct Hall as (B1 & B2 & B3 & B4 & B5 & B6 & _).
  assert (Hin : forall z, Z.testbit z b = true -> Z.land z (MAP_ANONYMOUS C) = MAP_ANONYMOUS C).
  { intros z Hz. rewrite E. apply Z.bits_inj'. intros n Hn. rewrite Z.land_spec, Z.pow2_bits_eqb by done.
    destruct (Z.eqb_spec b n) as [->|]; [by rewrite Hz|apply andb_false_r]. }
  assert (Hout : forall z, Z.testbit z b = false -> Z.land z (MAP_ANONYMOUS C) = 0).
  { intros z Hz. rewrite E. apply Z.bits_inj'. intros n Hn. rewrite Z.land_spec, Z.pow2_bits_eqb, Z.bits_0 by done.
    destruct (Z.eqb_spec b n) as [->|]; [by rewrite Hz|apply andb_false_r]. }
  assert (Ha : Z.testbit (MAP_ANONYMOUS C) b = true) by (rewrite E; by apply Z.pow2_bits_true).
  destruct addr; cbn; split_and!;
    (apply Hin || apply Hout); rewrite !Z.lor_spec, ?Ha, ?B1, ?B2, ?B3, ?B4, ?B5, ?B6; rewrite ?orb_true_r; done.
Qed.

Lemma fallback_is_anonymous_witness :
  Z.land (mm_flags (map_dram_builder linux 4096 None (Some 3))) (MAP_ANONYMOUS linux) = MAP_ANONYMOUS linux.
Proof. exact (proj1 (fallback_is_anonymous linux 4096 None 3 linux_laws)). Defined.

(** *** Frames *)
Lemma list_ascii_app s t :
  Stdlib.Strings.String.list_ascii_of_string (s +:+ t) = Stdlib.Strings.String.list_ascii_of_string s ++ Stdlib.Strings.String.list_ascii_of_string t.
Proof. induction s as [|c s IH]; [done|]. cbn. by rewrite <-IH. Qed.

Lemma append_inj_r s1 s2 t : s1 +:+ t = s2 +:+ t -> s1 = s2.
Proof.
  intros E. apply (f_equal Stdlib.Strings.String.list_ascii_of_string) in E. rewrite !list_ascii_app in E. apply app_inv_tail in E.
  rewrite <-(Stdlib.Strings.String.string_of_list_ascii_of_string s1), <-(Stdlib.Strings.String.string_of_list_ascii_of_string s2). by f_equal.
Qed.

Lemma pool_path_inj i j : 0 <= i -> 0 <= j -> pool_path i = pool_path j -> i = j.
Proof.
  intros Hi Hj Hp. unfold pool_path in Hp. apply (inj (String.app "caching-")) in Hp.
  apply append_inj_r, (inj pretty) in Hp. lia.
Qed.

Section frames.
Variable C : Libc.
Context {M : Type} `{KvMapLaws (string * Z) M}.

(** Every frame is mapped, its file exists, has one of the ids used so far, and
    is no other frame's. *)
Definition heap_inv (h : PmHeap M) (w : World) : Prop :=
  0 <= file_id h /\
  (forall a p size, kv_get (file_mapping h) a = Some (p, size) ->
     mapped w !! a = Some size /\ p ∈ files w /\ exists i, 0 <= i < file_id h /\ p = pool_path i) /\
  (forall a a' p size size', kv_get (file_mapping h) a = Some (p, size) ->
     kv_get (file_mapping h) a' = Some (p, size') -> a = a').

Lemma PmHeap_new_inv w : heap_inv PmHeap_new w.
Proof. split; [done|]. split; intros *; cbn; by rewrite kv_get_empty. Qed.

(** C39: A new frame is at the address the system mapped, has a file of its own, and
    no frame that was there before changes. *)
Theorem alloc_frame_fresh size f mmap h w addr reqs :
  heap_inv h w -> file_id h + 1 < 2 ^ 64 ->
  create_and_map_pool C f size None mmap = Ret (Ok addr, reqs) -> kv_get (file_mapping h) addr = None ->
  exists h' w' path, alloc_frame C size f mmap h w = Ret (addr, h', w') /\ heap_inv h' w' /\
    kv_get (file_mapping h') addr = Some (path, size) /\ mapped w' !! addr = Some size /\
    (forall a, a <> addr -> kv_get (file_mapping h') a = kv_get (file_mapping h) a /\ mapped w' !! a = mapped w !! a) /\
    (forall a p s, kv_get (file_mapping h) a = Some (p, s) -> p <> path).
Proof.
  intros (Hid & Hfr & Hinj) Hb Emap Hnew. unfold alloc_frame. rewrite Emap. runm.
  assert (Hfresh : forall a p s, kv_get (file_mapping h) a = Some (p, s) -> p <> pool_path (file_id h)).
  { intros a p s Ha. destruct (Hfr a p s Ha) as (_ & _ & i & Hi & ->). intros E%pool_path_inj; lia. }
  exists (mkHeap (wrap 64 (file_id h + 1)) (kv_insert (file_mapping h) addr (pool_path (file_id h), size))).
  exists (mkWorld ({[pool_path (file_id h)]} ∪ files w) (<[addr := size]> (mapped w))), (pool_path (file_id h)).
  rewrite wrap_small by (unfold fits; lia). split; [done|]. cbn. split; [|split; [apply kv_get_insert_eq|]].
  - split; [cbn; lia|]. split; cbn.
    + intros a p s. rewrite kv_get_insert. case_decide as E; [subst; intros [= <- <-]|].
      * rewrite lookup_insert_eq. split; [done|]. split; [set_solver|]. exists (file_id h). split; [lia|done].
      * intros Ha. destruct (Hfr a p s Ha) as (Hm & Hp & i & Hi & ->). rewrite lookup_insert_ne by done.
        split; [done|]. split; [set_solver|]. exists i. split; [lia|done].
    + intros a a' p s s'. rewrite !kv_get_insert. repeat case_decide; intros E1 E2; simplify_eq; try done.
      * by apply Hfresh in E2.
      * by apply Hfresh in E1.
      * by eapply Hinj.
  - split; [apply lookup_insert_eq|]. split; [|done]. intros a Ha. rewrite kv_get_insert_ne by done.
    by rewrite lookup_insert_ne by done.
Qed.

(** Giving a frame back unmaps it and removes its file and nothing else: all
    other frames keep their mapping and their file.  An address that is no frame
    panics. *)
Theorem dealloc_frame_removes h w addr p size :
  heap_inv h w -> kv_get (file_mapping h) addr = Some (p, size) ->
  (exists h' w', dealloc_frame addr size h w = Ret (h', w') /\ heap_inv h' w' /\
     kv_get (file_mapping h') addr = None /\ mapped w' !! addr = None /\ (p ∉ files w') /\
     (forall a, a <> addr -> kv_get (file_mapping h') a = kv_get (file_mapping h) a /\ mapped w' !! a = mapped w !! a)) /\
  (forall a, kv_get (file_mapping h) a = None -> dealloc_frame a size h w = Panic).
Proof.
  intros (Hid & Hfr & Hinj) Ha. split; [|by intros a E; unfold dealloc_frame; rewrite E].
  unfold dealloc_frame. rewrite Ha. runm. cbn [files]. destruct (Hfr addr p size Ha) as (Hm & Hp & _).
  rewrite bool_decide_eq_true_2 by done. runm. eexists _, _. split; [done|]. cbn.
  split; [|split; [by rewrite kv_get_remove, decide_True|split; [apply lookup_delete_eq|split; [set_solver|]]]].
  - split; [done|]. split; cbn.
    + intros a p' s'. rewrite kv_get_remove. case_decide; [done|]. intros Ha'.
      destruct (Hfr a p' s' Ha') as (Hm' & Hp' & Hi). rewrite lookup_delete_ne by done. split; [done|]. split; [|done].
      assert (p' <> p) by (intros ->; by pose proof (Hinj _ _ _ _ _ Ha Ha')). set_solver.
    + intros a a' p' s s'. rewrite !kv_get_remove. repeat case_decide; try done. apply Hinj.
  - intros a Hne. rewrite kv_get_remove, decide_False by done. by rewrite lookup_delete_ne by done.
Qed.
End frames.

Definition demo_file : FileAnswers := mkFile true true true 3.

Definition demo_mmap (n : nat) (r : MapRequest) : Z := if (n =? 2)%nat then 4096 else -1.

Lemma alloc_frame_fresh_witness :
  exists (h' : PmHeap (gmap Z (string * Z))) w',
    alloc_frame linux 8192 demo_file demo_mmap PmHeap_new (mkWorld ∅ ∅) = Ret (4096, h', w').
Proof.
  edestruct (alloc_frame_fresh linux (M := gmap Z (string * Z)) 8192 demo_file demo_mmap PmHeap_new (mkWorld ∅ ∅) 4096)
    as (h' & w' & path & E & _); [apply PmHeap_new_inv|reflexivity|reflexivity|reflexivity|].
  exists h', w'. exact E.
Defined.

Lemma one_frame_inv :
  heap_inv (mkHeap 1 {[4096 := (pool_path 0, 8192)]} : PmHeap (gmap Z (string * Z)))
    (mkWorld {[pool_path 0]} {[4096 := 8192]}).
Proof.
  split; [done|]. split; cbn [kv_get gmap_kv file_mapping mapped files file_id].
  - intros a p size [<- [= <- <-]]%lookup_singleton_Some. rewrite lookup_singleton_eq.
    split; [done|]. split; [set_solver|]. by exists 0.
  - intros a a' p s s' [<- _]%lookup_singleton_Some [<- _]%lookup_singleton_Some. done.
Qed.

Lemma dealloc_frame_removes_witness :
  exists (h' : PmHeap (gmap Z (string * Z))) w',
    dealloc_frame 4096 8192 (mkHeap 1 {[4096 := (pool_path 0, 8192)]}) (mkWorld {[pool_path 0]} {[4096 := 8192]})
      = Ret (h', w').
Proof.
  destruct (dealloc_frame_removes _ _ 4096 (pool_path 0) 8192 one_frame_inv) as [(h' & w' & E & _) _]; [reflexivity|].
  exists h', w'. exact E.
Defined.
