(* ===== verification/Drops.v ===== *)
(** * Who frees what (the [Drop] implementations)

    src/attribute_cache/clock_cache/cache_inner.rs, src/storage/oid_array.rs,
    src/storage/table_storage.rs, src/storage/pm_heap.rs, src/table.rs and
    src/log/mod.rs.  The other files model what the blocks of the allocator
    hold; here the state is which blocks are live, with the layout each was
    asked for, which frames the pool has mapped, and which descriptors are
    open.  Dropping a structure gives back what creating it took. *)

From Stdlib Require Import QArith.
From S2P Require Import Prelude Query Schema Layout External NodeMeta Oid ObjAlloc OidArray CacheInner ClockCache Table.
From S2P Require Import Capacity InsertOnly Mmap Logger.
Open Scope Z_scope.

(** ** The system allocator

    The live blocks by address, each with the size and the alignment of its
    layout.  An allocation of no bytes, and freeing a block with another layout
    than it was allocated with, are undefined behaviour. *)
Abbreviation Blocks := (gmap Z (Z * Z)) (only parsing).

(** [Layout::from_size_align(size, align).unwrap()]. *)
Definition from_size_align (size align : Z) : outcome (Z * Z) :=
  _ ← layout_ok size align;
  Ret (size, align).

(** [alloc] and [alloc_zeroed]; [ptr] is the allocator's answer. *)
Definition sys_alloc (l : Z * Z) (ptr : Z) (b : Blocks) : outcome Blocks :=
  _ ← in_bounds (0 <? fst l);
  Ret (<[ptr := l]> b).

Definition sys_dealloc (ptr : Z) (l : Z * Z) (b : Blocks) : outcome Blocks :=
  _ ← in_bounds (bool_decide (b !! ptr = Some l));
  Ret (delete ptr b).

Lemma sys_alloc_ok l ptr (b : Blocks) : 0 < fst l -> sys_alloc l ptr b = Ret (<[ptr := l]> b).
Proof. intros Hl. unfold sys_alloc. by rewrite (proj2 (Z.ltb_lt _ _)) by done. Qed.

Lemma sys_dealloc_ok l ptr (b : Blocks) : b !! ptr = Some l -> sys_dealloc ptr l b = Ret (delete ptr b).
Proof. intros Hl. unfold sys_dealloc. by rewrite bool_decide_eq_true_2. Qed.

Lemma sys_dealloc_bad l ptr (b : Blocks) : b !! ptr <> Some l -> sys_dealloc ptr l b = Undef.
Proof. intros Hl. unfold sys_dealloc. by rewrite bool_decide_eq_false_2. Qed.

Lemma layout_from size align : size <= 2 ^ 63 - align -> from_size_align size align = Ret (size, align).
Proof. intros Hs. unfold from_size_align, layout_ok. by rewrite (proj2 (Z.leb_le _ _)) by done. Qed.

(** ** A cache: its slots, its tuples and its record ids *)
Section owners.
Variable C : Libc.
Context {Sc : Schema} {T M P : Type} `{KvMap Z T} `{KvMap TlsAllocator M} `{KvMap (string * Z) P}.

(** The size and the alignment of a slot. *)
Variables node_size node_align : Z.

(** What the process holds. *)
Record Res := mkRes { rs_blocks : Blocks; rs_pool : PmHeap P; rs_world : World }.

Definition with_blocks (b : Blocks) (rs : Res) : Res := mkRes b (rs_pool rs) (rs_world rs).

(** [CacheInner::new_cap] allocates its slots at [ptr]. *)
Definition CacheInner_create (cache_size : Z) (probe_rng : Q) (probe_len ptr : Z) (rs : Res)
    : outcome (CacheInner T * Res) :=
  ci ← CacheInner_new node_size field_size cache_size probe_rng probe_len;
  layout ← from_size_align (cache_size / node_size * node_size) node_align;
  b ← sys_alloc layout ptr (rs_blocks rs);
  Ret (ci, with_blocks b rs).

(** [drop_in_place] does nothing to a slot: its fields are plain data. *)
Definition CacheInner_drop (entries : Z) (ci : CacheInner T) (rs : Res) : outcome Res :=
  size ← chk 64 (ci_capacity ci * node_size);
  layout ← from_size_align size node_align;
  b ← sys_dealloc entries layout (rs_blocks rs);
  Ret (with_blocks b rs).

(** The layout [OidArray::new] asks for. *)
Definition OidArray_layout (cap : Z) : outcome (Z * Z) :=
  size ← chk 64 (cap * OID_SIZE);
  size ← chk 64 (size + ARENA_SIZE 64 * 128);
  size ← align_up size (ARENA_SIZE 64);
  from_size_align size 8.

Definition OidArray_create (cap ptr : Z) (rs : Res) : outcome (OidArray M * Res) :=
  layout ← OidArray_layout cap;
  b ← sys_alloc layout ptr (rs_blocks rs);
  oids ← OidArray_new cap ptr;
  Ret (oids, with_blocks b rs).

Definition OidArray_drop (a : OidArray M) (rs : Res) : outcome Res :=
  let ptr := aa_start (ha_heap (oa_heap a)) in
  cap ← OidArray_capacity a;
  size ← chk 64 (cap * OID_SIZE);
  layout ← from_size_align size 8;
  b ← sys_dealloc ptr layout (rs_blocks rs);
  Ret (with_blocks b rs).

(** The answers of the system to the request for a frame. *)
Record FrameAnswer := mkAnswer { fa_file : FileAnswers; fa_mmap : nat -> MapRequest -> Z }.

(** The storage with the address of its frame. *)
Definition Storage_create (cap : Z) (init : list obj) (fa : FrameAnswer) (rs : Res)
    : outcome (Storage * Z * Res) :=
  st ← Storage_new tuple_size cap init;
  '(addr, h, w) ← alloc_frame C (cap * Z.of_nat tuple_size) (fa_file fa) (fa_mmap fa) (rs_pool rs) (rs_world rs);
  Ret (st, addr, mkRes (rs_blocks rs) h w).

Definition Storage_drop (heap : Z) (st : Storage) (rs : Res) : outcome Res :=
  size ← chk 64 (sg_cap st * Z.of_nat tuple_size);
  '(h, w) ← dealloc_frame heap size (rs_pool rs) (rs_world rs);
  Ret (mkRes (rs_blocks rs) h w).

(** The addresses of a cache's slots and of its tuples; that of its record ids
    is in the array. *)
Record Placement := mkPlacement { pl_entries : Z; pl_heap : Z }.

(** The answers of the system when a cache is created. *)
Record Answers := mkAnswers { an_entries : Z; an_oids : Z; an_frame : FrameAnswer }.

Definition ClockCache_create (cache_size probe_len : Z) (probe_rng : Q) (storage_size : Z)
    (an : Answers) (init : Z -> list obj) (rs : Res) : outcome (ClockCache T M * Placement * Res) :=
  '(inner, rs) ← CacheInner_create cache_size probe_rng probe_len (an_entries an) rs;
  let tuple_cnt := storage_size / Z.of_nat tuple_size in
  '(oid_array, rs) ← OidArray_create tuple_cnt (an_oids an) rs;
  cap ← OidArray_capacity oid_array;
  '(storage, heap, rs) ← Storage_create cap (init cap) (an_frame an) rs;
  Ret (mkCache inner storage oid_array, mkPlacement (an_entries an) heap, rs).

(** The fields in the order of their declaration. *)
Definition ClockCache_drop (pl : Placement) (cc : ClockCache T M) (rs : Res) : outcome Res :=
  rs ← CacheInner_drop (pl_entries pl) (cc_inner cc) rs;
  rs ← Storage_drop (pl_heap pl) (cc_storage cc) rs;
  OidArray_drop (cc_oids cc) rs.

(** ** A table, whose index is the library's *)
Context {I : Type} `{DbIndex I}.

(** [build], taking what it needs. *)
Definition build_owned (an : Answers) (init : Z -> list obj) (b : DbTableBuilder I) (rs : Res)
    : outcome (DbTable I T M * Placement * Res) :=
  cache_size ← unwrap (b_cache_size b);
  let probe := default 6 (b_probe_len b) in
  let probe_rng := default (1 # 100)%Q (b_probe_rng b) in
  storage ← unwrap (b_storage_size b);
  let cap := storage / Z.of_nat tuple_size in
  let idx := match b_index b with Some i => i | None => index_with_capacity cap end in
  _ ← rassert (b_schema b);
  '(cache, pl, rs) ← ClockCache_create cache_size probe probe_rng storage an init rs;
  Ret (mkTable cache idx, pl, rs).

Definition DbTable_drop (pl : Placement) (t : DbTable I T M) (rs : Res) : outcome Res :=
  ClockCache_drop pl (tb_cache t) rs.
End owners.
Arguments Res P : clear implicits.

(** ** The pool

    The map of frames is iterated when the pool is dropped. *)
Class KvList (V M : Type) := kv_list : M -> list (Z * V).

Class KvListLaws (V M : Type) `{KvMap V M} `{KvList V M} := {
  kv_list_get : forall m k v, (k, v) ∈ kv_list m <-> kv_get m k = Some v;
}.

#[export] Instance gmap_kv_list V : KvList V (gmap Z V) := map_to_list.

#[export] Instance gmap_kv_list_laws V : KvListLaws V (gmap Z V).
Proof. split. intros m k v. apply elem_of_map_to_list. Qed.

(** A file that cannot be removed is passed over. *)
Definition PmHeap_drop {P} `{KvList (string * Z) P} (h : PmHeap P) (w : World) : World :=
  foldl (fun w kv => mkWorld (files w ∖ {[fst kv.2]}) (delete kv.1 (mapped w))) w (kv_list (file_mapping h)).

(** ** The insert-only table: its frame and the pages of its threads *)
Section insertonly_owner.
Variable C : Libc.
Context {M P : Type} `{KvMap PageBuffer M} `{KvMap (string * Z) P}.
Variable sz : Z.

Definition page_layout : outcome (Z * Z) := from_size_align HUGEPAGE_SIZE HUGEPAGE_SIZE.

(** [PageBuffer::new] at [ptr]. *)
Definition PageBuffer_create (ptr : Z) (rs : Res P) : outcome (Res P) :=
  layout ← page_layout;
  b ← sys_alloc layout ptr (rs_blocks rs);
  Ret (with_blocks b rs).

Definition PageBuffer_drop (data : Z) (rs : Res P) : outcome (Res P) :=
  layout ← page_layout;
  b ← sys_dealloc data layout (rs_blocks rs);
  Ret (with_blocks b rs).

(** The table with the addresses of its threads' pages. *)
Record OwnedInsertonly := mkOwnedInsertonly { oi_table : InsertonlyTable M; oi_data : list Z }.

Definition InsertonlyTable_create (cap : Z) (fa : FrameAnswer) (mem : wmem) (rs : Res P)
    : outcome (OwnedInsertonly * Res P) :=
  size ← chk 64 (cap * sz);
  size ← align_up size HUGEPAGE_SIZE;
  '(addr, h, w) ← alloc_frame C size (fa_file fa) (fa_mmap fa) (rs_pool rs) (rs_world rs);
  t ← InsertonlyTable_new sz cap addr mem;
  Ret (mkOwnedInsertonly t [], mkRes (rs_blocks rs) h w).

(** The first insert of a thread makes its page, at [ptr]. *)
Definition InsertonlyTable_insert_owned (ptr tid : Z) (tuple : obj) (o : OwnedInsertonly) (rs : Res P)
    : outcome (OwnedInsertonly * Res P) :=
  '(data, rs) ←
    match kv_get (io_tls_pages (oi_table o)) tid with
    | Some _ => Ret (oi_data o, rs)
    | None => rs ← PageBuffer_create ptr rs; Ret (ptr :: oi_data o, rs)
    end;
  t ← InsertonlyTable_insert sz tid tuple (oi_table o);
  Ret (mkOwnedInsertonly t data, rs).

(** Inserts by any threads; [pick] is where the allocator puts the next
    block. *)
Fixpoint insert_owned_all (pick : gmap Z (Z * Z) -> Z) (log : list (Z * obj)) (o : OwnedInsertonly) (rs : Res P)
    : outcome (OwnedInsertonly * Res P) :=
  match log with
  | [] => Ret (o, rs)
  | (tid, v) :: log =>
      '(o, rs) ← InsertonlyTable_insert_owned (pick (rs_blocks rs)) tid v o rs;
      insert_owned_all pick log o rs
  end.

Fixpoint drop_pages (pages : list Z) (rs : Res P) : outcome (Res P) :=
  match pages with
  | [] => Ret rs
  | p :: pages => rs ← PageBuffer_drop p rs; drop_pages pages rs
  end.

(** The frame first, then the map of pages, in an order of its own: [pages]
    lists the pages in that order. *)
Definition InsertonlyTable_drop (pages : list Z) (o : OwnedInsertonly) (rs : Res P) : outcome (Res P) :=
  size ← chk 64 (aa_cap (io_storage (oi_table o)) * HUGEPAGE_SIZE);
  '(h, w) ← dealloc_frame (aa_start (io_storage (oi_table o))) size (rs_pool rs) (rs_world rs);
  drop_pages pages (mkRes (rs_blocks rs) h w).
End insertonly_owner.
Arguments OwnedInsertonly M : clear implicits.

(** ** The logger: two buffers and a file *)

(** The logger with the addresses of its buffers and its descriptor. *)
Record OwnedLogger := mkOwnedLogger { ol_logger : Logger; ol_buffers : Z * Z; ol_raw_file : Z }.

(** [p0] and [p1] are the blocks, [b0] and [b1] what they hold, [fd] the
    answer of [open], negative if it failed; [fds] are the open descriptors. *)
Definition Logger_create (buffer_size p0 p1 : Z) (b0 b1 : obj) (fd : Z) (b : Blocks) (fds : gset Z)
    : outcome (OwnedLogger * Blocks * gset Z) :=
  layout ← from_size_align buffer_size MAX_LOG_LEN;
  b ← sys_alloc layout p0 b;
  b ← sys_alloc layout p1 b;
  lg ← Logger_with_buffer_size buffer_size b0 b1;
  let fds := if fd <? 0 then fds else {[fd]} ∪ fds in
  Ret (mkOwnedLogger lg (p0, p1) fd, b, fds).

Definition Logger_drop (o : OwnedLogger) (b : Blocks) (fds : gset Z) : outcome (Blocks * gset Z) :=
  layout ← from_size_align (lg_buffer_size (ol_logger o)) MIN_BUFF_ALIGN;
  b ← sys_dealloc (fst (ol_buffers o)) layout b;
  b ← sys_dealloc (snd (ol_buffers o)) layout b;
  Ret (b, fds).

(** ** Properties *)

(** *** A frame *)
Section frame.
Variable C : Libc.
Context {P : Type} `{KvMapLaws (string * Z) P}.
Implicit Types (rs base : Res P).

(** The system's answers give the frame an address that is not in use. *)
Definition frame_free base (fa : FrameAnswer) (size addr : Z) : Prop :=
  (exists reqs, create_and_map_pool C (fa_file fa) size None (fa_mmap fa) = Ret (Ok addr, reqs)) /\
  kv_get (file_mapping (rs_pool base)) addr = None /\ mapped (rs_world base) !! addr = None.

(** [rs] has the frame at [addr] more than [base]. *)
Definition frame_taken base (addr size : Z) rs : Prop :=
  let path := pool_path (file_id (rs_pool base)) in
  kv_get (file_mapping (rs_pool base)) addr = None /\ mapped (rs_world base) !! addr = None /\
  (forall a, kv_get (file_mapping (rs_pool rs)) a =
     if decide (addr = a) then Some (path, size) else kv_get (file_mapping (rs_pool base)) a) /\
  rs_world rs = mkWorld ({[path]} ∪ files (rs_world base)) (<[addr := size]> (mapped (rs_world base))).

(** No mapping and no frame more or less than in [base]; of the files only that
    of the frame is gone, should it have existed. *)
Definition frame_back base (h : PmHeap P) (w : World) : Prop :=
  mapped w = mapped (rs_world base) /\
  (forall a, kv_get (file_mapping h) a = kv_get (file_mapping (rs_pool base)) a) /\
  files w = files (rs_world base) ∖ {[pool_path (file_id (rs_pool base))]}.

Definition given_back base rs : Prop :=
  rs_blocks rs = rs_blocks base /\ frame_back base (rs_pool rs) (rs_world rs).

Lemma alloc_frame_taken base fa size addr :
  frame_free base fa size addr ->
  exists h w, alloc_frame C size (fa_file fa) (fa_mmap fa) (rs_pool base) (rs_world base) = Ret (addr, h, w) /\
    forall b, frame_taken base addr size (mkRes b h w).
Proof.
  intros ((reqs & E) & Hp & Hm). unfold alloc_frame. rewrite E. runm. do 2 eexists. split; [done|].
  intros b. split; [done|]. split; [done|]. split; [|done]. intros a. cbn. apply kv_get_insert.
Qed.

Lemma dealloc_frame_back base addr size rs :
  frame_taken base addr size rs ->
  exists h w, dealloc_frame addr size (rs_pool rs) (rs_world rs) = Ret (h, w) /\ frame_back base h w.
Proof.
  intros (Hpn & Hmn & Hpool & Hw). unfold dealloc_frame. rewrite Hpool, decide_True by done. runm.
  rewrite Hw. cbn [files mapped fst]. rewrite bool_decide_eq_true_2 by (by apply elem_of_union_l, elem_of_singleton). runm.
  do 2 eexists. split; [done|]. split; [by apply delete_insert_id|]. cbn [files file_mapping]. split; [|set_solver].
  intros a. rewrite kv_get_remove, Hpool. by case_decide; subst.
Qed.
End frame.

(** *** A table *)
Section frees.
Variable C : Libc.
Context {I : Type} `{DbIndexLaws I}.
Context {Sc : Schema} {columns mut_columns : list Field} {L : SchemaLaws Sc columns mut_columns}.
Context {T M P : Type} `{KvMapLaws Z T} `{KvMapLaws TlsAllocator M} `{KvMapLaws (string * Z) P}.
Variables node_size node_align : Z.
Implicit Types (cc : ClockCache T M) (rs base : Res P).

(** The size of the block of the record ids. *)
Definition oids_size (a : OidArray M) : Z := aa_cap (ha_heap (oa_heap a)) * 64 * OID_SIZE.

(** [rs] is [base] and what the cache holds: two blocks and a frame, with the
    sizes that dropping it will compute. *)
Definition owns base cc (pl : Placement) rs : Prop :=
  let start := aa_start (ha_heap (oa_heap (cc_oids cc))) in
  let slots := (ci_capacity (cc_inner cc) * node_size, node_align) in
  let frame := sg_cap (cc_storage cc) * Z.of_nat tuple_size in
  rs_blocks rs = <[start := (oids_size (cc_oids cc), 8)]> (<[pl_entries pl := slots]> (rs_blocks base)) /\
  rs_blocks base !! start = None /\ rs_blocks base !! pl_entries pl = None /\ start <> pl_entries pl /\
  0 <= fst slots <= 2 ^ 63 - node_align /\ 0 <= node_align /\
  0 <= oids_size (cc_oids cc) <= 2 ^ 63 - 8 /\ 0 <= frame < 2 ^ 64 /\
  frame_taken base (pl_heap pl) frame rs.

(** What is owned depends only on the sizes and the addresses. *)
Lemma owns_same base cc cc' pl rs :
  ci_capacity (cc_inner cc') = ci_capacity (cc_inner cc) -> sg_cap (cc_storage cc') = sg_cap (cc_storage cc) ->
  aa_start (ha_heap (oa_heap (cc_oids cc'))) = aa_start (ha_heap (oa_heap (cc_oids cc))) ->
  oa_cap (cc_oids cc') = oa_cap (cc_oids cc) ->
  owns base cc pl rs -> owns base cc' pl rs.
Proof. unfold owns, oids_size, oa_cap, heap_capacity. intros -> -> -> ->. done. Qed.

Lemma drop_owned base cc pl rs :
  owns base cc pl rs ->
  exists rs', ClockCache_drop node_size node_align pl cc rs = Ret rs' /\ given_back base rs'.
Proof.
  intros (Hb & Hs & He & Hne & Hsl & Hal & Ho & Hfr & Hframe). cbn [fst] in Hsl.
  unfold ClockCache_drop, CacheInner_drop. rewrite chk_ok by (unfold fits; lia). runm.
  rewrite layout_from by lia. runm.
  rewrite sys_dealloc_ok by (rewrite Hb, lookup_insert_ne by done; apply lookup_insert_eq). runm.
  unfold Storage_drop. rewrite chk_ok by (unfold fits; lia). runm. unfold with_blocks. cbn [rs_pool rs_world].
  destruct (dealloc_frame_back _ _ _ _ Hframe) as (h & w & -> & Hback). runm.
  unfold OidArray_drop, OidArray_capacity, HeapArray_capacity. unfold oids_size in *. change OID_SIZE with 8 in *.
  rewrite chk_ok by (unfold fits; lia). runm. rewrite chk_ok by (unfold fits; lia). runm.
  rewrite layout_from by lia. runm. cbn [rs_blocks].
  rewrite sys_dealloc_ok by (rewrite Hb, lookup_delete_ne by done; apply lookup_insert_eq). runm.
  eexists. split; [done|]. split; [|exact Hback]. cbn [rs_blocks]. rewrite Hb, delete_insert_ne by done.
  rewrite delete_insert_eq, delete_insert_eq. rewrite !delete_id; [done|done|]. by rewrite lookup_delete_ne by done.
Qed.

Lemma OidArray_layout_ok cap ptr (a : OidArray M) :
  0 <= cap -> cap + 128 * 64 + 64 < u32_MAX -> OidArray_new cap ptr = Ret a ->
  OidArray_layout cap = Ret (oids_size a, 8) /\ aa_start (ha_heap (oa_heap a)) = ptr /\
  0 < oids_size a <= 2 ^ 63 - 8.
Proof.
  intros Hc Hb E. unfold OidArray_new in E. unfold OidArray_layout. inv_ret.
  destruct (align_up_ok (cap * 8 + 512 * 128) 9) as (size & Ea & Hs & Hm); [lia..|].
  rewrite chk_ok in E0 by (unfold fits; change OID_SIZE with 8; lia). injection E0 as <-.
  change (ARENA_SIZE 64) with 512 in *. change OID_SIZE with 8 in *. change (2 ^ 9) with 512 in *.
  rewrite chk_ok in E1 by (unfold fits; lia). injection E1 as <-. rewrite Ea in E2. injection E2 as <-.
  rewrite !chk_ok by (unfold fits; lia). runm. rewrite chk_ok by (unfold fits; lia). runm. rewrite Ea. runm.
  rewrite layout_from by lia. destruct x3 as [h mem]. inv_ret. subst a.
  unfold HeapArray_new in E4. inv_ret. destruct x as [heap mem']. inv_ret. simplify_eq.
  unfold ArrayAllocator_new in E. inv_ret. destruct x1. inv_ret. simplify_eq.
  unfold oids_size. cbn [oa_heap ha_heap aa_cap aa_start]. change OID_SIZE with 8.
  assert (size / 512 * 64 * 8 = size) as -> by (Z.div_mod_to_equations; lia).
  split; [done|]. split; [done|lia].
Qed.

(** The system's answers are new addresses. *)
Definition answers_ok base (an : Answers) : Prop :=
  rs_blocks base !! an_entries an = None /\ rs_blocks base !! an_oids an = None /\ an_oids an <> an_entries an /\
  forall size, exists addr, frame_free C base (an_frame an) size addr.

Lemma create_owned base an cache_size probe_len probe_rng storage_size init cc :
  sizes_ok node_size cache_size storage_size (an_oids an) init -> 0 < node_align <= 2 ^ 12 -> answers_ok base an ->
  ClockCache_new node_size cache_size probe_len probe_rng storage_size (an_oids an) init = Ret cc ->
  exists pl rs, ClockCache_create C node_size node_align cache_size probe_len probe_rng storage_size an init base
                  = Ret (cc, pl, rs) /\ owns base cc pl rs.
Proof.
  intros (Hns & Hcnt & Hcs & Hst & Hptr & Hts & _) Hal (Hfe & Hfo & Hne & Hmap) E.
  set (cnt := cache_size / node_size) in *.
  assert (Hmul : cnt * node_size <= cache_size) by (unfold cnt; rewrite Z.mul_comm; apply Z.mul_div_le; lia).
  unfold ClockCache_new in E. inv_ret. subst cc. rename x into ci, x0 into oa, x1 into cap, x2 into st.
  destruct (OidArray_layout_ok _ _ _ (proj1 Hst) ltac:(lia) E1) as (Elay & Estart & Hosz).
  destruct (OidArray_new_ok (M := M) (storage_size / Z.of_nat tuple_size) (an_oids an))
    as (oa' & Eoa & _ & Hcap & Ecap & _); [lia..|]. rewrite Eoa in E1. injection E1 as ->.
  rewrite Ecap in E2. injection E2 as <-.
  assert (Eci : ci_capacity ci = cnt).
  { unfold CacheInner_new, CacheInner_new_cap in E0. inv_ret. subst ci. cbn [ci_capacity]. apply wrap_small. unfold fits, cnt in *. lia. }
  assert (Est : sg_cap st = oa_cap oa) by (unfold Storage_new in E3; inv_ret; by subst st).
  destruct (Hmap (oa_cap oa * Z.of_nat tuple_size)) as (addr & Hfree).
  unfold ClockCache_create, CacheInner_create. rewrite E0. runm. fold cnt. rewrite layout_from by lia. runm.
  rewrite sys_alloc_ok by (simpl; nia). runm. unfold OidArray_create. rewrite Elay. runm.
  rewrite sys_alloc_ok by (simpl; lia). runm. rewrite Eoa. runm. rewrite Ecap. runm.
  unfold Storage_create. rewrite E3. runm. unfold with_blocks. cbn [rs_pool rs_world rs_blocks].
  destruct (alloc_frame_taken _ _ _ _ _ Hfree) as (h & w & -> & Htaken). runm. do 2 eexists. split; [done|].
  unfold owns. cbn [cc_oids cc_inner cc_storage pl_entries pl_heap rs_blocks fst].
  rewrite Estart, Eci, Est. split_and!; done || lia || nia || apply Htaken.
Qed.

(** Requests move neither the blocks nor the frame. *)
Lemma run_owned base d t A req pl rs rsp t' :
  holds (columns := columns) t A -> request_ok (columns := columns) (mut_columns := mut_columns) req ->
  owns base (tb_cache t) pl rs -> run d req t = Ret (rsp, t') -> owns base (tb_cache t') pl rs.
Proof.
  intros Ht Hreq Ho E. destruct (is_insert req) eqn:Ei.
  { apply run_fixed in E; [|done]. unfold tb_fixed, fixed in E. injection E as Eh Ec Es.
    eapply owns_same; [..|exact Ho]; [done|done|by rewrite Eh|by unfold oa_cap; rewrite Eh]. }
  destruct req as [record| |]; [|done..]. apply run_insert_fixed in E as (rid & c & E & Ef).
  apply insert_fixed in E as (oa & E & Ec). rewrite Ec in Ef. unfold tb_fixed, fixed in Ef. injection Ef as Eh Ei' Es.
  destruct Ht as ([(_ & Hoa & _) _] & _).
  destruct (alloc_rid_ok (d_tid d) (d_spin d) _ Hoa) as [(rid' & oa' & E' & Hal)|[E' _]]; [|congruence].
  rewrite E' in E. injection E as -> ->. destruct Hal as (_ & _ & _ & _ & _ & Hs & Hcap & _).
  eapply owns_same; [..|exact Ho]; [done|done|by rewrite Eh, Hs|unfold oa_cap in *; by rewrite Eh].
Qed.

Lemma run_all_owned base reqs t A pl rs rsps t' :
  holds (columns := columns) t A ->
  Forall (fun dr => request_ok (columns := columns) (mut_columns := mut_columns) dr.2) reqs ->
  owns base (tb_cache t) pl rs -> run_all reqs t = Ret (rsps, t') -> owns base (tb_cache t') pl rs.
Proof.
  intros Ht Hok. revert t A rsps Ht. induction Hok as [|[d req] reqs Hreq _ IH]; intros t A rsps Ht Ho E.
  { cbn [run_all] in E. inv_ret. by simplify_eq. }
  cbn [run_all] in E. apply bind_Ret_inv in E as ([rsp t1] & E1 & E).
  apply bind_Ret_inv in E as ([rsps' t2] & E2 & E). inv_ret. simplify_eq.
  destruct (run_ok (mut_columns := mut_columns) d t A req Ht Hreq) as [(t1' & E1' & Ht1)|(_ & E1' & _)].
  - rewrite E1' in E1. simplify_eq. eapply IH; [exact Ht1| |exact E2]. exact (run_owned _ _ _ _ _ _ _ _ _ Ht Hreq Ho E1').
  - congruence.
Qed.

(** C10: A table built for [n] records, used by at most 129 threads for any requests
    with at most [n] inserts, and dropped: every block, the mapping and the
    frame are given back, each with the layout or the size it was asked for,
    and the file of its pool is gone. *)
Theorem table_frees_all base an cache_size storage_size init (reqs : list (draws * Table.request)) ts :
  sizes_ok node_size cache_size storage_size (an_oids an) init -> 0 < node_align <= 2 ^ 12 -> answers_ok base an ->
  Forall (fun dr => request_ok (columns := columns) (mut_columns := mut_columns) dr.2) reqs ->
  Forall (fun dr => d_tid dr.1 ∈ ts) reqs -> (length ts <= 129)%nat ->
  Z.of_nat (inserts reqs) <= storage_size / Z.of_nat tuple_size ->
  exists (t : DbTable I T M) pl rs t' rs',
    build_owned C node_size node_align an init
      (builder_schema (builder_storage (builder_cache DbTableBuilder_new cache_size) storage_size)) base = Ret (t, pl, rs) /\
    run_all reqs t = Ret (fst (spec_all reqs ∅), t') /\
    DbTable_drop node_size node_align pl t' rs = Ret rs' /\ given_back base rs'.
Proof.
  intros Hs Hal Han Hok Htid Hts Hn.
  destruct (build_holds (I := I) (T := T) (M := M) (columns := columns) None _ _ _ _ _ Hs) as (t & Eb & Ht & _).
  destruct (run_all_room t ∅ reqs ts Ht Hok Htid) as (t' & Er & _); [eapply build_room; [exact Hs|apply (configured_probe_len None)|exact Eb|done..]|].
  pose proof Eb as Eb'. unfold build in Eb'. cbn in Eb'. inv_ret. rename x into cc.
  destruct (create_owned base an _ _ _ _ _ _ Hs Hal Han E) as (pl & rs & Ec & Ho).
  exists t, pl, rs, t'. destruct (drop_owned base (tb_cache t') pl rs) as (rs' & Ed & Hg).
  { eapply run_all_owned; [exact Ht|exact Hok| |exact Er]. by subst t. }
  exists rs'. split; [|by split_and!]. unfold build_owned. cbn. rewrite Ec. runm. by subst t.
Qed.

(** [capacity] is the number of slots as a [u32], but the slots are allocated for
    the whole number: a cache of [2 ^ 32] slots or more frees its block with
    another layout than it has. *)
Theorem CacheInner_drop_truncated cache_size probe_rng probe_len ptr base (ci : CacheInner T) rs :
  0 < node_size -> 0 < node_align -> 2 ^ 32 <= cache_size / node_size ->
  CacheInner_create node_size node_align cache_size probe_rng probe_len ptr base = Ret (ci, rs) ->
  CacheInner_drop node_size node_align ptr ci rs = Undef.
Proof.
  intros Hns Hal Hbig E. unfold CacheInner_create in E. inv_ret. destruct x0 as [sz al].
  unfold from_size_align, layout_ok in E1. inv_ret. simplify_eq.
  assert (Eci : ci_capacity ci = wrap 32 (cache_size / node_size)).
  { unfold CacheInner_new, CacheInner_new_cap in E0. inv_ret. by subst. }
  match goal with Hl : (_ <=? _) = true |- _ => apply Z.leb_le in Hl end.
  unfold sys_alloc in E2. inv_ret. unfold CacheInner_drop. rewrite Eci.
  pose proof (Z.mod_pos_bound (cache_size / node_size) (2 ^ 32)). unfold wrap.
  pose proof (Z.mod_le (cache_size / node_size) (2 ^ 32)).
  rewrite chk_ok by (unfold fits; nia). runm. rewrite layout_from by nia. runm.
  rewrite sys_dealloc_bad; [done|]. cbn [rs_blocks with_blocks]. subst. rewrite lookup_insert_eq.
  intros [= Eq]. nia.
Qed.
End frees.

(** *** The insert-only table *)
Section insertonly_frees.
Variable C : Libc.
Context {M P : Type} `{KvMapLaws PageBuffer M} `{KvMapLaws (string * Z) P}.
Variable sz : Z.
Implicit Types (o : OwnedInsertonly M) (t : InsertonlyTable M) (rs base : Res P).

Definition page_block : Z * Z := (HUGEPAGE_SIZE, HUGEPAGE_SIZE).

(** [b] has the pages [ps] besides the blocks of [b0]. *)
Definition pages_on (b0 b : gmap Z (Z * Z)) (ps : list Z) : Prop :=
  NoDup ps /\ (forall p, p ∈ ps -> b0 !! p = None) /\
  forall a, b !! a = if decide (a ∈ ps) then Some page_block else b0 !! a.

Lemma page_layout_ok : page_layout = Ret page_block.
Proof. unfold page_layout, page_block. pose proof HUGEPAGE_SIZE_eq. apply layout_from. lia. Qed.

Lemma drop_pages_ok b0 ps rs :
  pages_on b0 (rs_blocks rs) ps -> exists rs', drop_pages ps rs = Ret rs' /\
    rs_blocks rs' = b0 /\ rs_pool rs' = rs_pool rs /\ rs_world rs' = rs_world rs.
Proof.
  revert rs. induction ps as [|p ps IH]; intros rs (Hnd & Hnew & Hb); cbn [drop_pages].
  { exists rs. split; [done|]. split; [|done]. apply map_eq. intros a. by rewrite Hb. }
  apply NoDup_cons in Hnd as [Hp Hnd]. unfold PageBuffer_drop. rewrite page_layout_ok. runm.
  rewrite sys_dealloc_ok by (rewrite Hb, decide_True by (by left); done). runm.
  apply (IH (with_blocks (delete p (rs_blocks rs)) rs)). split; [done|].
  split; [intros q Hq; apply Hnew; by right|]. intros a. cbn [rs_blocks with_blocks].
  destruct (decide (a = p)) as [->|Ha].
  - rewrite lookup_delete_eq, decide_False by done. rewrite Hnew; [done|by left].
  - rewrite lookup_delete_ne by done. rewrite Hb. by apply decide_ext; rewrite elem_of_cons; naive_solver.
Qed.

Lemma alloc_fixed fuel node (a : ArrayAllocator) mem r a' :
  alloc_loop fuel HUGEPAGE_SIZE node a mem = Ret (r, a') -> aa_cap a' = aa_cap a /\ aa_start a' = aa_start a.
Proof.
  revert node. induction fuel as [|fuel IH]; intros node E; [done|]. cbn [alloc_loop] in E. inv_ret.
  destruct x; inv_ret; [by simplify_eq| |by eapply IH]. by simplify_eq.
Qed.

Lemma get_tls_page_fixed fuel tid t p t' :
  get_tls_page fuel tid t = Ret (p, t') -> io_storage t' = io_storage t.
Proof.
  revert t. induction fuel as [|fuel IH]; intros t E; [done|]. cbn [get_tls_page] in E.
  destruct (kv_get _ _); [by simplify_eq|]. by apply IH in E.
Qed.

Lemma io_insert_fixed tid v t t' :
  InsertonlyTable_insert sz tid v t = Ret t' ->
  aa_cap (io_storage t') = aa_cap (io_storage t) /\ aa_start (io_storage t') = aa_start (io_storage t).
Proof.
  unfold InsertonlyTable_insert. intros E. apply bind_Ret_inv in E as ([p t1] & Ep & E).
  apply get_tls_page_fixed in Ep as <-. apply bind_Ret_inv in E as ([[|] p1] & Et & E); inv_ret; [by subst|].
  match goal with Ha : ArrayAllocator_alloc _ _ _ = Ret ?x |- _ => destruct x as [a st]; apply alloc_fixed in Ha end.
  inv_ret. destruct x as [? ?]. inv_ret. destruct x0. inv_ret. by subst.
Qed.

(** The table and its pages, on top of [base]. *)
Definition io_owns base o rs : Prop :=
  pages_on (rs_blocks base) (rs_blocks rs) (oi_data o) /\
  0 <= aa_cap (io_storage (oi_table o)) * HUGEPAGE_SIZE < 2 ^ 64 /\
  frame_taken base (aa_start (io_storage (oi_table o))) (aa_cap (io_storage (oi_table o)) * HUGEPAGE_SIZE) rs.

Section inserts.
Variable pick : gmap Z (Z * Z) -> Z.
Hypothesis pick_new : forall b, b !! pick b = None.

Lemma new_page_owns b0 b ps :
  pages_on b0 b ps -> pages_on b0 (<[pick b := page_block]> b) (pick b :: ps).
Proof.
  intros (Hnd & Hnew & Hb). pose proof (pick_new b) as Hp. pose proof (Hb (pick b)) as Hpb. rewrite Hp in Hpb.
  case_decide as Hin; [done|].
  split; [by apply NoDup_cons|]. split.
  - intros q Hq. apply elem_of_cons in Hq as [->|Hq]; [done|by apply Hnew].
  - intros a. destruct (decide (a = pick b)) as [->|Ha].
    + rewrite lookup_insert_eq, decide_True by (by left). done.
    + rewrite lookup_insert_ne by done. rewrite Hb. apply decide_ext. rewrite elem_of_cons. naive_solver.
Qed.

(** Whatever [insert] does, the owned table does, and nothing it took is
    forgotten. *)
Lemma insert_owned_ok base tid v o rs t' :
  io_owns base o rs -> InsertonlyTable_insert sz tid v (oi_table o) = Ret t' ->
  exists o' rs', InsertonlyTable_insert_owned sz (pick (rs_blocks rs)) tid v o rs = Ret (o', rs') /\
    oi_table o' = t' /\ io_owns base o' rs'.
Proof.
  intros (Hpages & Hfit & Hframe) E. destruct (io_insert_fixed _ _ _ _ E) as [Hc Hs].
  unfold InsertonlyTable_insert_owned. destruct (kv_get _ tid).
  - runm. rewrite E. runm. do 2 eexists. split; [done|]. split; [done|].
    unfold io_owns. cbn [oi_table oi_data]. by rewrite Hc, Hs.
  - unfold PageBuffer_create. rewrite page_layout_ok. runm.
    rewrite sys_alloc_ok by (pose proof HUGEPAGE_SIZE_eq; simpl; lia). runm. rewrite E. runm.
    do 2 eexists. split; [done|]. split; [done|]. unfold io_owns. cbn [oi_table oi_data rs_blocks with_blocks].
    rewrite Hc, Hs. split; [by apply new_page_owns|]. by split.
Qed.

Lemma insert_owned_all_ok base log o rs t' :
  io_owns base o rs -> insert_all sz log (oi_table o) = Ret t' ->
  exists o' rs', insert_owned_all sz pick log o rs = Ret (o', rs') /\ oi_table o' = t' /\ io_owns base o' rs'.
Proof.
  revert o rs. induction log as [|[tid v] log IH]; intros o rs Ho E; cbn [insert_all insert_owned_all] in *.
  { inv_ret. by exists o, rs. }
  apply bind_Ret_inv in E as (t1 & E1 & E). destruct (insert_owned_ok base tid v o rs t1 Ho E1) as (o1 & rs1 & -> & <- & Ho1).
  runm. by apply IH.
Qed.
End inserts.

Lemma drop_insertonly base o rs order :
  io_owns base o rs -> order ≡ₚ oi_data o ->
  exists rs', InsertonlyTable_drop order o rs = Ret rs' /\ given_back base rs'.
Proof.
  intros (Hpages & Hfit & Hframe) Hord. unfold InsertonlyTable_drop. rewrite chk_ok by (unfold fits; lia). runm.
  destruct (dealloc_frame_back _ _ _ _ Hframe) as (h & w & -> & Hback). runm.
  destruct (drop_pages_ok (rs_blocks base) order (mkRes (rs_blocks rs) h w)) as (rs' & E & Hb & Hp & Hw).
  { destruct Hpages as (Hnd & Hnew & Hb). cbn [rs_blocks]. split; [by rewrite Hord|].
    split; [intros p Hin; apply Hnew; by rewrite <-Hord|]. intros a. rewrite Hb. apply decide_ext. by rewrite Hord. }
  exists rs'. split; [done|]. split; [done|]. by rewrite Hp, Hw.
Qed.

(** The insert-only table gives back its frame and the pages of all threads,
    whatever they inserted and in whatever order its map drops the pages. *)
Theorem insert_only_frees_all base cap fa addr mem pick :
  0 <= cap * sz < 2 ^ 62 -> 0 < addr < 2 ^ 62 ->
  (forall size, frame_free C base fa size addr) -> (forall b, b !! pick b = None) ->
  exists o rs, InsertonlyTable_create C sz cap fa mem base = Ret (o, rs) /\
    forall log t, insert_all sz log (oi_table o) = Ret t ->
      exists o' rs', insert_owned_all sz pick log o rs = Ret (o', rs') /\ oi_table o' = t /\
        forall order, order ≡ₚ oi_data o' ->
          exists rs'', InsertonlyTable_drop order o' rs' = Ret rs'' /\ given_back base rs''.
Proof.
  intros Hcap Haddr Hfree Hpick. unfold InsertonlyTable_create. pose proof HUGEPAGE_SIZE_eq as EH.
  assert (E21 : HUGEPAGE_SIZE = 2 ^ 21) by (rewrite EH; reflexivity).
  destruct (align_up_ok (cap * sz) 21) as (size & Ea & Hsize & Hm); [lia..|]. rewrite <-E21 in *.
  destruct (InsertonlyTable_new_ok (M := M) sz cap addr mem) as (Cn & t & Et & Hh & HC); [lia..|].
  destruct (alloc_frame_taken _ _ _ _ _ (Hfree size)) as (h & w & Ef & Htaken).
  rewrite chk_ok by (unfold fits; lia). runm. rewrite Ea. runm. rewrite Ef. runm. rewrite Et. runm.
  do 2 eexists. split; [done|]. intros log t' Hlog.
  assert (Ho : io_owns base (mkOwnedInsertonly t []) (mkRes (rs_blocks base) h w)).
  { unfold InsertonlyTable_new in Et. rewrite chk_ok in Et by (unfold fits; lia). cbn [mbind outcome_bind] in Et.
    rewrite Ea in Et. cbn [mbind outcome_bind] in Et. apply bind_Ret_inv in Et as ([st mem'] & Est & Et).
    unfold ArrayAllocator_new in Est. inv_ret. destruct x1. inv_ret. simplify_eq.
    assert (Es : size / HUGEPAGE_SIZE * HUGEPAGE_SIZE = size) by (Z.div_mod_to_equations; lia).
    unfold io_owns. cbn [oi_table oi_data io_storage aa_cap aa_start rs_blocks]. rewrite Es.
    split; [|split; [lia|apply Htaken]]. split; [by constructor|]. split; [intros p Hp; by apply not_elem_of_nil in Hp|].
    intros a. by rewrite decide_False by apply not_elem_of_nil. }
  destruct (insert_owned_all_ok pick Hpick base log _ _ _ Ho Hlog) as (o' & rs' & -> & <- & Ho').
  do 2 eexists. split; [done|]. split; [done|]. intros order Hord. by eapply drop_insertonly.
Qed.
End insertonly_frees.

(** *** The logger *)

(** The buffers are allocated and freed with layouts of their own definitions,
    which agree.  The log file stays open. *)
Theorem logger_frees_buffers buffer_size p0 p1 b0 b1 fd (b : gmap Z (Z * Z)) fds :
  0 < buffer_size <= 2 ^ 63 - 512 -> b !! p0 = None -> b !! p1 = None -> p0 <> p1 -> 0 <= fd -> fd ∉ fds ->
  exists o b', Logger_create buffer_size p0 p1 b0 b1 fd b fds = Ret (o, b', {[fd]} ∪ fds) /\
    forall lg, lg_buffer_size lg = buffer_size ->
      Logger_drop (mkOwnedLogger lg (ol_buffers o) (ol_raw_file o)) b' ({[fd]} ∪ fds) = Ret (b, {[fd]} ∪ fds).
Proof.
  intros Hs H0 H1 Hne Hfd Hnew. unfold Logger_create, Logger_with_buffer_size, MAX_LOG_LEN, layout_ok.
  rewrite layout_from by lia. runm. rewrite !sys_alloc_ok by (simpl; lia). runm. rewrite sys_alloc_ok by (simpl; lia). runm.
  rewrite (proj2 (Z.leb_le _ _)) by lia. runm. rewrite (proj2 (Z.ltb_ge _ _)) by done.
  do 2 eexists. split; [done|]. intros lg Hlg. unfold Logger_drop. cbn [ol_logger ol_buffers fst snd].
  rewrite Hlg, layout_from by (unfold MIN_BUFF_ALIGN; lia). runm. unfold MIN_BUFF_ALIGN.
  rewrite sys_dealloc_ok by (rewrite lookup_insert_ne by done; apply lookup_insert_eq). runm.
  rewrite sys_dealloc_ok by (rewrite lookup_delete_ne by done; apply lookup_insert_eq). runm.
  rewrite delete_insert_ne, delete_insert_eq, delete_insert_id by done. by rewrite delete_id.
Qed.

(** *** The pool *)
Section pool_drop.
Context {P : Type} `{KvMapLaws (string * Z) P} `{KvList (string * Z) P} `{!KvListLaws (string * Z) P}.

Lemma fold_remove (l : list (Z * (string * Z))) w :
  let w' := foldl (fun w kv => mkWorld (files w ∖ {[fst kv.2]}) (delete kv.1 (mapped w))) w l in
  (forall f, f ∈ files w' <-> f ∈ files w /\ f ∉ l.*2.*1) /\
  (forall a, mapped w' !! a = if decide (a ∈ l.*1) then None else mapped w !! a).
Proof.
  revert w. induction l as [|[k [f s]] l IH]; intros w; cbn [foldl].
  { split; [|done]. intros f. split; [|by intros []]. intros Hf. split; [done|apply not_elem_of_nil]. }
  destruct (IH (mkWorld (files w ∖ {[f]}) (delete k (mapped w)))) as [IHf IHm]. split.
  - intros g. rewrite IHf. cbn [fmap list_fmap fst snd files]. rewrite not_elem_of_cons, elem_of_difference, elem_of_singleton. tauto.
  - intros a. rewrite IHm. cbn [fmap list_fmap fst snd mapped]. destruct (decide (a = k)) as [->|Ha].
    + rewrite lookup_delete_eq. rewrite (decide_True (P := k ∈ k :: _)) by (by left). by case_decide.
    + rewrite lookup_delete_ne by done. apply decide_ext. rewrite elem_of_cons. tauto.
Qed.

(** Dropping the pool unmaps every frame that was not given back and removes its
    file, and touches nothing else. *)
Theorem pool_drop_removes_all (h : PmHeap P) w :
  let w' := PmHeap_drop h w in
  (forall a, mapped w' !! a = if kv_get (file_mapping h) a is Some _ then None else mapped w !! a) /\
  (forall f, f ∈ files w' <-> f ∈ files w /\ forall a s, kv_get (file_mapping h) a <> Some (f, s)).
Proof.
  unfold PmHeap_drop. destruct (fold_remove (kv_list (file_mapping h)) w) as [Hf Hm]. split.
  - intros a. rewrite Hm. destruct (kv_get (file_mapping h) a) as [v|] eqn:E.
    + apply kv_list_get in E. rewrite decide_True; [done|]. apply list_elem_of_fmap. by exists (a, v).
    + rewrite decide_False; [done|]. intros ([a' v] & -> & Hin%kv_list_get)%list_elem_of_fmap. simpl in E. congruence.
  - intros f. rewrite Hf. apply and_iff_compat_l. split.
    + intros Hn a s E. apply Hn. apply kv_list_get in E. rewrite <-list_fmap_compose. apply list_elem_of_fmap. by exists (a, (f, s)).
    + intros Hn. rewrite <-list_fmap_compose. intros ([a [g s]] & -> & Hin%kv_list_get)%list_elem_of_fmap. by eapply Hn.
Qed.
End pool_drop.

(** ** Concrete runs *)
Module DropsDemo.
Import Demo TableDemo CapacityDemo.
#[local] Existing Instances pair_schema pair_laws.

(** A process with one block of its own, and no frame. *)
Definition before : Res (gmap Z (string * Z)) :=
  mkRes {[77 := (3, 1)]} PmHeap_new (mkWorld ∅ ∅).

Definition demo_answer : FrameAnswer := mkAnswer demo_file demo_mmap.
Definition demo_answers : Answers := mkAnswers 65536 4096 demo_answer.

Lemma demo_free base size :
  file_mapping (rs_pool base) = ∅ -> mapped (rs_world base) = ∅ -> frame_free linux (P := gmap Z (string * Z)) base demo_answer size 4096.
Proof.
  intros Hp Hm. split; [by eexists|]. rewrite Hp, Hm. done.
Qed.

Lemma demo_answers_ok : answers_ok linux before demo_answers.
Proof.
  split; [done|]. split; [done|]. split; [done|]. intros size. exists 4096. by apply demo_free.
Qed.

(** Three threads use a table for two records, which is then dropped. *)
Lemma table_frees_all_witness :
  exists (t : dtable) pl rs t' rs',
    build_owned linux 24 8 demo_answers zeros
      (builder_schema (builder_storage (builder_cache DbTableBuilder_new 48) 160)) before = Ret (t, pl, rs) /\
    run_all three_threads t = Ret ([Done; Done; Done; Column (le_bytes 8 9)], t') /\
    DbTable_drop 24 8 pl t' rs = Ret rs' /\ given_back before rs'.
Proof.
  apply (table_frees_all linux (L := pair_laws) 24 8 before demo_answers 48 160 zeros three_threads [1; 2; 3] demo_sizes);
    [lia|exact demo_answers_ok|..].
  - repeat constructor; try (by eexists); reflexivity || (by left) || (right; by left).
  - repeat constructor; cbn [fst d_tid by_thread]; by repeat (apply elem_of_cons; (by left) || right).
  - simpl. lia.
  - vm_compute. discriminate.
Defined.

(** Caches of [2 ^ 32] slots of 24 bytes and more. *)
Lemma huge_cache_created n : 2 ^ 32 <= n < 2 ^ 40 ->
  exists (ci : CacheInner (gmap Z Z)) rs, CacheInner_create 24 8 (n * 24) (1 # 2) 6 65536 before = Ret (ci, rs).
Proof.
  intros Hn. unfold CacheInner_create, CacheInner_new, CacheInner_new_cap, layout_ok. rewrite Z.div_mul by lia.
  rewrite Z.gtb_ltb, (proj2 (Z.ltb_lt _ _)) by lia. runm. rewrite chk_ok by (unfold fits; lia). runm.
  rewrite (proj2 (Z.leb_le _ _)) by lia. runm. rewrite layout_from by lia. runm.
  rewrite sys_alloc_ok by (simpl; lia). by do 2 eexists.
Qed.

Lemma CacheInner_drop_truncated_witness :
  exists (ci : CacheInner (gmap Z Z)) rs, CacheInner_drop 24 8 65536 ci rs = @Undef (Res (gmap Z (string * Z))).
Proof.
  destruct (huge_cache_created (2 ^ 32)) as (ci & rs & E); [lia|]. exists ci, rs.
  eapply (CacheInner_drop_truncated 24 8 (2 ^ 32 * 24)); [lia|lia|vm_compute; discriminate|exact E].
Defined.

(** Three inserts by two threads; their pages are dropped in either order. *)
Definition above (b : gmap Z (Z * Z)) : Z := base.fresh (dom b).

Lemma above_new b : b !! above b = None.
Proof. apply not_elem_of_dom. unfold above. apply is_fresh. Qed.

Definition two_threads : list (Z * obj) := [(1, [5; 6; 7; 8; 9; 10; 11; 12]); (2, [1; 2; 3; 4; 5; 6; 7; 8])].

Lemma insert_only_frees_all_witness :
  exists (o : OwnedInsertonly (gmap Z PageBuffer)) rs,
    InsertonlyTable_create linux 8 100 demo_answer ∅ before = Ret (o, rs).
Proof.
  destruct (insert_only_frees_all linux (M := gmap Z PageBuffer) 8 before 100 demo_answer 4096 ∅ above)
    as (o & rs & E & _); [lia|lia|by intros; apply demo_free|apply above_new|].
  exists o, rs. exact E.
Defined.

Lemma logger_frees_buffers_witness :
  exists o b', Logger_create 4 1024 2048 [0; 0; 0; 0] [0; 0; 0; 0] 3 ∅ ∅ = Ret (o, b', {[3]} ∪ ∅).
Proof.
  destruct (logger_frees_buffers 4 1024 2048 [0; 0; 0; 0] [0; 0; 0; 0] 3 ∅ ∅) as (o & b' & E & _);
    [lia|done|done|lia|lia|set_solver|].
  exists o, b'. exact E.
Defined.
End DropsDemo.
