(* ===== verification/TpccTables.v ===== *)
(** * The TPC-C tuples and their index keys (benchmark/src/tpcc/tables.rs)

    Every tuple is [repr(C)]; an index key packs the ids of a tuple into one
    64-bit word. *)

From S2P Require Import Prelude Query Schema Layout.

Definition FixedString (n : Z) : Z * Z := (n, 1).

Open Scope string_scope.
Open Scope Z_scope.

Definition WarehouseTuple : layout := [
  ("w_id", u64);
  ("w_name", FixedString 10);
  ("w_street1", FixedString 20);
  ("w_street2", FixedString 20);
  ("w_city", FixedString 20);
  ("w_state", FixedString 2);
  ("w_zip", u64);
  ("w_tax", f64);
  ("w_ytd", f64)].

Definition DistrictTuple : layout := [
  ("d_id", u64);
  ("d_w_id", u64);
  ("d_name", FixedString 10);
  ("d_street1", FixedString 20);
  ("d_street2", FixedString 20);
  ("d_city", FixedString 20);
  ("d_state", FixedString 2);
  ("d_zip", u64);
  ("d_tax", f64);
  ("d_ytd", f64);
  ("d_next_o_id", u64)].

Definition C_DATA_SIZE : Z := 500.

Definition CustomerTuple : layout := [
  ("c_id", u64);
  ("c_first", FixedString 20);
  ("c_middle", FixedString 2);
  ("c_last", FixedString 16);
  ("c_street1", FixedString 20);
  ("c_street2", FixedString 20);
  ("c_city", FixedString 20);
  ("c_state", FixedString 2);
  ("c_zip", u64);
  ("c_phone", FixedString 16);
  ("c_since", u64);
  ("c_credit", FixedString 2);
  ("c_credit_lim", f64);
  ("c_discount", f64);
  ("c_balance", f64);
  ("c_ytd_payment", f64);
  ("c_payment_cnt", u32);
  ("c_delivery_cnt", u32);
  ("c_w_id", u64);
  ("c_d_id", u64);
  ("c_data", FixedString C_DATA_SIZE)].

Definition HistoryTuple : layout := [
  ("h_c_id", u64);
  ("h_c_d_id", u64);
  ("h_c_w_id", u64);
  ("h_d_id", u64);
  ("h_data", FixedString 24);
  ("h_w_id", u64);
  ("h_date", u64);
  ("h_amount", f64)].

Definition OrderTuple : layout := [
  ("o_id", u64);
  ("o_c_id", u64);
  ("o_entry_d", u64);
  ("o_carrier_id", u64);
  ("o_d_id", u64);
  ("o_w_id", u64);
  ("o_ol_cnt", u64);
  ("o_all_local", u64)].

Definition NewOrderTuple : layout := [
  ("no_o_id", u64);
  ("no_d_id", u64);
  ("no_w_id", u64)].

Definition OrderLineTuple : layout := [
  ("ol_o_id", u64);
  ("ol_d_id", u64);
  ("ol_i_id", u64);
  ("ol_supply_w_id", u64);
  ("ol_quantity", u64);
  ("ol_delivery_d", u64);
  ("ol_amount", f64);
  ("ol_number", u64);
  ("ol_w_id", u64);
  ("ol_dist_info", FixedString 24)].

Definition ItemTuple : layout := [
  ("i_id", u64);
  ("i_im_id", u64);
  ("i_price", f64);
  ("i_name", FixedString 24);
  ("i_data", FixedString 50)].

Definition StockTuple : layout := [
  ("s_i_id", u64);
  ("s_w_id", u64);
  ("s_quantity", u64);
  ("s_ytd", u64);
  ("s_order_cnt", u64);
  ("s_remote_cnt", u64);
  ("s_data", FixedString 24);
  ("s_dist01", FixedString 24);
  ("s_dist02", FixedString 24);
  ("s_dist03", FixedString 24);
  ("s_dist04", FixedString 24);
  ("s_dist05", FixedString 24);
  ("s_dist06", FixedString 24);
  ("s_dist07", FixedString 24);
  ("s_dist08", FixedString 24);
  ("s_dist09", FixedString 24);
  ("s_dist10", FixedString 24)].

(** The integer in a column of a tuple. *)
Definition column (l : layout) (name : string) (t : obj) : Z :=
  le_word (load_field t (mk_field l name)).

(** ** Keys: [<<] drops the bits above 64, [+] is checked *)
Definition shl (x n : Z) : Z := wrap 64 (Z.shiftl x n).

Definition District_make_key (w_id d_id : Z) : outcome Z := chk 64 (shl w_id 48 + d_id).

Definition Customer_make_key (w_id d_id c_id : Z) : outcome Z :=
  a ← chk 64 (shl w_id 48 + shl d_id 32);
  chk 64 (a + c_id).

Definition idx_key_lastname (w_id d_id last_name c_id : Z) : outcome Z :=
  a ← chk 64 (shl w_id 48 + shl d_id 32);
  b ← chk 64 (a + shl last_name 16);
  chk 64 (b + c_id).

Definition Order_make_key (o_w_id o_d_id o_c_id o_id : Z) : outcome Z :=
  a ← chk 64 (shl o_w_id 48 + shl o_d_id 32);
  b ← chk 64 (a + shl o_c_id 16);
  chk 64 (b + o_id).

Definition NewOrder_make_key (no_w_id no_d_id no_o_id c_id : Z) : outcome Z :=
  a ← chk 64 (shl no_w_id 48 + shl no_d_id 32);
  b ← chk 64 (a + shl no_o_id 16);
  chk 64 (b + c_id).

Definition o_c_id_from_key (key : Z) : Z * Z :=
  let o_id := Z.shiftr (Z.land key 0x00000000ffff0000) 16 in
  let c_id := Z.land key 0x000000000000ffff in
  (o_id, c_id).

Definition OrderLine_make_key (ol_w_id ol_d_id ol_o_id ol_i_id : Z) : outcome Z :=
  a ← chk 64 (shl ol_w_id 48 + shl ol_d_id 40);
  b ← chk 64 (a + shl ol_o_id 20);
  chk 64 (b + ol_i_id).

Definition Item_make_key (i_id : Z) : outcome Z := Ret i_id.

Definition Stock_make_key (s_w_id s_i_id : Z) : outcome Z := chk 64 (shl s_w_id 32 + s_i_id).

(** ** Properties of the keys *)

Lemma shl_small x n k : 0 <= x < 2 ^ k -> 0 <= n -> 0 <= k -> n + k <= 64 -> shl x n = x * 2 ^ n.
Proof.
  intros Hx Hn Hk Hs. unfold shl. rewrite Z.shiftl_mul_pow2 by done.
  apply wrap_small. split; [nia|].
  apply Z.lt_le_trans with (2 ^ k * 2 ^ n); [nia|]. rewrite <-Z.pow_add_r by lia.
  apply Z.pow_le_mono_r; lia.
Qed.

(** Closes a key computation whose parts are in range. *)
Ltac key_value :=
  repeat (rewrite (shl_small _ _ 16) by lia);
  repeat (rewrite chk_ok by (unfold fits; lia); runm); try done.

Lemma Order_key_value w d c o :
  0 <= w < 2 ^ 16 -> 0 <= d < 2 ^ 16 -> 0 <= c < 2 ^ 16 -> 0 <= o < 2 ^ 16 ->
  Order_make_key w d c o = Ret (w * 2 ^ 48 + d * 2 ^ 32 + c * 2 ^ 16 + o).
Proof. intros. unfold Order_make_key. key_value. Qed.

Lemma NewOrder_key_value w d o c :
  0 <= w < 2 ^ 16 -> 0 <= d < 2 ^ 16 -> 0 <= o < 2 ^ 16 -> 0 <= c < 2 ^ 16 ->
  NewOrder_make_key w d o c = Ret (w * 2 ^ 48 + d * 2 ^ 32 + o * 2 ^ 16 + c).
Proof. intros. unfold NewOrder_make_key. key_value. Qed.

Lemma OrderLine_key_value w d o i :
  0 <= w < 2 ^ 16 -> 0 <= d < 2 ^ 8 -> 0 <= o < 2 ^ 20 -> 0 <= i < 2 ^ 20 ->
  OrderLine_make_key w d o i = Ret (w * 2 ^ 48 + d * 2 ^ 40 + o * 2 ^ 20 + i).
Proof.
  intros. unfold OrderLine_make_key.
  rewrite (shl_small w 48 16), (shl_small d 40 8), (shl_small o 20 20) by lia.
  repeat (rewrite chk_ok by (unfold fits; lia); runm). done.
Qed.

Lemma Stock_key_value w i :
  0 <= w < 2 ^ 16 -> 0 <= i < 2 ^ 32 -> Stock_make_key w i = Ret (w * 2 ^ 32 + i).
Proof. intros. unfold Stock_make_key. key_value. Qed.

(** The order and the customer packed into a new-order key come back out of it
    (the delivery transaction finds the order from the key alone). *)
Theorem new_order_key_roundtrip w d o c :
  0 <= w < 2 ^ 16 -> 0 <= d < 2 ^ 16 -> 0 <= o < 2 ^ 16 -> 0 <= c < 2 ^ 16 ->
  exists k, NewOrder_make_key w d o c = Ret k /\ o_c_id_from_key k = (o, c).
Proof.
  intros. rewrite NewOrder_key_value by done. eexists. split; [done|]. unfold o_c_id_from_key.
  change 0x00000000ffff0000 with (field_mask 16 16). change 0x000000000000ffff with (field_mask 0 16).
  rewrite !land_field, Z.shiftr_div_pow2 by lia. f_equal; Z.div_mod_to_equations; lia.
Qed.

Lemma new_order_key_roundtrip_witness :
  exists k, NewOrder_make_key 3 7 3000 42 = Ret k /\ o_c_id_from_key k = (3000, 42).
Proof. apply new_order_key_roundtrip; lia. Defined.

(** Order-line keys are unique and sort by warehouse, district, order and item,
    so the keys of one order are exactly those from item 0 up to the item bound. *)
Theorem order_line_keys_sorted w d o i w' d' o' i' :
  0 <= w < 2 ^ 16 -> 0 <= d < 2 ^ 8 -> 0 <= o < 2 ^ 20 -> 0 <= i < 2 ^ 20 ->
  0 <= w' < 2 ^ 16 -> 0 <= d' < 2 ^ 8 -> 0 <= o' < 2 ^ 20 -> 0 <= i' < 2 ^ 20 ->
  exists k k', OrderLine_make_key w d o i = Ret k /\ OrderLine_make_key w' d' o' i' = Ret k' /\
    (k < k' <-> w < w' \/ (w = w' /\ (d < d' \/ (d = d' /\ (o < o' \/ (o = o' /\ i < i')))))) /\
    (k = k' <-> w = w' /\ d = d' /\ o = o' /\ i = i').
Proof.
  intros. rewrite !OrderLine_key_value by done. do 2 eexists. split; [done|]. split; [done|]. split; lia.
Qed.

Lemma order_line_keys_sorted_witness :
  exists k k', OrderLine_make_key 1 2 3 70000 = Ret k /\ OrderLine_make_key 1 2 4 0 = Ret k' /\ k < k'.
Proof.
  destruct (order_line_keys_sorted 1 2 3 70000 1 2 4 0) as (k & k' & E & E' & H & _); [lia..|].
  exists k, k'. split; [exact E|]. split; [exact E'|]. apply H. lia.
Defined.

(** An order key has 16 bits for the order id: orders [65536 + o] of one
    customer and [o] of the next share their key. *)
Theorem order_key_collision w d c o :
  0 <= w < 2 ^ 16 -> 0 <= d < 2 ^ 16 -> 0 <= c < 2 ^ 16 - 1 -> 0 <= o < 2 ^ 16 ->
  Order_make_key w d c (65536 + o) = Order_make_key w d (c + 1) o.
Proof.
  intros. rewrite (Order_key_value w d (c + 1) o) by lia. unfold Order_make_key.
  repeat (rewrite (shl_small _ _ 16) by lia).
  repeat (rewrite chk_ok by (unfold fits; lia); runm). f_equal. lia.
Qed.

Lemma order_key_collision_witness : Order_make_key 1 1 5 65537 = Order_make_key 1 1 6 1.
Proof. apply (order_key_collision 1 1 5 1); lia. Defined.
