(* ===== verification/TpccSchemas.v ===== *)
(** * The TPC-C schemas (benchmark/src/tpcc/schemas.rs)

    For each table, what is cached and how a tuple's fields map to the cached
    struct.  The cached structs without [repr(C)] are laid out in declaration
    order; the program only uses their fields through [offset_of!].  Copies go
    field by field; padding bytes belong to no column.  Every schema is shown
    to meet the laws the attribute cache needs. *)

From S2P Require Import Prelude Query Schema Layout TpccTables.

Open Scope string_scope.
Open Scope Z_scope.

(** [cached.n = tuple.n] for the named fields. *)
Definition same_names (tl cl : layout) (names : list string) : list (Field * Field) :=
  (fun n => (mk_field tl n, mk_field cl n)) <$> names.

(** [to_cached_field] of the schemas whose cached struct is a prefix of the
    tuple: everything before the field [stop]. *)
Definition prefix_field (tl : layout) (stop : string) (tuple_field : Field) : option Field :=
  let END_OFFSET := offset_of tl stop in
  if f_begin tuple_field >=? END_OFFSET then None else Some tuple_field.

(** ** Warehouse *)
Definition WarehouseCached : layout := [("ytd", f64)].

Definition Warehouse_key (t : obj) : outcome Z := Ret (column WarehouseTuple "w_id" t).

Definition WarehouseCached_to_cached_field (tuple_field : Field) : option Field :=
  let cached := mk_field WarehouseTuple "w_ytd" in
  if bool_decide (cached = tuple_field) then Some (mk_field WarehouseCached "ytd") else None.

Definition Schema_WarehouseCached : Schema :=
  let pairs := [(mk_field WarehouseTuple "w_ytd", mk_field WarehouseCached "ytd")] in
  copy_schema WarehouseTuple WarehouseCached Warehouse_key WarehouseCached_to_cached_field pairs pairs.

Definition Schema_WarehouseTuple : Schema := whole_schema WarehouseTuple Warehouse_key.

(** ** District *)
Definition DistrictCached : layout := [("ytd", f64)].

Definition District_key (t : obj) : outcome Z :=
  District_make_key (column DistrictTuple "d_w_id" t) (column DistrictTuple "d_id" t).

Definition DistrictCached_to_cached_field (tuple_field : Field) : option Field :=
  let cached := mk_field DistrictTuple "d_ytd" in
  if bool_decide (cached = tuple_field) then Some (mk_field DistrictCached "ytd") else None.

Definition Schema_DistrictCached : Schema :=
  let pairs := [(mk_field DistrictTuple "d_ytd", mk_field DistrictCached "ytd")] in
  copy_schema DistrictTuple DistrictCached District_key DistrictCached_to_cached_field pairs pairs.

Definition Schema_DistrictTuple : Schema := whole_schema DistrictTuple District_key.

(** ** Customer *)
Definition Customer_key (t : obj) : outcome Z :=
  Customer_make_key (column CustomerTuple "c_w_id" t) (column CustomerTuple "c_d_id" t)
    (column CustomerTuple "c_id" t).

Definition CustomerCachedWrite : layout := [
  ("c_balance", f64);
  ("c_ytd_payment", f64);
  ("c_payment_cnt", u32)].

(** The loop over the enumerated fields, with its [match] on the position. *)
Fixpoint find_field (fields : list Field) (answers : list Field) (f : Field) : option Field :=
  match fields, answers with
  | g :: fields, a :: answers => if bool_decide (g = f) then Some a else find_field fields answers f
  | _, _ => None
  end.

Definition CustomerCachedWrite_names : list string := ["c_balance"; "c_ytd_payment"; "c_payment_cnt"].

Definition CustomerCachedWrite_to_cached_field (tuple_field : Field) : option Field :=
  find_field (mk_field CustomerTuple <$> CustomerCachedWrite_names)
    (mk_field CustomerCachedWrite <$> CustomerCachedWrite_names) tuple_field.

Definition Schema_CustomerCachedWrite : Schema :=
  let pairs := same_names CustomerTuple CustomerCachedWrite CustomerCachedWrite_names in
  copy_schema CustomerTuple CustomerCachedWrite Customer_key CustomerCachedWrite_to_cached_field
    pairs pairs.

Definition Schema_CustomerTuple : Schema := whole_schema CustomerTuple Customer_key.

Definition CustomerCachedRead : layout := [
  ("c_id", u64);
  ("c_first", FixedString 20);
  ("c_middle", FixedString 2);
  ("c_last", FixedString 16);
  ("c_street1", FixedString 20);
  ("c_street2", FixedString 20);
  ("c_city", FixedString 20);
  ("c_state", FixedString 2);
  ("c_zip", u64);
  ("c_phone", FixedString 16);
  ("c_since", u64);
  ("c_credit", FixedString 2);
  ("c_credit_lim", f64);
  ("c_discount", f64);
  ("c_balance", f64);
  ("c_ytd_payment", f64);
  ("c_payment_cnt", u32);
  ("c_delivery_cnt", u32)].

Definition Schema_CustomerCachedRead : Schema :=
  let pairs := same_names CustomerTuple CustomerCachedRead
    ["c_id"; "c_first"; "c_middle"; "c_last"; "c_street1"; "c_street2"; "c_city"; "c_state";
     "c_zip"; "c_phone"; "c_since"; "c_credit"; "c_credit_lim"; "c_discount"; "c_balance";
     "c_ytd_payment"; "c_payment_cnt"; "c_delivery_cnt"] in
  copy_schema CustomerTuple CustomerCachedRead Customer_key (prefix_field CustomerTuple "c_w_id")
    pairs pairs.

(** ** Item *)
Definition Item_key (t : obj) : outcome Z := Item_make_key (column ItemTuple "i_id" t).

Definition Schema_ItemTuple : Schema := whole_schema ItemTuple Item_key.

Definition ItemCached : layout := [
  ("i_price", f64);
  ("i_name", FixedString 24);
  ("i_data", FixedString 50)].

Definition ItemCached_to_cached_field (tuple_field : Field) : option Field :=
  let BEGIN_OFFSET := offset_of ItemTuple "i_price" in
  if f_begin tuple_field <? BEGIN_OFFSET then None
  else Some (Field_new (f_begin tuple_field - BEGIN_OFFSET) (f_end tuple_field - BEGIN_OFFSET)).

Definition Schema_ItemCached : Schema :=
  let pairs := same_names ItemTuple ItemCached ["i_price"; "i_name"; "i_data"] in
  copy_schema ItemTuple ItemCached Item_key ItemCached_to_cached_field pairs pairs.

(** ** Order *)
Definition Order_key (t : obj) : outcome Z :=
  Order_make_key (column OrderTuple "o_w_id" t) (column OrderTuple "o_d_id" t)
    (column OrderTuple "o_c_id" t) (column OrderTuple "o_id" t).

Definition OrderCached : layout := [
  ("o_id", u64);
  ("o_c_id", u64);
  ("o_entry_d", u64);
  ("o_carrier_id", u64)].

Definition Schema_OrderCached : Schema :=
  let pairs := same_names OrderTuple OrderCached ["o_id"; "o_c_id"; "o_entry_d"; "o_carrier_id"] in
  copy_schema OrderTuple OrderCached Order_key (prefix_field OrderTuple "o_d_id") pairs pairs.

Definition Schema_OrderTuple : Schema := whole_schema OrderTuple Order_key.

(** ** Order line *)
Definition OrderLine_key (t : obj) : outcome Z :=
  OrderLine_make_key (column OrderLineTuple "ol_w_id" t) (column OrderLineTuple "ol_d_id" t)
    (column OrderLineTuple "ol_o_id" t) (column OrderLineTuple "ol_i_id" t).

Definition OrderLineCached : layout := [
  ("ol_o_id", u64);
  ("ol_d_id", u64);
  ("ol_i_id", u64);
  ("ol_supply_w_id", u64);
  ("ol_quantity", u64);
  ("ol_delivery_d", u64);
  ("ol_amount", f64)].

Definition Schema_OrderLineCached : Schema :=
  let pairs := same_names OrderLineTuple OrderLineCached
    ["ol_o_id"; "ol_d_id"; "ol_i_id"; "ol_supply_w_id"; "ol_quantity"; "ol_delivery_d"; "ol_amount"] in
  copy_schema OrderLineTuple OrderLineCached OrderLine_key (prefix_field OrderLineTuple "ol_number")
    pairs pairs.

Definition Schema_OrderLineTuple : Schema := whole_schema OrderLineTuple OrderLine_key.

(** ** Stock *)
Definition Stock_key (t : obj) : outcome Z :=
  Stock_make_key (column StockTuple "s_w_id" t) (column StockTuple "s_i_id" t).

Definition Schema_StockTuple : Schema := whole_schema StockTuple Stock_key.

Definition StockCached : layout := [
  ("s_i_id", u64);
  ("s_w_id", u64);
  ("s_quantity", u64);
  ("s_ytd", u64);
  ("s_order_cnt", u64);
  ("s_remote_cnt", u64);
  ("s_data", FixedString 24);
  ("s_dist10", FixedString 24)].

Definition StockCached_to_cached_field (tuple_field : Field) : option Field :=
  if bool_decide (tuple_field = mk_field StockTuple "s_dist10")
  then Some (mk_field StockCached "s_dist10")
  else prefix_field StockTuple "s_dist01" tuple_field.

Definition Schema_StockCached : Schema :=
  copy_schema StockTuple StockCached Stock_key StockCached_to_cached_field
    (same_names StockTuple StockCached
       ["s_i_id"; "s_w_id"; "s_quantity"; "s_ytd"; "s_order_cnt"; "s_remote_cnt"; "s_data"; "s_dist10"])
    (same_names StockTuple StockCached ["s_quantity"; "s_ytd"; "s_order_cnt"; "s_remote_cnt"; "s_data"]).

(** ** The laws of the schemas *)

(** A schema all of whose columns may be written. *)
Definition lawful (S : Schema) (l : layout) : Prop := SchemaLaws S (columns_of l) (columns_of l).

Ltac copy_check := apply copy_laws; vm_compute; reflexivity.
Ltac whole_check := apply whole_laws; vm_compute; reflexivity.

(** C13: Every schema of the benchmark but the cached stock meets the cache's laws
    for all columns of its table: reads through it are current, writes reach
    the record, and an eviction loses nothing. *)
Theorem tpcc_schemas_lawful :
  (lawful Schema_WarehouseCached WarehouseTuple /\ lawful Schema_WarehouseTuple WarehouseTuple) /\
  (lawful Schema_DistrictCached DistrictTuple /\ lawful Schema_DistrictTuple DistrictTuple) /\
  (lawful Schema_CustomerCachedWrite CustomerTuple /\ lawful Schema_CustomerTuple CustomerTuple /\
   lawful Schema_CustomerCachedRead CustomerTuple) /\
  (lawful Schema_ItemTuple ItemTuple /\ lawful Schema_ItemCached ItemTuple) /\
  (lawful Schema_OrderCached OrderTuple /\ lawful Schema_OrderTuple OrderTuple) /\
  (lawful Schema_OrderLineCached OrderLineTuple /\ lawful Schema_OrderLineTuple OrderLineTuple) /\
  lawful Schema_StockTuple StockTuple.
Proof. split_and!; (copy_check || whole_check). Qed.

(** The columns of a stock record that the transactions write. *)
Definition stock_written : list Field :=
  mk_field StockTuple <$> ["s_quantity"; "s_ytd"; "s_order_cnt"; "s_remote_cnt"; "s_data"].

(** The cached stock meets them too, as long as only the columns its
    [write_back] stores are written; the new-order transaction writes no
    others. *)
Theorem stock_cached_lawful : SchemaLaws Schema_StockCached (columns_of StockTuple) stock_written.
Proof. copy_check. Qed.

(** The other cached stock columns can be written through the cache as well,
    but such a write never reaches the tuple: the write-back of a slot in which
    [s_dist10] was changed leaves the stored [s_dist10] as it was. *)
Theorem stock_dist10_write_lost c t bs :
  length c = @field_size Schema_StockCached -> length t = @tuple_size Schema_StockCached ->
  length bs = 24%nat ->
  let f := mk_field StockTuple "s_dist10" in
  let cf := mk_field StockCached "s_dist10" in
  @to_cached_field Schema_StockCached f = Some cf /\
  @write_back Schema_StockCached (store_field c cf bs) t = @write_back Schema_StockCached c t.
Proof.
  intros Hc Ht Hb. cbv zeta. split; [vm_compute; reflexivity|].
  cbn [write_back Schema_StockCached copy_schema].
  apply (copy_src_apart (Z.to_nat (size_of StockCached)) (Z.to_nat (size_of StockTuple))).
  - apply (writes_plan_ok _ _ StockCached_to_cached_field
             (same_names StockTuple StockCached
                ["s_i_id"; "s_w_id"; "s_quantity"; "s_ytd"; "s_order_cnt"; "s_remote_cnt"; "s_data"; "s_dist10"])
             _ (columns_of StockTuple) stock_written).
    vm_compute. reflexivity.
  - apply Field_okb_ok. vm_compute. reflexivity.
  - exact Hb.
  - intros p Hp. apply apartb_ok.
    refine (forallb_elem (fun p => apartb (mk_field StockCached "s_dist10") p.1) _ p _ Hp).
    vm_compute. reflexivity.
Qed.

Lemma stock_dist10_write_lost_witness :
  let c := replicate 96 0 in let t := replicate 312 7 in
  @write_back Schema_StockCached (store_field c (mk_field StockCached "s_dist10") (replicate 24 1)) t
    = @write_back Schema_StockCached c t.
Proof.
  apply (stock_dist10_write_lost (replicate 96 0) (replicate 312 7) (replicate 24 1));
    vm_compute; reflexivity.
Defined.
