(* ===== verification/TpccUtils.v ===== *)
(** * Utilities of the TPC-C benchmark (src/benchmark/src/utils.rs)

    Fixed-size strings and the random generators; a draw of the random number
    generator is an argument, checked to be in its range by the theorems. *)

From S2P Require Import Prelude Schema Metric.

(** The bytes of a string. *)
Fixpoint as_bytes (s : string) : obj :=
  match s with
  | EmptyString => []
  | String c s => Z.of_nat (Ascii.nat_of_ascii c) :: as_bytes s
  end.

(** ** [FixedString<N>]: [N] is the length of the data *)
Definition FixedString_new (N : nat) : obj := replicate N 0.

(** The loop of [eq]: [i] is the index of the first byte of [data]. *)
Fixpoint eq_bytes (data other : obj) (i : Z) : outcome bool :=
  match data with
  | [] => Ret true
  | v :: data =>
      o ← index other i;
      if negb (v =? o) then Ret false else eq_bytes data other (i + 1)
  end.

Definition FixedString_eq (data : obj) (other : string) : outcome bool :=
  if negb (Z.of_nat (length (as_bytes other)) =? Z.of_nat (length data)) then Ret false
  else eq_bytes data (as_bytes other) 0.

(** [from_str]: the first [N] bytes; a shorter string panics. *)
Fixpoint from_bytes (n : nat) (idx : Z) (s : obj) : outcome obj :=
  match n with
  | O => Ret []
  | S n =>
      b ← index s idx;
      rest ← from_bytes n (idx + 1) s;
      Ret (b :: rest)
  end.

Definition FixedString_from_str (N : nat) (s : string) : outcome obj := from_bytes N 0 (as_bytes s).

(** The loop of [copy_from]: byte [idx] of the source goes to [data[idx]]. *)
Fixpoint copy_bytes (src : obj) (idx : Z) (data : obj) : outcome obj :=
  match src with
  | [] => Ret data
  | i :: src =>
      _ ← index data idx;
      copy_bytes src (idx + 1) (<[Z.to_nat idx := i]> data)
  end.

Definition copy_from (data : obj) (src : string) (start : Z) : outcome obj :=
  _ ← rassert (start + Z.of_nat (length (as_bytes src)) <? Z.of_nat (length data));
  copy_bytes (as_bytes src) 0 data.

(** [FixedString<N>::concat]: [F] and [S] are the lengths of the two parts. *)
Definition FixedString_concat (N : nat) (first second : obj) (space : Z) : outcome obj :=
  let F := Z.of_nat (length first) in
  let S := Z.of_nat (length second) in
  _ ← rassert (F + S + space <=? Z.of_nat N);
  data ← raw_write (replicate N 0) 0 first;
  raw_write data (F + space) second.

(** ** Random numbers

    A range is inclusive; an empty one panics. *)
Definition gen_range (x y draw : Z) : outcome Z :=
  if x <=? y then Ret draw else Panic.

Definition u_rand (x y draw : Z) : outcome Z := gen_range x y draw.

(** The constants of [nu_rand], drawn once per process. *)
Record Cells := mkCells { c_255 : option Z; c_1023 : option Z; c_8191 : option Z }.

Definition get_or_init (cell : option Z) (draw : Z) : Z := default draw cell.

(** [rc] is the draw for a constant not yet chosen, [r1] and [r2] the other two. *)
Definition nu_rand (a x y : Z) (rc r1 r2 : Z) (cells : Cells) : outcome (Z * Cells) :=
  '(c, cells) ←
    (if a =? 255 then
       let c := get_or_init (c_255 cells) rc in Ret (c, mkCells (Some c) (c_1023 cells) (c_8191 cells))
     else if a =? 1023 then
       let c := get_or_init (c_1023 cells) rc in Ret (c, mkCells (c_255 cells) (Some c) (c_8191 cells))
     else if a =? 8191 then
       let c := get_or_init (c_8191 cells) rc in Ret (c, mkCells (c_255 cells) (c_1023 cells) (Some c))
     else Panic);
  r1 ← gen_range 0 a r1;
  r2 ← gen_range x y r2;
  s ← chk 64 (Z.lor r1 r2 + c);
  d ← chk 64 (y - x);
  d ← chk 64 (d + 1);
  _ ← rassert (negb (d =? 0));
  v ← chk 64 (s mod d + x);
  Ret (v, cells).

Definition zip_gen (draw : Z) : outcome Z := chk 64 (wrap 64 (Z.shiftl draw 10) + 1111).

(** ** Last names *)
Definition name_bank : list string :=
  ["BAR"; "OUGHT"; "ABLE"; "PRI"; "PRES"; "ESE"; "ANTI"; "CALLY"; "ATION"; "EING"]%string.

(** [n] more syllables. *)
Fixpoint last_name_loop (n : nat) (seed pos : Z) (last_name : obj) : outcome obj :=
  match n with
  | O => Ret last_name
  | S n =>
      let idx := seed mod 10 in
      let seed := seed / 10 in
      name ← unwrap (name_bank !! Z.to_nat idx);
      last_name ← copy_from last_name name pos;
      last_name_loop n seed (pos + Z.of_nat (length (as_bytes name))) last_name
  end.

Definition last_name_gen (seed : Z) : outcome obj := last_name_loop 3 seed 0 (FixedString_new 16).

(** ** The counter of an aborted transaction *)
Definition txn_err_to_counter (e : TransactionError) : outcome Counter :=
  match e with
  | IndexNotFound => Panic
  | LockBusy => Ret AbortLockBusy
  | ReadLockBusy => Ret AbortRLockBusy
  | WriteLockBusy => Ret AbortWLockBusy
  | UpgradeLockBusy => Ret AbortUpgradeBusy
  | UserAbort => Ret NewOrderRollback
  end.

(** ** Properties *)

Lemma from_bytes_ok n idx s :
  0 <= idx -> idx + Z.of_nat n <= Z.of_nat (length s) ->
  from_bytes n idx s = Ret (take n (drop (Z.to_nat idx) s)).
Proof.
  revert idx. induction n as [|n IH]; intros idx Hi Hl; [by rewrite take_0|]. cbn [from_bytes].
  destruct (lookup_lt_is_Some_2 s (Z.to_nat idx)) as [b Hb]; [lia|].
  rewrite (proj2 (index_Ret s idx b)) by done. runm. rewrite IH by lia. runm.
  rewrite (drop_S s b (Z.to_nat idx) Hb). cbn [take]. by replace (Z.to_nat (idx + 1)) with (S (Z.to_nat idx)) by lia.
Qed.

Lemma eq_bytes_ok data other i :
  0 <= i -> i + Z.of_nat (length data) = Z.of_nat (length other) ->
  eq_bytes data other i = Ret (bool_decide (data = drop (Z.to_nat i) other)).
Proof.
  revert i. induction data as [|v data IH]; intros i Hi Hl; cbn [eq_bytes].
  { rewrite drop_ge by (cbn in Hl; lia). done. }
  cbn [length] in Hl. destruct (lookup_lt_is_Some_2 other (Z.to_nat i)) as [o Ho]; [lia|].
  rewrite (proj2 (index_Ret other i o)) by done. runm. rewrite (drop_S other o (Z.to_nat i) Ho).
  destruct (Z.eqb_spec v o) as [->|Hne]; cbn [negb].
  - rewrite IH by lia. replace (Z.to_nat (i + 1)) with (S (Z.to_nat i)) by lia.
    f_equal. apply bool_decide_ext. split; [by intros ->|by intros [= ->]].
  - f_equal. symmetry. apply bool_decide_eq_false_2. by intros [= ? ?].
Qed.

(** A fixed string built from a string equals exactly the strings that have its
    length and its bytes: a string of [N] bytes comes back, no other does. *)
Theorem fixed_string_roundtrip N s s' :
  N = length (as_bytes s) ->
  FixedString_from_str N s = Ret (as_bytes s) /\
  FixedString_eq (as_bytes s) s' = Ret (bool_decide (as_bytes s = as_bytes s')).
Proof.
  intros ->. split.
  - unfold FixedString_from_str. rewrite from_bytes_ok by lia. change (Z.to_nat 0) with 0%nat.
    by rewrite drop_0, firstn_all.
  - unfold FixedString_eq. destruct (Z.eqb_spec (Z.of_nat (length (as_bytes s'))) (Z.of_nat (length (as_bytes s))));
      cbn [negb].
    + by rewrite eq_bytes_ok by lia.
    + f_equal. symmetry. apply bool_decide_eq_false_2. congruence.
Qed.

Lemma fixed_string_roundtrip_witness :
  FixedString_from_str 2 "OE" = Ret [79; 69] /\ FixedString_eq [79; 69] "OF" = Ret false.
Proof. exact (fixed_string_roundtrip 2 "OE" "OF" eq_refl). Defined.

(** [concat] keeps both parts, with [space] zero bytes between them. *)
Theorem fixed_string_concat N first second space :
  0 <= space -> Z.of_nat (length first) + Z.of_nat (length second) + space <= Z.of_nat N ->
  exists d, FixedString_concat N first second space = Ret d /\ length d = N /\
    take (length first) d = first /\
    (forall i, (length first <= i < length first + Z.to_nat space)%nat -> d !! i = Some 0) /\
    load d (length first + Z.to_nat space) (length second) = second.
Proof.
  intros Hs Hl. unfold FixedString_concat. rewrite (proj2 (Z.leb_le _ _)) by lia. runm.
  rewrite raw_write_ok by (rewrite ?length_replicate; lia). runm.
  rewrite raw_write_ok by (rewrite ?length_store, ?length_replicate; lia).
  replace (Z.to_nat (Z.of_nat (length first) + space)) with (length first + Z.to_nat space)%nat by lia.
  eexists. split; [done|]. split; [by rewrite !length_store, length_replicate|].
  assert (Hlen : (length first + Z.to_nat space + length second <= N)%nat) by lia. split; [|split].
  - change (load (store (store (replicate N 0) (Z.to_nat 0) first) (length first + Z.to_nat space) second) 0 (length first) = first).
    rewrite load_store_disjoint by lia. apply load_store_same. rewrite length_replicate. lia.
  - intros i Hi. rewrite lookup_store, decide_False by lia.
    rewrite lookup_store, decide_False by lia. by apply lookup_replicate_2; lia.
  - apply load_store_same. rewrite length_store, length_replicate. lia.
Qed.

Lemma fixed_string_concat_witness :
  exists d, FixedString_concat 6 [1; 2] [3; 4] 1 = Ret d /\ length d = 6%nat.
Proof. destruct (fixed_string_concat 6 [1; 2] [3; 4] 1) as (d & E & Hl & _); [cbn; lia..|]. exists d. split; [exact E|exact Hl]. Defined.

(** The cells hold draws of their ranges. *)
Definition cell_ok (a : Z) (c : option Z) : Prop := forall v, c = Some v -> 0 <= v <= a.

Definition cells_ok (cs : Cells) : Prop :=
  cell_ok 255 (c_255 cs) /\ cell_ok 1023 (c_1023 cs) /\ cell_ok 8191 (c_8191 cs).

Definition cell (a : Z) (cs : Cells) : option Z :=
  if a =? 255 then c_255 cs else if a =? 1023 then c_1023 cs else c_8191 cs.

(** [nu_rand] stays in its range, and draws its constant only once: the next
    call uses the same one. *)
Theorem nu_rand_range a x y rc r1 r2 cs :
  a = 255 \/ a = 1023 \/ a = 8191 -> 0 <= x <= y -> y < 2 ^ 62 ->
  0 <= rc <= a -> 0 <= r1 <= a -> x <= r2 <= y -> cells_ok cs ->
  exists v cs' c, nu_rand a x y rc r1 r2 cs = Ret (v, cs') /\ x <= v <= y /\ cells_ok cs' /\
    cell a cs' = Some c /\ (forall c0, cell a cs = Some c0 -> c = c0).
Proof.
  intros Ha Hxy Hy Hc H1 H2 Hcs.
  assert (Hor : 0 <= Z.lor r1 r2 < 2 ^ 63).
  { split; [apply Z.lor_nonneg; lia|]. assert (0 <= Z.land r1 r2) by (apply Z.land_nonneg; lia).
    rewrite lor_land. lia. }
  assert (Hget : forall cl, cell_ok a cl -> 0 <= get_or_init cl rc <= a).
  { intros [c0|] Hcl; cbn; [by apply Hcl|done]. }
  assert (Htail : forall c cs', 0 <= c <= a ->
    (r1 ← gen_range 0 a r1; r2 ← gen_range x y r2; s ← chk 64 (Z.lor r1 r2 + c); d ← chk 64 (y - x);
     d ← chk 64 (d + 1); _ ← rassert (negb (d =? 0)); v ← chk 64 (s mod d + x); Ret (v, cs' : Cells)) =
    Ret ((Z.lor r1 r2 + c) mod (y - x + 1) + x, cs') /\
    x <= (Z.lor r1 r2 + c) mod (y - x + 1) + x <= y).
  { intros c cs' Hc'. unfold gen_range. rewrite !(proj2 (Z.leb_le _ _)) by lia. runm.
    rewrite (chk_ok 64 (Z.lor r1 r2 + c)) by (unfold fits; lia). runm. rewrite (chk_ok 64 (y - x)) by (unfold fits; lia). runm.
    rewrite (chk_ok 64 (y - x + 1)) by (unfold fits; lia). runm. rewrite (proj2 (Z.eqb_neq _ 0)) by lia. runm.
    pose proof (Z.mod_pos_bound (Z.lor r1 r2 + c) (y - x + 1) ltac:(lia)).
    rewrite chk_ok by (unfold fits; lia). runm. split; [done|lia]. }
  destruct cs as [c1 c2 c3], Hcs as (K1 & K2 & K3). cbn in K1, K2, K3.
  unfold nu_rand, cell. destruct Ha as [->|[->| ->]]; cbn [Z.eqb Pos.eqb c_255 c_1023 c_8191].
  - destruct (Htail (get_or_init c1 rc) (mkCells (Some (get_or_init c1 rc)) c2 c3)) as [E Hv]; [by apply Hget|].
    eexists _, _, _. split; [exact E|]. split; [done|]. split; [|split; [done|by intros c0 [= ->]]].
    split; [|done]. intros v [= <-]. by apply Hget.
  - destruct (Htail (get_or_init c2 rc) (mkCells c1 (Some (get_or_init c2 rc)) c3)) as [E Hv]; [by apply Hget|].
    eexists _, _, _. split; [exact E|]. split; [done|]. split; [|split; [done|by intros c0 [= ->]]].
    split; [done|]. split; [|done]. intros v [= <-]. by apply Hget.
  - destruct (Htail (get_or_init c3 rc) (mkCells c1 c2 (Some (get_or_init c3 rc)))) as [E Hv]; [by apply Hget|].
    eexists _, _, _. split; [exact E|]. split; [done|]. split; [|split; [done|by intros c0 [= ->]]].
    split; [done|]. split; [done|]. intros v [= <-]. by apply Hget.
Qed.

Lemma nu_rand_range_witness :
  exists v cs', nu_rand 1023 1 3000 7 1000 2999 (mkCells None None None) = Ret (v, cs') /\ 1 <= v <= 3000.
Proof.
  destruct (nu_rand_range 1023 1 3000 7 1000 2999 (mkCells None None None)) as (v & cs' & c & E & Hv & _);
    [by right; left|lia..|by split_and!|].
  exists v, cs'. split; [exact E|exact Hv].
Defined.

(** The last name of a three-digit number, and the check of one. *)
Definition last_name (n : nat) : obj :=
  match last_name_gen (Z.of_nat n) with Ret name => name | _ => [] end.

Definition last_name_check (n : nat) : bool :=
  match last_name_gen (Z.of_nat n), name_bank !! (n / 100)%nat with
  | Ret name, Some syllable =>
      (length name =? 16)%nat && bool_decide (take (length (as_bytes syllable)) name = as_bytes syllable)
  | _, _ => false
  end.

Lemma last_name_checked : forallb last_name_check (seq 0 1000) = true.
Proof. vm_compute. reflexivity. Qed.

(** [last_name_gen] never panics on a three-digit number, but it copies all
    three syllables to the start of the name instead of one after the other:
    the name always begins with the syllable of the hundreds digit, which the
    positions passed would put last, and the thousand numbers share 79 names. *)
Theorem last_name_overwrites :
  (forall n, (n < 1000)%nat -> exists name syllable,
     last_name_gen (Z.of_nat n) = Ret name /\ length name = 16%nat /\
     name_bank !! (n / 100)%nat = Some syllable /\
     take (length (as_bytes syllable)) name = as_bytes syllable) /\
  length (remove_dups (map last_name (seq 0 1000))) = 79%nat.
Proof.
  split; [|vm_compute; reflexivity]. intros n Hn.
  pose proof (proj1 (forallb_forall _ _) last_name_checked n) as Hc. rewrite in_seq in Hc. specialize (Hc ltac:(lia)).
  unfold last_name_check in Hc. destruct (last_name_gen (Z.of_nat n)) as [name| | |]; try discriminate Hc.
  destruct (name_bank !! (n / 100)%nat) as [syllable|]; [|discriminate Hc].
  apply andb_true_iff in Hc as [Hl Ht]. apply Nat.eqb_eq in Hl. apply bool_decide_eq_true in Ht. eauto 10.
Qed.
