(* ===== verification/Results.v ===== *)
(** * Benchmark results and workloads
    (src/benchmark/src/tpcc/txn_result.rs, tpcc/config.rs, micro/txn_result.rs, micro/mod.rs)

    The per-thread results that the harness sums up, and the choice of the next
    transaction. *)

From Stdlib Require Import QArith.
From S2P Require Import Prelude External Metric.
Open Scope Z_scope.

(** The update of [metrics] that both results share. *)
Definition add_metrics (a b : option TlsRecorder) : outcome (option TlsRecorder) :=
  match b with
  | Some v =>
      match a with
      | Some a_m => s ← TlsRecorder_add a_m v; Ret (Some s)
      | None => Ret (Some v)
      end
  | None => Ret a
  end.

(** ** tpcc/txn_result.rs *)
Record TransactionResult := mkResult { commit : Z; abort : Z }.

Definition TransactionResult_new (commit abort : Z) : TransactionResult := mkResult commit abort.

Definition TransactionResult_default : TransactionResult := mkResult 0 0.

Definition inc_commit (r : TransactionResult) : outcome TransactionResult :=
  c ← chk 64 (commit r + 1); Ret (mkResult c (abort r)).

Definition inc_abort (r : TransactionResult) : outcome TransactionResult :=
  a ← chk 64 (abort r + 1); Ret (mkResult (commit r) a).

Definition TransactionResult_add (a b : TransactionResult) : outcome TransactionResult :=
  c ← chk 64 (commit a + commit b);
  d ← chk 64 (abort a + abort b);
  Ret (mkResult c d).

Record TpccResults := mkTpcc {
  payment : TransactionResult;
  new_order : TransactionResult;
  order_status : TransactionResult;
  delivery : TransactionResult;
  stock_level : TransactionResult;
  metrics : option TlsRecorder;
}.

Definition TpccResults_new : TpccResults :=
  let z := TransactionResult_default in mkTpcc z z z z z None.

Definition set_metric (m : TlsRecorder) (r : TpccResults) : TpccResults :=
  mkTpcc (payment r) (new_order r) (order_status r) (delivery r) (stock_level r) (Some m).

Definition TpccResults_add (a b : TpccResults) : outcome TpccResults :=
  p ← TransactionResult_add (payment a) (payment b);
  n ← TransactionResult_add (new_order a) (new_order b);
  o ← TransactionResult_add (order_status a) (order_status b);
  d ← TransactionResult_add (delivery a) (delivery b);
  s ← TransactionResult_add (stock_level a) (stock_level b);
  m ← add_metrics (metrics a) (metrics b);
  Ret (mkTpcc p n o d s m).

(** [sum] folds from the default. *)
Fixpoint fold_add {R} (add : R -> R -> outcome R) (h : R) (vs : list R) : outcome R :=
  match vs with
  | [] => Ret h
  | v :: vs => h ← add h v; fold_add add h vs
  end.

Definition TransactionResult_sum (vs : list TransactionResult) : outcome TransactionResult :=
  fold_add TransactionResult_add TransactionResult_default vs.

Definition TpccResults_sum (vs : list TpccResults) : outcome TpccResults :=
  fold_add TpccResults_add TpccResults_new vs.

Definition short_value (r : TpccResults) : outcome Z :=
  x ← chk 64 (commit (new_order r) + commit (payment r));
  x ← chk 64 (x + commit (order_status r));
  x ← chk 64 (x + commit (delivery r));
  chk 64 (x + commit (stock_level r)).

(** ** tpcc/config.rs *)
Record WorkloadMix := mkMix {
  mix_new_order : Z; mix_payment : Z; mix_order_status : Z; mix_delivery : Z; mix_stock_level : Z;
}.

Inductive Workload := NewOrder | Payment | OrderStatus | Delivery | StockLevel.

(** [w] is the draw from [0..100]. *)
Definition WorkloadMix_gen (m : WorkloadMix) (w : Z) : outcome Workload :=
  let new_order := mix_new_order m in
  payment ← chk 64 (new_order + mix_payment m);
  order_status ← chk 64 (payment + mix_order_status m);
  delivery ← chk 64 (order_status + mix_delivery m);
  stock_level ← chk 64 (delivery + mix_stock_level m);
  if w <? new_order then Ret NewOrder
  else if w <? payment then Ret Payment
  else if w <? order_status then Ret OrderStatus
  else if w <? delivery then Ret Delivery
  else if w <? stock_level then Ret StockLevel
  else Panic.

(** ** The micro benchmark *)
Module Micro.
Record TransactionResult := mkResult { commit : Z; abort : Z; metrics : option TlsRecorder }.

Definition TransactionResult_new (commit abort : Z) : TransactionResult := mkResult commit abort None.

Definition set_metric (m : TlsRecorder) (r : TransactionResult) : TransactionResult :=
  mkResult (commit r) (abort r) (Some m).

Definition TransactionResult_add (a b : TransactionResult) : outcome TransactionResult :=
  c ← chk 64 (commit a + commit b);
  d ← chk 64 (abort a + abort b);
  m ← add_metrics (metrics a) (metrics b);
  Ret (mkResult c d m).

Definition TransactionResult_sum (vs : list TransactionResult) : outcome TransactionResult :=
  fold_add TransactionResult_add (mkResult 0 0 None) vs.

Inductive Workload := ReadOnly | ReadHeavy | Balanced | WriteHeavy | WriteOnly | InsertOnly.

Inductive Operation := Read | Update | Insert.

(** [draw n] is the draw from [0..n]; no workload draws twice. *)
Definition Operation_gen (workload : Workload) (draw : Z -> Z) : Operation :=
  match workload with
  | ReadOnly => Read
  | ReadHeavy => if draw 4 =? 0 then Update else Read
  | Balanced => if draw 2 =? 0 then Update else Read
  | WriteHeavy => if draw 4 =? 0 then Read else Update
  | WriteOnly => Update
  | InsertOnly => Insert
  end.

(** [WriteLogEntry<N>]: values are truncated to 32 bits. *)
Record WriteLogEntry := mkEntry { we_key : Z; we_values : list Z }.

Definition create_write (key : Z) (values : list Z) : WriteLogEntry :=
  mkEntry key (map (wrap 32) values).
End Micro.

(** ** Properties *)

#[export] Instance Workload_eq_dec : EqDecision Workload.
Proof. solve_decision. Defined.

Definition share (m : WorkloadMix) (k : Workload) : Z :=
  match k with
  | NewOrder => mix_new_order m
  | Payment => mix_payment m
  | OrderStatus => mix_order_status m
  | Delivery => mix_delivery m
  | StockLevel => mix_stock_level m
  end.

(** The draws before those that choose [k]. *)
Definition first_draw (m : WorkloadMix) (k : Workload) : Z :=
  match k with
  | NewOrder => 0
  | Payment => mix_new_order m
  | OrderStatus => mix_new_order m + mix_payment m
  | Delivery => mix_new_order m + mix_payment m + mix_order_status m
  | StockLevel => mix_new_order m + mix_payment m + mix_order_status m + mix_delivery m
  end.

(** A mix of percentages that add up to 100 picks a transaction for every draw,
    and each kind for exactly its percentage of them: an interval of that many
    draws. *)
Theorem mix_gen_shares m w :
  (forall k, 0 <= share m k) -> first_draw m StockLevel + mix_stock_level m = 100 -> 0 <= w < 100 ->
  exists k, WorkloadMix_gen m w = Ret k /\
    forall k', k' = k <-> first_draw m k' <= w < first_draw m k' + share m k'.
Proof.
  intros Hk Ht Hw. pose proof (Hk NewOrder). pose proof (Hk Payment). pose proof (Hk OrderStatus).
  pose proof (Hk Delivery). pose proof (Hk StockLevel). destruct m as [a b c d e]. cbn in *.
  unfold WorkloadMix_gen. cbn. repeat (rewrite chk_ok by (unfold fits; lia); runm).
  destruct (Z.ltb_spec w a); [|destruct (Z.ltb_spec w (a + b)); [|destruct (Z.ltb_spec w (a + b + c));
    [|destruct (Z.ltb_spec w (a + b + c + d)); [|destruct (Z.ltb_spec w (a + b + c + d + e)); [|lia]]]]];
    (eexists; split; [done|]); intros []; cbn; (split; [congruence||lia|]); intros; (done || lia).
Qed.

Lemma mix_gen_shares_witness :
  exists k, WorkloadMix_gen (mkMix 45 43 4 4 4) 88 = Ret k /\ k = OrderStatus.
Proof.
  destruct (mix_gen_shares (mkMix 45 43 4 4 4) 88) as (k & E & Hk); [intros []; cbn; lia|reflexivity|lia|].
  exists k. split; [exact E|]. symmetry. apply Hk. cbn. lia.
Defined.

(** A mix that adds up to less panics on some draw. *)
Lemma mix_gen_short m :
  (forall k, 0 <= share m k) -> first_draw m StockLevel + mix_stock_level m < 100 ->
  WorkloadMix_gen m 99 = Panic.
Proof.
  intros Hk Ht. pose proof (Hk NewOrder). pose proof (Hk Payment). pose proof (Hk OrderStatus).
  pose proof (Hk Delivery). pose proof (Hk StockLevel). destruct m as [a b c d e]. cbn in *.
  unfold WorkloadMix_gen. cbn. repeat (rewrite chk_ok by (unfold fits; lia); runm).
  repeat (rewrite (proj2 (Z.ltb_ge _ _)) by lia). done.
Qed.

(** *** Sums *)
Definition total (f : TransactionResult -> Z) (vs : list TransactionResult) : Z :=
  foldr (fun v n => f v + n) 0 vs.

Definition nonneg (r : TransactionResult) : Prop := 0 <= commit r /\ 0 <= abort r.

Lemma total_nonneg vs : Forall nonneg vs -> 0 <= total commit vs /\ 0 <= total abort vs.
Proof. induction 1 as [|v vs [? ?] _ IH]; unfold total in *; cbn; lia. Qed.

Lemma fold_add_results vs h :
  nonneg h -> Forall nonneg vs -> commit h + total commit vs < 2 ^ 64 -> abort h + total abort vs < 2 ^ 64 ->
  fold_add TransactionResult_add h vs = Ret (mkResult (commit h + total commit vs) (abort h + total abort vs)).
Proof.
  intros Hh Hvs. revert h Hh. induction Hvs as [|v vs Hv Hvs IH]; intros h [Hc Ha] Bc Ba; cbn [fold_add].
  { unfold total. cbn. rewrite !Z.add_0_r. by destruct h. }
  pose proof (total_nonneg vs Hvs). destruct Hv. unfold total in *. cbn in *.
  unfold TransactionResult_add. rewrite !chk_ok by (unfold fits; lia). runm.
  rewrite IH; cbn; [f_equal; f_equal; lia|split; cbn; lia|lia|lia].
Qed.

(** The sum of the threads' results has the commits and the aborts of all of
    them. *)
Theorem results_sum vs :
  Forall nonneg vs -> total commit vs < 2 ^ 64 -> total abort vs < 2 ^ 64 ->
  TransactionResult_sum vs = Ret (mkResult (total commit vs) (total abort vs)).
Proof. intros Hvs Hc Ha. unfold TransactionResult_sum. by apply fold_add_results. Qed.

Lemma results_sum_witness :
  TransactionResult_sum [mkResult 3 1; mkResult 4 0; mkResult 0 2] = Ret (mkResult 7 3).
Proof. apply (results_sum [mkResult 3 1; mkResult 4 0; mkResult 0 2]); [repeat constructor; cbn; lia|reflexivity..]. Defined.
