(* ===== verification/Float64.v ===== *)
(** * 64-bit floats as the program stores them

    An [f64] column holds the IEEE-754 bits of its number; arithmetic is the
    Standard Library's specification of binary floats.  A result that is not a
    number gets the canonical quiet bits. *)

From Stdlib Require Import SpecFloat.
From S2P Require Import Prelude.
Open Scope Z_scope.

Definition F_PREC : Z := 53.
Definition F_EMAX : Z := 1024.
Definition F_NAN : Z := 0x7ff8000000000000.

Definition f64_from_bits (b : Z) : spec_float :=
  let s := Z.testbit b 63 in
  let e := Z.land (Z.shiftr b 52) 0x7ff in
  let m := Z.land b (Z.ones 52) in
  if e =? 0 then
    match m with Zpos p => S754_finite s p (-1074) | _ => S754_zero s end
  else if e =? 0x7ff then
    if m =? 0 then S754_infinity s else S754_nan
  else
    match m + 2 ^ 52 with Zpos p => S754_finite s p (e - 1075) | _ => S754_nan end.

Definition f64_to_bits (f : spec_float) : Z :=
  let sign (s : bool) := if s then 2 ^ 63 else 0 in
  match f with
  | S754_zero s => sign s
  | S754_infinity s => sign s + 0x7ff * 2 ^ 52
  | S754_nan => F_NAN
  | S754_finite s p e =>
      if Zpos p <? 2 ^ 52 then sign s + Zpos p
      else sign s + (e + 1075) * 2 ^ 52 + (Zpos p - 2 ^ 52)
  end.

Definition f64_op (op : spec_float -> spec_float -> spec_float) (a b : Z) : Z :=
  f64_to_bits (op (f64_from_bits a) (f64_from_bits b)).

Definition f64_add : Z -> Z -> Z := f64_op (SFadd F_PREC F_EMAX).
Definition f64_sub : Z -> Z -> Z := f64_op (SFsub F_PREC F_EMAX).
Definition f64_mul : Z -> Z -> Z := f64_op (SFmul F_PREC F_EMAX).
Definition f64_div : Z -> Z -> Z := f64_op (SFdiv F_PREC F_EMAX).

(** [x as f64] of an unsigned integer. *)
Definition f64_of_int (x : Z) : Z := f64_to_bits (binary_normalize F_PREC F_EMAX x 0 false).

(** [x as usize]: towards zero, to the nearest bound where it does not fit, and
    0 if [x] is not a number. *)
Definition f64_to_usize (a : Z) : Z :=
  match f64_from_bits a with
  | S754_finite false m e => Z.min (2 ^ 64 - 1) (Z.shiftl (Zpos m) e)
  | S754_infinity false => 2 ^ 64 - 1
  | _ => 0
  end.

Definition f64_lt (a b : Z) : bool := SFltb (f64_from_bits a) (f64_from_bits b).

Definition f64_zero : Z := 0.
Definition f64_half : Z := 0x3fe0000000000000.

Example float_bits :
  f64_of_int 1 = 0x3ff0000000000000 /\ f64_of_int 0 = f64_zero /\
  f64_add (f64_of_int 3) (f64_of_int 4) = f64_of_int 7 /\
  f64_sub (f64_of_int 3) (f64_of_int 3) = f64_zero /\
  f64_mul f64_half (f64_of_int 3) = 0x3ff8000000000000 /\
  f64_add (f64_of_int (2 ^ 53)) (f64_of_int 1) = f64_of_int (2 ^ 53) /\
  f64_div (f64_of_int 1) (f64_of_int 2) = f64_half /\
  f64_to_usize (f64_div (f64_of_int 7) (f64_of_int 2)) = 3 /\
  f64_to_usize (f64_sub f64_zero f64_half) = 0 /\ f64_to_usize (f64_of_int (2 ^ 70)) = 2 ^ 64 - 1 /\
  f64_lt f64_zero f64_half = true /\ f64_lt f64_half f64_half = false.
Proof. vm_compute. repeat split. Qed.
