(* ===== verification/TpccTxn.v ===== *)
(** * The five TPC-C transactions (src/benchmark/src/tpcc/query)

    Each transaction is a program over the benchmark's tables and indexes,
    written call by call like its source.  References into a record are read
    and written where they are dereferenced; prefetches and metrics have no
    effect here.  What the random generators and the clock supply is in the
    inputs. *)

From Stdlib Require Import QArith.
From S2P Require Import Prelude Query Schema Layout External Table Guarded Txn Float64 TpccTables TpccSchemas TpccUtils.
Open Scope string_scope.
Open Scope Z_scope.

(** ** The database: [TpccWorkload] *)
Inductive tbl := warehouse | district | customer | item | stock | order | order_line.
Inductive index_name := c_last_idx | new_order_idx.

#[export] Instance tbl_eq_dec : EqDecision tbl.
Proof. solve_decision. Defined.
#[export] Instance index_name_eq_dec : EqDecision index_name.
Proof. solve_decision. Defined.

Definition DISTRICT_SCALE : Z := 10.
Definition CUSTOMER_SCALE : Z := 3000.
Definition ITEM_SCALE : Z := 100000.
Definition CARRIER_NULL : Z := 0.

(** The tuples of the tables and their keys. *)
Definition tuple_of (t : tbl) : layout :=
  match t with
  | warehouse => WarehouseTuple
  | district => DistrictTuple
  | customer => CustomerTuple
  | item => ItemTuple
  | stock => StockTuple
  | order => OrderTuple
  | order_line => OrderLineTuple
  end.

Definition key_of (t : tbl) : obj -> outcome Z :=
  match t with
  | warehouse => Warehouse_key
  | district => District_key
  | customer => Customer_key
  | item => Item_key
  | stock => Stock_key
  | order => Order_key
  | order_line => OrderLine_key
  end.

Definition tpcc_columns (t : tbl) : list Field := columns_of (tuple_of t).

(** The columns that may be written: of the cached stock only some. *)
Definition tpcc_written (t : tbl) : list Field :=
  match t with stock => stock_written | _ => tpcc_columns t end.

Abbreviation txn := (prog tbl index_name) (only parsing).

(** ** The macros [mk_field!] and [mk_query!], and accesses to columns *)
Definition field (t : tbl) (name : string) : Field := mk_field (tuple_of t) name.

Definition query (t : tbl) (names : list string) : FieldsMeta := FieldsMeta_new (field t <$> names).

Definition get (t : tbl) (name : string) : txn obj := call (Get t (field t name)).

(** An integer column. *)
Definition get_int (t : tbl) (name : string) : txn Z :=
  bs ← get t name;
  mret (le_word bs).

Definition put_int (t : tbl) (name : string) (n : nat) (v : Z) : txn unit :=
  call (Put t (field t name) (le_bytes n v)).

(** [for i in q.iter() { let _ = value.get_value(i) }]: touch every field. *)
Fixpoint touch (t : tbl) (fs : list Field) : txn unit :=
  match fs with
  | [] => mret tt
  | f :: fs => _ ← call (Get t f); touch t fs
  end.

(** [.map_err(..)?]: a record that is not there aborts the transaction. *)
Definition user_abort (e : TransactionError) : TransactionError :=
  match e with IndexNotFound => UserAbort | _ => e end.

Definition lock_or_abort (o : op tbl index_name (result Rid TransactionError)) : txn Rid :=
  r ← call o;
  match r with Ok g => mret g | Err e => Fail_ (user_abort e) end.

(** A tuple struct from its fields. *)
Definition tuple (l : layout) (vals : list (string * obj)) : obj :=
  foldl (fun t v => store_field t (mk_field l v.1) v.2) (replicate (Z.to_nat (size_of l)) 0) vals.

Definition word (v : Z) : obj := le_bytes 8 v.

(** ** Finding the customer of payment and order status *)
Inductive CustomerQuery := Id (c : Z) | LastName (seed : Z).

(** The customer under a write lock; none if nobody has that last name. *)
Definition find_customer (w_id d_id : Z) (q : CustomerQuery) : txn (option Rid) :=
  match q with
  | Id id =>
      c_key ← lift (Customer_make_key w_id d_id id);
      c_lock ← try_lock (WriteOid customer c_key);
      mret (Some c_lock)
  | LastName seed =>
      low ← lift (idx_key_lastname (wrap 16 w_id) (wrap 16 d_id) (wrap 16 seed) 0);
      high ← lift (idx_key_lastname (wrap 16 w_id) (wrap 16 d_id) (wrap 16 seed) (wrap 16 CUSTOMER_SCALE));
      rid_buffer ← call (IdxRange c_last_idx low high 8);
      let cnt := Z.of_nat (length rid_buffer) in
      if cnt =? 0 then mret None
      else
        e ← lift (index rid_buffer (cnt / 2));
        middle_rid ← lift (Rid_from_u32 (wrap 32 e.2));
        c_lock ← lock_or_abort (LockRidW customer middle_rid);
        mret (Some c_lock)
  end.

(** ** Payment *)
Record PaymentInput := mkPayment {
  p_w_id : Z; p_d_id : Z; p_c_w_id : Z; p_c_d_id : Z;
  p_c_query : CustomerQuery;
  p_h_amount : Z;
  p_h_date : Z;
}.

(** [*column += x], [*column -= x] on an [f64]. *)
Definition add_f64 (t : tbl) (name : string) (x : Z) : txn unit :=
  v ← get_int t name;
  put_int t name 8 (f64_add v x).

Definition sub_f64 (t : tbl) (name : string) (x : Z) : txn unit :=
  v ← get_int t name;
  put_int t name 8 (f64_sub v x).

Definition add_int (t : tbl) (name : string) (n : nat) (x : Z) : txn unit :=
  v ← get_int t name;
  v' ← lift (chk (8 * Z.of_nat n) (v + x));
  put_int t name n v'.

Definition w_fields : FieldsMeta := query warehouse
  ["w_name"; "w_street1"; "w_street2"; "w_city"; "w_state"; "w_zip"; "w_ytd"].
Definition d_fields : FieldsMeta := query district
  ["d_name"; "d_street1"; "d_street2"; "d_city"; "d_state"; "d_zip"; "d_ytd"].
Definition c_fields : FieldsMeta := query customer
  ["c_first"; "c_middle"; "c_last"; "c_street1"; "c_street2"; "c_city"; "c_state"; "c_zip"; "c_phone";
   "c_since"; "c_credit"; "c_discount"; "c_balance"; "c_ytd_payment"; "c_payment_cnt"].

Definition SHIFT_AMOUNT : nat := 48.

Definition history_tuple (i : PaymentInput) (h_data : obj) : obj :=
  tuple HistoryTuple [
    ("h_amount", word (p_h_amount i));
    ("h_c_id", word (match p_c_query i with Id c => c | LastName _ => 0 end));
    ("h_c_d_id", word (p_d_id i));
    ("h_c_w_id", word (p_w_id i));
    ("h_d_id", word (p_d_id i));
    ("h_w_id", word (p_w_id i));
    ("h_date", word (p_h_date i));
    ("h_data", h_data)].

(** The customer's part, under the lock [c_lock]. *)
Definition pay_customer (i : PaymentInput) (c_lock : Rid) : txn unit :=
  _ ← call (Promote customer c_lock c_fields);
  _ ← touch customer (fields c_fields);
  _ ← sub_f64 customer "c_balance" (p_h_amount i);
  _ ← add_f64 customer "c_ytd_payment" (p_h_amount i);
  _ ← add_int customer "c_payment_cnt" 4 1;
  c_middle ← get customer "c_middle";
  oe ← lift (FixedString_eq c_middle "OE");
  _ ← lift (rassert oe);
  c_discount ← get_int customer "c_discount";
  _ ← lift (rassert (f64_lt f64_zero c_discount && f64_lt c_discount f64_half));
  w_name ← get warehouse "w_name";
  d_name ← get district "d_name";
  h_data ← lift (FixedString_concat 24 w_name d_name 4);
  let history := history_tuple i h_data in
  c_credit ← get customer "c_credit";
  bc ← lift (FixedString_eq c_credit "BC");
  if (bc : bool) then
    _ ← call (Promote customer c_lock (query customer ["c_data"]));
    data ← get customer "c_data";
    call (Put customer (field customer "c_data")
            (take SHIFT_AMOUNT history ++ take (Z.to_nat C_DATA_SIZE - SHIFT_AMOUNT) data))
  else mret tt.

Definition payment (i : PaymentInput) : txn unit :=
  w_lock ← try_lock (WriteOid warehouse (p_w_id i));
  _ ← call (Promote warehouse w_lock w_fields);
  _ ← touch warehouse (fields w_fields);
  _ ← add_f64 warehouse "w_ytd" (p_h_amount i);
  d_key ← lift (District_make_key (p_w_id i) (p_d_id i));
  d_lock ← try_lock (WriteOid district d_key);
  _ ← call (Promote district d_lock d_fields);
  _ ← add_f64 district "d_ytd" (p_h_amount i);
  _ ← touch district (fields d_fields);
  c_lock ← find_customer (p_c_w_id i) (p_c_d_id i) (p_c_query i);
  match c_lock with
  | None => mret tt
  | Some c_lock => pay_customer i c_lock
  end.

(** ** New order *)
Record OrderItem := mkOrderItem { oi_i_id : Z; oi_supply_w_id : Z; oi_quantity : Z }.

Record NewOrderInput := mkNewOrder {
  n_w_id : Z; n_d_id : Z; n_c_id : Z;
  n_ol_cnt : nat;
  n_orders : list OrderItem;
  n_o_entry_d : Z;
  n_all_local : bool;
}.

(** The lock loop of phase 1. *)
Fixpoint lock_items (orders : list OrderItem) : txn (list (Rid * Rid)) :=
  match orders with
  | [] => mret []
  | cur_order :: orders =>
      i_key ← lift (Item_make_key (oi_i_id cur_order));
      i_lock ← lock_or_abort (ReadOid item i_key);
      s_key ← lift (Stock_make_key (oi_supply_w_id cur_order) (oi_i_id cur_order));
      s_lock ← try_lock (WriteOid stock s_key);
      locks ← lock_items orders;
      mret ((i_lock, s_lock) :: locks)
  end.

(** Phase 1. *)
Definition new_order_locks (i : NewOrderInput) : txn (list (Rid * Rid)) :=
  w_lock ← try_lock (WriteOid warehouse (n_w_id i));
  _ ← call (Promote warehouse w_lock (query warehouse ["w_tax"]));
  d_key ← lift (District_make_key (n_w_id i) (n_d_id i));
  d_lock ← try_lock (WriteOid district d_key);
  _ ← call (Promote district d_lock (query district ["d_tax"; "d_next_o_id"]));
  c_key ← lift (Customer_make_key (n_w_id i) (n_d_id i) (n_c_id i));
  c_lock ← try_lock (WriteOid customer c_key);
  _ ← call (Promote customer c_lock (query customer ["c_discount"; "c_last"; "c_credit"]));
  lock_items (take (n_ol_cnt i) (n_orders i)).

(** [x as isize] and its checked addition. *)
Definition isize (x : Z) : Z := if x <? 2 ^ 63 then x else x - 2 ^ 64.

Definition isize_add (x y : Z) : outcome Z :=
  if (- 2 ^ 63 <=? x + y) && (x + y <? 2 ^ 63) then Ret (x + y) else Panic.

Definition next_quantity (s_quantity ol_quantity : Z) : outcome Z :=
  rest ← chk 64 (s_quantity - ol_quantity);
  if 10 <=? isize rest then Ret rest
  else
    refilled ← isize_add (isize rest) 91;
    Ret (wrap 64 refilled).

Definition s_query : FieldsMeta := query stock
  ["s_dist10"; "s_quantity"; "s_ytd"; "s_order_cnt"; "s_remote_cnt"; "s_data"].
Definition i_query : FieldsMeta := query item ["i_price"; "i_name"; "i_data"].

Definition order_line_tuple (i : NewOrderInput) (o_id : Z) (n : nat) (cur_order : OrderItem)
    (ol_amount : Z) (s_dist_info : obj) : obj :=
  tuple OrderLineTuple [
    ("ol_o_id", word o_id);
    ("ol_d_id", word (n_d_id i));
    ("ol_w_id", word (n_w_id i));
    ("ol_i_id", word (oi_i_id cur_order));
    ("ol_supply_w_id", word (oi_supply_w_id cur_order));
    ("ol_number", word (Z.of_nat n));
    ("ol_quantity", word (oi_quantity cur_order));
    ("ol_delivery_d", word CARRIER_NULL);
    ("ol_amount", word ol_amount);
    ("ol_dist_info", s_dist_info)].

(** The body of the order-line loop, with the locks of its line. *)
Definition order_line_body (i : NewOrderInput) (o_id : Z) (n : nat) (cur_order : OrderItem)
    (i_lock s_lock : Rid) : txn unit :=
  _ ← call (Read item i_lock i_query);
  i_price ← get_int item "i_price";
  _ ← touch item (fields i_query);
  _ ← call (Promote stock s_lock s_query);
  s_quantity ← get_int stock "s_quantity";
  next ← lift (next_quantity s_quantity (oi_quantity cur_order));
  _ ← put_int stock "s_quantity" 8 next;
  _ ← add_int stock "s_ytd" 8 (oi_quantity cur_order);
  _ ← add_int stock "s_order_cnt" 8 1;
  _ ← (if oi_supply_w_id cur_order =? n_w_id i then mret tt else add_int stock "s_remote_cnt" 8 1);
  let ol_amount := f64_mul (f64_of_int (oi_quantity cur_order)) i_price in
  s_dist_info ← get stock "s_dist10";
  ol ← call (Insert order_line (order_line_tuple i o_id n cur_order ol_amount s_dist_info));
  _ ← call (Drop_ order_line ol true);
  _ ← call (Drop_ stock s_lock true);
  call (Drop_ item i_lock false).

(** [for n in 0..ol_cnt], from [n] on, [todo] iterations. *)
Fixpoint order_lines (i : NewOrderInput) (o_id : Z) (locks : list (Rid * Rid)) (n todo : nat) : txn unit :=
  match todo with
  | O => mret tt
  | S todo =>
      cur_order ← lift (index (n_orders i) (Z.of_nat n));
      lock ← lift (index locks (Z.of_nat n));
      _ ← order_line_body i o_id n cur_order lock.1 lock.2;
      order_lines i o_id locks (S n) todo
  end.

Definition order_tuple (i : NewOrderInput) (o_id : Z) : obj :=
  tuple OrderTuple [
    ("o_id", word o_id);
    ("o_c_id", word (n_c_id i));
    ("o_d_id", word (n_d_id i));
    ("o_carrier_id", word CARRIER_NULL);
    ("o_entry_d", word (n_o_entry_d i));
    ("o_w_id", word (n_w_id i));
    ("o_ol_cnt", word (Z.of_nat (n_ol_cnt i)));
    ("o_all_local", word (if n_all_local i then 1 else 0))].

(** Phase 2. *)
Definition new_order_update (i : NewOrderInput) (locks : list (Rid * Rid)) : txn unit :=
  _ ← touch warehouse (fields (query warehouse ["w_tax"]));
  _ ← touch district (fields (query district ["d_tax"; "d_next_o_id"]));
  _ ← touch customer (fields (query customer ["c_discount"; "c_last"; "c_credit"]));
  d_next_o_id ← get_int district "d_next_o_id";
  next ← lift (chk 64 (d_next_o_id + 1));
  _ ← put_int district "d_next_o_id" 8 next;
  no_key ← lift (NewOrder_make_key (n_w_id i) (n_d_id i) d_next_o_id (n_c_id i));
  _ ← call (IdxInsert new_order_idx no_key no_key);
  o ← call (Insert order (order_tuple i d_next_o_id));
  _ ← call (Drop_ order o true);
  order_lines i d_next_o_id locks 0 (n_ol_cnt i).

Definition new_order (i : NewOrderInput) : txn unit :=
  locks ← new_order_locks i;
  new_order_update i locks.

(** ** Delivery *)
Record DeliveryInput := mkDelivery { l_w_id : Z; l_carrier_id : Z }.

Definition o_fields : FieldsMeta := query order ["o_c_id"; "o_carrier_id"].
Definition ol_fields : FieldsMeta := query order_line ["ol_delivery_d"; "ol_amount"].

(** The loop over the order lines: the sum of their amounts. *)
Fixpoint deliver_lines (delivery_time : Z) (rids : list Rid) (sum : Z) : txn Z :=
  match rids with
  | [] => mret sum
  | r :: rids =>
      ol_lock ← try_lock (LockRidW order_line r);
      _ ← call (Promote order_line ol_lock ol_fields);
      _ ← put_int order_line "ol_delivery_d" 8 delivery_time;
      ol_amount ← get_int order_line "ol_amount";
      _ ← call (Drop_ order_line ol_lock true);
      deliver_lines delivery_time rids (f64_add sum ol_amount)
  end.

(** One district, whose oldest new order is [key]. *)
Definition deliver (i : DeliveryInput) (delivery_time d_id key : Z) : txn unit :=
  _ ← call (IdxRemove new_order_idx key);
  let '(o_id, c_id) := o_c_id_from_key key in
  order_key ← lift (Order_make_key (l_w_id i) d_id c_id o_id);
  o_lock ← try_lock (WriteOid order order_key);
  _ ← call (Read order o_lock o_fields);
  _ ← put_int order "o_carrier_id" 8 (l_carrier_id i);
  o_c_id ← get_int order "o_c_id";
  _ ← lift (rassert (o_c_id =? c_id));
  ol_low ← lift (OrderLine_make_key (l_w_id i) d_id o_id 0);
  ol_high ← lift (OrderLine_make_key (l_w_id i) d_id o_id ITEM_SCALE);
  rids ← call (Range order_line ol_low ol_high 20);
  ol_amount_sum ← deliver_lines delivery_time rids f64_zero;
  c_key ← lift (Customer_make_key (l_w_id i) d_id o_c_id);
  c_lock ← try_lock (WriteOid customer c_key);
  _ ← call (Promote customer c_lock (query customer ["c_balance"; "c_delivery_cnt"]));
  _ ← add_f64 customer "c_balance" ol_amount_sum;
  _ ← add_int customer "c_delivery_cnt" 4 1;
  _ ← call (Drop_ customer c_lock true);
  call (Drop_ order o_lock true).

Fixpoint deliver_districts (i : DeliveryInput) (delivery_time : Z) (d_ids : list Z) : txn unit :=
  match d_ids with
  | [] => mret tt
  | d_id :: d_ids =>
      low ← lift (NewOrder_make_key (l_w_id i) d_id 0 0);
      high ← lift (NewOrder_make_key (l_w_id i) d_id u16_MAX u16_MAX);
      out_buffer ← call (IdxRange new_order_idx low high 1);
      match out_buffer with
      | [] => mret tt
      | e :: _ =>
          _ ← deliver i delivery_time d_id e.1;
          deliver_districts i delivery_time d_ids
      end
  end.

Definition delivery (i : DeliveryInput) (delivery_time : Z) : txn unit :=
  deliver_districts i delivery_time (seqZ 0 DISTRICT_SCALE).

(** ** Order status *)
Record OrderStatusInput := mkOrderStatus { os_w_id : Z; os_d_id : Z; os_c_query : CustomerQuery }.

Definition os_ol_fields : FieldsMeta := query order_line
  ["ol_i_id"; "ol_supply_w_id"; "ol_quantity"; "ol_amount"; "ol_delivery_d"].

Fixpoint read_lines (rids : list Rid) : txn unit :=
  match rids with
  | [] => mret tt
  | r :: rids =>
      o_lock ← try_lock (LockRidR order_line r);
      _ ← call (Read order_line o_lock os_ol_fields);
      _ ← touch order_line (fields os_ol_fields);
      _ ← call (Drop_ order_line o_lock false);
      read_lines rids
  end.

Definition os_c_fields : FieldsMeta := query customer ["c_id"; "c_balance"; "c_first"; "c_middle"; "c_last"].
Definition os_o_fields : FieldsMeta := query order ["o_id"; "o_entry_d"; "o_carrier_id"].

(** The orders of the customer, under the lock [c_lock]. *)
Definition read_orders (i : OrderStatusInput) (c_lock : Rid) : txn unit :=
  _ ← call (Promote customer c_lock os_c_fields);
  _ ← touch customer (fields os_c_fields);
  c_id ← get_int customer "c_id";
  order_low ← lift (Order_make_key (os_w_id i) (os_d_id i) c_id 0);
  order_high ← lift (Order_make_key (os_w_id i) (os_d_id i) c_id u16_MAX);
  rid_buffer ← call (Range order order_low order_high 12);
  last ← lift (chk 64 (Z.of_nat (length rid_buffer) - 1));
  most_recent ← lift (index rid_buffer last);
  o_lock ← try_lock (LockRidR order most_recent);
  _ ← call (Read order o_lock os_o_fields);
  _ ← touch order (fields os_o_fields);
  o_id ← get_int order "o_id";
  ol_low ← lift (OrderLine_make_key (os_w_id i) (os_d_id i) o_id 0);
  ol_high ← lift (OrderLine_make_key (os_w_id i) (os_d_id i) o_id u16_MAX);
  rids ← call (Range order_line ol_low ol_high 12);
  read_lines rids.

Definition order_status (i : OrderStatusInput) : txn unit :=
  c_lock ← find_customer (os_w_id i) (os_d_id i) (os_c_query i);
  match c_lock with
  | None => mret tt
  | Some c_lock => read_orders i c_lock
  end.

(** ** Stock level *)
Record StockLevelInput := mkStockLevel { sl_w_id : Z; sl_d_id : Z; sl_threshold : Z }.

Definition sl_ol_fields : FieldsMeta := query order_line ["ol_d_id"; "ol_o_id"; "ol_i_id"].
Definition stock_fields : FieldsMeta := query stock ["s_w_id"; "s_i_id"].

(** The loop over the order lines: how many have a stock below the threshold. *)
Fixpoint count_low (i : StockLevelInput) (rids : list Rid) (result_cnt : Z) : txn Z :=
  match rids with
  | [] => mret result_cnt
  | r :: rids =>
      ol_lock ← try_lock (LockRidR order_line r);
      _ ← call (Read order_line ol_lock sl_ol_fields);
      ol_i_id ← get_int order_line "ol_i_id";
      s_key ← lift (Stock_make_key (sl_w_id i) ol_i_id);
      s_lock ← try_lock (ReadOid stock s_key);
      _ ← call (Read stock s_lock stock_fields);
      s_quantity ← get_int stock "s_quantity";
      _ ← call (Drop_ stock s_lock false);
      _ ← call (Drop_ order_line ol_lock false);
      count_low i rids (if s_quantity <? sl_threshold i then result_cnt + 1 else result_cnt)
  end.

Definition stock_level (i : StockLevelInput) : txn unit :=
  d_key ← lift (District_make_key (sl_w_id i) (sl_d_id i));
  d_lock ← try_lock (ReadOid district d_key);
  _ ← call (Read district d_lock (query district ["d_id"; "d_next_o_id"]));
  d_next_o_id ← get_int district "d_next_o_id";
  _ ← lift (rassert (20 <=? d_next_o_id));
  oldest ← lift (chk 64 (d_next_o_id - 20));
  ol_low ← lift (OrderLine_make_key (sl_w_id i) (sl_d_id i) (Z.min 0 oldest) 0);
  ol_high ← lift (OrderLine_make_key (sl_w_id i) (sl_d_id i) d_next_o_id u16_MAX);
  ol_rids ← call (Range order_line ol_low ol_high 128);
  _ ← count_low i ol_rids 0;
  mret tt.

(** ** The schemas a benchmark run may choose

    Every table has its own tuple and key; its schema meets the cache's laws
    for the columns the transactions read and write. *)
Class TpccSchemas (S : tbl -> Schema) := {
  ts_size : forall t, @tuple_size (S t) = Z.to_nat (size_of (tuple_of t));
  ts_key : forall t x, @key (S t) x = key_of t x;
  ts_laws : forall t, SchemaLaws (S t) (tpcc_columns t) (tpcc_written t);
  ts_quantity : @covers (S stock) stock_fields (field stock "s_quantity");
}.

(** Whole tuples cached, and the smallest cached structs. *)
Definition tuple_schemas (t : tbl) : Schema :=
  match t with
  | warehouse => Schema_WarehouseTuple
  | district => Schema_DistrictTuple
  | customer => Schema_CustomerTuple
  | item => Schema_ItemTuple
  | stock => Schema_StockTuple
  | order => Schema_OrderTuple
  | order_line => Schema_OrderLineTuple
  end.

Definition cached_schemas (t : tbl) : Schema :=
  match t with
  | warehouse => Schema_WarehouseCached
  | district => Schema_DistrictCached
  | customer => Schema_CustomerCachedWrite
  | item => Schema_ItemCached
  | stock => Schema_StockCached
  | order => Schema_OrderCached
  | order_line => Schema_OrderLineCached
  end.

#[export] Instance tuple_schemas_ok : TpccSchemas tuple_schemas.
Proof.
  split; [by intros []|by intros []|intros []; whole_check|].
  intros _. by eexists.
Qed.

#[export] Instance cached_schemas_ok : TpccSchemas cached_schemas.
Proof.
  split; [by intros []|by intros []|intros []; copy_check|].
  intros _. vm_compute. by eexists.
Qed.
