(* ===== verification/TpccLoad.v ===== *)
(** * Loading the TPC-C database (src/benchmark/src/tpcc/workload.rs)

    [TpccWorkload::load] as a program over the benchmark's tables: 32 threads
    load the warehouses with all that belongs to them, then the items are
    loaded.  What the random generators and the clock supply is in [Draws], one
    record of draws for each tuple.  Setting up a thread's clock hands
    ([thread_init]) is not among the calls of the guarded tables; [TxnReset] and
    [TpccNew] model it between programs. *)

From Stdlib Require Import QArith.
From S2P Require Import Prelude Query Schema Layout External Table Guarded Txn LoadLog Float64 TpccTables TpccSchemas TpccUtils TpccTxn.
Open Scope string_scope.
Open Scope Z_scope.

(** ** What is drawn *)

(** [FixedString::<N>::rand_gen]: [sample] is the byte drawn for each place. *)
Definition rand_gen (N : nat) (sample : nat -> Z) : obj := map sample (seq 0 N).

(** The strings of a tuple, by column. *)
Abbreviation strings := (string -> nat -> Z) (only parsing).

(** A warehouse or a district. *)
Record PlaceDraw := mkPlaceDraw { pl_str : strings; pl_zip : Z; pl_tax : Z }.

Record CustomerDraw := mkCustomerDraw {
  cu_seed : Z;            (** of the first thousand *)
  cu_r1 : Z; cu_r2 : Z;   (** of [nu_rand], for the others *)
  cu_bad : bool;
  cu_str : strings; cu_zip : Z; cu_discount : Z;
}.

Record OrderDraw := mkOrderDraw {
  od_carrier : Z; od_ol_cnt : Z; od_start : Z;
  od_amount : Z -> Z; od_str : Z -> nat -> Z;   (** by line *)
}.

Record StockDraw := mkStockDraw { sk_original : option Z; sk_quantity : Z; sk_str : strings }.

Record ItemDraw := mkItemDraw { it_im_id : Z; it_price : Z; it_original : option Z; it_str : strings }.

Record Draws := mkDraws {
  dr_c255 : Z;                         (** the constant of [nu_rand] of this process *)
  dr_warehouse : Z -> PlaceDraw;
  dr_district : Z -> Z -> PlaceDraw;
  dr_time : Z -> Z -> Z;
  dr_customer : Z -> Z -> Z -> CustomerDraw;
  dr_shuffle : Z -> Z -> list Z;       (** the customers in the order drawn *)
  dr_order : Z -> Z -> Z -> OrderDraw;
  dr_stock : Z -> Z -> StockDraw;
  dr_item : Z -> ItemDraw;
}.

(** ** Warehouses and districts *)
Definition load_warehouse_tuple (dr : PlaceDraw) (w_id : Z) : outcome obj :=
  w_zip ← zip_gen (pl_zip dr);
  Ret (tuple WarehouseTuple [
    ("w_id", word w_id);
    ("w_name", rand_gen 10 (pl_str dr "w_name"));
    ("w_street1", rand_gen 20 (pl_str dr "w_street1"));
    ("w_street2", rand_gen 20 (pl_str dr "w_street2"));
    ("w_city", rand_gen 20 (pl_str dr "w_city"));
    ("w_state", rand_gen 2 (pl_str dr "w_state"));
    ("w_tax", word (pl_tax dr));
    ("w_ytd", word (f64_of_int 300000));
    ("w_zip", word w_zip)]).

Definition load_district_tuple (dr : PlaceDraw) (w_id d_id : Z) : outcome obj :=
  d_zip ← zip_gen (pl_zip dr);
  Ret (tuple DistrictTuple [
    ("d_id", word d_id);
    ("d_w_id", word w_id);
    ("d_name", rand_gen 10 (pl_str dr "d_name"));
    ("d_street1", rand_gen 20 (pl_str dr "d_street1"));
    ("d_street2", rand_gen 20 (pl_str dr "d_street2"));
    ("d_city", rand_gen 20 (pl_str dr "d_city"));
    ("d_state", rand_gen 2 (pl_str dr "d_state"));
    ("d_zip", word d_zip);
    ("d_tax", word (pl_tax dr));
    ("d_next_o_id", word 3001);
    ("d_ytd", word (f64_of_int 30000))]).

(** ** Customers *)
Definition customer_seed (c255 : Z) (dr : CustomerDraw) (c_id : Z) : outcome Z :=
  if c_id <? 1000 then gen_range 0 999 (cu_seed dr)
  else
    '(seed, _) ← nu_rand 255 0 999 c255 (cu_r1 dr) (cu_r2 dr) (mkCells (Some c255) None None);
    Ret seed.

(** -10.0 *)
Definition f64_minus_ten : Z := 0xc024000000000000.

Definition load_customer_tuple (dr : CustomerDraw) (seed w_id d_id c_id customer_since : Z) : outcome obj :=
  credit ← (if cu_bad dr then FixedString_from_str 2 "BC" else FixedString_from_str 2 "GC");
  c_last ← last_name_gen (wrap 32 seed);
  c_middle ← FixedString_from_str 2 "OE";
  c_zip ← zip_gen (cu_zip dr);
  Ret (tuple CustomerTuple [
    ("c_id", word c_id);
    ("c_d_id", word d_id);
    ("c_w_id", word w_id);
    ("c_last", c_last);
    ("c_middle", c_middle);
    ("c_first", rand_gen 20 (cu_str dr "c_first"));
    ("c_street1", rand_gen 20 (cu_str dr "c_street1"));
    ("c_street2", rand_gen 20 (cu_str dr "c_street2"));
    ("c_city", rand_gen 20 (cu_str dr "c_city"));
    ("c_state", rand_gen 2 (cu_str dr "c_state"));
    ("c_zip", word c_zip);
    ("c_phone", rand_gen 16 (cu_str dr "c_phone"));
    ("c_since", word customer_since);
    ("c_credit", credit);
    ("c_credit_lim", word (f64_of_int 50000));
    ("c_discount", word (cu_discount dr));
    ("c_balance", word f64_minus_ten);
    ("c_ytd_payment", word (f64_of_int 10));
    ("c_payment_cnt", le_bytes 4 1);
    ("c_delivery_cnt", le_bytes 4 0);
    ("c_data", rand_gen (Z.to_nat C_DATA_SIZE) (cu_str dr "c_data"))]).

Definition load_one_customer (c255 : Z) (dr : CustomerDraw) (c_id d_id w_id customer_since : Z) : txn unit :=
  seed ← lift (customer_seed c255 dr c_id);
  row ← lift (load_customer_tuple dr seed w_id d_id c_id customer_since);
  last_key ← lift (idx_key_lastname (wrap 16 w_id) (wrap 16 d_id) (wrap 16 seed) (wrap 16 c_id));
  with_record customer row (fun c_rid => call (IdxInsert c_last_idx last_key c_rid)).

(** ** Orders *)
Definition load_order_tuple (dr : OrderDraw) (w_id d_id current_time o_id o_c_id : Z) : obj :=
  tuple OrderTuple [
    ("o_id", word o_id);
    ("o_c_id", word o_c_id);
    ("o_w_id", word w_id);
    ("o_d_id", word d_id);
    ("o_ol_cnt", word (od_ol_cnt dr));
    ("o_entry_d", word current_time);
    ("o_carrier_id", word (if o_id <? 2101 then od_carrier dr else 0));
    ("o_all_local", word 1)].

Definition load_line_tuple (dr : OrderDraw) (w_id d_id current_time o_id ol ol_i_id : Z) : obj :=
  tuple OrderLineTuple [
    ("ol_o_id", word o_id);
    ("ol_d_id", word d_id);
    ("ol_w_id", word w_id);
    ("ol_number", word (od_ol_cnt dr));
    ("ol_i_id", word ol_i_id);
    ("ol_supply_w_id", word w_id);
    ("ol_delivery_d", word (if o_id <? 2101 then current_time else 0));
    ("ol_quantity", word 5);
    ("ol_amount", word (if o_id <? 2101 then f64_zero else od_amount dr ol));
    ("ol_dist_info", rand_gen 24 (od_str dr ol))].

Definition load_lines (dr : OrderDraw) (w_id d_id current_time o_id : Z) : txn unit :=
  items ← lift (chk 64 (ITEM_SCALE - od_ol_cnt dr));
  i_start ← lift (gen_range 0 (items - 1) (od_start dr));
  for_range (Z.to_nat (od_ol_cnt dr)) 0 (fun ol =>
    ol_i_id ← lift (chk 64 (i_start + ol));
    with_record order_line (load_line_tuple dr w_id d_id current_time o_id ol ol_i_id) (fun _ => mret tt)).

(** The body of the loop over the shuffled customers. *)
Definition load_one_order (dr : OrderDraw) (w_id d_id current_time o_id o_c_id : Z) : txn unit :=
  with_record order (load_order_tuple dr w_id d_id current_time o_id o_c_id) (fun _ =>
    _ ← load_lines dr w_id d_id current_time o_id;
    if 2101 <=? o_id then
      key ← lift (NewOrder_make_key w_id d_id o_id o_c_id);
      call (IdxInsert new_order_idx key key)
    else mret tt).

(** [for (o, o_c_id) in o_c_ids.iter().enumerate()], from [o] on. *)
Fixpoint load_orders (D : Draws) (w_id d_id current_time o : Z) (o_c_ids : list Z) : txn unit :=
  match o_c_ids with
  | [] => mret tt
  | o_c_id :: o_c_ids =>
      _ ← load_one_order (dr_order D w_id d_id o) w_id d_id current_time o o_c_id;
      load_orders D w_id d_id current_time (o + 1) o_c_ids
  end.

Definition load_order (D : Draws) (w_id d_id current_time : Z) : txn unit :=
  load_orders D w_id d_id current_time 0 (dr_shuffle D w_id d_id).

(** ** Stock and items *)

(** A data string, with "ORIGINAL" in some. *)
Definition original_data (N : nat) (sample : nat -> Z) (original : option Z) : outcome obj :=
  match original with
  | Some draw =>
      start ← gen_range 0 41 draw;
      copy_from (rand_gen N sample) "ORIGINAL" start
  | None => Ret (rand_gen N sample)
  end.

Definition load_stock_tuple (dr : StockDraw) (w_id s_i_id : Z) : outcome obj :=
  s_data ← original_data 24 (sk_str dr "s_data") (sk_original dr);
  s_quantity ← gen_range 10 100 (sk_quantity dr);
  Ret (tuple StockTuple [
    ("s_i_id", word s_i_id);
    ("s_w_id", word w_id);
    ("s_quantity", word s_quantity);
    ("s_dist01", rand_gen 24 (sk_str dr "s_dist01"));
    ("s_dist02", rand_gen 24 (sk_str dr "s_dist02"));
    ("s_dist03", rand_gen 24 (sk_str dr "s_dist03"));
    ("s_dist04", rand_gen 24 (sk_str dr "s_dist04"));
    ("s_dist05", rand_gen 24 (sk_str dr "s_dist05"));
    ("s_dist06", rand_gen 24 (sk_str dr "s_dist06"));
    ("s_dist07", rand_gen 24 (sk_str dr "s_dist07"));
    ("s_dist08", rand_gen 24 (sk_str dr "s_dist08"));
    ("s_dist09", rand_gen 24 (sk_str dr "s_dist09"));
    ("s_dist10", rand_gen 24 (sk_str dr "s_dist10"));
    ("s_ytd", word 0);
    ("s_order_cnt", word 0);
    ("s_remote_cnt", word 0);
    ("s_data", s_data)]).

Definition load_stock (D : Draws) (w_id : Z) : txn unit :=
  for_range (Z.to_nat ITEM_SCALE) 0 (fun s_i_id =>
    row ← lift (load_stock_tuple (dr_stock D w_id s_i_id) w_id s_i_id);
    with_record stock row (fun _ => mret tt)).

Definition load_item_tuple (dr : ItemDraw) (i_id : Z) : outcome obj :=
  i_im_id ← gen_range 1 10000 (it_im_id dr);
  i_data ← original_data 50 (it_str dr "i_data") (it_original dr);
  Ret (tuple ItemTuple [
    ("i_id", word i_id);
    ("i_im_id", word i_im_id);
    ("i_name", rand_gen 24 (it_str dr "i_name"));
    ("i_price", word (it_price dr));
    ("i_data", i_data)]).

Definition load_item (D : Draws) : txn unit :=
  for_range (Z.to_nat ITEM_SCALE) 0 (fun i_id =>
    row ← lift (load_item_tuple (dr_item D i_id) i_id);
    with_record item row (fun _ => mret tt)).

(** ** The threads *)

(** The body of the loop over the districts of a warehouse. *)
Definition load_district (D : Draws) (w_id d_id : Z) : txn unit :=
  row ← lift (load_district_tuple (dr_district D w_id d_id) w_id d_id);
  with_record district row (fun _ =>
    let current_time := dr_time D w_id d_id in
    _ ← for_range (Z.to_nat CUSTOMER_SCALE) 0 (fun c_id =>
          load_one_customer (dr_c255 D) (dr_customer D w_id d_id c_id) c_id d_id w_id current_time);
    load_order D w_id d_id current_time).

(** The body of the loop over the warehouses of a thread. *)
Definition load_warehouse (D : Draws) (w_id : Z) : txn unit :=
  row ← lift (load_warehouse_tuple (dr_warehouse D w_id) w_id);
  with_record warehouse row (fun _ =>
    _ ← for_range (Z.to_nat DISTRICT_SCALE) 0 (load_district D w_id);
    load_stock D w_id).

Definition load_thread (D : Draws) (warehouse_per_thread tid : Z) : txn unit :=
  first ← lift (chk 32 (warehouse_per_thread * tid));
  last ← lift (chk 32 (warehouse_per_thread * (tid + 1)));
  for_range (Z.to_nat (last - first)) first (load_warehouse D).

(** [sched] is the order in which the threads' calls happen. *)
Definition load (D : Draws) (sched : list nat) (warehouse_cnt : Z) : txn unit :=
  let warehouse_per_thread := warehouse_cnt / 32 in
  _ ← lift (rassert (warehouse_cnt mod 32 =? 0));
  _ ← interleave sched (load_thread D warehouse_per_thread <$> seqZ 0 32);
  load_item D.

(** *** The draws are in their ranges *)
Definition original_ok (o : option Z) : Prop := forall start, o = Some start -> 0 <= start < 42.

Definition customer_draw_ok (dr : CustomerDraw) : Prop :=
  0 <= cu_seed dr <= 999 /\ 0 <= cu_r1 dr <= 255 /\ 0 <= cu_r2 dr <= 999 /\ 0 <= cu_zip dr <= 9999 /\
  fits 64 (cu_discount dr) /\
  f64_lt (cu_discount dr) f64_zero = false /\ f64_lt f64_half (cu_discount dr) = false.

Definition order_draw_ok (dr : OrderDraw) : Prop :=
  1 <= od_carrier dr <= 10 /\ 5 <= od_ol_cnt dr <= 15 /\ 0 <= od_start dr < ITEM_SCALE - od_ol_cnt dr.

Record draws_ok (D : Draws) : Prop := mkDrawsOk {
  ok_c255 : 0 <= dr_c255 D <= 255;
  ok_warehouse w : 0 <= pl_zip (dr_warehouse D w) <= 9999;
  ok_district w d : 0 <= pl_zip (dr_district D w d) <= 9999;
  ok_time w d : fits 64 (dr_time D w d);
  ok_customer w d c : customer_draw_ok (dr_customer D w d c);
  ok_shuffle w d : dr_shuffle D w d ≡ₚ seqZ 0 CUSTOMER_SCALE;
  ok_order w d o : order_draw_ok (dr_order D w d o);
  ok_stock w i : original_ok (sk_original (dr_stock D w i)) /\ 10 <= sk_quantity (dr_stock D w i) <= 100;
  ok_item i : original_ok (it_original (dr_item D i)) /\ 1 <= it_im_id (dr_item D i) <= 10000;
}.

(** A place of 16 or more does not fit the 24 bytes of a stock's data, though
    0 to 41 are drawn for it: 41 fits the 50 bytes of an item's. *)
Example original_fits :
  load_stock_tuple (mkStockDraw (Some 16) 50 (fun _ _ => 68)) 0 0 = Panic /\
  match original_data 24 (fun _ => 68) (Some 15), original_data 50 (fun _ => 68) (Some 41) with
  | Ret s, Ret i => take 9 s = (as_bytes "ORIGINAL" ++ [68])%list /\ take 9 i = (as_bytes "ORIGINAL" ++ [68])%list
  | _, _ => False
  end.
Proof. vm_compute. repeat split. Qed.
