(* ===== verification/TpccView.v ===== *)
(** * TPC-C transactions on plain maps

    The rules of TxnView.v for the accesses the transactions are made of, and
    the arithmetic of columns. *)

From Stdlib Require Import QArith.
From S2P Require Import Prelude Query Schema Layout External Table Guarded Txn TxnView TpccTables TpccSchemas TpccTxn.
Open Scope string_scope.
Open Scope Z_scope.

(** ** Columns of tuples *)

(** The field is in the query, and may be read; and be written with [n] bytes. *)
Definition reads (t : tbl) (q : FieldsMeta) (name : string) : bool :=
  bool_decide (field t name ∈ fields q) && bool_decide (field t name ∈ tpcc_columns t).

Definition writes (t : tbl) (q : FieldsMeta) (name : string) (n : nat) : bool :=
  reads t q name && bool_decide (field t name ∈ tpcc_written t) &&
  bool_decide (n = Z.to_nat (Field_len (field t name))).

Lemma reads_ok t q name :
  reads t q name = true -> field t name ∈ fields q /\ field t name ∈ tpcc_columns t.
Proof. unfold reads. rewrite andb_true_iff, !bool_decide_eq_true. done. Qed.

Lemma writes_ok t q name n :
  writes t q name n = true ->
  field t name ∈ fields q /\ field t name ∈ tpcc_written t /\ n = Z.to_nat (Field_len (field t name)).
Proof.
  unfold writes. rewrite !andb_true_iff, !bool_decide_eq_true. intros [[H ?] ?].
  by apply reads_ok in H as [? _].
Qed.

Definition size_of_table (t : tbl) : nat := Z.to_nat (size_of (tuple_of t)).

Lemma tpcc_columns_in t f : f ∈ tpcc_columns t -> in_object f (size_of_table t).
Proof.
  assert (H : forallb (fun f => in_objectb f (size_of (tuple_of t))) (tpcc_columns t) = true)
    by (by destruct t; vm_compute).
  intros Hf. apply in_objectb_ok. by apply (forallb_elem _ _ _ H Hf).
Qed.

(** Stores to a column of a tuple, seen from the columns. *)
Definition put_column (t : tbl) (name : string) (n : nat) (v : Z) (x : obj) : obj :=
  store_field x (field t name) (le_bytes n v).

Definition is_column (t : tbl) (name : string) (n : nat) : bool :=
  bool_decide (field t name ∈ tpcc_columns t) && bool_decide (n = Z.to_nat (Field_len (field t name))).

Lemma is_column_ok t name n :
  is_column t name n = true ->
  in_object (field t name) (size_of_table t) /\ n = Z.to_nat (Field_len (field t name)).
Proof.
  unfold is_column. rewrite andb_true_iff, !bool_decide_eq_true. intros [? ?].
  split; [by apply tpcc_columns_in|done].
Qed.

Lemma length_put_column t name n v x : length (put_column t name n v x) = length x.
Proof. apply length_store_field. Qed.

Lemma column_put_same t name n v x :
  is_column t name n = true -> length x = size_of_table t -> fits (8 * Z.of_nat n) v ->
  column (tuple_of t) name (put_column t name n v x) = v.
Proof.
  intros [Hf Hn]%is_column_ok Hl Hv. unfold column, put_column.
  change (mk_field (tuple_of t) name) with (field t name).
  rewrite (load_store_field_same x (field t name) (size_of_table t)); [|done|done|].
  - by apply le_word_bytes_id.
  - rewrite length_le_bytes. done.
Qed.

Lemma column_put_other t name name' n v x :
  is_column t name n = true -> bool_decide (field t name' ∈ tpcc_columns t) = true ->
  apartb (field t name) (field t name') = true ->
  column (tuple_of t) name' (put_column t name n v x) = column (tuple_of t) name' x.
Proof.
  intros [Hf Hn]%is_column_ok Hf'%bool_decide_eq_true%tpcc_columns_in Ha%apartb_ok. unfold column, put_column.
  change (mk_field (tuple_of t) name') with (field t name').
  rewrite load_store_field_apart; [done|done|apply Hf|apply Hf'|]. by rewrite length_le_bytes.
Qed.

Lemma load_put_other t name name' n v x :
  is_column t name n = true -> bool_decide (field t name' ∈ tpcc_columns t) = true ->
  apartb (field t name) (field t name') = true ->
  load_field (put_column t name n v x) (field t name') = load_field x (field t name').
Proof.
  intros [Hf Hn]%is_column_ok Hf'%bool_decide_eq_true%tpcc_columns_in Ha%apartb_ok. unfold put_column.
  rewrite load_store_field_apart; [done|done|apply Hf|apply Hf'|]. by rewrite length_le_bytes.
Qed.

Lemma length_load_column t name n x :
  is_column t name n = true -> length x = size_of_table t -> length (load_field x (field t name)) = n.
Proof. intros [Hf ->]%is_column_ok Hl. by eapply length_load_field. Qed.

(** A column next to bytes that were stored. *)
Lemma column_bytes_other t name name' bs x :
  is_column t name (length bs) = true -> bool_decide (field t name' ∈ tpcc_columns t) = true ->
  apartb (field t name) (field t name') = true ->
  column (tuple_of t) name' (store_field x (field t name) bs) = column (tuple_of t) name' x.
Proof.
  intros [Hf Hn]%is_column_ok Hf'%bool_decide_eq_true%tpcc_columns_in Ha%apartb_ok. unfold column.
  change (mk_field (tuple_of t) name') with (field t name').
  by rewrite load_store_field_apart; [done|done|apply Hf|apply Hf'|].
Qed.

Ltac tuple_size := rewrite ?length_put_column, ?length_store_field, ?length_replicate; (assumption || reflexivity).

(** Rewrites a column of a changed tuple. *)
Ltac column_side :=
  match goal with
  | |- length _ = size_of_table _ => tuple_size
  | |- fits _ _ => split; [lia|change (2 ^ (8 * Z.of_nat 8)) with (2 ^ 64); lia]
  | Hl : length ?bs = _ |- is_column _ _ (length ?bs) = true => rewrite Hl; vm_compute; reflexivity
  | |- _ = true => vm_compute; reflexivity
  end.

Ltac columns :=
  repeat match goal with
  | |- context [column (tuple_of ?t) ?name' (put_column ?t ?name ?n ?v ?x)] =>
      first [ rewrite (column_put_other t name name' n v x) by column_side
            | constr_eq name name'; rewrite (column_put_same t name n v x) by column_side ]
  | |- context [load_field (put_column ?t ?name ?n ?v ?x) (field ?t ?name')] =>
      rewrite (load_put_other t name name' n v x) by column_side
  | |- context [column (tuple_of ?t) ?name' (store_field ?x (field ?t ?name) ?bs)] =>
      rewrite (column_bytes_other t name name' bs x) by column_side
  end.

(** Tables that are different, or not listed. *)
Ltac other_table :=
  repeat match goal with H : _ ∉ _ :: _ |- _ => apply not_elem_of_cons in H as [? H] end;
  repeat (apply not_elem_of_cons; split); first [by apply not_elem_of_nil | congruence].

(** ** Rules for the accesses *)
Section rules.
Context {Ix : Type} `{DbIndex Ix} `{!RangeIndex Ix}.
Context (S : tbl -> Schema).
Abbreviation view := (view tbl index_name Ix).
Abbreviation vwp := (vwp S tpcc_columns tpcc_written).
Context {A : Type} (Q : option (result A TransactionError) -> view -> Prop).
Implicit Types (v : view) (t : tbl).

(** [t] is accessed through query [q] on record [x], which guard [g] holds. *)
Definition at_record v t (g : Rid) (w : bool) (q : FieldsMeta) (x : obj) : Prop :=
  v_cur v t = Some (g, q) /\ (t, g, w) ∈ v_held v /\ v_tab v t !! g = Some x.

Lemma vwp_get_column t name g w q x (k : obj -> prog tbl index_name A) v :
  at_record v t g w q x -> reads t q name = true ->
  vwp (k (load_field x (field t name))) v Q -> vwp (get t name ≫= k) v Q.
Proof.
  intros (Hc & Hin & Hx) [Hf1 Hf2]%reads_ok Hk.
  eapply vwp_get; [done|done|done|by apply covers_query|done|done].
Qed.

Lemma vwp_get_int t name g w q x (k : Z -> prog tbl index_name A) v :
  at_record v t g w q x -> reads t q name = true ->
  vwp (k (column (tuple_of t) name x)) v Q -> vwp (get_int t name ≫= k) v Q.
Proof. intros Hat Hr Hk. change (vwp (get t name ≫= fun bs => k (le_word bs)) v Q). by eapply vwp_get_column. Qed.

(** A view after the record of guard [g] has become [x']. *)
Definition written v t (g : Rid) (x' : obj) v' : Prop :=
  v_tab v' t = <[g := x']> (v_tab v t) /\ (forall t', t' <> t -> v_tab v' t' = v_tab v t') /\
  (forall t', v_index v' t' = v_index v t') /\ (forall j, v_idx v' j = v_idx v j) /\
  (forall t', t' <> t -> v_cur v' t' = v_cur v t') /\ v_held v' = v_held v.

Lemma written_trans t g x1 x2 v v1 v2 :
  written v t g x1 v1 -> written v1 t g x2 v2 -> written v t g x2 v2.
Proof.
  intros (Ht & Ho & Hi & Hj & Hc & Hh) (Ht' & Ho' & Hi' & Hj' & Hc' & Hh').
  split; [by rewrite Ht', Ht, insert_insert_eq|].
  split; [intros; rewrite Ho', Ho by done; done|].
  split; [congruence|]. split; [congruence|].
  split; [intros; rewrite Hc', Hc by done; done|congruence].
Qed.

(** Records of other tables stay at hand. *)
Lemma at_record_written t g x' v v' t' g' w q y :
  written v t g x' v' -> t' <> t -> at_record v t' g' w q y -> at_record v' t' g' w q y.
Proof.
  intros (_ & Ht & _ & _ & Hc & Hh) Hne (H1 & H2 & H3). split; [by rewrite Hc|]. by rewrite Hh, Ht.
Qed.

Lemma at_record_query t cur v t' g' w q y :
  t' <> t -> at_record v t' g' w q y -> at_record (v_query v t cur) t' g' w q y.
Proof. intros Hne (H1 & H2 & H3). split; [simpl; by rewrite upd_ne|done]. Qed.

Lemma at_record_locked t held v t' g' w q y :
  t' <> t -> v_held v ⊆ held -> at_record v t' g' w q y -> at_record (v_locked v t held) t' g' w q y.
Proof. intros Hne Hsub (H1 & H2 & H3). split; [simpl; by rewrite upd_ne|]. split; [by apply Hsub|done]. Qed.

Definition then_written v t g q x' (P : view -> Prop) : Prop :=
  forall v', written v t g x' v' -> at_record v' t g true q x' -> P v'.

Lemma vwp_put_bytes t name bs g q x (k : unit -> prog tbl index_name A) v :
  at_record v t g true q x -> writes t q name (length bs) = true ->
  then_written v t g q (store_field x (field t name) bs) (fun v' => vwp (k tt) v' Q) ->
  vwp (call (Put t (field t name) bs) ≫= k) v Q.
Proof.
  intros (Hc & Hin & Hx) (Hf1 & Hf2 & Hn)%writes_ok Hk.
  eapply vwp_put; [done|done|done|by apply covers_query|done|done|]. apply Hk.
  - split; [apply upd_eq|]. split; [by intros; simpl; rewrite upd_ne|].
    split; [done|]. split; [done|]. split; [by intros; simpl; rewrite upd_ne|done].
  - unfold at_record. simpl. rewrite !upd_eq, lookup_insert_eq. done.
Qed.

Lemma vwp_put_int t name n z g q x (k : unit -> prog tbl index_name A) v :
  at_record v t g true q x -> writes t q name n = true ->
  then_written v t g q (put_column t name n z x) (fun v' => vwp (k tt) v' Q) ->
  vwp (put_int t name n z ≫= k) v Q.
Proof. intros Hat Hw Hk. eapply vwp_put_bytes; [done|by rewrite length_le_bytes|done]. Qed.

Lemma writes_reads t q name n : writes t q name n = true -> reads t q name = true.
Proof. unfold writes. rewrite !andb_true_iff. tauto. Qed.

Lemma vwp_add_int t name n y g q x (k : unit -> prog tbl index_name A) v :
  at_record v t g true q x -> writes t q name n = true ->
  fits (8 * Z.of_nat n) (column (tuple_of t) name x + y) ->
  then_written v t g q (put_column t name n (column (tuple_of t) name x + y) x) (fun v' => vwp (k tt) v' Q) ->
  vwp (add_int t name n y ≫= k) v Q.
Proof.
  intros Hat Hw Hfit Hk.
  change (vwp (get_int t name ≫= fun z => (lift (chk (8 * Z.of_nat n) (z + y)) ≫= put_int t name n) ≫= k) v Q).
  eapply vwp_get_int; [done|by eapply writes_reads|]. rewrite chk_ok by done. by eapply vwp_put_int.
Qed.

Lemma vwp_add_f64 t name y g q x (k : unit -> prog tbl index_name A) v :
  at_record v t g true q x -> writes t q name 8 = true ->
  then_written v t g q (put_column t name 8 (Float64.f64_add (column (tuple_of t) name x) y) x)
    (fun v' => vwp (k tt) v' Q) ->
  vwp (add_f64 t name y ≫= k) v Q.
Proof.
  intros Hat Hw Hk.
  change (vwp (get_int t name ≫= fun z => put_int t name 8 (Float64.f64_add z y) ≫= k) v Q).
  eapply vwp_get_int; [done|by eapply writes_reads|]. by eapply vwp_put_int.
Qed.

Lemma vwp_sub_f64 t name y g q x (k : unit -> prog tbl index_name A) v :
  at_record v t g true q x -> writes t q name 8 = true ->
  then_written v t g q (put_column t name 8 (Float64.f64_sub (column (tuple_of t) name x) y) x)
    (fun v' => vwp (k tt) v' Q) ->
  vwp (sub_f64 t name y ≫= k) v Q.
Proof.
  intros Hat Hw Hk.
  change (vwp (get_int t name ≫= fun z => put_int t name 8 (Float64.f64_sub z y) ≫= k) v Q).
  eapply vwp_get_int; [done|by eapply writes_reads|]. by eapply vwp_put_int.
Qed.

Lemma vwp_touch_fields t fs g w q x (k : unit -> prog tbl index_name A) v :
  at_record v t g w q x -> fs ⊆ fields q -> fs ⊆ tpcc_columns t ->
  vwp (k tt) v Q -> vwp (touch t fs ≫= k) v Q.
Proof.
  intros Hat. pose proof Hat as (Hc & Hin & Hx).
  induction fs as [|f fs IH]; intros Hq Hcols Hk; [done|].
  change (vwp (call (Get t f) ≫= fun _ => touch t fs ≫= k) v Q).
  eapply vwp_get; [done|done|done|apply covers_query; set_solver|set_solver|].
  apply IH; [set_solver..|done].
Qed.

Lemma vwp_touch t q g w x (k : unit -> prog tbl index_name A) v :
  at_record v t g w q x -> forallb (fun f => bool_decide (f ∈ tpcc_columns t)) (fields q) = true ->
  vwp (k tt) v Q -> vwp (touch t (fields q) ≫= k) v Q.
Proof.
  intros Hat Hq. apply (vwp_touch_fields t (fields q) g w q x); [done|done|]. intros f Hf.
  by apply (forallb_elem _ _ _ Hq), bool_decide_eq_true in Hf.
Qed.

(** A locked record is there, and queried at once. *)
Lemma vwp_promote_record t g q x (k : unit -> prog tbl index_name A) v :
  (t, g, true) ∈ v_held v -> v_tab v t !! g = Some x ->
  (at_record (v_query v t (Some (g, q))) t g true q x -> vwp (k tt) (v_query v t (Some (g, q))) Q) ->
  vwp (call (Promote t g q) ≫= k) v Q.
Proof.
  intros Hin Hx Hk. apply vwp_promote; [done|]. apply Hk. split; [apply upd_eq|by split].
Qed.

Lemma vwp_read_record t g w q x (k : unit -> prog tbl index_name A) v :
  (t, g, w) ∈ v_held v -> v_tab v t !! g = Some x ->
  (at_record (v_query v t (Some (g, q))) t g w q x -> vwp (k tt) (v_query v t (Some (g, q))) Q) ->
  vwp (call (Read t g q) ≫= k) v Q.
Proof.
  intros Hin Hx Hk. eapply vwp_read; [done|]. apply Hk. split; [apply upd_eq|by split].
Qed.

(** A lock whose failure to find the record is a user abort. *)
Lemma vwp_read_oid_or_abort t key (k : Rid -> prog tbl index_name A) v :
  (length (v_held v) <= GUARDS)%nat ->
  (forall r x, index_get (v_index v t) key = Some r -> v_tab v t !! r = Some x ->
     vwp (k r) (v_locked v t ((t, r, false) :: v_held v)) Q) ->
  (forall e, Q (Some (Err e)) (v_locked v t (v_held v))) ->
  vwp (lock_or_abort (ReadOid t key) ≫= k) v Q.
Proof. intros Hl Hk He. split; [done|]. intros res v' Hv. by apply (vwp_lock_key _ _ _ _ _ _ _ _ _ _ _ _ user_abort Hv). Qed.

Lemma vwp_lock_w_or_abort t r x (k : Rid -> prog tbl index_name A) v :
  (length (v_held v) <= GUARDS)%nat -> v_tab v t !! r = Some x ->
  vwp (k r) (v_locked v t ((t, r, true) :: v_held v)) Q ->
  (forall e, locked_out WriteLockBusy e -> Q (Some (Err e)) (v_locked v t (v_held v))) ->
  vwp (lock_or_abort (LockRidW t r) ≫= k) v Q.
Proof.
  intros Hl Hx Hk He. split; [by split|]. intros res v' Hv.
  apply (vwp_lock_result _ _ _ _ _ _ _ _ _ _ _ _ user_abort Hv); [done|]. intros e Hle.
  destruct Hle as [->| ->]; apply He; [by left|by right].
Qed.
End rules.
