(* ===== verification/NewOrder.v ===== *)
(** * The new-order transaction

    Phase 1 only takes locks, so a failure leaves no trace; phase 2 cannot
    fail.  A committed transaction is the update of the database that [ordered]
    describes. *)

From Stdlib Require Import QArith.
From S2P Require Import Prelude Query Schema Layout External Table Guarded Txn TxnView Float64 TpccTables TpccSchemas TpccTxn TpccView.
Open Scope string_scope.
Open Scope Z_scope.

(** ** Inputs and the database *)
Definition item_ok (o : OrderItem) : Prop :=
  0 <= oi_i_id o < 2 ^ 20 /\ 0 <= oi_supply_w_id o < 2 ^ 16 /\ 1 <= oi_quantity o <= 10.

Definition input_ok (i : NewOrderInput) : Prop :=
  0 <= n_w_id i < 2 ^ 16 /\ 0 <= n_d_id i < 2 ^ 8 /\ 0 <= n_c_id i < 2 ^ 16 /\
  0 <= n_o_entry_d i < 2 ^ 64 /\ length (n_orders i) = 15%nat /\ (n_ol_cnt i <= 15)%nat /\
  Forall item_ok (take (n_ol_cnt i) (n_orders i)).

(** Quantities of the benchmark: between 10 and 100 pieces of everything in
    stock, counters far from their ends ([slack]: what a running transaction
    may have added). *)
Definition stock_ok (slack : Z) (x : obj) : Prop :=
  length x = size_of_table stock /\
  10 <= column StockTuple "s_quantity" x <= 100 /\
  0 <= column StockTuple "s_ytd" x < 2 ^ 63 + 10 * slack /\
  0 <= column StockTuple "s_order_cnt" x < 2 ^ 63 + 10 * slack /\
  0 <= column StockTuple "s_remote_cnt" x < 2 ^ 63 + 10 * slack.

Definition district_ok (x : obj) : Prop := 0 <= column DistrictTuple "d_next_o_id" x < 2 ^ 16.

(** The update of a stock record by an order line. *)
Definition stock_after (w_id : Z) (o : OrderItem) (x : obj) : obj :=
  let rest := column StockTuple "s_quantity" x - oi_quantity o in
  let x := put_column stock "s_quantity" 8 (if 10 <=? rest then rest else rest + 91) x in
  let x := put_column stock "s_ytd" 8 (column StockTuple "s_ytd" x + oi_quantity o) x in
  let x := put_column stock "s_order_cnt" 8 (column StockTuple "s_order_cnt" x + 1) x in
  if oi_supply_w_id o =? w_id then x
  else put_column stock "s_remote_cnt" 8 (column StockTuple "s_remote_cnt" x + 1) x.

(** [ordered i v v']: how the database changes. *)
Definition ordered {Ix} `{DbIndex Ix} (i : NewOrderInput) (v v' : view tbl index_name Ix) : Prop :=
  exists d x_d o_id ro order_key no_key locks lines,
    (** the district's next order id is taken, *)
    v_tab v district !! d = Some x_d /\ o_id = column DistrictTuple "d_next_o_id" x_d /\
    v_tab v' district = <[d := put_column district "d_next_o_id" 8 (o_id + 1) x_d]> (v_tab v district) /\
    (** the order gets it, and is announced, *)
    NewOrder_make_key (n_w_id i) (n_d_id i) o_id (n_c_id i) = Ret no_key /\
    v_idx v' new_order_idx = index_insert (v_idx v new_order_idx) no_key no_key /\
    Order_make_key (n_w_id i) (n_d_id i) (n_c_id i) o_id = Ret order_key /\
    v_tab v order !! ro = None /\
    v_tab v' order = <[ro := order_tuple i o_id]> (v_tab v order) /\
    v_index v' order = index_insert (v_index v order) order_key ro /\
    (** every line's stock is reduced, *)
    v_tab v' stock = foldl (fun M (l : OrderItem * Rid) => alter (stock_after (n_w_id i) l.1) l.2 M)
                       (v_tab v stock) (zip (take (n_ol_cnt i) (n_orders i)) locks) /\
    Forall2 (fun o s => exists k, Stock_make_key (oi_supply_w_id o) (oi_i_id o) = Ret k /\
               index_get (v_index v stock) k = Some s) (take (n_ol_cnt i) (n_orders i)) locks /\
    (** and recorded, *)
    lines ##ₘ v_tab v order_line /\ v_tab v' order_line = lines ∪ v_tab v order_line /\
    size lines = n_ol_cnt i /\
    (forall r x, lines !! r = Some x -> column OrderLineTuple "ol_o_id" x = o_id /\
       column OrderLineTuple "ol_d_id" x = n_d_id i /\ column OrderLineTuple "ol_w_id" x = n_w_id i) /\
    (** and nothing else happens. *)
    (forall t, t ∉ [district; stock; order; order_line] -> v_tab v' t = v_tab v t) /\
    (forall t, t ∉ [order; order_line] -> v_index v' t = v_index v t) /\
    v_idx v' c_last_idx = v_idx v c_last_idx.

(** ** Phase 1 *)
Section phase1.
Context {Ix : Type} `{DbIndex Ix} `{!RangeIndex Ix}.
Context (S : tbl -> Schema) `{TS : !TpccSchemas S}.
Abbreviation view := (view tbl index_name Ix).
Abbreviation vwp := (vwp S tpcc_columns tpcc_written).
Implicit Types (v : view).

Definition line_locks v (o : OrderItem) (l : Rid * Rid) : Prop :=
  is_Some (v_tab v item !! l.1) /\ is_Some (v_tab v stock !! l.2) /\
  exists k, Stock_make_key (oi_supply_w_id o) (oi_i_id o) = Ret k /\
    index_get (v_index v stock) k = Some l.2.

Definition line_guards (locks : list (Rid * Rid)) (held : list (tbl * Rid * bool)) : list (tbl * Rid * bool) :=
  foldl (fun h l => (stock, l.2, true) :: (item, l.1, false) :: h) held locks.

Lemma lock_items_ok orders v (Q : option (result (list (Rid * Rid)) TransactionError) -> view -> Prop) :
  Forall item_ok orders -> (length (v_held v) + 2 * length orders <= GUARDS)%nat ->
  (forall e v', unchanged v v' -> Q (Some (Err e)) v') ->
  (forall locks v', unchanged v v' -> Forall2 (line_locks v) orders locks ->
     v_held v' = line_guards locks (v_held v) ->
     (forall t, t ∉ [item; stock] -> v_cur v' t = v_cur v t) -> Q (Some (Ok locks)) v') ->
  vwp (lock_items orders) v Q.
Proof.
  revert v Q. induction orders as [|o orders IH]; intros v Q Hok Hl He Hk; [by apply Hk|].
  apply Forall_cons in Hok as [(Hi & Hs & _) Hok]. cbn [length] in Hl. cbn [lock_items].
  eapply vwp_lift; [done|]. apply vwp_read_oid_or_abort; [lia| |intros e; by apply He].
  intros ri xi _ Hxi. eapply vwp_lift; [apply Stock_key_value; lia|].
  apply vwp_write_oid; [simpl; lia| |intros e _; by apply He].
  intros rs xs Hixs Hxs. simpl in Hixs, Hxs. apply vwp_bind.
  apply IH; [done|simpl; lia|intros e v' Hu; by apply He|].
  intros locks v' Hu Hlocks Hheld Hcur. apply Hk; [done| |done|].
  - constructor; [|done]. split; [by exists xi|]. split; [by exists xs|]. eexists. split; [|done].
    apply Stock_key_value; lia.
  - intros t Ht. rewrite Hcur by done. simpl. rewrite !upd_ne by other_table. done.
Qed.

Lemma line_guards_in p locks held : p ∈ held -> p ∈ line_guards locks held.
Proof. revert held. induction locks as [|l locks IH]; intros held Hp; [done|]. apply IH. by do 2 right. Qed.

Definition w_query : FieldsMeta := query warehouse ["w_tax"].
Definition d_query : FieldsMeta := query district ["d_tax"; "d_next_o_id"].
Definition c_query : FieldsMeta := query customer ["c_discount"; "c_last"; "c_credit"].

Definition all_locked (i : NewOrderInput) v (locks : list (Rid * Rid)) v' : Prop :=
  exists w x_w d x_d c x_c,
    unchanged v v' /\ at_record v' warehouse w true w_query x_w /\ at_record v' district d true d_query x_d /\
    at_record v' customer c true c_query x_c /\
    Forall2 (line_locks v) (take (n_ol_cnt i) (n_orders i)) locks /\
    v_held v' = line_guards locks [(customer, c, true); (district, d, true); (warehouse, w, true)].

Lemma new_order_locks_ok i v :
  input_ok i -> v_held v = [] ->
  vwp (new_order_locks i) v (fun r v' =>
    match r with
    | Some (Ok locks) => all_locked i v locks v'
    | Some (Err _) => unchanged v v'
    | None => False
    end).
Proof.
  intros (Hw & Hd & Hc & _ & Hlen & Hcnt & Hitems) Hh. unfold new_order_locks.
  apply vwp_write_oid; [rewrite Hh; unfold GUARDS; simpl; lia| |done]. intros w x_w _ Hxw.
  eapply vwp_promote_record; [by left|done|]. intros Hatw.
  eapply vwp_lift; [unfold District_make_key; key_value|].
  apply vwp_write_oid; [simpl; rewrite Hh; unfold GUARDS; simpl; lia| |done]. intros d x_d _ Hxd. simpl in Hxd.
  eapply vwp_promote_record; [by left|done|]. intros Hatd.
  eapply vwp_lift; [unfold Customer_make_key; key_value|].
  apply vwp_write_oid; [simpl; rewrite Hh; unfold GUARDS; simpl; lia| |done]. intros c x_c _ Hxc. simpl in Hxc.
  eapply vwp_promote_record; [by left|done|]. intros Hatc.
  apply lock_items_ok; [exact Hitems| |done|].
  { simpl. rewrite Hh. simpl. rewrite length_take. unfold GUARDS. lia. }
  intros locks v' (Ht & Hi & Hj) Hlocks Hheld Hcur. simpl in Hheld. rewrite Hh in Hheld.
  exists w, x_w, d, x_d, c, x_c. split; [done|]. unfold at_record. rewrite Hheld, !Ht.
  split_and!; try done; try (apply line_guards_in; set_solver);
    rewrite Hcur by other_table; simpl; repeat first [rewrite upd_eq|rewrite upd_ne by done]; done.
Qed.
End phase1.

(** ** The arithmetic of an order line *)
Lemma next_quantity_ok q oq :
  10 <= q <= 100 -> 1 <= oq <= 10 ->
  next_quantity q oq = Ret (if 10 <=? q - oq then q - oq else q - oq + 91).
Proof.
  intros Hq Ho. unfold next_quantity. rewrite chk_ok by (unfold fits; lia). runm.
  unfold isize. rewrite (proj2 (Z.ltb_lt _ _)) by lia. destruct (Z.leb_spec 10 (q - oq)); [done|].
  unfold isize_add. rewrite (proj2 (Z.leb_le _ _)), (proj2 (Z.ltb_lt _ _)) by lia. simpl.
  by rewrite wrap_small by (unfold fits; lia).
Qed.

Lemma stock_after_ok slack w_id o x :
  stock_ok slack x -> 0 <= slack < 2 ^ 32 -> 1 <= oi_quantity o <= 10 -> stock_ok (slack + 1) (stock_after w_id o x).
Proof.
  intros (Hl & Hq & Hy & Hc & Hr) Hs Ho. unfold stock_ok, stock_after.
  change StockTuple with (tuple_of stock) in *.
  set (next := if 10 <=? _ then _ else _).
  assert (Hn : 10 <= next <= 100).
  { unfold next. destruct (Z.leb_spec 10 (column (tuple_of stock) "s_quantity" x - oi_quantity o)); lia. }
  clearbody next. case_match; rewrite !length_put_column; (split; [done|]); columns; lia.
Qed.

(** The columns of the new tuples. *)
Lemma order_columns i o_id :
  input_ok i -> 0 <= o_id < 2 ^ 16 ->
  length (order_tuple i o_id) = size_of_table order /\
  column OrderTuple "o_id" (order_tuple i o_id) = o_id /\
  column OrderTuple "o_c_id" (order_tuple i o_id) = n_c_id i /\
  column OrderTuple "o_d_id" (order_tuple i o_id) = n_d_id i /\
  column OrderTuple "o_w_id" (order_tuple i o_id) = n_w_id i.
Proof.
  intros (Hw & Hd & Hc & He & _ & Hn & _) Ho.
  set (x := replicate (size_of_table order) 0).
  change (order_tuple i o_id) with
    (put_column order "o_all_local" 8 (if n_all_local i then 1 else 0)
      (put_column order "o_ol_cnt" 8 (Z.of_nat (n_ol_cnt i))
        (put_column order "o_w_id" 8 (n_w_id i)
          (put_column order "o_entry_d" 8 (n_o_entry_d i)
            (put_column order "o_carrier_id" 8 CARRIER_NULL
              (put_column order "o_d_id" 8 (n_d_id i)
                (put_column order "o_c_id" 8 (n_c_id i) (put_column order "o_id" 8 o_id x)))))))).
  split; [by rewrite !length_put_column; apply length_replicate|].
  assert (length x = size_of_table order) by apply length_replicate. clearbody x.
  change OrderTuple with (tuple_of order). columns. done.
Qed.

Lemma order_line_columns i o_id n o amount info :
  input_ok i -> item_ok o -> 0 <= o_id < 2 ^ 16 -> length info = 24%nat ->
  let x := order_line_tuple i o_id n o amount info in
  length x = size_of_table order_line /\
  column OrderLineTuple "ol_o_id" x = o_id /\ column OrderLineTuple "ol_d_id" x = n_d_id i /\
  column OrderLineTuple "ol_w_id" x = n_w_id i /\ column OrderLineTuple "ol_i_id" x = oi_i_id o.
Proof.
  intros (Hw & Hd & _) (Hi & Hs & Hq) Ho Hl x0.
  set (x := replicate (size_of_table order_line) 0).
  change x0 with
    (store_field
      (put_column order_line "ol_amount" 8 amount
        (put_column order_line "ol_delivery_d" 8 CARRIER_NULL
          (put_column order_line "ol_quantity" 8 (oi_quantity o)
            (put_column order_line "ol_number" 8 (Z.of_nat n)
              (put_column order_line "ol_supply_w_id" 8 (oi_supply_w_id o)
                (put_column order_line "ol_i_id" 8 (oi_i_id o)
                  (put_column order_line "ol_w_id" 8 (n_w_id i)
                    (put_column order_line "ol_d_id" 8 (n_d_id i)
                      (put_column order_line "ol_o_id" 8 o_id x)))))))))
      (field order_line "ol_dist_info") info). clear x0.
  split; [by rewrite length_store_field, !length_put_column; apply length_replicate|].
  assert (length x = size_of_table order_line) by apply length_replicate. clearbody x.
  change OrderLineTuple with (tuple_of order_line). columns. done.
Qed.

(** ** Phase 2 *)
Section phase2.
Context {Ix : Type} `{DbIndex Ix} `{!RangeIndex Ix}.
Context (S : tbl -> Schema) `{TS : !TpccSchemas S}.
Abbreviation view := (view tbl index_name Ix).
Abbreviation vwp := (vwp S tpcc_columns tpcc_written).
Implicit Types (v : view).

(** The updates of the stock record of a line, before [k]. *)
Definition update_stock (i : NewOrderInput) (o : OrderItem) (k : prog tbl index_name unit) : prog tbl index_name unit :=
  s_quantity ← get_int stock "s_quantity";
  next ← lift (next_quantity s_quantity (oi_quantity o));
  _ ← put_int stock "s_quantity" 8 next;
  _ ← add_int stock "s_ytd" 8 (oi_quantity o);
  _ ← add_int stock "s_order_cnt" 8 1;
  _ ← (if oi_supply_w_id o =? n_w_id i then mret tt else add_int stock "s_remote_cnt" 8 1);
  k.

Lemma update_stock_ok i o ls xs slack k v Q :
  item_ok o -> 0 <= slack < 2 ^ 32 -> at_record v stock ls true s_query xs -> stock_ok slack xs ->
  then_written v stock ls s_query (stock_after (n_w_id i) o xs) (fun v' => vwp k v' Q) ->
  vwp (update_stock i o k) v Q.
Proof.
  intros (_ & _ & Ho) Hsl Hat (Hl & Hq & Hy & Hc & Hr) Hk. unfold update_stock.
  eapply vwp_get_int; [done|by vm_compute|].
  eapply vwp_lift; [by apply next_quantity_ok|].
  unfold stock_after in Hk. change StockTuple with (tuple_of stock) in *.
  set (next := if 10 <=? _ then _ else _) in *.
  assert (Hn : 0 <= next < 2 ^ 64).
  { unfold next. destruct (Z.leb_spec 10 (column (tuple_of stock) "s_quantity" xs - oi_quantity o)); lia. }
  clearbody next.
  assert (Hfit : forall z, 0 <= z < 2 ^ 64 -> fits (8 * Z.of_nat 8) z) by done.
  eapply vwp_put_int; [done|by vm_compute|]. intros v1 Hv1 Hat1.
  eapply vwp_add_int; [done|by vm_compute|columns; apply Hfit; lia|]. intros v2 Hv2 Hat2.
  pose proof (written_trans _ _ _ _ _ _ _ Hv1 Hv2) as Hw2. clear Hv1 Hv2.
  eapply vwp_add_int; [done|by vm_compute|columns; apply Hfit; lia|]. intros v3 Hv3 Hat3.
  pose proof (written_trans _ _ _ _ _ _ _ Hw2 Hv3) as Hw3. clear Hw2 Hv3.
  destruct (oi_supply_w_id o =? n_w_id i); [by apply Hk|].
  eapply vwp_add_int; [done|by vm_compute|columns; apply Hfit; lia|]. intros v4 Hv4 Hat4.
  apply Hk; [|done]. by eapply written_trans.
Qed.

(** The view after the line with locks [li] and [ls] on a stock record [xs]. *)
Definition line_done (i : NewOrderInput) (o : OrderItem) (li ls : Rid) (xs : obj) (ol : Rid) (xl : obj) v v' : Prop :=
  v_tab v' stock = <[ls := stock_after (n_w_id i) o xs]> (v_tab v stock) /\
  v_tab v' order_line = <[ol := xl]> (v_tab v order_line) /\
  (forall t, t ∉ [stock; order_line] -> v_tab v' t = v_tab v t) /\
  (forall t, t <> order_line -> v_index v' t = v_index v t) /\
  (forall j, v_idx v' j = v_idx v j) /\
  v_held v' = pull (item, li, false) (pull (stock, ls, true) (v_held v)).

Lemma pull_ne (p q : tbl * Rid * bool) held : p <> q -> q ∈ held -> q ∈ pull p held.
Proof.
  intros Hne. induction held as [|h held IH]; intros Hin; [done|]. cbn [pull].
  apply elem_of_cons in Hin as [->|Hin]; case_decide; simplify_eq; [by left|done|right; by apply IH].
Qed.

Lemma line_ok i o_id n o li ls xi xs slack v (Q : option (result unit TransactionError) -> view -> Prop) :
  input_ok i -> item_ok o -> 0 <= o_id < 2 ^ 16 -> 0 <= slack < 2 ^ 32 ->
  (item, li, false) ∈ v_held v -> (stock, ls, true) ∈ v_held v ->
  v_tab v item !! li = Some xi -> v_tab v stock !! ls = Some xs -> stock_ok slack xs ->
  (forall ol amount info v', v_tab v order_line !! ol = None -> length info = 24%nat ->
     line_done i o li ls xs ol (order_line_tuple i o_id n o amount info) v v' -> Q (Some (Ok tt)) v') ->
  vwp (order_line_body i o_id n o li ls) v Q.
Proof.
  intros Hi Ho Hid Hsl Hli Hls Hxi Hxs Hst HQ. unfold order_line_body.
  eapply vwp_read_record; [done|done|]. intros Hat.
  eapply vwp_get_int; [done|by vm_compute|].
  eapply vwp_touch; [done|by vm_compute|]. clear Hat.
  eapply vwp_promote_record; [done|done|]. intros Hat.
  eapply (update_stock_ok i o ls xs slack); [done..|].
  intros v1 (Hs1 & Ht1 & Hi1 & Hj1 & _ & Hh1) Hat1. simpl in Hs1, Ht1, Hi1, Hj1, Hh1.
  eapply vwp_get_column; [done|by vm_compute|].
  set (info := load_field _ _).
  assert (Hinfo : length info = 24%nat).
  { unfold info. rewrite (length_load_field _ _ (size_of_table stock)); [by vm_compute| |].
    - apply tpcc_columns_in. apply (bool_decide_eq_true_1 (field stock "s_dist10" ∈ tpcc_columns stock)). by vm_compute.
    - destruct (stock_after_ok slack (n_w_id i) o xs Hst Hsl) as [Hl _]; [apply Ho|done]. }
  clearbody info.
  set (amount := f64_mul _ _). clearbody amount.
  destruct (order_line_columns i o_id n o amount info Hi Ho Hid Hinfo) as (Hlen & C1 & C2 & C3 & C4).
  eapply vwp_insert; [by rewrite ts_size| |].
  { rewrite ts_key. simpl. unfold OrderLine_key. rewrite C1, C2, C3, C4. destruct Hi as (? & ? & _), Ho as (? & _).
    apply OrderLine_key_value; lia. }
  intros ol Hol.
  apply vwp_drop; [by left|]. cbn [v_held v_locked pull]. rewrite decide_True by done.
  apply vwp_drop; [simpl; by rewrite Hh1|]. cbn [v_held v_locked].
  split; [simpl; apply pull_ne; [done|by rewrite Hh1]|]. intros [] v' ->.
  apply (HQ ol amount info); [by rewrite <-Ht1|done|].
  unfold line_done. simpl. rewrite upd_eq, upd_ne, Hs1, Ht1, Hh1 by done.
  split; [done|]. split; [done|]. split; [|split; [|done]].
  - intros t Ht. rewrite upd_ne by other_table. apply Ht1. other_table.
  - intros t Ht. rewrite upd_ne by done. apply Hi1.
Qed.

(** *** The loop *)

Definition of_order (i : NewOrderInput) (o_id : Z) (x : obj) : Prop :=
  column OrderLineTuple "ol_o_id" x = o_id /\ column OrderLineTuple "ol_d_id" x = n_d_id i /\
  column OrderLineTuple "ol_w_id" x = n_w_id i.

Definition reduce_stock (i : NewOrderInput) (M : gmap Rid obj) (ps : list (OrderItem * Rid)) : gmap Rid obj :=
  foldl (fun M (p : OrderItem * Rid) => alter (stock_after (n_w_id i) p.1) p.2 M) M ps.

Definition lines_effect (i : NewOrderInput) (o_id : Z) (ps : list (OrderItem * Rid)) v v' : Prop :=
  v_tab v' stock = reduce_stock i (v_tab v stock) ps /\
  (exists lines : gmap Rid obj, lines ##ₘ v_tab v order_line /\
    v_tab v' order_line = lines ∪ v_tab v order_line /\ size lines = length ps /\
    forall r x, lines !! r = Some x -> of_order i o_id x) /\
  (forall t, t ∉ [stock; order_line] -> v_tab v' t = v_tab v t) /\
  (forall t, t <> order_line -> v_index v' t = v_index v t) /\
  (forall j, v_idx v' j = v_idx v j).

Lemma lines_effect_nil i o_id v : lines_effect i o_id [] v v.
Proof.
  split; [done|]. split; [|done]. exists ∅. split; [apply map_disjoint_empty_l|].
  split; [by rewrite (left_id_L ∅ (∪))|]. split; [apply map_size_empty|].
  intros r x Hr. by rewrite lookup_empty in Hr.
Qed.

Lemma lines_effect_cons i o_id n o li ls xs ol amount info ps v v1 v2 :
  input_ok i -> item_ok o -> 0 <= o_id < 2 ^ 16 -> length info = 24%nat ->
  v_tab v stock !! ls = Some xs -> v_tab v order_line !! ol = None ->
  line_done i o li ls xs ol (order_line_tuple i o_id n o amount info) v v1 ->
  lines_effect i o_id ps v1 v2 -> lines_effect i o_id ((o, ls) :: ps) v v2.
Proof.
  intros Hi Ho Hid Hinfo Hxs Hol (Hs & Hl & Ht & Hix & Hj & _) (Hs' & (lines & Hd & Hl' & Hsz & Hof) & Ht' & Hix' & Hj').
  destruct (order_line_columns i o_id n o amount info Hi Ho Hid Hinfo) as (_ & C1 & C2 & C3 & _).
  rewrite Hl in Hd, Hl'. apply map_disjoint_insert_r in Hd as [Hno Hd].
  split; [|split].
  - rewrite Hs', Hs. unfold reduce_stock. simpl. f_equal. apply map_eq. intros r.
    destruct (decide (r = ls)) as [->|Hne]; [by rewrite lookup_insert_eq, lookup_alter_eq, Hxs|].
    by rewrite lookup_insert_ne, lookup_alter_ne by done.
  - exists (<[ol := order_line_tuple i o_id n o amount info]> lines).
    split; [by apply map_disjoint_insert_l|]. split; [by rewrite Hl', <-insert_union_r, insert_union_l by done|].
    split; [by rewrite map_size_insert_None, Hsz by done|]. intros r x Hr.
    destruct (decide (r = ol)) as [->|Hne].
    + rewrite lookup_insert_eq in Hr. by simplify_eq.
    + rewrite lookup_insert_ne in Hr by done. by eapply Hof.
  - split; [|split]; intros; [by rewrite Ht', Ht|by rewrite Hix', Hix|by rewrite Hj', Hj].
Qed.

(** The guards of the lines still to do are among those held. *)
Definition guards_left (locks : list (Rid * Rid)) v : Prop :=
  forall p, (held_cnt p (line_guards locks []) <= held_cnt p (v_held v))%nat.

Lemma held_cnt_app (p : tbl * Rid * bool) h1 h2 : held_cnt p (h1 ++ h2)%list = (held_cnt p h1 + held_cnt p h2)%nat.
Proof. induction h1 as [|q h1 IH]; [done|]. cbn [app held_cnt]. rewrite IH. lia. Qed.

Lemma line_guards_app locks held : line_guards locks held = (line_guards locks [] ++ held)%list.
Proof.
  revert held. induction locks as [|l locks IH]; intros held; [done|]. simpl.
  rewrite IH, (IH (_ :: _)), <-(assoc_L app). done.
Qed.

Lemma cnt_in (p : tbl * Rid * bool) held : (1 <= held_cnt p held)%nat -> p ∈ held.
Proof.
  induction held as [|q held IH]; cbn [held_cnt]; intros Hc; [lia|].
  case_decide; [subst; by left|right; apply IH; lia].
Qed.

Lemma guards_left_cons li ls locks v :
  guards_left ((li, ls) :: locks) v ->
  (item, li, false) ∈ v_held v /\ (stock, ls, true) ∈ v_held v /\
  forall v', v_held v' = pull (item, li, false) (pull (stock, ls, true) (v_held v)) -> guards_left locks v'.
Proof.
  intros Hg.
  assert (Hg' : forall p, (held_cnt p (line_guards locks []) + held_cnt p [(stock, ls, true); (item, li, false)] <=
            held_cnt p (v_held v))%nat).
  { intros p. specialize (Hg p). simpl in Hg. rewrite line_guards_app, held_cnt_app in Hg. done. }
  assert (Hs : (stock, ls, true) ∈ v_held v).
  { apply cnt_in. pose proof (Hg' (stock, ls, true)) as Hc. cbn [held_cnt] in Hc. rewrite decide_True in Hc by done. lia. }
  assert (Hi : (item, li, false) ∈ v_held v).
  { apply cnt_in. pose proof (Hg' (item, li, false)) as Hc. cbn [held_cnt] in Hc.
    rewrite (decide_True (P := (item, li, false) = (item, li, false))) in Hc by done. lia. }
  split; [done|]. split; [done|]. intros v' Hv' p. rewrite Hv'.
  rewrite !held_cnt_pull; [|done|by apply pull_ne]. specialize (Hg' p). cbn [held_cnt] in Hg'.
  repeat case_decide; lia.
Qed.

Lemma stock_ok_mono s s' x : stock_ok s x -> s <= s' -> stock_ok s' x.
Proof. unfold stock_ok. intuition lia. Qed.

Definition all_stock (slack : Z) v : Prop := forall r x, v_tab v stock !! r = Some x -> stock_ok slack x.

Definition lines_there (locks : list (Rid * Rid)) v : Prop :=
  Forall (fun l => is_Some (v_tab v item !! l.1) /\ is_Some (v_tab v stock !! l.2)) locks.

Lemma line_done_stock i o li ls xs ol xl slack v v' :
  line_done i o li ls xs ol xl v v' -> item_ok o -> 0 <= slack < 2 ^ 32 ->
  v_tab v stock !! ls = Some xs -> all_stock slack v -> all_stock (slack + 1) v'.
Proof.
  intros (Hs & _) Ho Hsl Hxs Hall r x Hr. rewrite Hs in Hr. destruct (decide (r = ls)) as [->|Hne].
  - rewrite lookup_insert_eq in Hr. simplify_eq. apply stock_after_ok; [by eapply Hall|done|apply Ho].
  - rewrite lookup_insert_ne in Hr by done. eapply stock_ok_mono; [by eapply Hall|lia].
Qed.

Lemma line_done_there i o li ls xs ol xl locks v v' :
  line_done i o li ls xs ol xl v v' -> lines_there locks v -> lines_there locks v'.
Proof.
  intros (Hs & _ & Ht & _) Hl. eapply Forall_impl; [done|]. intros l [Hli Hls]. simpl.
  rewrite Hs, Ht by other_table. split; [done|].
  destruct (decide (l.2 = ls)) as [->|Hne]; [by rewrite lookup_insert_eq|by rewrite lookup_insert_ne].
Qed.

Lemma order_lines_ok i o_id locks n todo v (Q : option (result unit TransactionError) -> view -> Prop) :
  input_ok i -> 0 <= o_id < 2 ^ 16 -> (n + todo = n_ol_cnt i)%nat -> length locks = n_ol_cnt i ->
  guards_left (drop n locks) v -> lines_there locks v -> all_stock (Z.of_nat n) v ->
  (forall v', lines_effect i o_id (drop n (zip (take (n_ol_cnt i) (n_orders i)) (snd <$> locks))) v v' ->
     all_stock (Z.of_nat (n_ol_cnt i)) v' -> Q (Some (Ok tt)) v') ->
  vwp (order_lines i o_id locks n todo) v Q.
Proof.
  intros Hi Hid. pose proof Hi as (_ & _ & _ & _ & Hlen & Hcnt & Hitems). revert n v.
  induction todo as [|todo IH]; intros n v Hn Hll Hg Hthere Hst HQ.
  - apply HQ; [|by replace n with (n_ol_cnt i) in Hst by lia].
    rewrite drop_ge; [apply lines_effect_nil|]. rewrite length_zip_with, length_take, length_fmap. lia.
  - cbn [order_lines].
    destruct (lookup_lt_is_Some_2 (n_orders i) n) as [o Ho]; [lia|].
    destruct (lookup_lt_is_Some_2 locks n) as [[li ls] Hl]; [lia|].
    eapply vwp_lift; [apply index_Ret; split; [lia|by rewrite Nat2Z.id]|].
    eapply vwp_lift; [apply index_Ret; split; [lia|by rewrite Nat2Z.id]|]. apply vwp_bind. cbn [fst snd].
    rewrite (drop_S _ _ _ Hl) in Hg. destruct (guards_left_cons _ _ _ _ Hg) as (Hgi & Hgs & Hg').
    pose proof (Forall_lookup_1 _ _ _ _ Hthere Hl) as [[xi Hxi] [xs Hxs]].
    assert (Hok : item_ok o).
    { apply (Forall_lookup_1 _ (take (n_ol_cnt i) (n_orders i)) n); [exact Hitems|]. by rewrite lookup_take_lt by lia. }
    eapply (line_ok i o_id n o li ls xi xs (Z.of_nat n)); [done|done|done|lia|done|done|done|done|by eapply Hst|].
    intros ol amount info v1 Hol Hinfo Hdone.
    apply IH; [lia|done|apply Hg'; apply Hdone|by eapply line_done_there| |].
    { replace (Z.of_nat (Datatypes.S n)) with (Z.of_nat n + 1) by lia. eapply line_done_stock; [done|done|lia|done|done]. }
    intros v' Heff Hst'. apply HQ; [|done].
    rewrite (drop_S _ (o, ls) n).
    + eapply lines_effect_cons; [done|done|done|exact Hinfo|done|done|done|done].
    + rewrite lookup_zip_with, lookup_take_lt, Ho, list_lookup_fmap, Hl by lia. done.
Qed.

(** *** The whole phase *)
Definition all_districts v : Prop := forall r x, v_tab v district !! r = Some x -> district_ok x.

Lemma locked_there i v0 locks v : all_locked i v0 locks v -> lines_there locks v /\ length locks = length (take (n_ol_cnt i) (n_orders i)).
Proof.
  intros (? & ? & ? & ? & ? & ? & (Ht & _) & _ & _ & _ & Hl & _). split; [|by symmetry; eapply Forall2_length].
  unfold lines_there. apply Forall_forall. intros l Hin. apply list_elem_of_lookup in Hin as [m Hm].
  destruct (Forall2_lookup_r _ _ _ _ _ Hl Hm) as (o & _ & H1 & H2 & _). by rewrite !Ht.
Qed.

Lemma locked_stock i v0 locks v :
  all_locked i v0 locks v ->
  Forall2 (fun o s => exists k, Stock_make_key (oi_supply_w_id o) (oi_i_id o) = Ret k /\
             index_get (v_index v0 stock) k = Some s) (take (n_ol_cnt i) (n_orders i)) (snd <$> locks).
Proof.
  intros (? & ? & ? & ? & ? & ? & _ & _ & _ & _ & Hl & _). apply Forall2_fmap_r.
  eapply Forall2_impl; [done|]. intros o l (_ & _ & Hk). exact Hk.
Qed.

Lemma new_order_update_ok i v0 locks v (Q : option (result unit TransactionError) -> view -> Prop) :
  input_ok i -> all_locked i v0 locks v -> all_stock 0 v0 -> all_districts v0 ->
  (forall v', ordered i v0 v' -> all_stock 15 v' -> Q (Some (Ok tt)) v') ->
  vwp (new_order_update i locks) v Q.
Proof.
  intros Hi Hlk Hst Hds HQ. destruct (locked_there _ _ _ _ Hlk) as [Hthere Hlen].
  pose proof (locked_stock _ _ _ _ Hlk) as Hkeys.
  destruct Hlk as (w & x_w & d & x_d & c & x_c & (Ht & Hix & Hj) & Hatw & Hatd & Hatc & _ & Hheld).
  pose proof Hi as (Hw & Hd & Hc & _ & Hol & Hcnt & _). rewrite length_take in Hlen. unfold new_order_update.
  eapply (vwp_touch S Q warehouse w_query); [done|by vm_compute|].
  eapply (vwp_touch S Q district d_query); [done|by vm_compute|].
  eapply (vwp_touch S Q customer c_query); [done|by vm_compute|].
  eapply vwp_get_int; [done|by vm_compute|].
  assert (Hxd : v_tab v0 district !! d = Some x_d) by (rewrite <-Ht; apply Hatd).
  pose proof (Hds _ _ Hxd) as Ho. unfold district_ok in Ho.
  change (tuple_of district) with DistrictTuple. set (o_id := column DistrictTuple "d_next_o_id" x_d) in *.
  eapply vwp_lift; [apply chk_ok; unfold fits; lia|].
  eapply vwp_put_int; [done|by vm_compute|]. intros v1 (Hd1 & Ht1 & Hi1 & Hj1 & _ & Hh1) _.
  eapply vwp_lift; [apply NewOrder_key_value; lia|].
  apply vwp_idx_insert. destruct (order_columns i o_id Hi Ho) as (Hsz & C1 & C2 & C3 & C4).
  eapply vwp_insert; [by rewrite ts_size| |].
  { rewrite ts_key. simpl. unfold Order_key. rewrite C1, C2, C3, C4. apply Order_key_value; lia. }
  intros ro Hro. apply vwp_drop; [by left|]. cbn [v_held v_locked pull]. rewrite decide_True by done.
  assert (Hg : forall v', v_held v' = v_held v1 -> guards_left locks v').
  { intros v' Hv' p. rewrite Hv', Hh1, Hheld, (line_guards_app locks (_ :: _)), held_cnt_app. lia. }
  apply (order_lines_ok i o_id locks 0 (n_ol_cnt i)); [done|done|lia|lia|by apply Hg| | |].
  { eapply Forall_impl; [exact Hthere|]. intros l. simpl. rewrite !upd_ne, !Ht1 by done. done. }
  { intros r x Hr. simpl in Hr. rewrite !upd_ne, Ht1, Ht in Hr by done. by eapply Hst. }
  intros v' (Es & (lines & Hdis & El & Esz & Eof) & Et & Ei & Ej) Hst'.
  simpl in Es, Hdis, El, Et, Ei, Ej, Hro. rewrite upd_ne, Ht1, Ht in Es, Hdis, El by done. rewrite Ht1, Ht in Hro by done.
  assert (Hothers : forall t, t ∉ [district; stock; order; order_line] -> v_tab v' t = v_tab v0 t).
  { intros t Hn. rewrite Et, upd_ne, Ht1, Ht by other_table. done. }
  apply HQ; [|intros r x Hr; eapply stock_ok_mono; [by eapply Hst'|lia]].
  exists d, x_d, o_id, ro. do 2 eexists. exists (snd <$> locks), lines.
  split; [exact Hxd|]. split; [reflexivity|]. split.
  { rewrite Et, upd_ne, Hd1, Ht by other_table. done. }
  split; [apply NewOrder_key_value; lia|]. split; [by rewrite Ej, upd_eq, Hj1, Hj|].
  split; [apply Order_key_value; lia|]. split; [exact Hro|].
  split; [rewrite Et, upd_eq, Ht1, Ht by other_table; done|].
  split; [rewrite Ei, upd_eq, Hi1, Hix by done; done|].
  split; [exact Es|]. split; [done|]. split; [done|]. split; [done|].
  split; [rewrite Esz, drop_0, length_zip_with, length_take, length_fmap; lia|]. split; [done|].
  split; [done|]. split; [|by rewrite Ej, upd_ne, Hj1, Hj by done].
  intros t Hn. rewrite Ei, upd_ne, Hi1, Hix by other_table. done.
Qed.
End phase2.

(** ** The transaction *)
Section new_order.
Context {Ix : Type} `{DbIndex Ix} `{!RangeIndex Ix}.
Context (S : tbl -> Schema) `{TS : !TpccSchemas S}.
Abbreviation view := (view tbl index_name Ix).
Implicit Types (v : view).

Lemma new_order_ok i v :
  input_ok i -> v_held v = [] -> all_stock 0 v -> all_districts v ->
  vwp S tpcc_columns tpcc_written (new_order i) v (fun r v' =>
    match r with
    | Some (Ok _) => ordered i v v' /\ all_stock 15 v'
    | Some (Err _) => unchanged v v'
    | None => False
    end).
Proof.
  intros Hi Hh Hst Hds. unfold new_order. apply vwp_bind.
  eapply vwp_mono; [|by apply new_order_locks_ok]. intros [[locks|e]|] v1 Hv1; [|done..].
  by eapply new_order_update_ok.
Qed.

Lemma ordered_unchanged i v v1 v2 : ordered i v v1 -> unchanged v1 v2 -> ordered i v v2.
Proof.
  intros Ho (Ht & Hi & Hj). unfold ordered in *.
  destruct Ho as (d & x_d & o_id & ro & ok & nk & locks & lines & H').
  exists d, x_d, o_id, ro, ok, nk, locks, lines. rewrite !Ht, !Hi, !Hj.
  intuition (rewrite ?Ht, ?Hi; auto).
Qed.
End new_order.
