(* ===== verification/Payment.v ===== *)
(** * The payment transaction

    The updates of the warehouse and of the district are made before the locks
    that follow are taken: [paid_upto] says what a run leaves behind. *)

From Stdlib Require Import QArith.
From S2P Require Import Prelude Query Schema Layout External Table Guarded Txn TxnView Float64 TpccTables TpccSchemas TpccUtils TpccTxn TpccView.
Open Scope string_scope.
Open Scope Z_scope.

(** ** Inputs and the database *)
Definition query_ok (q : CustomerQuery) : Prop :=
  match q with Id c => 0 <= c < 2 ^ 32 | LastName seed => 0 <= seed < 2 ^ 32 end.

Definition payment_ok (i : PaymentInput) : Prop :=
  0 <= p_w_id i < 2 ^ 16 /\ 0 <= p_d_id i < 2 ^ 16 /\ 0 <= p_c_w_id i < 2 ^ 15 /\ 0 <= p_c_d_id i < 2 ^ 15 /\
  query_ok (p_c_query i).

(** A customer as the benchmark loads it. *)
Definition customer_ok (x : obj) : Prop :=
  length x = size_of_table customer /\
  load_field x (field customer "c_middle") = as_bytes "OE" /\
  0 <= column CustomerTuple "c_payment_cnt" x < 2 ^ 32 - 1.

(** The discounts that the assertion of payment lets pass. *)
Definition discount_ok (x : obj) : bool :=
  f64_lt f64_zero (column CustomerTuple "c_discount" x) && f64_lt (column CustomerTuple "c_discount" x) f64_half.

Section payment.
Context {Ix : Type} `{DbIndex Ix} `{!RangeIndex Ix} `{!RangeIndexLaws Ix}.
Context (S : tbl -> Schema) `{TS : !TpccSchemas S}.
Abbreviation view := (view tbl index_name Ix).
Abbreviation vwp := (vwp S tpcc_columns tpcc_written).
Implicit Types (v : view).

Definition all_customers v : Prop := forall r x, v_tab v customer !! r = Some x -> customer_ok x.

(** The last-name index points to customers. *)
Definition names_linked v : Prop :=
  forall k r, index_get (v_idx v c_last_idx) k = Some r -> Rid_ok r /\ is_Some (v_tab v customer !! r).

(** *** Finding the customer *)
Lemma name_key_ok w d seed c :
  0 <= w < 2 ^ 15 -> 0 <= d < 2 ^ 15 -> 0 <= c < 2 ^ 16 ->
  exists k, idx_key_lastname (wrap 16 w) (wrap 16 d) (wrap 16 seed) c = Ret k.
Proof.
  intros Hw Hd Hc. rewrite (wrap_small 16 w), (wrap_small 16 d) by (unfold fits; lia).
  pose proof (wrap_fits 16 seed ltac:(lia)) as Hs. unfold fits in Hs. set (s := wrap 16 seed) in *.
  unfold idx_key_lastname. eexists. key_value.
Qed.

(** [c] is the record that the query finds: of the first eight customers with the
    last name, in the order of their keys, the middle one. *)
Definition found (w_id d_id : Z) (q : CustomerQuery) v (c : Rid) : Prop :=
  match q with
  | Id id => exists k, Customer_make_key w_id d_id id = Ret k /\ index_get (v_index v customer) k = Some c
  | LastName seed => exists low high k,
      idx_key_lastname (wrap 16 w_id) (wrap 16 d_id) (wrap 16 seed) 0 = Ret low /\
      idx_key_lastname (wrap 16 w_id) (wrap 16 d_id) (wrap 16 seed) CUSTOMER_SCALE = Ret high /\
      let rs := ix_range (v_idx v c_last_idx) low high 8 in
      rs !! (length rs / 2)%nat = Some (k, c) /\
      index_get (v_idx v c_last_idx) k = Some c /\ low <= k <= high
  end.

(** No customer of the district has the last name. *)
Definition nobody (w_id d_id seed : Z) v : Prop :=
  exists low high,
    idx_key_lastname (wrap 16 w_id) (wrap 16 d_id) (wrap 16 seed) 0 = Ret low /\
    idx_key_lastname (wrap 16 w_id) (wrap 16 d_id) (wrap 16 seed) CUSTOMER_SCALE = Ret high /\
    forall k, low <= k < high -> index_get (v_idx v c_last_idx) k = None.

(** Why the query may fail: no customer has the id, or the one found is locked. *)
Definition customer_refused (w_id d_id : Z) (q : CustomerQuery) v (e : TransactionError) : Prop :=
  match q with
  | Id id => exists k, Customer_make_key w_id d_id id = Ret k /\ refused WriteLockBusy v customer k e
  | LastName _ => (exists c, found w_id d_id q v c) /\ locked_out WriteLockBusy e
  end.

Lemma find_customer_ok {A} w_id d_id q (k : option Rid -> prog tbl index_name A) v Q :
  0 <= w_id < 2 ^ 15 -> 0 <= d_id < 2 ^ 15 -> query_ok q -> (length (v_held v) <= GUARDS)%nat -> names_linked v ->
  (forall e v', unchanged v v' -> customer_refused w_id d_id q v e -> Q (Some (Err e)) v') ->
  (forall seed, q = LastName seed -> nobody w_id d_id seed v -> vwp (k None) v Q) ->
  (forall c x, found w_id d_id q v c -> v_tab v customer !! c = Some x ->
     vwp (k (Some c)) (v_locked v customer ((customer, c, true) :: v_held v)) Q) ->
  vwp (find_customer w_id d_id q ≫= k) v Q.
Proof.
  intros Hw Hd Hq Hl Hn He Hnone Hsome. destruct q as [c|seed]; simpl in Hq; unfold find_customer.
  - apply vwp_assoc. eapply vwp_lift; [unfold Customer_make_key; key_value|].
    apply vwp_assoc, vwp_write_oid; [done| |].
    2: { intros e Hre. apply He; [done|]. eexists. split; [|exact Hre]. unfold Customer_make_key. key_value. }
    intros r x Hr Hx.
    eapply Hsome; [|done]. eexists. split; [|done]. unfold Customer_make_key. key_value.
  - destruct (name_key_ok w_id d_id seed 0) as [low Hlow]; [done..|].
    destruct (name_key_ok w_id d_id seed (wrap 16 CUSTOMER_SCALE)) as [high Hhigh]; [done..|].
    apply vwp_assoc. eapply vwp_lift; [done|]. apply vwp_assoc. eapply vwp_lift; [done|].
    apply vwp_assoc, vwp_idx_range.
    destruct (Z.eqb_spec (Z.of_nat (length (ix_range (v_idx v c_last_idx) low high 8))) 0) as [E0|].
    { eapply Hnone; [done|]. exists low, high. split; [done|]. split; [done|]. intros k' Hk'.
      apply (ix_range_none _ low high 8); [apply length_zero_iff_nil; lia|lia|exact Hk']. }
    set (rs := ix_range _ low high 8) in *. cbv zeta.
    destruct (lookup_lt_is_Some_2 rs (Z.to_nat (Z.of_nat (length rs) / 2))) as [[key r] Hr].
    { assert (Z.of_nat (length rs) / 2 < Z.of_nat (length rs)) by (apply Z.div_lt_upper_bound; lia). lia. }
    apply vwp_assoc. eapply vwp_lift; [apply index_Ret; split; [apply Z.div_pos; lia|done]|].
    pose proof Hr as Hmid. rewrite Z2Nat.inj_div, Nat2Z.id in Hmid by lia. change (Z.to_nat 2) with 2%nat in Hmid.
    apply list_elem_of_lookup_2, ix_range_in in Hr as [Hkr Hbetween].
    assert (Hf : found w_id d_id (LastName seed) v r) by (by exists low, high, key).
    destruct (Hn _ _ Hkr) as [Hrid [x Hx]].
    apply vwp_assoc. eapply vwp_lift; [simpl; rewrite wrap_small by (unfold Rid_ok, fits in *; lia); by apply Rid_from_u32_ok|].
    apply vwp_assoc. eapply vwp_lock_w_or_abort; [done|done| |].
    { by eapply Hsome. }
    intros e Hle. apply He; [done|]. split; [by exists r|done].
Qed.

(** *** The customer's record *)
Definition customer_after (i : PaymentInput) (history x : obj) : obj :=
  let x := put_column customer "c_balance" 8 (f64_sub (column CustomerTuple "c_balance" x) (p_h_amount i)) x in
  let x := put_column customer "c_ytd_payment" 8 (f64_add (column CustomerTuple "c_ytd_payment" x) (p_h_amount i)) x in
  let x := put_column customer "c_payment_cnt" 4 (column CustomerTuple "c_payment_cnt" x + 1) x in
  if bool_decide (load_field x (field customer "c_credit") = as_bytes "BC") then
    store_field x (field customer "c_data")
      (take SHIFT_AMOUNT history ++ take (Z.to_nat C_DATA_SIZE - SHIFT_AMOUNT) (load_field x (field customer "c_data")))
  else x.

Definition updated v (t : tbl) (g : Rid) (x' : obj) v' : Prop :=
  v_tab v' t = <[g := x']> (v_tab v t) /\ (forall t', t' <> t -> v_tab v' t' = v_tab v t') /\
  (forall t', v_index v' t' = v_index v t') /\ (forall j, v_idx v' j = v_idx v j).

Lemma written_updated v t g x' v' : written v t g x' v' -> updated v t g x' v'.
Proof. intros (? & ? & ? & ? & _). done. Qed.

Lemma concat_names (a b : obj) : length a = 10%nat -> length b = 10%nat ->
  exists d, FixedString_concat 24 a b 4 = Ret d /\ length d = 24%nat.
Proof.
  intros Ha Hb. unfold FixedString_concat. rewrite Ha, Hb.
  change (rassert (Z.of_nat 10 + Z.of_nat 10 + 4 <=? Z.of_nat 24)) with (Ret tt). runm.
  rewrite raw_write_ok by (rewrite ?length_replicate, ?Ha; lia). runm.
  rewrite raw_write_ok by (rewrite ?length_store, ?length_replicate, ?Hb; lia).
  eexists. split; [done|]. by rewrite !length_store, length_replicate.
Qed.

Lemma fixed_eq_two (bs : obj) (a b : Z) s :
  length bs = 2%nat -> as_bytes s = [a; b] -> FixedString_eq bs s = Ret (bool_decide (bs = [a; b])).
Proof.
  intros Hl Hs. destruct bs as [|x [|y [|]]]; try done. unfold FixedString_eq. rewrite Hs. simpl.
  destruct (Z.eqb_spec x a) as [->|]; simpl; [|by rewrite bool_decide_eq_false_2 by congruence].
  destruct (Z.eqb_spec y b) as [->|]; simpl; [by rewrite bool_decide_eq_true_2|].
  by rewrite bool_decide_eq_false_2 by congruence.
Qed.

Lemma oe_eq : FixedString_eq (as_bytes "OE") "OE" = Ret true.
Proof. vm_compute. reflexivity. Qed.

Lemma length_history i h_data : length (history_tuple i h_data) = 80%nat.
Proof. unfold history_tuple, tuple. cbn [foldl]. rewrite !length_store_field. apply length_replicate. Qed.

Lemma updated_put v t g x y v' t' q q' held :
  written (v_query v t q) t g x v' ->
  updated v t g y (v_set (v_query v' t' q') t (<[g := y]> (v_tab (v_query v' t' q') t)) q' held).
Proof.
  intros (Ht & Ho & Hi & Hj & _). simpl in Ht, Ho, Hi, Hj. split.
  - simpl. by rewrite upd_eq, Ht, insert_insert_eq.
  - split; [|done]. intros t2 Hne. simpl. rewrite upd_ne by done. by apply Ho.
Qed.

Lemma pay_customer_ok i w x_w d x_d c x v (Q : option (result unit TransactionError) -> view -> Prop) :
  at_record v warehouse w true w_fields x_w -> at_record v district d true d_fields x_d ->
  length x_w = size_of_table warehouse -> length x_d = size_of_table district ->
  (customer, c, true) ∈ v_held v -> v_tab v customer !! c = Some x -> customer_ok x ->
  (discount_ok x = false -> forall v', Q None v') ->
  (forall h_data v', updated v customer c (customer_after i (history_tuple i h_data) x) v' -> Q (Some (Ok tt)) v') ->
  vwp (pay_customer i c) v Q.
Proof.
  intros Hatw Hatd Hlw Hld Hin Hx (Hl & Hmid & Hcnt) Hno HQ. unfold pay_customer.
  unfold customer_after in HQ. change CustomerTuple with (tuple_of customer) in *.
  eapply vwp_promote_record; [done|done|]. intros Hat. eapply vwp_touch; [done|by vm_compute|].
  eapply vwp_sub_f64; [done|by vm_compute|]. intros v1 Hv1 Hat1.
  eapply vwp_add_f64; [done|by vm_compute|]. intros v2 Hv2 Hat2.
  pose proof (written_trans _ _ _ _ _ _ _ Hv1 Hv2) as Hw2. clear Hv1 Hv2.
  eapply vwp_add_int; [done|by vm_compute|columns; split; [lia|change (2 ^ (8 * Z.of_nat 4)) with (2 ^ 32); lia]|].
  intros v3 Hv3 Hat3. pose proof (written_trans _ _ _ _ _ _ _ Hw2 Hv3) as Hw3. clear Hw2 Hv3.
  set (x3 := put_column customer "c_payment_cnt" 4 _ _) in *.
  eapply vwp_get_column; [done|by vm_compute|].
  eapply vwp_lift.
  { unfold x3. columns. rewrite Hmid. apply oe_eq. }
  eapply vwp_lift; [done|]. eapply vwp_get_int; [done|by vm_compute|].
  replace (f64_lt f64_zero _ && _) with (discount_ok x) by (unfold x3; columns; done).
  destruct (discount_ok x); [|by apply Hno]. eapply vwp_lift; [done|].
  assert (Hother : forall t g q y, t <> customer -> at_record v t g true q y -> at_record v3 t g true q y).
  { intros t g q y Hne Hr. eapply at_record_written; [done|done|]. by apply at_record_query. }
  eapply vwp_get_column; [by eapply Hother|by vm_compute|].
  eapply vwp_get_column; [by eapply Hother|by vm_compute|].
  destruct (concat_names (load_field x_w (field warehouse "w_name")) (load_field x_d (field district "d_name")))
    as (h_data & Hh & _); [by apply length_load_column..|].
  eapply vwp_lift; [done|]. eapply vwp_get_column; [done|by vm_compute|].
  assert (Hl3 : length x3 = size_of_table customer) by (unfold x3; by rewrite !length_put_column).
  eapply vwp_lift; [apply (fixed_eq_two _ 66 67); [by apply length_load_column|done]|].
  specialize (HQ h_data). cbv zeta in HQ. change (as_bytes "BC") with [66; 67] in HQ. fold x3 in HQ.
  destruct (bool_decide (load_field x3 _ = _)).
  - eapply vwp_promote_record; [apply Hat3|apply Hat3|]. intros Hat4.
    eapply vwp_get_column; [done|by vm_compute|].
    set (data := app _ _) in *.
    assert (Hdata : length data = 500%nat).
    { unfold data. rewrite length_app, !length_take, length_history.
      rewrite (length_load_column customer "c_data" 500) by done. done. }
    clearbody data. pose proof Hat4 as (Hc4 & Hin4 & Hx4). split.
    + exists c, (query customer ["c_data"]). split; [done|]. split; [done|]. split; [apply covers_query; by left|].
      split; [|by rewrite Hdata]. apply (bool_decide_eq_true_1 (field customer "c_data" ∈ tpcc_written customer)).
      by vm_compute.
    + intros [] v' (g' & q' & y & Hc' & Hy & ->). rewrite Hc4 in Hc'. injection Hc' as <- <-.
      rewrite Hx4 in Hy. injection Hy as <-. apply HQ.
      by eapply updated_put.
  - apply HQ. apply (written_updated (v_query v customer (Some (c, c_fields)))). done.
Qed.

(** *** The whole transaction *)
Definition ytd_added (i : PaymentInput) (t : tbl) (name : string) (x : obj) : obj :=
  put_column t name 8 (f64_add (column (tuple_of t) name x) (p_h_amount i)) x.

Definition warehouse_paid (i : PaymentInput) v v' : Prop :=
  exists w x, index_get (v_index v warehouse) (p_w_id i) = Some w /\ v_tab v warehouse !! w = Some x /\
    updated v warehouse w (ytd_added i warehouse "w_ytd" x) v'.

Definition district_paid (i : PaymentInput) v v' : Prop :=
  exists k d x, District_make_key (p_w_id i) (p_d_id i) = Ret k /\
    index_get (v_index v district) k = Some d /\ v_tab v district !! d = Some x /\
    updated v district d (ytd_added i district "d_ytd" x) v'.

Definition customer_paid (i : PaymentInput) v v' : Prop :=
  exists c x h_data, found (p_c_w_id i) (p_c_d_id i) (p_c_query i) v c /\ v_tab v customer !! c = Some x /\
    updated v customer c (customer_after i (history_tuple i h_data) x) v'.

(** The customer found has a discount that the assertion does not expect. *)
Definition odd_discount (i : PaymentInput) v : Prop :=
  exists c x, found (p_c_w_id i) (p_c_d_id i) (p_c_query i) v c /\ v_tab v customer !! c = Some x /\ discount_ok x = false.

(** What a payment with result [r] leaves behind. *)
Definition paid (i : PaymentInput) v (r : result unit TransactionError) v' : Prop :=
  match r with
  | Ok _ => exists v1 v2, warehouse_paid i v v1 /\ district_paid i v1 v2 /\
      (customer_paid i v2 v' \/
       (exists seed, p_c_query i = LastName seed /\ nobody (p_c_w_id i) (p_c_d_id i) seed v2 /\ unchanged v2 v'))
  | Err e =>
      (refused WriteLockBusy v warehouse (p_w_id i) e /\ unchanged v v') \/
      (exists v1 k, warehouse_paid i v v1 /\ District_make_key (p_w_id i) (p_d_id i) = Ret k /\
         refused WriteLockBusy v1 district k e /\ unchanged v1 v') \/
      (exists v1 v2, warehouse_paid i v v1 /\ district_paid i v1 v2 /\
         customer_refused (p_c_w_id i) (p_c_d_id i) (p_c_query i) v2 e /\ unchanged v2 v')
  end.

Lemma found_same w_id d_id q v v' c :
  (forall t, v_index v' t = v_index v t) -> (forall j, v_idx v' j = v_idx v j) ->
  found w_id d_id q v' c -> found w_id d_id q v c.
Proof. intros Hi Hj. unfold found. by rewrite Hi, Hj. Qed.

Definition sized (t : tbl) v : Prop := forall r x, v_tab v t !! r = Some x -> length x = size_of_table t.

Lemma payment_ok_view i v :
  payment_ok i -> v_held v = [] -> all_customers v -> names_linked v -> sized warehouse v -> sized district v ->
  vwp (payment i) v (fun r v' => match r with Some r => paid i v r v' | None => odd_discount i v end).
Proof.
  intros (Hw & Hd & Hcw & Hcd & Hq) Hh Hcust Hnames Hsw Hsd. unfold payment.
  apply vwp_write_oid; [rewrite Hh; unfold GUARDS; simpl; lia| |by intros e He; left].
  intros w x_w Hiw Hxw. eapply vwp_promote_record; [by left|done|]. intros Hatw.
  eapply vwp_touch; [done|by vm_compute|].
  eapply vwp_add_f64; [done|by vm_compute|]. intros v1 Hv1 Hat1.
  set (x_w' := put_column _ _ _ _ _) in *.
  assert (Hp1 : warehouse_paid i v v1).
  { exists w, x_w. split; [done|]. split; [done|]. by apply written_updated in Hv1. }
  pose proof Hv1 as (Htw & Hto & Hi1 & Hj1 & _ & Hh1). simpl in Htw, Hto, Hi1, Hj1, Hh1. rewrite Hh in Hh1.
  eapply vwp_lift; [unfold District_make_key; key_value|].
  apply vwp_write_oid; [rewrite Hh1; unfold GUARDS; simpl; lia| |].
  2: { intros e He. right. left. exists v1. eexists. split; [done|]. split; [unfold District_make_key; key_value|].
       by split. }
  intros d x_d Hid Hxd. eapply vwp_promote_record; [by left|done|]. intros Hatd.
  eapply vwp_add_f64; [done|by vm_compute|]. intros v2 Hv2 Hat2.
  set (x_d' := put_column district _ _ _ _) in *.
  assert (Hp2 : district_paid i v1 v2).
  { exists (p_w_id i * 2 ^ 48 + p_d_id i), d, x_d. split; [unfold District_make_key; key_value|].
    split; [done|]. split; [done|]. by apply written_updated in Hv2. }
  pose proof Hv2 as (Htd & Hto2 & Hi2 & Hj2 & _ & Hh2). simpl in Htd, Hto2, Hi2, Hj2, Hh2. rewrite Hh1 in Hh2.
  eapply vwp_touch; [done|by vm_compute|].
  assert (Hcu : v_tab v2 customer = v_tab v customer) by (rewrite Hto2, Hto by done; done).
  assert (Hat1' : at_record v2 warehouse w true w_fields x_w').
  { eapply at_record_written; [done|done|]. apply at_record_query; [done|]. apply at_record_locked; [done| |done].
    rewrite Hh1. set_solver. }
  apply find_customer_ok; [lia|lia|done|rewrite Hh2; unfold GUARDS; simpl; lia| | | |].
  - intros k r Hr. rewrite Hj2, Hj1 in Hr. rewrite Hcu. by eapply Hnames.
  - intros e v' Hu Hce. right. right. by exists v1, v2.
  - intros seed Hs Hnb. exists v1, v2. split; [done|]. split; [done|]. right. by exists seed.
  - intros c x Hf Hx. eapply (pay_customer_ok i w x_w' d x_d').
    + apply at_record_locked; [done| |done]. rewrite Hh2. set_solver.
    + apply at_record_locked; [done| |done]. rewrite Hh2. set_solver.
    + unfold x_w'. rewrite length_put_column. by eapply Hsw.
    + unfold x_d'. rewrite length_put_column. eapply (Hsd d). rewrite <-Hto by done. exact Hxd.
    + by left.
    + exact Hx.
    + eapply Hcust. rewrite <-Hcu. exact Hx.
    + intros Hodd _. exists c, x. split; [|by rewrite <-Hcu].
      apply (found_same _ _ _ v v2); [|intros j; by rewrite Hj2, Hj1|done].
      intros t. by rewrite Hi2, Hi1.
    + intros h_data v' Hu. exists v1, v2. split; [done|]. split; [done|]. left. by exists c, x, h_data.
Qed.
End payment.
