(* ===== verification/TpccReads.v ===== *)
(** * Order status and stock level

    The two transactions that only read: they return, leave every table as it
    was, and order status needs a customer that has an order. *)

From Stdlib Require Import QArith.
From S2P Require Import Prelude Query Schema Layout External Table Guarded Txn TxnView Float64 TpccTables TpccSchemas TpccUtils TpccTxn TpccView Payment.
Open Scope string_scope.
Open Scope Z_scope.

(** ** They only read *)
Lemma lift_read_only {A} (m : outcome A) : read_only (lift m : prog tbl index_name A).
Proof. by destruct m. Qed.

Lemma try_lock_read_only (o : op tbl index_name (result Rid TransactionError)) : looks o -> read_only (try_lock o).
Proof. intros Ho. split; [done|]. intros [g|e]; simpl; done. Qed.

Lemma lock_or_abort_read_only (o : op tbl index_name (result Rid TransactionError)) : looks o -> read_only (lock_or_abort o).
Proof. intros Ho. split; [done|]. intros [g|e]; simpl; done. Qed.

Lemma call_read_only {B} (o : op tbl index_name B) : looks o -> read_only (call o).
Proof. by split. Qed.

Lemma touch_read_only t fs : read_only (touch t fs).
Proof. induction fs as [|f fs IH]; [done|]. split; [done|]. intros b. apply IH. Qed.

Ltac read_only_tac :=
  repeat first
    [ apply touch_read_only | apply lift_read_only | by apply try_lock_read_only
    | by apply lock_or_abort_read_only | by apply call_read_only | done
    | apply read_only_bind; [|intros ?]
    | progress cbv zeta | match goal with |- read_only (match ?x with _ => _ end) => destruct x end ].

Lemma find_customer_read_only w d q : read_only (find_customer w d q).
Proof. unfold find_customer. read_only_tac. Qed.

Lemma read_lines_read_only rids : read_only (read_lines rids).
Proof. induction rids as [|r rids IH]; [done|]. cbn [read_lines]. read_only_tac. Qed.

Lemma order_status_read_only i : read_only (order_status i).
Proof.
  unfold order_status. apply read_only_bind; [apply find_customer_read_only|]. intros [c|]; [|done].
  unfold read_orders, get_int, get. read_only_tac. apply read_lines_read_only.
Qed.

Lemma count_low_read_only i rids n : read_only (count_low i rids n).
Proof. revert n. induction rids as [|r rids IH]; intros n; [done|]. cbn [count_low]. unfold get_int, get. read_only_tac. Qed.

Lemma stock_level_read_only i : read_only (stock_level i).
Proof.
  unfold stock_level, get_int, get. read_only_tac. apply count_low_read_only.
Qed.

Section reads.
Context {Ix : Type} `{DbIndex Ix} `{!RangeIndex Ix} `{!RangeIndexLaws Ix}.
Context (S : tbl -> Schema) `{TS : !TpccSchemas S}.
Abbreviation view := (view tbl index_name Ix).
Abbreviation vwp := (vwp S tpcc_columns tpcc_written).
Implicit Types (v : view).

Lemma range_linked v t low high n r :
  linked S v -> r ∈ (snd <$> ix_range (v_index v t) low high n) -> is_Some (v_tab v t !! r).
Proof.
  intros [Hl _] Hr. apply list_elem_of_fmap in Hr as ([k r'] & -> & Hin). apply ix_range_in in Hin as [Hk _].
  by eapply Hl.
Qed.

(** ** Stock level *)
Definition stock_level_ok (i : StockLevelInput) : Prop := 0 <= sl_w_id i < 2 ^ 16 /\ 0 <= sl_d_id i < 2 ^ 8.

(** Districts as loaded: twenty orders, room for the next ids. *)
Definition twenty_orders v : Prop :=
  forall r x, v_tab v district !! r = Some x -> 20 <= column DistrictTuple "d_next_o_id" x < 2 ^ 20.

Definition lines_keyed v : Prop :=
  forall r x, v_tab v order_line !! r = Some x ->
    0 <= column OrderLineTuple "ol_i_id" x < 2 ^ 32 /\ 0 <= column OrderLineTuple "ol_o_id" x < 2 ^ 20.

Lemma count_low_ok i rids n v (Q : option (result Z TransactionError) -> view -> Prop) :
  stock_level_ok i -> Forall (fun r => is_Some (v_tab v order_line !! r)) rids -> lines_keyed v ->
  (length (v_held v) < GUARDS)%nat -> (forall r v', Q (Some r) v') -> vwp (count_low i rids n) v Q.
Proof.
  intros [Hw Hd] Hr Hk Hl HQ. revert n v Hr Hk Hl.
  induction rids as [|r rids IH]; intros n v Hr Hk Hl; [apply HQ|].
  apply Forall_cons in Hr as [[x Hx] Hr]. cbn [count_low].
  eapply vwp_lock_r; [lia|done| |intros e; apply HQ].
  eapply vwp_read_record; [by left|done|]. intros Hat.
  eapply vwp_get_int; [done|by vm_compute|]. destruct (Hk _ _ Hx) as [Hi _].
  eapply vwp_lift; [apply Stock_key_value; [lia|exact Hi]|].
  apply vwp_read_oid; [simpl; lia| |intros e; apply HQ]. intros s x_s _ Hxs.
  eapply vwp_read_record; [by left|done|]. intros Hats.
  change (vwp (get stock "s_quantity" ≫= fun bs =>
    call (Drop_ stock s false) ≫= fun _ => call (Drop_ order_line r false) ≫= fun _ =>
    count_low i rids (if le_word bs <? sl_threshold i then n + 1 else n))
    (v_query (v_locked (v_query (v_locked v order_line ((order_line, r, false) :: v_held v)) order_line
       (Some (r, sl_ol_fields))) stock ((stock, s, false) :: (order_line, r, false) :: v_held v)) stock
       (Some (s, stock_fields))) Q).
  destruct Hats as (Hc & Hin & Hxs').
  eapply vwp_get; [done|done|done|apply ts_quantity| |].
  { apply (bool_decide_eq_true_1 (field stock "s_quantity" ∈ tpcc_columns stock)). by vm_compute. }
  apply vwp_drop; [by left|]. cbn [v_held v_locked v_query pull]. rewrite decide_True by done.
  apply vwp_drop; [by left|]. cbn [v_held v_locked v_query pull]. rewrite decide_True by done.
  apply IH; [done|done|done].
Qed.

Lemma stock_level_runs i v :
  stock_level_ok i -> v_held v = [] -> linked S v -> twenty_orders v -> lines_keyed v ->
  vwp (stock_level i) v (fun r v' => r <> None /\ unchanged v v').
Proof.
  intros Hi Hh Hlink H20 Hk. pose proof Hi as [Hw Hd].
  apply read_only_unchanged; [apply stock_level_read_only|].
  unfold stock_level. eapply vwp_lift; [unfold District_make_key; key_value|].
  apply vwp_read_oid; [rewrite Hh; unfold GUARDS; simpl; lia| |done]. intros d x_d _ Hxd.
  eapply vwp_read_record; [by left|done|]. intros Hat. eapply vwp_get_int; [done|by vm_compute|].
  pose proof (H20 _ _ Hxd) as Ho. change (tuple_of district) with DistrictTuple. set (o := column DistrictTuple _ _) in *.
  eapply vwp_lift; [by rewrite (proj2 (Z.leb_le _ _)) by lia|].
  eapply vwp_lift; [apply chk_ok; unfold fits; lia|]. rewrite Z.min_l by lia.
  eapply vwp_lift; [apply OrderLine_key_value; lia|]. eapply vwp_lift; [apply OrderLine_key_value; lia|].
  apply vwp_range, vwp_bind. apply count_low_ok; [done| |done|simpl; rewrite Hh; unfold GUARDS; simpl; lia|by intros []].
  apply Forall_forall. intros r Hr. by eapply range_linked.
Qed.

(** ** Order status *)
Definition order_status_ok (i : OrderStatusInput) : Prop :=
  0 <= os_w_id i < 2 ^ 15 /\ 0 <= os_d_id i < 2 ^ 8 /\ query_ok (os_c_query i).

Definition ids_ok v : Prop :=
  (forall r x, v_tab v customer !! r = Some x -> 0 <= column CustomerTuple "c_id" x < 2 ^ 16) /\
  (forall r x, v_tab v order !! r = Some x -> 0 <= column OrderTuple "o_id" x < 2 ^ 20).

(** The orders of a customer that order status finds. *)
Definition orders_of (i : OrderStatusInput) v (x : obj) : list (Z * Rid) :=
  let low := os_w_id i * 2 ^ 48 + os_d_id i * 2 ^ 32 + column CustomerTuple "c_id" x * 2 ^ 16 in
  ix_range (v_index v order) low (low + u16_MAX) 12.

Lemma read_lines_ok rids v (Q : option (result unit TransactionError) -> view -> Prop) :
  Forall (fun r => is_Some (v_tab v order_line !! r)) rids ->
  (length (v_held v) <= GUARDS)%nat -> (forall r v', Q (Some r) v') -> vwp (read_lines rids) v Q.
Proof.
  intros Hr Hl HQ. revert v Hr Hl.
  induction rids as [|r rids IH]; intros v Hr Hl; [apply HQ|].
  apply Forall_cons in Hr as [[x Hx] Hr]. cbn [read_lines].
  eapply vwp_lock_r; [lia|done| |intros e; apply HQ].
  eapply vwp_read_record; [by left|done|]. intros Hat.
  eapply (vwp_touch S Q order_line os_ol_fields); [done|by vm_compute|].
  apply vwp_drop; [by left|]. cbn [v_held v_locked v_query pull]. rewrite decide_True by done.
  by apply IH.
Qed.

(** From the customer on: without an order the scan result is indexed at -1. *)
Lemma read_orders_ok i c x v (Q : option (result unit TransactionError) -> view -> Prop) :
  order_status_ok i -> (customer, c, true) ∈ v_held v -> v_tab v customer !! c = Some x ->
  (length (v_held v) < GUARDS)%nat -> linked S v -> ids_ok v ->
  (orders_of i v x = [] -> forall v', Q None v') ->
  (orders_of i v x <> [] -> forall r v', Q (Some r) v') ->
  vwp (read_orders i c) v Q.
Proof.
  intros (Hw & Hd & _) Hin Hx Hl Hlink [Hc Ho] Hnone Hsome. unfold read_orders.
  eapply vwp_promote_record; [done|done|]. intros Hat. eapply (vwp_touch S Q customer os_c_fields); [done|by vm_compute|].
  eapply vwp_get_int; [done|by vm_compute|]. pose proof (Hc _ _ Hx) as Hcid.
  change (tuple_of customer) with CustomerTuple. unfold orders_of in *. set (cid := column CustomerTuple _ _) in *.
  eapply vwp_lift; [apply Order_key_value; lia|]. eapply vwp_lift; [apply Order_key_value; lia|].
  rewrite Z.add_0_r. apply vwp_range. cbn [v_index v_query].
  set (rs := ix_range (v_index v order) _ _ 12) in *. rewrite length_fmap.
  destruct (decide (rs = [])) as [E|Hne].
  - rewrite E. simpl. apply Hnone, E.
  - assert (Hlen : (0 < length rs)%nat) by (destruct rs; [done|simpl; lia]). specialize (Hsome Hne).
    assert (Hlen12 : (length rs <= 12)%nat) by apply ix_range_length.
    eapply vwp_lift; [apply chk_ok; unfold fits; lia|].
    destruct (lookup_lt_is_Some_2 (snd <$> rs) (Z.to_nat (Z.of_nat (length rs) - 1))) as [o Hoi];
      [rewrite length_fmap; lia|].
    eapply vwp_lift; [apply index_Ret; split; [lia|done]|].
    destruct (range_linked v order _ _ 12 o Hlink (list_elem_of_lookup_2 _ _ _ Hoi)) as [x_o Hxo].
    eapply vwp_lock_r; [simpl; lia|done| |intros e; apply Hsome].
    eapply vwp_read_record; [by left|done|]. intros Hato.
    eapply (vwp_touch S Q order os_o_fields); [done|by vm_compute|].
    eapply vwp_get_int; [done|by vm_compute|]. pose proof (Ho _ _ Hxo) as Hoid.
    change (tuple_of order) with OrderTuple.
    eapply vwp_lift; [apply OrderLine_key_value; lia|]. eapply vwp_lift; [apply OrderLine_key_value; lia|].
    apply vwp_range, read_lines_ok; [|simpl; lia|done].
    apply Forall_forall. intros r Hr. by eapply range_linked.
Qed.

Lemma order_status_runs i v :
  order_status_ok i -> v_held v = [] -> linked S v -> ids_ok v -> names_linked v ->
  vwp (order_status i) v (fun r v' =>
    match r with
    | None => exists c x, found (os_w_id i) (os_d_id i) (os_c_query i) v c /\
                v_tab v customer !! c = Some x /\ orders_of i v x = []
    | Some (Ok _) => forall id, os_c_query i = Id id ->
        exists c x, found (os_w_id i) (os_d_id i) (Id id) v c /\ v_tab v customer !! c = Some x /\ orders_of i v x <> []
    | Some (Err _) => True
    end /\ unchanged v v').
Proof.
  intros Hi Hh Hlink Hids Hnames. pose proof Hi as (Hw & Hd & Hq).
  apply read_only_unchanged; [apply order_status_read_only|]. unfold order_status.
  apply find_customer_ok; [done|lia|done|rewrite Hh; unfold GUARDS; simpl; lia|done|done| |].
  - intros seed Hs _ id Hid. congruence.
  - intros c x Hf Hx. eapply (read_orders_ok i c x); [done|by left|done| |done|done| |].
    + simpl. rewrite Hh. unfold GUARDS. simpl. lia.
    + intros He _. by exists c, x.
    + intros Hne [[]|e] _; [|done]. intros id Hid. exists c, x. by rewrite Hid in Hf.
Qed.
End reads.
