(* ===== verification/Delivery.v ===== *)
(** * The delivery transaction

    Delivery takes the oldest new order of a district off its index before it
    locks the order: whether the rest succeeds or not, the order is announced
    no more. *)

From Stdlib Require Import QArith.
From S2P Require Import Prelude Query Schema Layout External Table Guarded Txn TxnView Float64 TpccTables TpccSchemas TpccUtils TpccTxn TpccView TpccReads.
Open Scope string_scope.
Open Scope Z_scope.

Section delivery.
Context {Ix : Type} `{DbIndex Ix} `{!RangeIndex Ix} `{!RangeIndexLaws Ix}.
Context (S : tbl -> Schema) `{TS : !TpccSchemas S}.
Abbreviation view := (view tbl index_name Ix).
Abbreviation vwp := (vwp S tpcc_columns tpcc_written).
Implicit Types (v : view).

(** ** The order lines *)
Definition stamp_lines (time : Z) (M : gmap Rid obj) (rids : list Rid) : gmap Rid obj :=
  foldl (fun M r => alter (put_column order_line "ol_delivery_d" 8 time) r M) M rids.

Definition amount (M : gmap Rid obj) (r : Rid) : Z :=
  match M !! r with Some x => column OrderLineTuple "ol_amount" x | None => f64_zero end.

Definition total (M : gmap Rid obj) (rids : list Rid) (sum : Z) : Z :=
  foldl (fun s r => f64_add s (amount M r)) sum rids.

Lemma amount_stamped time M r r' :
  amount (alter (put_column order_line "ol_delivery_d" 8 time) r M) r' = amount M r'.
Proof.
  unfold amount. destruct (decide (r = r')) as [->|]; [|by rewrite lookup_alter_ne].
  rewrite lookup_alter_eq. destruct (M !! r') as [x|]; [|done]. simpl.
  change OrderLineTuple with (tuple_of order_line). columns. done.
Qed.

Lemma total_stamped time M r rids sum :
  total (alter (put_column order_line "ol_delivery_d" 8 time) r M) rids sum = total M rids sum.
Proof.
  unfold total. revert sum. induction rids as [|r' rids IH]; intros sum; [done|]. simpl. by rewrite amount_stamped, IH.
Qed.

(** A view with other order lines and guards [held]. *)
Definition lines_changed v (M : gmap Rid obj) v' : Prop :=
  v_tab v' order_line = M /\ (forall t, t <> order_line -> v_tab v' t = v_tab v t) /\
  (forall t, v_index v' t = v_index v t) /\ (forall j, v_idx v' j = v_idx v j) /\ v_held v' = v_held v.

Lemma deliver_lines_ok time rids sum v (Q : option (result Z TransactionError) -> view -> Prop) :
  Forall (fun r => is_Some (v_tab v order_line !! r)) rids -> (length (v_held v) <= GUARDS)%nat ->
  (forall v', lines_changed v (stamp_lines time (v_tab v order_line) rids) v' ->
     Q (Some (Ok (total (v_tab v order_line) rids sum))) v') ->
  (forall e n v', locked_out WriteLockBusy e -> (n < length rids)%nat ->
     lines_changed v (stamp_lines time (v_tab v order_line) (take n rids)) v' -> Q (Some (Err e)) v') ->
  vwp (deliver_lines time rids sum) v Q.
Proof.
  revert sum v Q. induction rids as [|r rids IH]; intros sum v Q Hr Hl HQ He; [by apply HQ|].
  apply Forall_cons in Hr as [[x Hx] Hr]. cbn [deliver_lines].
  eapply vwp_lock_w; [done|done| |intros e Hle; apply (He e 0%nat); [done|simpl; lia|done]].
  eapply vwp_promote_record; [by left|done|]. intros Hat.
  eapply vwp_put_int; [done|by vm_compute|]. intros v1 (Ht & Ho & Hi & Hj & _ & Hh) Hat1.
  simpl in Ht, Ho, Hi, Hj, Hh.
  eapply vwp_get_int; [done|by vm_compute|]. columns.
  apply vwp_drop; [rewrite Hh; by left|].
  assert (Halter : alter (put_column order_line "ol_delivery_d" 8 time) r (v_tab v order_line) = v_tab v1 order_line).
  { rewrite Ht. apply map_eq. intros r'. destruct (decide (r = r')) as [->|].
    - by rewrite lookup_alter_eq, lookup_insert_eq, Hx.
    - by rewrite lookup_alter_ne, lookup_insert_ne. }
  assert (Hheld : pull (order_line, r, true) (v_held v1) = v_held v)
    by (rewrite Hh; cbn [pull]; by rewrite decide_True).
  assert (Hchg : forall M v', lines_changed (v_locked v1 order_line (pull (order_line, r, true) (v_held v1))) M v' ->
            lines_changed v M v').
  { intros M v' (H1' & H2' & H3' & H4' & H5'). simpl in *. split; [done|].
    split; [intros; rewrite H2', Ho by done; done|]. split; [congruence|]. split; [congruence|]. by rewrite H5'. }
  apply IH.
  - eapply Forall_impl; [done|]. intros r'. simpl. rewrite <-Halter. rewrite lookup_alter_is_Some. done.
  - simpl. by rewrite Hheld.
  - intros v' Hv'. simpl in Hv' |- *. rewrite <-Halter in Hv' |- *. rewrite total_stamped.
    assert (Ha : column OrderLineTuple "ol_amount" x = amount (v_tab v order_line) r)
      by (unfold amount; by rewrite Hx).
    rewrite Ha. apply (HQ v'), Hchg. done.
  - intros e n v' Hle Hn Hv'. apply (He e (Datatypes.S n)); [done|simpl; lia|]. apply Hchg. simpl in Hv' |- *.
    by rewrite <-Halter in Hv'.
Qed.

(** ** One district *)
Definition delivery_ok (i : DeliveryInput) : Prop := 0 <= l_w_id i < 2 ^ 16 /\ 0 <= l_carrier_id i < 2 ^ 64.

Definition customers_count v : Prop :=
  forall r x, v_tab v customer !! r = Some x ->
    length x = size_of_table customer /\ 0 <= column CustomerTuple "c_delivery_cnt" x < 2 ^ 32 - 1.

(** The customer who gets the order. *)
Definition credited (sum : Z) (x : obj) : obj :=
  let x := put_column customer "c_balance" 8 (f64_add (column CustomerTuple "c_balance" x) sum) x in
  put_column customer "c_delivery_cnt" 4 (column CustomerTuple "c_delivery_cnt" x + 1) x.

(** The order that key [key] of the new-order index announces. *)
Definition announced (i : DeliveryInput) (d_id key : Z) v (o : Rid) (x_o : obj) : Prop :=
  exists ok, Order_make_key (l_w_id i) d_id (o_c_id_from_key key).2 (o_c_id_from_key key).1 = Ret ok /\
    index_get (v_index v order) ok = Some o /\ v_tab v order !! o = Some x_o.

Definition order_rids (i : DeliveryInput) (d_id key : Z) v : list Rid :=
  let low := l_w_id i * 2 ^ 48 + d_id * 2 ^ 40 + (o_c_id_from_key key).1 * 2 ^ 20 in
  snd <$> ix_range (v_index v order_line) low (low + ITEM_SCALE) 20.

Definition delivered (i : DeliveryInput) (time d_id key : Z) v v' : Prop :=
  exists o x_o ck c x_c,
    let rids := order_rids i d_id key v in
    announced i d_id key v o x_o /\
    v_tab v' order = <[o := put_column order "o_carrier_id" 8 (l_carrier_id i) x_o]> (v_tab v order) /\
    v_tab v' order_line = stamp_lines time (v_tab v order_line) rids /\
    Customer_make_key (l_w_id i) d_id (o_c_id_from_key key).2 = Ret ck /\
    index_get (v_index v customer) ck = Some c /\ v_tab v customer !! c = Some x_c /\
    v_tab v' customer = <[c := credited (total (v_tab v order_line) rids f64_zero) x_c]> (v_tab v customer) /\
    (forall t, t ∉ [order; order_line; customer] -> v_tab v' t = v_tab v t) /\
    (forall t, v_index v' t = v_index v t) /\ v_idx v' c_last_idx = v_idx v c_last_idx.

(** What a failed attempt leaves: nothing, if the order cannot be locked; else the
    order has its carrier, and the lines before one that is locked are stamped,
    or all of them if the customer is. *)
Definition half_delivered (i : DeliveryInput) (time d_id key : Z) v (e : TransactionError) v' : Prop :=
  (forall t, v_index v' t = v_index v t) /\ v_idx v' c_last_idx = v_idx v c_last_idx /\
  exists ok, Order_make_key (l_w_id i) d_id (o_c_id_from_key key).2 (o_c_id_from_key key).1 = Ret ok /\
    ((refused WriteLockBusy v order ok e /\ forall t, v_tab v' t = v_tab v t) \/
     exists o x_o n,
       let rids := order_rids i d_id key v in
       index_get (v_index v order) ok = Some o /\ v_tab v order !! o = Some x_o /\
       v_tab v' order = <[o := put_column order "o_carrier_id" 8 (l_carrier_id i) x_o]> (v_tab v order) /\
       v_tab v' order_line = stamp_lines time (v_tab v order_line) (take n rids) /\
       (forall t, t ∉ [order; order_line] -> v_tab v' t = v_tab v t) /\
       (((n < length rids)%nat /\ locked_out WriteLockBusy e) \/
        (n = length rids /\ exists ck, Customer_make_key (l_w_id i) d_id (o_c_id_from_key key).2 = Ret ck /\
           refused WriteLockBusy v customer ck e))).

Definition withdrawn (key : Z) v v' : Prop :=
  v_idx v' new_order_idx = ix_remove (v_idx v new_order_idx) key.

Lemma key_parts key : 0 <= key -> 0 <= (o_c_id_from_key key).1 < 2 ^ 16 /\ 0 <= (o_c_id_from_key key).2 < 2 ^ 16.
Proof.
  intros Hk. unfold o_c_id_from_key. cbn [fst snd].
  change 0x00000000ffff0000 with (field_mask 16 16). change 0x000000000000ffff with (field_mask 0 16).
  rewrite !land_field, Z.shiftr_div_pow2 by lia. split; Z.div_mod_to_equations; lia.
Qed.

Lemma deliver_ok i time d_id key v (Q : option (result unit TransactionError) -> view -> Prop) :
  delivery_ok i -> 0 <= d_id < 10 -> 0 <= key -> v_held v = [] -> linked S v -> customers_count v ->
  (forall v', withdrawn key v v' -> delivered i time d_id key v v' -> v_held v' = [] -> Q (Some (Ok tt)) v') ->
  (forall e v', withdrawn key v v' -> half_delivered i time d_id key v e v' -> Q (Some (Err e)) v') ->
  ((exists o x, announced i d_id key v o x /\ column OrderTuple "o_c_id" x <> (o_c_id_from_key key).2) ->
     forall v', Q None v') ->
  vwp (deliver i time d_id key) v Q.
Proof.
  intros [Hw Hcar] Hd Hk Hh Hlink Hcust HQ He Hn. destruct (key_parts key Hk) as [Hoid Hcid].
  unfold deliver. apply vwp_idx_remove.
  unfold announced, delivered, half_delivered, announced, order_rids in HQ, Hn, He.
  destruct (o_c_id_from_key key) as [o_id c_id]. cbn [fst snd] in *.
  set (v0 := v_set_idx _ _ _).
  assert (Hw0 : forall v', (forall j, v_idx v' j = v_idx v0 j) -> withdrawn key v v').
  { intros v' Hj. unfold withdrawn. rewrite Hj. unfold v0. simpl. apply upd_eq. }
  eapply vwp_lift; [apply Order_key_value; lia|].
  assert (Hc0 : v_idx v0 c_last_idx = v_idx v c_last_idx) by (unfold v0; simpl; by rewrite upd_ne).
  apply vwp_write_oid; [simpl; rewrite Hh; unfold GUARDS; simpl; lia| |].
  2: { intros e Hre. apply He; [by apply Hw0|]. split; [done|]. split; [exact Hc0|].
       eexists. split; [apply Order_key_value; lia|]. left. by split. }
  intros o x_o Hio Hxo. simpl in Hio, Hxo.
  eapply vwp_read_record; [by left|done|]. intros Hat.
  eapply vwp_put_int; [done|by vm_compute|]. intros v1 (Ht1 & Ho1 & Hi1 & Hj1 & _ & Hh1) Hat1.
  simpl in Ht1, Ho1, Hi1, Hh1. rewrite Hh in Hh1.
  eapply vwp_get_int; [done|by vm_compute|]. columns. change (tuple_of order) with OrderTuple in *.
  destruct (Z.eqb_spec (column OrderTuple "o_c_id" x_o) c_id) as [Hcc|Hne].
  2: { simpl. apply Hn. exists o, x_o. split; [|done]. eexists. split; [apply Order_key_value; lia|done]. }
  rewrite Hcc. eapply vwp_lift; [done|].
  eapply vwp_lift; [apply OrderLine_key_value; lia|].
  eapply vwp_lift; [apply OrderLine_key_value; unfold ITEM_SCALE; lia|]. rewrite Z.add_0_r.
  apply vwp_range. rewrite Hi1. apply vwp_bind.
  set (rids := snd <$> _).
  assert (Hj1' : forall j, v_idx v1 j = v_idx v0 j) by done.
  apply deliver_lines_ok.
  { apply Forall_forall. intros r Hr. rewrite Ho1 by done. by eapply range_linked. }
  { rewrite Hh1. unfold GUARDS. simpl. lia. }
  2: { intros e n v' Hle Hlt (Htl & Hol & Hil & Hj & _).
       apply He; [apply Hw0; intros j; by rewrite Hj|]. split; [intros t; by rewrite Hil, Hi1|].
       split; [by rewrite Hj|]. eexists. split; [apply Order_key_value; lia|]. right.
       exists o, x_o, n. split; [done|]. split; [done|]. split; [by rewrite Hol|].
       split; [by rewrite Htl, Ho1|]. split; [|left; by split].
       intros t Hn'. rewrite Hol, Ho1 by other_table. done. }
  intros v2 (Ht2 & Ho2 & Hi2 & Hj2 & Hh2).
  eapply vwp_lift; [unfold Customer_make_key; key_value|].
  apply vwp_write_oid; [rewrite Hh2, Hh1; unfold GUARDS; simpl; lia| |].
  2: { intros e Hre. apply He; [apply Hw0; intros j; simpl; by rewrite Hj2, Hj1'|].
       split; [intros t; simpl; by rewrite Hi2, Hi1|]. split; [simpl; by rewrite Hj2|].
       eexists. split; [apply Order_key_value; lia|]. right. exists o, x_o, (length rids).
       split; [done|]. split; [done|]. split; [simpl; by rewrite Ho2|].
       split; [simpl; rewrite Ht2, Ho1, take_ge by done; done|].
       split; [intros t Hn'; simpl; rewrite Ho2, Ho1 by other_table; done|].
       right. split; [done|]. eexists. split; [unfold Customer_make_key; key_value|].
       unfold refused in *. by rewrite Hi2, Hi1 in Hre. }
  intros c x_c Hic Hxc. rewrite Hi2, Hi1 in Hic. rewrite Ho2, Ho1 in Hxc by done.
  destruct (Hcust _ _ Hxc) as [Hlc Hcnt]. change CustomerTuple with (tuple_of customer) in Hcnt.
  eapply vwp_promote_record; [by left|simpl; by rewrite Ho2, Ho1|]. intros Hatc.
  eapply vwp_add_f64; [done|by vm_compute|]. intros v3 Hv3 Hat3.
  eapply vwp_add_int; [done|by vm_compute|columns; split; [lia|change (2 ^ (8 * Z.of_nat 4)) with (2 ^ 32); lia]|].
  intros v4 Hv4 Hat4. pose proof (written_trans _ _ _ _ _ _ _ Hv3 Hv4) as (Ht4 & Ho4 & Hi4 & Hj4 & _ & Hh4).
  simpl in Ht4, Ho4, Hi4, Hj4, Hh4. rewrite Hh2, Hh1 in Hh4.
  apply vwp_drop; [rewrite Hh4; by left|]. cbn [v_held v_locked]. rewrite Hh4. cbn [pull]. rewrite decide_True by done.
  split; [by left|]. intros [] v' ->.
  apply HQ; [apply Hw0; intros j; simpl; by rewrite Hj4, Hj2| |simpl; by rewrite decide_True].
  rewrite Ho1 in Ht2 by done.
  exists o, x_o. eexists. exists c, x_c. split; [eexists; split; [apply Order_key_value; lia|done]|].
  split; [simpl; rewrite Ho4, Ho2 by done; done|]. split; [simpl; rewrite Ho4 by done; exact Ht2|].
  split; [unfold Customer_make_key; key_value|]. split; [done|]. split; [done|].
  split; [simpl; rewrite Ht4, (Ho2 customer), (Ho1 customer), (Ho1 order_line) by done; done|].
  split; [intros t Hn'; simpl; rewrite Ho4, Ho2, Ho1 by other_table; done|].
  split; [intros t; simpl; by rewrite Hi4, Hi2, Hi1|]. simpl. rewrite Hj4, Hj2, Hj1'. unfold v0. simpl. by rewrite upd_ne.
Qed.

(** ** All districts *)

(** The keys of a district's new orders, by order and customer. *)
Definition no_key (i : DeliveryInput) (d_id o_id c_id : Z) : Z :=
  l_w_id i * 2 ^ 48 + d_id * 2 ^ 32 + o_id * 2 ^ 16 + c_id.

(** The scan for the oldest new order. *)
Definition new_orders (i : DeliveryInput) (d_id : Z) v : list (Z * Rid) :=
  ix_range (v_idx v new_order_idx) (no_key i d_id 0 0) (no_key i d_id u16_MAX u16_MAX) 1.

(** [key] announces the district's oldest new order: no other has a smaller key,
    which begins with the order's number. *)
Definition oldest (i : DeliveryInput) (d_id : Z) v (key : Z) : Prop :=
  is_Some (index_get (v_idx v new_order_idx) key) /\
  no_key i d_id 0 0 <= key <= no_key i d_id u16_MAX u16_MAX /\
  forall k, no_key i d_id 0 0 <= k < key -> index_get (v_idx v new_order_idx) k = None.

Definition no_new_order (i : DeliveryInput) (d_id : Z) v : Prop :=
  forall k, no_key i d_id 0 0 <= k < no_key i d_id u16_MAX u16_MAX -> index_get (v_idx v new_order_idx) k = None.

(** A delivery over the districts [ds]: it ends, without an error, at the first
    district that has no new order; an error ends it with that district's order
    withdrawn and perhaps half delivered, and those before it delivered. *)
Inductive proceeded (i : DeliveryInput) (time : Z) : list Z -> view -> result unit TransactionError -> view -> Prop :=
| proceeded_all v v' : unchanged v v' -> proceeded i time [] v (Ok tt) v'
| proceeded_none d ds v v' : no_new_order i d v -> unchanged v v' -> proceeded i time (d :: ds) v (Ok tt) v'
| proceeded_next d ds key v v1 r v' :
    oldest i d v key -> withdrawn key v v1 -> delivered i time d key v v1 ->
    proceeded i time ds v1 r v' -> proceeded i time (d :: ds) v r v'
| proceeded_error d ds key err v v' :
    oldest i d v key -> withdrawn key v v' -> half_delivered i time d key v err v' ->
    proceeded i time (d :: ds) v (Err err) v'.

Lemma half_delivered_unchanged i time d key v e v1 v2 :
  half_delivered i time d key v e v1 -> unchanged v1 v2 -> half_delivered i time d key v e v2.
Proof using Type.
  intros (Hi & Hc & ok & Hok & Hh) (F1 & F2 & F3). split; [intros t; by rewrite F2|]. split; [by rewrite F3|].
  exists ok. split; [done|]. destruct Hh as [[Hr Ht]|(o & x & n & H1' & H2' & H3' & H4' & H5' & H6')].
  - left. split; [done|]. intros t. by rewrite F1.
  - right. exists o, x, n. cbv zeta in *. rewrite !F1. split_and!; try done. intros t Hn. rewrite F1. by apply H5'.
Qed.

Lemma proceeded_unchanged i time ds v r v1 v2 :
  proceeded i time ds v r v1 -> unchanged v1 v2 -> proceeded i time ds v r v2.
Proof using Type.
  assert (Htrans : forall a b c : view, unchanged a b -> unchanged b c -> unchanged a c).
  { intros a b c (E1 & E2 & E3) (F1 & F2 & F3). split; [|split]; intros; congruence. }
  induction 1 as [v v'|d ds v v'|d ds key v u r v' ? ? ? ? IH|d ds key err v v' ? Hw Hd]; intros Hu.
  - constructor. by eapply Htrans.
  - apply proceeded_none; [done|]. by eapply Htrans.
  - eapply proceeded_next; [done|done|done|by apply IH].
  - eapply proceeded_error; [done| |by eapply half_delivered_unchanged].
    unfold withdrawn in *. destruct Hu as (_ & _ & Hj). by rewrite Hj.
Qed.

(** Customers who can be credited [n] times. *)
Definition counts (n : Z) v : Prop :=
  forall r x, v_tab v customer !! r = Some x ->
    length x = size_of_table customer /\ 0 <= column CustomerTuple "c_delivery_cnt" x < 2 ^ 32 - n.

Lemma stamp_some time M rids r : is_Some (stamp_lines time M rids !! r) <-> is_Some (M !! r).
Proof using Type.
  revert M. induction rids as [|r' rids IH]; intros M; [done|].
  change (is_Some (stamp_lines time (alter (put_column order_line "ol_delivery_d" 8 time) r' M) rids !! r) <-> is_Some (M !! r)).
  by rewrite IH, lookup_alter_is_Some.
Qed.

Lemma stamp_length time M rids n :
  (forall r x, M !! r = Some x -> length x = n) -> forall r x, stamp_lines time M rids !! r = Some x -> length x = n.
Proof using Type.
  revert M. induction rids as [|r' rids IH]; intros M Hn; [exact Hn|]. simpl. apply IH. intros r x.
  destruct (decide (r' = r)) as [->|Hne]; [|rewrite lookup_alter_ne by done; apply Hn].
  rewrite lookup_alter_eq. intros (y & Hy & ->)%fmap_Some. rewrite length_put_column. by eapply Hn.
Qed.

Lemma delivered_linked i time d key v v' : delivered i time d key v v' -> linked S v -> linked S v'.
Proof using Type.
  intros (o & x_o & ck & c & x_c & (ok & _ & _ & Ho) & Eo & El & _ & _ & Hc & Ec & Et & Ei & _) [H1' H2']. cbv zeta in *.
  assert (Hdom : forall t r, is_Some (v_tab v t !! r) -> is_Some (v_tab v' t !! r)).
  { intros t r Hr. destruct (decide (t = order)) as [->|]; [rewrite Eo, lookup_insert_is_Some'; by right|].
    destruct (decide (t = order_line)) as [->|]; [by rewrite El, stamp_some|].
    destruct (decide (t = customer)) as [->|]; [rewrite Ec, lookup_insert_is_Some'; by right|].
    by rewrite Et by (rewrite !elem_of_cons, elem_of_nil; intuition). }
  split; [intros t k r; rewrite Ei; intros Hk; eapply Hdom, H1'; exact Hk|].
  intros t r x. destruct (decide (t = order)) as [->|].
  { rewrite Eo. destruct (decide (o = r)) as [->|]; [|rewrite lookup_insert_ne by done; apply H2'].
    rewrite lookup_insert_eq. intros [= <-]. rewrite length_put_column. by eapply H2'. }
  destruct (decide (t = order_line)) as [->|]; [rewrite El; apply stamp_length, H2'|].
  destruct (decide (t = customer)) as [->|].
  { rewrite Ec. destruct (decide (c = r)) as [->|]; [|rewrite lookup_insert_ne by done; apply H2'].
    rewrite lookup_insert_eq. intros [= <-]. unfold credited. rewrite !length_put_column. by eapply H2'. }
  rewrite Et by (rewrite !elem_of_cons, elem_of_nil; intuition). apply H2'.
Qed.

Lemma delivered_counts i time d key n v v' :
  delivered i time d key v v' -> 0 <= n < 2 ^ 31 -> counts (n + 1) v -> counts n v'.
Proof using Type.
  intros (o & x_o & ck & c & x_c & _ & _ & _ & _ & _ & Hc & Ec & _) Hn Hcnt r x. cbv zeta in *. rewrite Ec.
  destruct (decide (c = r)) as [->|].
  - rewrite lookup_insert_eq. intros [= <-]. destruct (Hcnt _ _ Hc) as [Hl Hx]. unfold credited.
    rewrite !length_put_column. split; [done|]. change CustomerTuple with (tuple_of customer) in *. columns. lia.
  - rewrite lookup_insert_ne by done. intros Hr. destruct (Hcnt _ _ Hr) as [Hl Hx]. split; [done|lia].
Qed.

(** The customers of the orders. *)
Definition same_owners v0 v : Prop :=
  (forall t, v_index v t = v_index v0 t) /\
  forall o x, v_tab v order !! o = Some x -> exists x0, v_tab v0 order !! o = Some x0 /\
    column OrderTuple "o_c_id" x0 = column OrderTuple "o_c_id" x.

Lemma delivered_owners i time d key v v' v0 :
  delivered i time d key v v' -> linked S v -> same_owners v0 v -> same_owners v0 v'.
Proof using TS.
  intros (o & x_o & ck & c & x_c & (ok & _ & _ & Ho) & Eo & _ & _ & _ & _ & _ & _ & Ei & _) [_ Hlen] [H1' H2']. cbv zeta in *.
  split; [intros t; by rewrite Ei|]. intros o' x. rewrite Eo. destruct (decide (o = o')) as [<-|].
  - rewrite lookup_insert_eq. intros [= <-]. destruct (H2' _ _ Ho) as (x0 & Hx0 & E0). exists x0. split; [done|].
    rewrite E0. pose proof (Hlen order _ _ Ho) as Hl. change OrderTuple with (tuple_of order). columns. done.
  - rewrite lookup_insert_ne by done. apply H2'.
Qed.

(** An announced order that is not of the customer in its key. *)
Definition misannounced (i : DeliveryInput) v : Prop :=
  exists d key o x, 0 <= d < 10 /\ 0 <= key /\ announced i d key v o x /\ column OrderTuple "o_c_id" x <> (o_c_id_from_key key).2.

Lemma misannounced_owners i v0 v d key o x :
  same_owners v0 v -> 0 <= d < 10 -> 0 <= key -> announced i d key v o x ->
  column OrderTuple "o_c_id" x <> (o_c_id_from_key key).2 -> misannounced i v0.
Proof using Type.
  intros [H1' H2'] Hd Hk (ok & Ek & Ho & Hx) Hne. destruct (H2' _ _ Hx) as (x0 & Hx0 & E).
  exists d, key, o, x0. split; [done|]. split; [done|]. split; [|congruence]. exists ok. rewrite <-H1'. done.
Qed.

Lemma deliver_districts_ok i time ds v0 v (Q : option (result unit TransactionError) -> view -> Prop) :
  delivery_ok i -> Forall (fun d => 0 <= d < 10) ds -> (length ds <= 10)%nat -> v_held v = [] -> linked S v ->
  counts (1 + Z.of_nat (length ds)) v -> same_owners v0 v ->
  (forall r v', proceeded i time ds v r v' -> Q (Some r) v') -> (misannounced i v0 -> forall v', Q None v') ->
  vwp (deliver_districts i time ds) v Q.
Proof.
  intros Hi Hds. pose proof Hi as [Hw _]. revert v Q. induction Hds as [|d ds Hd Hds IH]; intros v Q Hlen Hh Hl Hc Ho HQ Hn.
  { apply HQ. by constructor. }
  cbn [deliver_districts]. cbn [length] in Hlen, Hc.
  eapply vwp_lift; [apply NewOrder_key_value; lia|].
  eapply vwp_lift; [apply NewOrder_key_value; lia|].
  apply vwp_idx_range. fold (no_key i d 0 0) (no_key i d u16_MAX u16_MAX). fold (new_orders i d v).
  pose proof (ix_range_length (v_idx v new_order_idx) (no_key i d 0 0) (no_key i d u16_MAX u16_MAX) 1) as Hone.
  fold (new_orders i d v) in Hone.
  destruct (new_orders i d v) as [|[key r] [|]] eqn:En; [| |simpl in Hone; lia].
  { apply HQ, proceeded_none; [|done]. intros k Hk. by apply (ix_range_none _ _ _ 1 k En); [lia|]. }
  assert (Hold : oldest i d v key).
  { destruct (ix_range_least _ _ _ _ _ _ En) as (Hg & Hb & Hlt). split; [by eexists|done]. }
  assert (Hkey : 0 <= key) by (destruct Hold as (_ & Hb & _); unfold no_key in Hb; lia).
  apply vwp_bind. cbn [fst]. apply deliver_ok; [done|done|done|done|done| | | |].
  - intros r' x Hx. destruct (Hc _ _ Hx) as [Hlx Hcx]. split; [done|lia].
  - intros v1 Hw1 Hd1 Hh1. apply IH; [lia|done|by eapply delivered_linked| | | |exact Hn].
    + eapply (delivered_counts i time d key); [exact Hd1|lia|]. by replace (1 + Z.of_nat (length ds) + 1) with (1 + Z.of_nat (Datatypes.S (length ds))) by lia.
    + by eapply delivered_owners.
    + intros r' v' Hp. apply HQ. eapply (proceeded_next i time d ds key); [exact Hold|exact Hw1|exact Hd1|exact Hp].
  - intros e v' Hw' Hhd. apply HQ. by apply (proceeded_error i time d ds key).
  - intros (o & x & Ha & Hne) v'. apply Hn. by eapply misannounced_owners.
Qed.
End delivery.
