(* ===== verification/TpccDemo.v ===== *)
(** * A small TPC-C database

    One warehouse on abstract tables (SpecTable.v): the transactions run on it,
    and it meets what their theorems ask of a database. *)

From Stdlib Require Import QArith.
From S2P Require Import Prelude Query Schema Layout External CacheMachine Table Guarded Txn TxnView SpecTable Float64.
From S2P Require Import TpccTables TpccSchemas TpccUtils TpccTxn TpccView NewOrder.
Open Scope string_scope.
Open Scope Z_scope.

Abbreviation tree := (Art (gmap Z Rid)).
Abbreviation small_db := (Txn.db tbl index_name tree (SpecTable tree) Rid).

Definition small_ops (t : tbl) : GuardedTable tree (SpecTable tree) Rid :=
  @SpecTable_guarded tree _ _ (tuple_schemas t).

Definition small_laws (t : tbl) :
    @GuardedTableLaws (tuple_schemas t) (tpcc_columns t) (tpcc_written t) tree (SpecTable tree) Rid _ _ (small_ops t) :=
  SpecTable_laws.

(** ** Databases whose locks are all free *)
Definition all_tables : list tbl := [warehouse; district; customer; item; stock; order; order_line].

Lemma all_tables_all t : t ∈ all_tables.
Proof. unfold all_tables. destruct t; set_solver. Qed.

(** Record ids are in range, locks free, tuples of their size, and the index
    of the table points to records. *)
Definition table_ok (t : tbl) (tb : SpecTable tree) : bool :=
  forallb (fun p : Rid * (obj * Z) => (0 <=? p.1) && (p.1 <? u32_MAX) && (p.2.2 =? 0) &&
             bool_decide (length p.2.1 = size_of_table t)) (map_to_list (st_recs tb)) &&
  forallb (fun p : Z * Rid => bool_decide (is_Some (st_recs tb !! p.2))) (map_to_list (art (st_index tb))).

Definition db_ok (s : small_db) : bool := forallb (fun t => table_ok t (db_tabs s t)) all_tables.

Definition small_adb (s : small_db) : adb tbl index_name tree :=
  mkAdb (fun t => st_recs (db_tabs s t)) (fun t => st_index (db_tabs s t)) (db_idx s) (fun _ => None) [].

Definition small_view (s : small_db) : view tbl index_name tree :=
  mkView (fun t => fst <$> st_recs (db_tabs s t)) (fun t => st_index (db_tabs s t)) (db_idx s) (fun _ => None) [].

Lemma table_ok_spec t tb :
  table_ok t tb = true ->
  (forall r x n, st_recs tb !! r = Some (x, n) -> Rid_ok r /\ n = 0 /\ length x = size_of_table t) /\
  (forall k r, index_get (st_index tb) k = Some r -> is_Some (st_recs tb !! r)).
Proof.
  unfold table_ok. rewrite andb_true_iff. intros [Hr Hk]. split.
  - intros r x n Hx%elem_of_map_to_list. pose proof (forallb_elem _ _ _ Hr Hx) as H. simpl in H.
    rewrite !andb_true_iff, Z.leb_le, Z.ltb_lt, Z.eqb_eq, bool_decide_eq_true in H.
    unfold Rid_ok. tauto.
  - intros k r Hg. simpl in Hg. unfold Art_get in Hg. simpl in Hg.
    destruct (art (st_index tb) !! k) as [r'|] eqn:E; [|done]. simpl in Hg. simplify_eq.
    apply elem_of_map_to_list in E. pose proof (forallb_elem _ _ _ Hk E) as H. by apply bool_decide_eq_true in H.
Qed.

Lemma small_at_rest s :
  db_ok s = true -> db_held s = [] -> (forall t, db_cur s t = None) ->
  at_rest small_ops tuple_schemas tpcc_columns tpcc_written small_laws s (small_adb s) (small_view s).
Proof.
  intros Hok Hh Hc.
  assert (Ht : forall t, table_ok t (db_tabs s t) = true) by (intros t; apply (forallb_elem _ _ t Hok), all_tables_all).
  split; [|split; [|done]].
  - split; [|split; [done|split; [done|]]].
    + intros t. destruct (table_ok_spec _ _ (Ht t)) as [Hr _]. split; [|split; [done|by rewrite Hc]].
      split; [done|]. intros r [[x n] Hx]. by eapply Hr.
    + intros t r. simpl. destruct (st_recs (db_tabs s t) !! r) as [[x n]|] eqn:E; [|done].
      destruct (table_ok_spec _ _ (Ht t)) as [Hr _]. destruct (Hr _ _ _ E) as (_ & -> & _). left. lia.
  - split; [done|]. split; [|split].
    + intros t r. simpl. destruct (st_recs (db_tabs s t) !! r) as [[x n]|] eqn:E; [|done].
      destruct (table_ok_spec _ _ (Ht t)) as [Hr _]. destruct (Hr _ _ _ E) as (_ & -> & _). left. lia.
    + intros t r l. unfold others_lock. simpl. destruct (st_recs (db_tabs s t) !! r) as [[x n]|] eqn:E; [|done].
      destruct (table_ok_spec _ _ (Ht t)) as [Hr _]. destruct (Hr _ _ _ E) as (_ & -> & _).
      simpl. intros [= <-]. unfold READERS. lia.
    + split.
      * intros t k r Hk. simpl in Hk |- *. rewrite lookup_fmap, fmap_is_Some.
        destruct (table_ok_spec _ _ (Ht t)) as [_ Hi]. by eapply Hi.
      * intros t r x. simpl. rewrite lookup_fmap.
        destruct (st_recs (db_tabs s t) !! r) as [[y n]|] eqn:E; [|done]. intros [= <-].
        destruct (table_ok_spec _ _ (Ht t)) as [Hr _]. destruct (Hr _ _ _ E) as (_ & _ & ->).
        by destruct t.
Qed.

(** ** The database *)
Definition load_table (t : tbl) (xs : list obj) : SpecTable tree :=
  mkSpec
    (mkArt (list_to_map (imap (fun n x => (match key_of t x with Ret k => k | _ => 0 end, Z.of_nat n)) xs)))
    (list_to_map (imap (fun n x => (Z.of_nat n, (x, 0))) xs)).

Definition small_rows (t : tbl) : list obj :=
  match t with
  | warehouse => [tuple WarehouseTuple [("w_id", word 1); ("w_ytd", word (f64_of_int 300))]]
  | district => [tuple DistrictTuple [("d_id", word 2); ("d_w_id", word 1); ("d_ytd", word (f64_of_int 40));
                   ("d_next_o_id", word 3000)]]
  | customer => [tuple CustomerTuple [("c_id", word 5); ("c_d_id", word 2); ("c_w_id", word 1);
                   ("c_middle", as_bytes "OE"); ("c_credit", as_bytes "BC");
                   ("c_discount", word 0x3fd0000000000000); ("c_balance", word (f64_of_int 10))]]
  | item => (fun i => tuple ItemTuple [("i_id", word i); ("i_price", word (f64_of_int (2 * i)))]) <$> [7; 8; 9]
  | stock => (fun p : Z * Z => tuple StockTuple [("s_i_id", word p.1); ("s_w_id", word 1); ("s_quantity", word p.2)])
               <$> [(7, 20); (8, 12); (9, 100)]
  | order => [tuple OrderTuple [("o_id", word 2999); ("o_c_id", word 5); ("o_d_id", word 2); ("o_w_id", word 1)]]
  | order_line => [tuple OrderLineTuple [("ol_o_id", word 2999); ("ol_d_id", word 2); ("ol_w_id", word 1);
                     ("ol_i_id", word 8); ("ol_amount", word (f64_of_int 30))]]
  end.

(** The keys of the two indexes without a table. *)
Definition small_name_key : Z := 1 * 2 ^ 48 + 2 * 2 ^ 32 + 77 * 2 ^ 16 + 5.
Definition small_order_key : Z := 1 * 2 ^ 48 + 2 * 2 ^ 32 + 2999 * 2 ^ 16 + 5.

Definition small : small_db :=
  mkDb (fun t => load_table t (small_rows t))
    (fun j => match j with
              | c_last_idx => mkArt {[small_name_key := 0]}
              | new_order_idx => mkArt {[small_order_key := small_order_key]}
              end)
    (fun _ => None) [].

Lemma small_ok : db_ok small = true.
Proof. vm_compute. reflexivity. Qed.

Lemma small_rest :
  at_rest small_ops tuple_schemas tpcc_columns tpcc_written small_laws small (small_adb small) (small_view small).
Proof. apply small_at_rest; [apply small_ok|done|done]. Qed.

(** No disturbed exchange anywhere. *)
Definition calm (n : nat) : draws := mkDraws 0 0 0 0 0 (fun _ => (false, false)).

(** A column of a record, and whether its lock is free. *)
Definition cell (s : small_db) (t : tbl) (r : Rid) (name : string) : option (Z * bool) :=
  p ← st_recs (db_tabs s t) !! r;
  Some (column (tuple_of t) name p.1, p.2 =? 0).

(** ** Runs *)
Definition two_items : NewOrderInput :=
  mkNewOrder 1 2 5 2 (mkOrderItem 7 1 3 :: mkOrderItem 8 1 6 :: replicate 13 (mkOrderItem 0 0 1)) 1000 true.

Example new_order_run :
  match transact small_ops (new_order two_items) calm small with
  | Ret (r, s) =>
      r = Ok tt /\
      cell s district 0 "d_next_o_id" = Some (3001, true) /\
      cell s stock 0 "s_quantity" = Some (17, true) /\ cell s stock 1 "s_quantity" = Some (97, true) /\
      cell s stock 1 "s_ytd" = Some (6, true) /\
      cell s order 1 "o_id" = Some (3000, true) /\
      cell s order_line 1 "ol_amount" = Some (f64_of_int 42, true) /\
      cell s order_line 2 "ol_number" = Some (1, true)
  | _ => False
  end.
Proof. vm_compute. repeat split. Qed.

(** An item that does not exist: nothing is left of the attempt. *)
Definition missing_item : NewOrderInput :=
  mkNewOrder 1 2 5 2 (mkOrderItem 7 1 3 :: mkOrderItem 100001 1 6 :: replicate 13 (mkOrderItem 0 0 1)) 1000 true.

Example new_order_abort_run :
  match transact small_ops (new_order missing_item) calm small with
  | Ret (r, s) => r = Err UserAbort /\ db_tabs s stock = db_tabs small stock /\
                  cell s district 0 "d_next_o_id" = Some (3000, true)
  | _ => False
  end.
Proof. vm_compute. repeat split. Qed.

Definition pay (c : CustomerQuery) : PaymentInput := mkPayment 1 2 1 2 c (f64_of_int 4) 1000.

Example payment_run :
  match transact small_ops (payment (pay (LastName 77))) calm small with
  | Ret (r, s) =>
      r = Ok tt /\
      cell s warehouse 0 "w_ytd" = Some (f64_of_int 304, true) /\
      cell s district 0 "d_ytd" = Some (f64_of_int 44, true) /\
      cell s customer 0 "c_balance" = Some (f64_of_int 6, true) /\
      cell s customer 0 "c_payment_cnt" = Some (1, true)
  | _ => False
  end.
Proof. vm_compute. repeat split. Qed.

Example delivery_run :
  match transact small_ops (deliver (mkDelivery 1 9) 2000 2 small_order_key) calm small with
  | Ret (r, s) =>
      r = Ok tt /\
      cell s order 0 "o_carrier_id" = Some (9, true) /\
      cell s order_line 0 "ol_delivery_d" = Some (2000, true) /\
      cell s customer 0 "c_balance" = Some (f64_of_int 40, true) /\
      db_idx s new_order_idx = mkArt ∅
  | _ => False
  end.
Proof. vm_compute. repeat split. Qed.

Example order_status_run :
  match transact small_ops (order_status (mkOrderStatus 1 2 (Id 5))) calm small with
  | Ret (r, s) => r = Ok tt /\ db_tabs s order = db_tabs small order
  | _ => False
  end.
Proof. vm_compute. repeat split. Qed.

Example stock_level_run :
  match transact small_ops (stock_level (mkStockLevel 1 2 15)) calm small with
  | Ret (r, s) => r = Ok tt /\ db_tabs s stock = db_tabs small stock
  | _ => False
  end.
Proof. vm_compute. repeat split. Qed.
