(* ===== verification/TpccRuns.v ===== *)
(** * What runs of the TPC-C transactions do

    The theorems of the transactions, for every run on any tables that keep
    the promises of Guarded.v ([DbTable] among them), and a small database on
    which each applies. *)

From Stdlib Require Import QArith.
From S2P Require Import Prelude Query Schema Layout External CacheMachine Table Guarded Txn TxnView SpecTable Float64.
From S2P Require Import TpccTables TpccSchemas TpccUtils TpccTxn TpccView NewOrder Payment TpccReads Delivery TpccDemo.
Open Scope string_scope.
Open Scope Z_scope.

Section runs.
Context {Ix Tb V : Type} `{DbIndexLaws Ix} `{!RangeIndex Ix} `{!RangeIndexLaws Ix}.
Context (ops : tbl -> GuardedTable Ix Tb V) (S : tbl -> Schema) `{TS : !TpccSchemas S}.
Context (laws : forall t, @GuardedTableLaws (S t) (tpcc_columns t) (tpcc_written t) Ix Tb V _ _ (ops t)).
Abbreviation view := (view tbl index_name Ix).
Implicit Types (v : view) (ds : nat -> draws).

Definition rest (s : Txn.db tbl index_name Ix Tb V) (a : adb tbl index_name Ix) v : Prop :=
  at_rest ops S tpcc_columns tpcc_written laws s a v.

(** A run from [s]: it returns a result and tables with property [P], no guard
    left and every lock as before; or it panics, for want of record ids or
    for the reason [C]. *)
Definition run_ok {A} (p : prog tbl index_name A) ds s a
    (P : result A TransactionError -> view -> Prop) (C : Prop) : Prop :=
  (exists r s' a' v', transact ops p ds s = Ret (r, s') /\ rest s' a' v' /\ locks_kept a a' /\ P r v') \/
  (transact ops p ds s = Panic /\ (C \/ runs_out ops S tpcc_columns tpcc_written laws p ds 0 s)).

Lemma run_view {A} (p : prog tbl index_name A) ds s a v Q P (C : Prop) :
  rest s a v -> vwp S tpcc_columns tpcc_written p v Q ->
  (forall r v1 v2, Q (Some r) v1 -> unchanged v1 v2 -> P r v2) -> (forall v1, Q None v1 -> C) ->
  run_ok p ds s a P C.
Proof.
  intros Hs Hp HP HC. unfold run_ok.
  destruct (transact_run ops S tpcc_columns tpcc_written laws p Q ds s a v Hs Hp)
    as [(r & s' & a' & v1 & v2 & E & HQ & Hu & Hr & Hk)|[E [[v1 HQ]|Hout]]].
  - left. exists r, s', a', v2. split; [done|]. split; [done|]. split; [done|]. by eapply HP.
  - right. split; [done|]. left. by eapply HC.
  - right. split; [done|]. by right.
Qed.

Lemma rest_linked s a v : rest s a v -> v_held v = [] /\ linked S v.
Proof. intros (_ & (_ & _ & _ & Hl) & Hh). done. Qed.

Lemma rest_sized t s a v : rest s a v -> sized t v.
Proof. intros Hr r x Hx. apply rest_linked in Hr as [_ [_ Hs]]. unfold size_of_table. rewrite <-ts_size. by eapply Hs. Qed.

Lemma unchanged_trans v v1 v2 : unchanged v v1 -> unchanged v1 v2 -> unchanged v v2.
Proof. intros (E1 & E2 & E3) (F1 & F2 & F3). split; [|split]; intros; congruence. Qed.

Lemma updated_unchanged t g x v v1 v2 : updated v t g x v1 -> unchanged v1 v2 -> updated v t g x v2.
Proof.
  intros (E1 & E2 & E3 & E4) (F1 & F2 & F3). split; [congruence|].
  split; [intros; rewrite F1; by apply E2|]. split; intros; congruence.
Qed.

(** C3: New order is atomic: a run that fails leaves every table and index as it
    found them; a run that succeeds takes the district's next order id,
    inserts one order under it and announces it, reduces the stock of every
    line and records [ol_cnt] lines, and changes nothing else.  It panics only
    for want of record ids, and quantities stay between 10 and 100. *)
Theorem new_order_atomic s a v i ds :
  rest s a v -> input_ok i -> all_stock 0 v -> all_districts v ->
  run_ok (new_order i) ds s a (fun r v' =>
    match r with
    | Ok _ => ordered i v v' /\ all_stock 15 v'
    | Err _ => unchanged v v'
    end) False.
Proof.
  intros Hr Hi Hst Hd. destruct (rest_linked _ _ _ Hr) as [Hh _].
  eapply run_view; [done|by apply new_order_ok| |done].
  intros [[]|e] v1 v2 HQ Hu.
  - destruct HQ as [Ho Hs]. split; [by eapply ordered_unchanged|]. intros r x Hx. eapply Hs.
    destruct Hu as [Hu _]. by rewrite <-Hu.
  - by eapply unchanged_trans.
Qed.

Lemma payment_runs s a v i ds :
  rest s a v -> payment_ok i -> all_customers v -> names_linked v ->
  run_ok (payment i) ds s a (paid i v) (odd_discount i v).
Proof.
  intros Hr Hi Hc Hn. destruct (rest_linked _ _ _ Hr) as [Hh _].
  eapply run_view; [done|apply payment_ok_view; try done; by eapply rest_sized| |done].
  intros r v1 v2 HQ Hu. unfold paid in *. destruct r as [[]|e].
  - destruct HQ as (u1 & u2 & H1 & H2 & [(c & x & h & Hf & Hx & Hc')|(seed & Hs & Hnb & Hu2)]).
    + exists u1, u2. split; [done|]. split; [done|]. left. exists c, x, h. split; [done|]. split; [done|].
      by eapply updated_unchanged.
    + exists u1, u2. split; [done|]. split; [done|]. right. exists seed. split; [done|]. split; [done|].
      by eapply unchanged_trans.
  - destruct HQ as [[He Hu1]|[(u1 & k & H1 & Hk & He & Hu1)|(u1 & u2 & H1 & H2 & He & Hu2)]].
    + left. split; [done|]. by eapply unchanged_trans.
    + right. left. exists u1, k. split; [done|]. split; [done|]. split; [done|]. by eapply unchanged_trans.
    + right. right. exists u1, u2. split; [done|]. split; [done|]. split; [done|]. by eapply unchanged_trans.
Qed.

(** C8: A payment that succeeds adds the amount to the warehouse and the district
    and charges the customer it finds: the one with the id, or of the first
    eight with the last name the middle one; it charges nobody only if no
    customer of the district has the last name.  A payment fails because a
    record it needs is missing or locked; it may have added the amount to the
    warehouse, or to the warehouse and the district, and those updates stay.
    It panics only if the customer it finds has a discount that is not strictly
    between 0 and 0.5. *)
Theorem payment_effect s a v i ds :
  rest s a v -> payment_ok i -> all_customers v -> names_linked v ->
  run_ok (payment i) ds s a (paid i v) (odd_discount i v).
Proof. apply payment_runs. Qed.

(** C24: Stock level reads only, and does not panic where every district has had
    twenty orders. *)
Theorem stock_level_reads s a v i ds :
  rest s a v -> stock_level_ok i -> twenty_orders v -> lines_keyed v ->
  run_ok (stock_level i) ds s a (fun _ v' => unchanged v v') False.
Proof.
  intros Hr Hi H20 Hk. destruct (rest_linked _ _ _ Hr) as [Hh Hl].
  eapply run_view; [done|by apply stock_level_runs| |intros v1 [? _]; done].
  intros r v1 v2 [_ Hu1] Hu. by eapply unchanged_trans.
Qed.

(** C23: Order status reads only; it panics if the customer it finds has no order,
    and a customer looked up by id whose status it returns has one. *)
Theorem order_status_reads s a v i ds :
  rest s a v -> order_status_ok i -> ids_ok v -> names_linked v ->
  run_ok (order_status i) ds s a
    (fun r v' => unchanged v v' /\
       (r = Ok tt -> forall id, os_c_query i = Id id ->
          exists c x, found (os_w_id i) (os_d_id i) (Id id) v c /\ v_tab v customer !! c = Some x /\
            orders_of i v x <> []))
    (exists c x, found (os_w_id i) (os_d_id i) (os_c_query i) v c /\
       v_tab v customer !! c = Some x /\ orders_of i v x = []).
Proof.
  intros Hr Hi Hids Hn. destruct (rest_linked _ _ _ Hr) as [Hh Hl].
  eapply run_view; [done|by apply (order_status_runs S)| |by intros v1 [? _]].
  intros r v1 v2 [HQ Hu1] Hu. split; [by eapply unchanged_trans|]. by intros ->.
Qed.

(** Delivering one district's oldest new order: however the run ends, the order
    is off the new-order index.  A run that succeeds stamps the order and its
    lines and credits the sum of their amounts to the customer; one that fails
    leaves the order unannounced, and at most its carrier and a part of its
    lines written.  It panics only if the
    announced order is not the customer's. *)
Theorem delivery_withdraws s a v i time d_id key ds :
  rest s a v -> delivery_ok i -> 0 <= d_id < 10 -> 0 <= key -> customers_count v ->
  run_ok (deliver i time d_id key) ds s a
    (fun r v' => withdrawn key v v' /\
       match r with Ok _ => delivered i time d_id key v v' | Err e => half_delivered i time d_id key v e v' end)
    (exists o x, announced i d_id key v o x /\ column OrderTuple "o_c_id" x <> (o_c_id_from_key key).2).
Proof.
  intros Hr Hi Hd Hk Hc. destruct (rest_linked _ _ _ Hr) as [Hh Hl].
  set (P := fun (r : result unit TransactionError) v' =>
    withdrawn key v v' /\
    match r with Ok _ => delivered i time d_id key v v' | Err e => half_delivered i time d_id key v e v' end).
  eapply (run_view _ _ _ _ _ (fun r v' => match r with
                                         | Some r => P r v'
                                         | None => _
                                         end)); [done| | |].
  - apply deliver_ok; [done..| | |].
    + intros v' Hw Hd' _. by split.
    + intros e v' Hw Hhd. by split.
    + intros Hx v'. exact Hx.
  - intros r v1 v2 [Hw Hd'] Hu. pose proof Hu as (Ht & Hi' & Hj). split; [unfold withdrawn; rewrite Hj; done|].
    destruct r as [[]|e]; [|by eapply half_delivered_unchanged]. destruct Hd' as (o & x_o & ck & c & x_c & H1).
    exists o, x_o, ck, c, x_c. cbv zeta in *. rewrite !Ht, !Hj. intuition (rewrite ?Ht, ?Hi'; auto).
  - by intros v1.
Qed.

Lemma delivery_runs s a v i time ds :
  rest s a v -> delivery_ok i -> counts 11 v ->
  run_ok (delivery i time) ds s a (fun r v' => proceeded i time (seqZ 0 DISTRICT_SCALE) v r v') (misannounced i v).
Proof.
  intros Hr Hi Hc. destruct (rest_linked _ _ _ Hr) as [Hh Hl].
  eapply (run_view _ _ _ _ _ (fun r v' => match r with
                                         | Some r => proceeded i time (seqZ 0 DISTRICT_SCALE) v r v'
                                         | None => misannounced i v
                                         end)); [done| | |by intros v1].
  - unfold delivery. apply (deliver_districts_ok S i time (seqZ 0 DISTRICT_SCALE) v); [done| |done|done|done|done| |done|done].
    + apply Forall_forall. intros d Hd%elem_of_seqZ. unfold DISTRICT_SCALE in Hd. lia.
    + split; [done|]. intros o x Hx. by exists x.
  - intros r v1 v2 Hp Hu. by eapply proceeded_unchanged.
Qed.

(** C22: A delivery goes through the districts in order: as long as there are new
    orders, each district's oldest one, which has the least key, is withdrawn and
    delivered (the order and its first twenty lines stamped, the sum of their
    amounts credited to the customer).  It ends at the first district without a
    new order, or with the first record that is missing or locked: then the
    districts before are delivered, that district's order is withdrawn, and of
    it either nothing is written or its carrier and a prefix of its lines'
    stamps.  It panics only if an announced order is not its customer's. *)
Theorem delivery_proceeds s a v i time ds :
  rest s a v -> delivery_ok i -> counts 11 v ->
  run_ok (delivery i time) ds s a (fun r v' => proceeded i time (seqZ 0 DISTRICT_SCALE) v r v') (misannounced i v).
Proof. apply delivery_runs. Qed.
End runs.

(** ** The small database meets what the theorems ask for *)
#[export] Instance stock_ok_dec slack x : Decision (stock_ok slack x).
Proof. unfold stock_ok. apply _. Defined.
#[export] Instance district_ok_dec x : Decision (district_ok x).
Proof. unfold district_ok. apply _. Defined.
#[export] Instance customer_ok_dec x : Decision (customer_ok x).
Proof. unfold customer_ok. apply _. Defined.

Lemma rows_all t (P : obj -> Prop) `{!forall x, Decision (P x)} :
  bool_decide (map_Forall (fun _ => P) (v_tab (small_view small) t)) = true ->
  forall r x, v_tab (small_view small) t !! r = Some x -> P x.
Proof. intros Hb%bool_decide_eq_true r x Hx. by apply (Hb r x). Qed.

Lemma small_stock : all_stock 0 (small_view small).
Proof. refine (rows_all stock (stock_ok 0) _). vm_compute. reflexivity. Qed.

Lemma small_districts : all_districts (small_view small).
Proof. refine (rows_all district district_ok _). vm_compute. reflexivity. Qed.

Lemma small_customers : all_customers (small_view small).
Proof. refine (rows_all customer (customer_ok) _). vm_compute. reflexivity. Qed.

Lemma small_names : names_linked (small_view small).
Proof.
  intros k r Hr. simpl in Hr. unfold Art_get in Hr. simpl in Hr.
  destruct (decide (k = small_name_key)) as [->|Hne].
  - rewrite lookup_singleton_eq in Hr. simpl in Hr. simplify_eq. split; [unfold Rid_ok; lia|].
    apply (bool_decide_eq_true_1 (is_Some (v_tab (small_view small) customer !! 0))). vm_compute. reflexivity.
  - by rewrite lookup_singleton_ne in Hr.
Qed.

Lemma two_items_ok : input_ok two_items.
Proof. unfold two_items, input_ok. simpl. split_and!; try lia. repeat constructor; simpl; lia. Qed.

(** The runs of [new_order] on the small database. *)
Lemma new_order_atomic_witness :
  run_ok small_ops tuple_schemas small_laws (new_order two_items) calm small (small_adb small)
    (fun r v' => match r with
                 | Ok _ => ordered two_items (small_view small) v' /\ all_stock 15 v'
                 | Err _ => unchanged (small_view small) v'
                 end) False.
Proof.
  apply (new_order_atomic small_ops tuple_schemas small_laws small (small_adb small) (small_view small));
    [exact small_rest|exact two_items_ok|exact small_stock|exact small_districts].
Defined.

Lemma payment_effect_witness :
  run_ok small_ops tuple_schemas small_laws (payment (pay (LastName 77))) calm small (small_adb small)
    (paid (pay (LastName 77)) (small_view small)) (odd_discount (pay (LastName 77)) (small_view small)).
Proof.
  apply (payment_effect small_ops tuple_schemas small_laws small (small_adb small) (small_view small));
    [exact small_rest|unfold payment_ok; simpl; lia|exact small_customers|exact small_names].
Defined.

Lemma stock_level_reads_witness :
  run_ok small_ops tuple_schemas small_laws (stock_level (mkStockLevel 1 2 15)) calm small (small_adb small)
    (fun _ v' => unchanged (small_view small) v') False.
Proof.
  apply (stock_level_reads small_ops tuple_schemas small_laws small (small_adb small) (small_view small));
    [exact small_rest|unfold stock_level_ok; simpl; lia| |].
  - refine (rows_all district (fun x => 20 <= column DistrictTuple "d_next_o_id" x < 2 ^ 20) _).
    vm_compute. reflexivity.
  - refine (rows_all order_line (fun x => 0 <= column OrderLineTuple "ol_i_id" x < 2 ^ 32 /\
             0 <= column OrderLineTuple "ol_o_id" x < 2 ^ 20) _). vm_compute. reflexivity.
Defined.

Lemma order_status_reads_witness :
  run_ok small_ops tuple_schemas small_laws (order_status (mkOrderStatus 1 2 (Id 5))) calm small (small_adb small)
    (fun r v' => unchanged (small_view small) v' /\
       (r = Ok tt -> forall id, Id 5 = Id id ->
          exists c x, found 1 2 (Id id) (small_view small) c /\ v_tab (small_view small) customer !! c = Some x /\
            orders_of (mkOrderStatus 1 2 (Id 5)) (small_view small) x <> []))
    (exists c x, found 1 2 (Id 5) (small_view small) c /\
       v_tab (small_view small) customer !! c = Some x /\
       orders_of (mkOrderStatus 1 2 (Id 5)) (small_view small) x = []).
Proof.
  apply (order_status_reads small_ops tuple_schemas small_laws small (small_adb small) (small_view small)
           (mkOrderStatus 1 2 (Id 5)));
    [exact small_rest|unfold order_status_ok; simpl; lia| |exact small_names].
  split.
  - refine (rows_all customer (fun x => 0 <= column CustomerTuple "c_id" x < 2 ^ 16) _). vm_compute. reflexivity.
  - refine (rows_all order (fun x => 0 <= column OrderTuple "o_id" x < 2 ^ 20) _). vm_compute. reflexivity.
Defined.

Lemma delivery_withdraws_witness :
  run_ok small_ops tuple_schemas small_laws (deliver (mkDelivery 1 9) 2000 2 small_order_key) calm small
    (small_adb small)
    (fun r v' => withdrawn small_order_key (small_view small) v' /\
       match r with
       | Ok _ => delivered (mkDelivery 1 9) 2000 2 small_order_key (small_view small) v'
       | Err e => half_delivered (mkDelivery 1 9) 2000 2 small_order_key (small_view small) e v'
       end)
    (exists o x, announced (mkDelivery 1 9) 2 small_order_key (small_view small) o x /\
       column OrderTuple "o_c_id" x <> (o_c_id_from_key small_order_key).2).
Proof.
  apply (delivery_withdraws small_ops tuple_schemas small_laws small (small_adb small) (small_view small));
    [exact small_rest|unfold delivery_ok; simpl; lia|lia|unfold small_order_key; lia|].
  refine (rows_all customer (fun x => length x = size_of_table customer /\
           0 <= column CustomerTuple "c_delivery_cnt" x < 2 ^ 32 - 1) _). vm_compute. reflexivity.
Defined.

Lemma delivery_proceeds_witness :
  run_ok small_ops tuple_schemas small_laws (delivery (mkDelivery 1 9) 2000) calm small (small_adb small)
    (fun r v' => proceeded (mkDelivery 1 9) 2000 (seqZ 0 DISTRICT_SCALE) (small_view small) r v')
    (misannounced (mkDelivery 1 9) (small_view small)).
Proof.
  apply (delivery_proceeds small_ops tuple_schemas small_laws small (small_adb small) (small_view small));
    [exact small_rest|unfold delivery_ok; simpl; lia|].
  refine (rows_all customer (fun x => length x = size_of_table customer /\
           0 <= column CustomerTuple "c_delivery_cnt" x < 2 ^ 32 - 11) _). vm_compute. reflexivity.
Defined.

(** ** Runs that show what the theorems leave open *)
Definition with_table (t : tbl) (tb : SpecTable tree) : small_db :=
  mkDb (upd (db_tabs small) t tb) (db_idx small) (fun _ => None) [].

Definition with_locks (t : tbl) (n : Z) : small_db :=
  with_table t (set_recs (db_tabs small t) ((fun p => (p.1, n)) <$> st_recs (db_tabs small t))).

(** A payment for a district that does not exist fails, and the warehouse has
    the money. *)
Example payment_abort_keeps_ytd :
  match transact small_ops (payment (mkPayment 1 3 1 2 (Id 5) (f64_of_int 4) 1000)) calm small with
  | Ret (r, s) => r = Err IndexNotFound /\ cell s warehouse 0 "w_ytd" = Some (f64_of_int 304, true)
  | _ => False
  end.
Proof. vm_compute. repeat split. Qed.

(** A reader of the order makes its delivery fail: the order is announced no
    more, and has no carrier. *)
Example delivery_abort_loses_order :
  match transact small_ops (delivery (mkDelivery 1 9) 2000) calm small,
        transact small_ops (deliver (mkDelivery 1 9) 2000 2 small_order_key) calm (with_locks order 1) with
  | Ret (r, s), Ret (r', s') =>
      r = Ok tt /\ db_idx s new_order_idx = mkArt {[small_order_key := small_order_key]} /\
      r' = Err WriteLockBusy /\ db_idx s' new_order_idx = mkArt ∅ /\
      cell s' order 0 "o_carrier_id" = Some (0, false)
  | _, _ => False
  end.
Proof. vm_compute. repeat split. Qed.

(** Order status of a customer without orders panics. *)
Example order_status_without_orders :
  transact small_ops (order_status (mkOrderStatus 1 2 (Id 5))) calm (with_table order (load_table order [])) = Panic.
Proof. vm_compute. reflexivity. Qed.

(** A discount of one half panics the payment. *)
Example payment_half_discount :
  transact small_ops (payment (pay (Id 5))) calm
    (with_table customer (load_table customer
       ((fun x => put_column customer "c_discount" 8 f64_half x) <$> small_rows customer))) = Panic.
Proof. vm_compute. reflexivity. Qed.
