(* ===== verification/TpccRows.v ===== *)
(** * The records that loading inserts

    [row_ok]: what the tuples of TpccLoad.v hold, and under which keys; reading
    the columns of a tuple struct. *)

From Stdlib Require Import QArith.
From S2P Require Import Prelude Query Schema Layout Float64.
From S2P Require Import TpccTables TpccSchemas TpccUtils TpccTxn TpccView TpccLoad.
Open Scope string_scope.
Open Scope Z_scope.

(** ** Tuples from their fields *)
Definition names_apart (t : tbl) : bool :=
  forallb (fun n => forallb (fun n' => bool_decide (n = n') || apartb (field t n) (field t n')) (tuple_of t).*1)
    (tuple_of t).*1.

Lemma all_names_apart t n n' :
  n ∈ (tuple_of t).*1 -> n' ∈ (tuple_of t).*1 -> n <> n' -> apart (field t n) (field t n').
Proof.
  intros Hn Hn' Hne. assert (H : names_apart t = true) by (destruct t; vm_compute; reflexivity).
  pose proof (forallb_elem _ _ _ (forallb_elem _ _ _ H Hn) Hn') as Ha. cbv beta in Ha.
  rewrite bool_decide_false in Ha by done. by apply apartb_ok.
Qed.

(** The values are for columns of the table, and as long. *)
Definition value_ok (t : tbl) (v : string * obj) : Prop :=
  v.1 ∈ (tuple_of t).*1 /\ is_column t v.1 (length v.2) = true.

Definition values_ok (t : tbl) (vals : list (string * obj)) : Prop := NoDup vals.*1 /\ Forall (value_ok t) vals.

Lemma store_values_other t vals x name :
  Forall (value_ok t) vals -> name ∈ (tuple_of t).*1 -> name ∉ vals.*1 -> in_object (field t name) (size_of_table t) ->
  load_field (foldl (fun x v => store_field x (mk_field (tuple_of t) v.1) v.2) x vals) (field t name)
    = load_field x (field t name).
Proof.
  intros Hv Hn Hni Hin. revert x. induction Hv as [|[n bs] vals [Hn1 Hw] _ IH]; intros x; [done|].
  cbn [fmap list_fmap fst] in Hni. apply not_elem_of_cons in Hni as [Hne Hni]. cbn [foldl]. rewrite IH by done.
  apply is_column_ok in Hw as [Hf Hl]. apply load_store_field_apart; [by apply all_names_apart|apply Hf|apply Hin|done].
Qed.

Lemma length_store_values t vals x :
  length (foldl (fun x v => store_field x (mk_field (tuple_of t) v.1) v.2) x vals) = length x.
Proof. revert x. induction vals as [|v vals IH]; intros x; [done|]. cbn [foldl]. rewrite IH. apply length_store_field. Qed.

Lemma length_tuple t vals : length (tuple (tuple_of t) vals) = size_of_table t.
Proof. unfold tuple. rewrite length_store_values. apply length_replicate. Qed.

Lemma load_tuple t vals name bs :
  values_ok t vals -> (name, bs) ∈ vals -> load_field (tuple (tuple_of t) vals) (field t name) = bs.
Proof.
  intros [Hnd Hv] (l1 & l2 & ->)%list_elem_of_split. unfold tuple.
  rewrite fmap_app, fmap_cons in Hnd. apply NoDup_app in Hnd as (_ & _ & [Hni _]%NoDup_cons).
  apply Forall_app in Hv as [_ [[Hn Hw] Hv]%Forall_cons]. pose proof Hw as [Hf Hl]%is_column_ok. cbn [fst snd] in *.
  rewrite foldl_app. cbn [foldl]. rewrite store_values_other by done. cbn [fst snd].
  apply (load_store_field_same _ _ (size_of_table t)); [done| |done].
  rewrite length_store_values. apply length_replicate.
Qed.

Lemma column_tuple t vals name n z :
  values_ok t vals -> (name, le_bytes n z) ∈ vals -> fits (8 * Z.of_nat n) z ->
  column (tuple_of t) name (tuple (tuple_of t) vals) = z.
Proof.
  intros Hv Hin Hz. unfold column. change (mk_field (tuple_of t) name) with (field t name).
  rewrite (load_tuple t vals name (le_bytes n z)) by done. by apply le_word_bytes_id.
Qed.

Lemma length_rand_gen N s : length (rand_gen N s) = N.
Proof. unfold rand_gen. by rewrite length_map, length_seq. Qed.

Ltac value_check :=
  split; [apply (bool_decide_unpack _); vm_compute; exact I|]; cbn [fst snd];
  rewrite ?length_rand_gen, ?length_le_bytes;
  try match goal with Hb : length ?bs = _ |- context [length ?bs] => rewrite Hb end;
  vm_compute; reflexivity.

(** [values_ok] of a listed tuple. *)
Ltac values_check :=
  match goal with |- values_ok _ ?vs => unfold vs end;
  split; [apply (bool_decide_unpack _); vm_compute; exact I|];
  repeat (apply Forall_cons; split; [value_check|]); apply Forall_nil; exact I.

Lemma zip_gen_ok z : 0 <= z <= 9999 -> exists v, zip_gen z = Ret v.
Proof.
  intros Hz. unfold zip_gen. rewrite Z.shiftl_mul_pow2 by lia. rewrite (wrap_small 64) by (unfold fits; lia).
  rewrite chk_ok by (unfold fits; lia). by eexists.
Qed.

(** ** The rows *)
Ltac scale := unfold DISTRICT_SCALE, CUSTOMER_SCALE, ITEM_SCALE in *; lia.

Section rows.
Context (D : Draws) (cnt : Z) (HD : draws_ok D) (Hcnt : 0 <= cnt <= 2 ^ 15).

(** Records as they are loaded, for [cnt] warehouses. *)
Definition row_ok (t : tbl) (x : obj) : Prop :=
  length x = size_of_table t /\
  match t with
  | warehouse => 0 <= column WarehouseTuple "w_id" x < cnt
  | district =>
      0 <= column DistrictTuple "d_w_id" x < cnt /\ 0 <= column DistrictTuple "d_id" x < DISTRICT_SCALE /\
      column DistrictTuple "d_next_o_id" x = 3001
  | customer =>
      let w := column CustomerTuple "c_w_id" x in
      let d := column CustomerTuple "c_d_id" x in
      let c := column CustomerTuple "c_id" x in
      0 <= w < cnt /\ 0 <= d < DISTRICT_SCALE /\ 0 <= c < CUSTOMER_SCALE /\
      load_field x (field customer "c_middle") = as_bytes "OE" /\
      column CustomerTuple "c_discount" x = cu_discount (dr_customer D w d c) /\
      column CustomerTuple "c_payment_cnt" x = 1 /\ column CustomerTuple "c_delivery_cnt" x = 0
  | item => 0 <= column ItemTuple "i_id" x < ITEM_SCALE
  | stock =>
      0 <= column StockTuple "s_w_id" x < cnt /\ 0 <= column StockTuple "s_i_id" x < ITEM_SCALE /\
      10 <= column StockTuple "s_quantity" x <= 100 /\ column StockTuple "s_ytd" x = 0 /\
      column StockTuple "s_order_cnt" x = 0 /\ column StockTuple "s_remote_cnt" x = 0
  | order =>
      let w := column OrderTuple "o_w_id" x in
      let d := column OrderTuple "o_d_id" x in
      let o := column OrderTuple "o_id" x in
      0 <= w < cnt /\ 0 <= d < DISTRICT_SCALE /\ 0 <= o < CUSTOMER_SCALE /\
      dr_shuffle D w d !! Z.to_nat o = Some (column OrderTuple "o_c_id" x) /\
      (2101 <= o <-> column OrderTuple "o_carrier_id" x = CARRIER_NULL) /\
      column OrderTuple "o_ol_cnt" x = od_ol_cnt (dr_order D w d o) /\
      column OrderTuple "o_entry_d" x = dr_time D w d /\ column OrderTuple "o_all_local" x = 1
  | order_line =>
      let w := column OrderLineTuple "ol_w_id" x in
      let d := column OrderLineTuple "ol_d_id" x in
      let o := column OrderLineTuple "ol_o_id" x in
      0 <= w < cnt /\ 0 <= d < DISTRICT_SCALE /\ 0 <= o < CUSTOMER_SCALE /\
      0 <= column OrderLineTuple "ol_i_id" x < ITEM_SCALE /\
      column OrderLineTuple "ol_number" x = od_ol_cnt (dr_order D w d o) /\
      column OrderLineTuple "ol_supply_w_id" x = w /\ column OrderLineTuple "ol_quantity" x = 5 /\
      column OrderLineTuple "ol_delivery_d" x = (if o <? 2101 then dr_time D w d else 0)
  end.

(** *** What the loader makes of the draws

    The records of a district, of a warehouse, and all. *)
Definition from_ret (m : outcome obj) : list obj := match m with Ret x => [x] | _ => [] end.

Definition customer_record (w d c : Z) : outcome obj :=
  seed ← customer_seed (dr_c255 D) (dr_customer D w d c) c;
  load_customer_tuple (dr_customer D w d c) seed w d c (dr_time D w d).

Definition order_record (w d o c : Z) : obj := load_order_tuple (dr_order D w d o) w d (dr_time D w d) o c.

(** The lines of an order: consecutive items from the one drawn. *)
Definition line_records (w d o : Z) : list obj :=
  (fun ol => load_line_tuple (dr_order D w d o) w d (dr_time D w d) o ol (od_start (dr_order D w d o) + ol))
    <$> seqZ 0 (od_ol_cnt (dr_order D w d o)).

Definition district_part (w d : Z) (t : tbl) : list obj :=
  match t with
  | district => from_ret (load_district_tuple (dr_district D w d) w d)
  | customer => seqZ 0 CUSTOMER_SCALE ≫= fun c => from_ret (customer_record w d c)
  | order => zip_with (order_record w d) (seqZ 0 CUSTOMER_SCALE) (dr_shuffle D w d)
  | order_line => seqZ 0 CUSTOMER_SCALE ≫= line_records w d
  | _ => []
  end.

Definition warehouse_part (w : Z) (t : tbl) : list obj :=
  match t with
  | warehouse => from_ret (load_warehouse_tuple (dr_warehouse D w) w)
  | stock => seqZ 0 ITEM_SCALE ≫= fun i => from_ret (load_stock_tuple (dr_stock D w i) w i)
  | _ => seqZ 0 DISTRICT_SCALE ≫= fun d => district_part w d t
  end.

Definition all_records (t : tbl) : list obj :=
  match t with
  | item => seqZ 0 ITEM_SCALE ≫= fun i => from_ret (load_item_tuple (dr_item D i) i)
  | _ => seqZ 0 cnt ≫= fun w => warehouse_part w t
  end.

(** The customer's key in the index of last names. *)
Definition last_name_key (w d c : Z) : outcome Z :=
  seed ← customer_seed (dr_c255 D) (dr_customer D w d c) c;
  idx_key_lastname (wrap 16 w) (wrap 16 d) (wrap 16 seed) (wrap 16 c).

(** Rewrites the columns of a new tuple. *)
Ltac value_in := repeat (first [left; reflexivity|right]).

Ltac value_fits :=
  match goal with
  | |- fits (8 * Z.of_nat 8) _ => change (8 * Z.of_nat 8) with 64
  | |- fits (8 * Z.of_nat 4) _ => change (8 * Z.of_nat 4) with 32
  end; first [assumption|unfold fits, DISTRICT_SCALE, CUSTOMER_SCALE, ITEM_SCALE in *; lia].

Ltac values t Hv :=
  change WarehouseTuple with (tuple_of warehouse); change DistrictTuple with (tuple_of district);
  change CustomerTuple with (tuple_of customer); change ItemTuple with (tuple_of item);
  change StockTuple with (tuple_of stock); change OrderTuple with (tuple_of order);
  change OrderLineTuple with (tuple_of order_line);
  repeat match goal with
  | |- context [column (tuple_of t) ?n (tuple (tuple_of t) ?vals)] =>
      erewrite (column_tuple t vals n); [|exact Hv|value_in|value_fits]
  | |- context [load_field (tuple (tuple_of t) ?vals) (field t ?n)] =>
      erewrite (load_tuple t vals n); [|exact Hv|value_in]
  end.

Lemma warehouse_row w :
  0 <= w < cnt ->
  exists x, load_warehouse_tuple (dr_warehouse D w) w = Ret x /\ row_ok warehouse x /\ key_of warehouse x = Ret w.
Proof using HD Hcnt.
  intros Hw. destruct (zip_gen_ok _ (ok_warehouse D HD w)) as [z Hz]. unfold load_warehouse_tuple. rewrite Hz. runm.
  eexists. split; [done|]. match goal with |- context [tuple _ ?vs] => set (vals := vs) end.
  assert (Hv : values_ok warehouse vals) by values_check. unfold row_ok, key_of, Warehouse_key.
  values warehouse Hv. split; [split; [apply (length_tuple warehouse)|done]|done].
Qed.
Lemma district_row w d :
  0 <= w < cnt -> 0 <= d < DISTRICT_SCALE ->
  exists x k, load_district_tuple (dr_district D w d) w d = Ret x /\ row_ok district x /\
    key_of district x = Ret k /\ District_make_key w d = Ret k.
Proof using HD Hcnt.
  intros Hw Hd. destruct (zip_gen_ok _ (ok_district D HD w d)) as [z Hz]. unfold load_district_tuple. rewrite Hz. runm.
  eexists. eexists. split; [done|]. match goal with |- context [tuple _ ?vs] => set (vals := vs) end.
  assert (Hv : values_ok district vals) by values_check. unfold row_ok, key_of, District_key.
  values district Hv. split; [split; [apply (length_tuple district)|done]|].
  unfold DISTRICT_SCALE in *. unfold District_make_key. split; key_value.
Qed.

Lemma last_name_ok seed : 0 <= seed <= 999 -> exists name, last_name_gen (wrap 32 seed) = Ret name /\ length name = 16%nat.
Proof.
  intros Hs. rewrite (wrap_small 32) by (unfold fits; lia).
  pose proof (proj1 (forallb_forall _ _) last_name_checked (Z.to_nat seed)) as Hc. rewrite in_seq in Hc.
  specialize (Hc ltac:(lia)). unfold last_name_check in Hc. rewrite Z2Nat.id in Hc by lia.
  destruct (last_name_gen seed) as [name| | |]; try discriminate Hc.
  destruct (name_bank !! _); [|discriminate Hc]. apply andb_true_iff in Hc as [Hl _]. exists name.
  split; [done|by apply Nat.eqb_eq].
Qed.

Lemma customer_seed_ok w d c :
  exists seed, customer_seed (dr_c255 D) (dr_customer D w d c) c = Ret seed /\ 0 <= seed <= 999.
Proof using HD.
  destruct (ok_customer D HD w d c) as (Hs & H1 & H2 & _). unfold customer_seed. destruct (Z.ltb_spec c 1000).
  - unfold gen_range. rewrite (proj2 (Z.leb_le _ _)) by lia. by eexists.
  - pose proof (ok_c255 D HD) as Hc.
    destruct (nu_rand_range 255 0 999 (dr_c255 D) (cu_r1 (dr_customer D w d c)) (cu_r2 (dr_customer D w d c))
                (mkCells (Some (dr_c255 D)) None None)) as (v & cs & c0 & E & Hv & _); try lia.
    + split_and!; try done. by intros v [= <-].
    + exists v. split; [|done]. by rewrite E.
Qed.

Lemma customer_row w d c seed time :
  0 <= w < cnt -> 0 <= d < DISTRICT_SCALE -> 0 <= c < CUSTOMER_SCALE -> 0 <= seed <= 999 -> fits 64 time ->
  exists x k, load_customer_tuple (dr_customer D w d c) seed w d c time = Ret x /\ row_ok customer x /\
    column CustomerTuple "c_w_id" x = w /\ column CustomerTuple "c_d_id" x = d /\ column CustomerTuple "c_id" x = c /\
    key_of customer x = Ret k /\ Customer_make_key w d c = Ret k.
Proof using HD Hcnt.
  intros Hw Hd Hc Hs Ht. destruct (ok_customer D HD w d c) as (_ & _ & _ & Hz & Hdisc & _).
  destruct (zip_gen_ok _ Hz) as [z Ez], (last_name_ok seed Hs) as (name & En & Hname).
  assert (Hcr : exists credit, (if cu_bad (dr_customer D w d c) then FixedString_from_str 2 "BC"
                                else FixedString_from_str 2 "GC") = Ret credit /\ length credit = 2%nat).
  { destruct (cu_bad _); vm_compute; eauto. }
  destruct Hcr as (credit & Ecr & Hcr).
  assert (Eoe : FixedString_from_str 2 "OE" = Ret (as_bytes "OE")) by (vm_compute; reflexivity).
  unfold load_customer_tuple. rewrite Ecr, En, Ez, Eoe. runm.
  eexists. eexists. split; [done|]. match goal with |- context [tuple _ ?vs] => set (vals := vs) end.
  assert (Hv : values_ok customer vals) by values_check.
  unfold row_ok, key_of, Customer_key. cbv zeta.
  values customer Hv. split; [split; [apply (length_tuple customer)|done]|]. do 3 (split; [done|]).
  unfold DISTRICT_SCALE, CUSTOMER_SCALE in *. unfold Customer_make_key. split; key_value.
Qed.

(** Strings that are copied to the start of a longer one. *)
Lemma copy_bytes_ok src idx data :
  0 <= idx -> idx + Z.of_nat (length src) <= Z.of_nat (length data) ->
  exists bs, copy_bytes src idx data = Ret bs /\ length bs = length data.
Proof.
  revert idx data. induction src as [|b src IH]; intros idx data Hi Hl; [by exists data|]. cbn [copy_bytes length] in *.
  destruct (lookup_lt_is_Some_2 data (Z.to_nat idx)) as [o Ho]; [lia|].
  rewrite (proj2 (index_Ret data idx o)) by done. runm.
  destruct (IH (idx + 1) (<[Z.to_nat idx := b]> data)) as (bs & E & Hb); [lia|rewrite length_insert; lia|].
  exists bs. split; [done|]. by rewrite Hb, length_insert.
Qed.

Lemma original_data_ok N sample o :
  original_ok o -> (forall start, o = Some start -> start + 8 < Z.of_nat N) ->
  exists bs, original_data N sample o = Ret bs /\ length bs = N.
Proof.
  intros Ho Hl. unfold original_data. destruct o as [start|]; [|eexists; split; [done|apply length_rand_gen]].
  specialize (Ho _ eq_refl). specialize (Hl _ eq_refl). unfold gen_range. rewrite (proj2 (Z.leb_le _ _)) by lia. runm.
  unfold copy_from. change (Z.of_nat (length (as_bytes "ORIGINAL"))) with 8. rewrite length_rand_gen.
  rewrite (proj2 (Z.ltb_lt _ _)) by lia. runm.
  destruct (copy_bytes_ok (as_bytes "ORIGINAL") 0 (rand_gen N sample)) as (bs & E & Hb); [done| |].
  { rewrite length_rand_gen. change (Z.of_nat (length (as_bytes "ORIGINAL"))) with 8. lia. }
  exists bs. split; [done|]. by rewrite Hb, length_rand_gen.
Qed.

(** "ORIGINAL" does not fit the data of a stock from place 16 on. *)
Lemma original_data_panics N sample start :
  Z.of_nat N <= start + 8 -> original_data N sample (Some start) = Panic.
Proof.
  intros Hl. unfold original_data, gen_range. rewrite (proj2 (Z.leb_le _ _)) by lia. runm. unfold copy_from.
  change (Z.of_nat (length (as_bytes "ORIGINAL"))) with 8. rewrite length_rand_gen.
  by rewrite (proj2 (Z.ltb_ge _ _)) by lia.
Qed.

Definition original_late (w i : Z) : Prop :=
  exists start, sk_original (dr_stock D w i) = Some start /\ 16 <= start.

Lemma stock_row w i :
  0 <= w < cnt -> 0 <= i < ITEM_SCALE ->
  match load_stock_tuple (dr_stock D w i) w i with
  | Ret x => row_ok stock x /\ exists k, key_of stock x = Ret k /\ Stock_make_key w i = Ret k
  | _ => original_late w i
  end.
Proof using HD Hcnt.
  intros Hw Hi. destruct (ok_stock D HD w i) as [Ho Hq]. unfold load_stock_tuple.
  destruct (sk_original (dr_stock D w i)) as [start|] eqn:Eo; [destruct (Z.leb_spec 16 start)|].
  { rewrite original_data_panics by lia. runm. by exists start. }
  1: destruct (original_data_ok 24 (sk_str (dr_stock D w i) "s_data") (Some start)) as (bs & E & Hb);
    [by intros s [= <-]; apply Ho|intros s [= <-]; lia|].
  2: destruct (original_data_ok 24 (sk_str (dr_stock D w i) "s_data") None) as (bs & E & Hb); [done..|].
  all: rewrite E; runm; unfold gen_range; rewrite (proj2 (Z.leb_le 10 100)) by lia; runm.
  all: match goal with |- context [tuple _ ?vs] => set (vals := vs) end.
  all: assert (Hv : values_ok stock vals) by values_check.
  all: unfold row_ok, key_of, Stock_key; values stock Hv.
  all: split; [split; [apply (length_tuple stock)|done]|]; unfold ITEM_SCALE in *; eexists; rewrite Stock_key_value by lia; done.
Qed.

Lemma item_row i :
  0 <= i < ITEM_SCALE ->
  exists x, load_item_tuple (dr_item D i) i = Ret x /\ row_ok item x /\ key_of item x = Ret i.
Proof using HD.
  intros Hi. destruct (ok_item D HD i) as [Ho Him]. unfold load_item_tuple, gen_range.
  rewrite (proj2 (Z.leb_le 1 10000)) by lia. runm.
  destruct (original_data_ok 50 (it_str (dr_item D i) "i_data") (it_original (dr_item D i))) as (bs & E & Hb); [done| |].
  { intros start Es. specialize (Ho _ Es). lia. }
  rewrite E. runm. eexists. split; [done|]. match goal with |- context [tuple _ ?vs] => set (vals := vs) end.
  assert (Hv : values_ok item vals) by values_check. unfold row_ok, key_of, Item_key, Item_make_key.
  values item Hv. split; [split; [apply (length_tuple item)|done]|done].
Qed.

Lemma order_row w d o c :
  0 <= w < cnt -> 0 <= d < DISTRICT_SCALE -> 0 <= o < CUSTOMER_SCALE -> dr_shuffle D w d !! Z.to_nat o = Some c ->
  let x := order_record w d o c in
  0 <= c < CUSTOMER_SCALE /\ row_ok order x /\ column OrderTuple "o_w_id" x = w /\
    column OrderTuple "o_d_id" x = d /\ column OrderTuple "o_id" x = o /\ column OrderTuple "o_c_id" x = c /\
    key_of order x = Order_make_key w d c o.
Proof using HD Hcnt.
  intros Hw Hd Ho Hs x. destruct (ok_order D HD w d o) as (Hcar & Hn & _). pose proof (ok_time D HD w d) as Ht.
  assert (Hc : 0 <= c < CUSTOMER_SCALE).
  { pose proof (list_elem_of_lookup_2 _ _ _ Hs) as Hin. rewrite (ok_shuffle D HD w d), elem_of_seqZ in Hin. lia. }
  assert (Hcar' : fits 64 (if o <? 2101 then od_carrier (dr_order D w d o) else 0)) by (unfold fits; case_match; lia).
  split; [done|]. subst x. unfold order_record, load_order_tuple.
  match goal with |- context [tuple _ ?vs] => set (vals := vs) end.
  assert (Hv : values_ok order vals) by values_check. unfold row_ok, key_of, Order_key. cbv zeta.
  values order Hv. split; [split; [apply (length_tuple order)|]|done]. split_and!; try lia; try done.
  unfold CARRIER_NULL. destruct (Z.ltb_spec o 2101); lia.
Qed.

Lemma line_row w d o ol i :
  0 <= w < cnt -> 0 <= d < DISTRICT_SCALE -> 0 <= o < CUSTOMER_SCALE -> 0 <= i < ITEM_SCALE ->
  let x := load_line_tuple (dr_order D w d o) w d (dr_time D w d) o ol i in
  row_ok order_line x /\ key_of order_line x = OrderLine_make_key w d o i.
Proof using HD Hcnt.
  intros Hw Hd Ho Hi x. destruct (ok_order D HD w d o) as (_ & Hn & _). pose proof (ok_time D HD w d) as Ht.
  assert (Hdel : fits 64 (if o <? 2101 then dr_time D w d else 0)) by (case_match; [done|unfold fits; lia]).
  subst x. unfold load_line_tuple.
  match goal with |- context [tuple _ ?vs] => set (vals := vs) end.
  assert (Hv : values_ok order_line vals) by values_check. unfold row_ok, key_of, OrderLine_key.
  values order_line Hv. split; [split; [apply (length_tuple order_line)|]|done]. done.
Qed.

(** Every such record has a key. *)
Lemma row_key t x : row_ok t x -> exists k, key_of t x = Ret k.
Proof using HD Hcnt.
  intros [_ Hx]. destruct t; cbn [key_of] in *;
    unfold Warehouse_key, District_key, Customer_key, Item_key, Stock_key, Order_key, OrderLine_key; cbv zeta in Hx.
  - by eexists.
  - destruct Hx as (Hw & Hd & _). eexists. unfold District_make_key. unfold DISTRICT_SCALE, CUSTOMER_SCALE in *. key_value.
  - destruct Hx as (Hw & Hd & Hc & _). eexists. unfold Customer_make_key. unfold DISTRICT_SCALE, CUSTOMER_SCALE in *. key_value.
  - by eexists.
  - destruct Hx as (Hw & Hi & _). eexists. rewrite Stock_key_value by scale. done.
  - destruct Hx as (Hw & Hd & Ho & Hc & _). apply list_elem_of_lookup_2 in Hc.
    rewrite (ok_shuffle D HD), elem_of_seqZ in Hc. eexists. rewrite Order_key_value by scale. done.
  - destruct Hx as (Hw & Hd & Ho & Hi & _). eexists. rewrite OrderLine_key_value by scale. done.
Qed.
End rows.
