(* ===== verification/TpccLoading.v ===== *)
(** * The logs of the loader

    What each part of the loader inserts, and what is to be found afterwards:
    [loads p T R] says that [p] logs exactly the rows [R] in some order, as
    [row_ok] says, and entries that lead to rows, the [target]s [T] among them. *)

From Stdlib Require Import QArith.
From S2P Require Import Prelude Query Schema Layout External Table Guarded Txn TxnView LoadLog Float64.
From S2P Require Import TpccTables TpccSchemas TpccUtils TpccTxn TpccView Payment TpccLoad TpccRows.
Open Scope string_scope.
Open Scope list_scope.
Open Scope Z_scope.

(** ** Lists made of pieces *)
Lemma bind_none {B E} (l : list B) : (l ≫= fun _ => @nil E) = [].
Proof. by induction l. Qed.

Lemma bind_ext {B E} (f g : B -> list E) l : (forall i, i ∈ l -> f i = g i) -> l ≫= f = l ≫= g.
Proof.
  induction l as [|i l IH]; intros Hfg; [done|]. rewrite !bind_cons, IH by (intros; apply Hfg; by right).
  by rewrite (Hfg i) by left.
Qed.

Lemma bind_fmap {B B' E} (f : B -> B') (g : B' -> list E) l : (f <$> l) ≫= g = l ≫= fun i => g (f i).
Proof. induction l as [|i l IH]; [done|]. by rewrite fmap_cons, !bind_cons, IH. Qed.

Lemma bind_bind {B B' E} (f : B -> list B') (g : B' -> list E) l : (l ≫= fun i => f i ≫= g) = (l ≫= f) ≫= g.
Proof. induction l as [|i l IH]; [done|]. by rewrite !bind_cons, bind_app, IH. Qed.

(** Consecutive ranges add up. *)
Lemma seqZ_chunks per n : 0 <= per -> concat ((fun i => seqZ (per * i) per) <$> seqZ 0 (Z.of_nat n)) = seqZ 0 (per * Z.of_nat n).
Proof.
  intros Hper. induction n as [|n IH]; [by rewrite Z.mul_0_r|].
  rewrite Nat2Z.inj_succ, <-Z.add_1_r, seqZ_app, fmap_app, concat_app, IH by lia. simpl.
  rewrite app_nil_r. replace (per * (Z.of_nat n + 1)) with (per * Z.of_nat n + per) by lia.
  rewrite seqZ_app by lia. by do 2 f_equal.
Qed.

Lemma bind_chunks {E} (f : Z -> list E) per :
  0 <= per -> (seqZ 0 32 ≫= fun tid => seqZ (per * tid) per ≫= f) = seqZ 0 (per * 32) ≫= f.
Proof.
  intros Hper. rewrite (bind_bind (fun tid => seqZ (per * tid) per)). f_equal.
  change 32 with (Z.of_nat 32). rewrite <-(seqZ_chunks per) by done. generalize (seqZ 0 (Z.of_nat 32)).
  intros l. induction l as [|i l IH]; [done|]. by rewrite bind_cons, fmap_cons, IH.
Qed.

Section logs.
Context (D : Draws) (cnt : Z).
Abbreviation log := (list (event tbl index_name)).
Implicit Types (known es : log).

(** ** Logs of the loader *)

(** An announced order, by its key, is the record of an undelivered order. *)
Definition announces (k : Z) (x : obj) : Prop :=
  2101 <= column OrderTuple "o_id" x /\
  NewOrder_make_key (column OrderTuple "o_w_id" x) (column OrderTuple "o_d_id" x) (column OrderTuple "o_id" x)
    (column OrderTuple "o_c_id" x) = Ret k.

(** A customer by the last name. *)
Definition named (k : Z) (x : obj) : Prop :=
  last_name_key D (column CustomerTuple "c_w_id" x) (column CustomerTuple "c_d_id" x)
    (column CustomerTuple "c_id" x) = Ret k.

(** The entry leads to a row. *)
Definition entry_ok (rows : log) (j : index_name) (k v : Z) : Prop :=
  match j with
  | c_last_idx => exists x, Row customer x v ∈ rows /\ named k x
  | new_order_idx => v = k /\ exists x r, Row order x r ∈ rows /\ announces k x
  end.

(** Rows that were [known] before may be meant. *)
Definition log_ok known es : Prop :=
  (forall t x r, Row t x r ∈ es -> row_ok D cnt t x) /\
  (forall j k v, Entry j k v ∈ es -> entry_ok (known ++ es) j k v).

(** What is to be found afterwards. *)
Inductive target := Keyed (t : tbl) (k : Z) | Indexed (j : index_name) (k : Z).

Definition met es (g : target) : Prop :=
  match g with
  | Keyed t k => exists x r, Row t x r ∈ es /\ key_of t x = Ret k
  | Indexed j k => exists v, Entry j k v ∈ es
  end.

Definition logs known (T : target -> Prop) (R : tbl -> list obj) es : Prop :=
  log_ok known es /\ (forall g, T g -> met es g) /\ forall t, (rows_in t es).*2 ≡ₚ R t.

Lemma entry_ok_mono rows rows' j k v : rows ⊆ rows' -> entry_ok rows j k v -> entry_ok rows' j k v.
Proof.
  intros Hs. destruct j; simpl; [intros (x & Hx & Hn); exists x; split; [by apply Hs|done]|].
  intros (-> & x & r & Hx & Ha). split; [done|]. exists x, r. split; [by apply Hs|done].
Qed.

Lemma met_mono es es' g : es ⊆ es' -> met es g -> met es' g.
Proof.
  intros Hs. destruct g; simpl; [intros (x & r & Hx & Hk); exists x, r; split; [by apply Hs|done]|].
  intros (v & Hv). exists v. by apply Hs.
Qed.

Lemma logs_nil known : logs known (fun _ => False) (fun _ => []) [].
Proof. split; [|done]. split; intros * Hin; by apply not_elem_of_nil in Hin. Qed.

Lemma logs_app known T T' R R' es es' :
  logs known T R es -> logs known T' R' es' -> logs known (fun g => T g \/ T' g) (fun t => R t ++ R' t) (es ++ es').
Proof.
  intros ([H1 H2] & HT & HR) ([H1' H2'] & HT' & HR'). split; [split|split].
  - intros t x r [Hin|Hin]%elem_of_app; eauto.
  - intros j k v [Hin|Hin]%elem_of_app; [eapply entry_ok_mono, H2, Hin|eapply entry_ok_mono, H2', Hin]; set_solver.
  - intros g [Hg|Hg]; [eapply met_mono, HT, Hg|eapply met_mono, HT', Hg]; set_solver.
  - intros t. by rewrite rows_in_app, fmap_app, HR, HR'.
Qed.

Lemma logs_concat {B} known (T : B -> target -> Prop) (R : B -> tbl -> list obj) (l : list B) ess :
  Forall2 (fun i es => logs known (T i) (R i) es) l ess ->
  logs known (fun g => exists i, i ∈ l /\ T i g) (fun t => l ≫= fun i => R i t) (concat ess).
Proof.
  induction 1 as [|i es l ess Hi _ IH]; cbn [concat].
  - destruct (logs_nil known) as (Hok & _ & HR). split; [done|]. split; [|exact HR].
    intros g (i & Hi & _). by apply not_elem_of_nil in Hi.
  - destruct (logs_app _ _ _ _ _ _ _ Hi IH) as (Hok & HT & HR). split; [done|]. split; [|exact HR].
    intros g (i' & [->|Hi']%elem_of_cons & Hg); apply HT; [by left|right; by exists i'].
Qed.

Lemma logs_mono known T T' R R' es :
  (forall g, T' g -> T g) -> (forall t, R t ≡ₚ R' t) -> logs known T R es -> logs known T' R' es.
Proof. intros HT HR (Hok & Hm & Hr). split; [done|]. split; [intros g Hg; by apply Hm, HT|]. intros t. by rewrite Hr. Qed.

(** A row of which the rest of the log knows. *)
Lemma logs_row known T R t x r k es :
  row_ok D cnt t x -> key_of t x = Ret k -> logs (Row t x r :: known) T R es ->
  logs known (fun g => g = Keyed t k \/ T g) (fun t' => (if decide (t = t') then [x] else []) ++ R t') (Row t x r :: es).
Proof.
  intros Hx Hk ([H1 H2] & HT & HR). split; [split|split].
  - intros t' x' r' [[= -> -> ->]|Hin]%elem_of_cons; [done|]. by eapply H1.
  - intros j k' v [[=]|Hin]%elem_of_cons. eapply entry_ok_mono, H2, Hin. set_solver.
  - intros g [->|Hg]; [exists x, r; split; [by left|done]|]. eapply met_mono, HT, Hg. set_solver.
  - intros t'. rewrite <-HR. unfold rows_in. simpl. by case_decide.
Qed.

Lemma logs_entry known j k v : entry_ok known j k v -> logs known (eq (Indexed j k)) (fun _ => []) [Entry j k v].
Proof.
  intros He. split; [split|split].
  - intros t x r Hin. by apply list_elem_of_singleton in Hin.
  - intros j' k' v' [= -> -> ->]%list_elem_of_singleton. eapply entry_ok_mono; [|exact He]. set_solver.
  - intros g <-. exists v. by apply list_elem_of_singleton.
  - done.
Qed.

(** ** The parts of the program *)
Context (S : tbl -> Schema) `{TS : !TpccSchemas S}.
Context (C : Prop).

(** [p] logs the rows [R], and entries as they should be, among them [T]; it
    panics only if [C]. *)
Definition loads {A} known (p : prog tbl index_name A) (T : target -> Prop) (R : tbl -> list obj) : Prop :=
  emits S p C (fun _ => logs known T R).

Lemma loads_ret known : loads known (mret tt) (fun _ => False) (fun _ => []).
Proof. apply emits_ret, logs_nil. Qed.

Lemma loads_mono {A} known (p : prog tbl index_name A) T T' R R' :
  loads known p T R -> (forall g, T' g -> T g) -> (forall t, R t ≡ₚ R' t) -> loads known p T' R'.
Proof. intros Hp HT HR. eapply emits_mono; [done| |exact Hp]. intros a es. by apply logs_mono. Qed.

Lemma loads_seq known (p q : prog tbl index_name unit) T T' R R' :
  loads known p T R -> loads known q T' R' ->
  loads known (_ ← p; q) (fun g => T g \/ T' g) (fun t => R t ++ R' t).
Proof.
  intros Hp Hq. unfold loads. eapply (emits_bind S p (fun _ => q) C (fun _ => logs known T R) (fun _ => logs known _ _));
    [exact Hp|]. intros a es Hes. eapply emits_mono; [done| |exact Hq].
  intros b es' Hes'. by apply logs_app.
Qed.

Lemma loads_for known n first (body : Z -> prog tbl index_name unit) T R :
  (forall i, first <= i < first + Z.of_nat n -> loads known (body i) (T i) (R i)) ->
  loads known (for_range n first body) (fun g => exists i, first <= i < first + Z.of_nat n /\ T i g)
    (fun t => seqZ first (Z.of_nat n) ≫= fun i => R i t).
Proof.
  intros Hb. eapply emits_mono; [done| |apply emits_for; exact Hb]. intros a es (ess & -> & Hess).
  eapply logs_mono; [| |exact (logs_concat known T R _ _ Hess)]; [|done].
  intros g (i & Hi & Hg). exists i. split; [by apply elem_of_seqZ|done].
Qed.

Lemma loads_record {A} known t x k (body : Rid -> prog tbl index_name A) T R :
  row_ok D cnt t x -> key_of t x = Ret k -> (forall r, loads (Row t x r :: known) (body r) T R) ->
  loads known (with_record t x body) (fun g => g = Keyed t k \/ T g)
    (fun t' => (if decide (t = t') then [x] else []) ++ R t').
Proof.
  intros Hx Hk Hb. apply emits_record; [by rewrite ts_size; apply Hx|exists k; by rewrite ts_key|].
  intros r. eapply emits_mono; [done| |apply Hb]. intros a es. by apply logs_row.
Qed.

Lemma loads_entry known j k v :
  entry_ok known j k v -> loads known (call (IdxInsert j k v)) (eq (Indexed j k)) (fun _ => []).
Proof. intros He. by apply emits_entry, logs_entry. Qed.

(** A value that is computed. *)
Lemma loads_ok {A B} known (m : outcome A) a (k : A -> prog tbl index_name B) T R :
  m = Ret a -> loads known (k a) T R -> loads known (lift m ≫= k) T R.
Proof. intros -> Hk. exact Hk. Qed.

(** ** The loader *)
Context (HD : draws_ok D) (Hcnt : 0 <= cnt <= 2 ^ 15).

(** What belongs to a customer, an order, a district, a warehouse. *)
Definition customer_targets (w d c : Z) (g : target) : Prop :=
  (exists k, Customer_make_key w d c = Ret k /\ g = Keyed customer k) \/
  (exists k, last_name_key D w d c = Ret k /\ g = Indexed c_last_idx k).

Definition line_targets (w d o : Z) (g : target) : Prop :=
  exists ol k, 0 <= ol < od_ol_cnt (dr_order D w d o) /\
    OrderLine_make_key w d o (od_start (dr_order D w d o) + ol) = Ret k /\ g = Keyed order_line k.

Definition order_targets (w d o c : Z) (g : target) : Prop :=
  (exists k, Order_make_key w d c o = Ret k /\ g = Keyed order k) \/
  line_targets w d o g \/
  (2101 <= o /\ exists k, NewOrder_make_key w d o c = Ret k /\ g = Indexed new_order_idx k).

Definition district_targets (w d : Z) (g : target) : Prop :=
  (exists k, District_make_key w d = Ret k /\ g = Keyed district k) \/
  (exists c, 0 <= c < CUSTOMER_SCALE /\ customer_targets w d c g) \/
  (exists o c, 0 <= o < CUSTOMER_SCALE /\ dr_shuffle D w d !! Z.to_nat o = Some c /\ order_targets w d o c g).

Definition warehouse_targets (w : Z) (g : target) : Prop :=
  g = Keyed warehouse w \/
  (exists d, 0 <= d < DISTRICT_SCALE /\ district_targets w d g) \/
  (exists i k, 0 <= i < ITEM_SCALE /\ Stock_make_key w i = Ret k /\ g = Keyed stock k).

Lemma load_one_customer_ok known w d c :
  0 <= w < cnt -> 0 <= d < DISTRICT_SCALE -> 0 <= c < CUSTOMER_SCALE ->
  loads known (load_one_customer (dr_c255 D) (dr_customer D w d c) c d w (dr_time D w d)) (customer_targets w d c)
    (fun t => if decide (customer = t) then from_ret (customer_record D w d c) else []).
Proof using HD Hcnt TS.
  intros Hw Hd Hc. pose proof (ok_time D HD w d) as Ht. unfold load_one_customer, customer_targets, last_name_key, customer_record.
  destruct (customer_seed_ok D HD w d c) as (seed & Es & Hs). rewrite Es. runm. eapply loads_ok; [done|].
  destruct (customer_row D cnt HD Hcnt w d c seed (dr_time D w d)) as (x & k & Ex & Hx & Ew & Ed & Ec & Hk & Hk'); try done.
  rewrite Ex. eapply loads_ok; [done|].
  destruct (name_key_ok w d seed (wrap 16 c)) as (nk & En); [lia|scale|rewrite wrap_small by (unfold fits; scale); scale|].
  eapply loads_ok; [exact En|]. eapply loads_mono; [eapply loads_record; [done|done|]| |].
  - intros r. apply loads_entry. exists x. split; [by left|]. unfold named, last_name_key. rewrite Ew, Ed, Ec, Es. exact En.
  - intros g [(k' & Ek & ->)|(k' & Ek & ->)]; [left|right]; congruence.
  - intros t. simpl. by rewrite app_nil_r.
Qed.

Lemma load_lines_ok known w d o :
  0 <= w < cnt -> 0 <= d < DISTRICT_SCALE -> 0 <= o < CUSTOMER_SCALE ->
  loads known (load_lines (dr_order D w d o) w d (dr_time D w d) o) (line_targets w d o)
    (fun t => if decide (order_line = t) then line_records D w d o else []).
Proof using HD Hcnt TS.
  intros Hw Hd Ho. pose proof (ok_time D HD w d) as Ht. destruct (ok_order D HD w d o) as (_ & Hn & Hst). unfold load_lines.
  eapply loads_ok; [apply chk_ok; unfold fits; scale|].
  eapply loads_ok; [unfold gen_range; by rewrite (proj2 (Z.leb_le _ _)) by scale|].
  set (st := od_start (dr_order D w d o)) in *. set (n := od_ol_cnt (dr_order D w d o)) in *.
  eapply loads_mono; [apply (loads_for known _ _ _
    (fun ol g => exists k, OrderLine_make_key w d o (st + ol) = Ret k /\ g = Keyed order_line k)
    (fun ol t => if decide (order_line = t) then [load_line_tuple (dr_order D w d o) w d (dr_time D w d) o ol (st + ol)] else []))| |].
  - intros ol Hol. rewrite Z2Nat.id in Hol by lia.
    eapply loads_ok; [apply chk_ok; unfold fits; scale|].
    destruct (line_row D cnt HD Hcnt w d o ol (st + ol)) as [Hx Hk]; try done; [scale|].
    assert (Ek := OrderLine_key_value w d o (st + ol) ltac:(lia) ltac:(scale) ltac:(scale) ltac:(scale)).
    eapply loads_mono; [eapply loads_record; [exact Hx|by rewrite Hk|intros r; apply loads_ret]| |].
    + intros g (k & Ek' & ->). left. congruence.
    + intros t. simpl. by rewrite app_nil_r.
  - intros g (ol & k & Hol & Ek & ->). exists ol. split; [lia|by exists k].
  - intros t. rewrite Z2Nat.id by lia. case_decide; [|by rewrite bind_none].
    unfold line_records. fold n st. generalize (seqZ 0 n). intros l. induction l as [|i l IH]; [done|].
    rewrite bind_cons, IH. done.
Qed.

Lemma load_one_order_ok known w d o c :
  0 <= w < cnt -> 0 <= d < DISTRICT_SCALE -> 0 <= o < CUSTOMER_SCALE -> dr_shuffle D w d !! Z.to_nat o = Some c ->
  loads known (load_one_order (dr_order D w d o) w d (dr_time D w d) o c) (order_targets w d o c)
    (fun t => (if decide (order = t) then [order_record D w d o c] else []) ++
              (if decide (order_line = t) then line_records D w d o else [])).
Proof using HD Hcnt TS.
  intros Hw Hd Ho Hs. destruct (order_row D cnt HD Hcnt w d o c) as (Hc & Hx & Ew & Ed & Eo & Ec & Hk); try done.
  assert (Eok := Order_key_value w d c o ltac:(lia) ltac:(scale) ltac:(scale) ltac:(scale)).
  assert (Enk := NewOrder_key_value w d o c ltac:(lia) ltac:(scale) ltac:(scale) ltac:(scale)).
  unfold order_record in *. set (x := load_order_tuple _ w d _ o c) in *. set (nk := _ + c) in Enk.
  unfold load_one_order. eapply loads_mono; [eapply (loads_record known order x _ _
    (fun g => line_targets w d o g \/ (2101 <= o /\ g = Indexed new_order_idx nk))); [done|by rewrite Hk|]| |].
  - intros r. apply loads_seq; [by apply load_lines_ok|]. instantiate (1 := fun _ => []).
    destruct (Z.leb_spec 2101 o) as [Hge|Hlt].
    + eapply loads_ok; [exact Enk|]. eapply loads_mono; [apply loads_entry| |done]; [|by intros g [_ ->]].
      split; [done|]. exists x, r. split; [by left|]. unfold announces. rewrite Ew, Ed, Eo, Ec. done.
    + eapply loads_mono; [apply loads_ret| |done]. intros g [? _]. lia.
  - intros g [(k & Ek & ->)|[Hg|(Hge & k & Ek & ->)]]; [left; congruence|right; by left|]. do 2 right. split; [done|]. congruence.
  - intros t. simpl. by rewrite app_nil_r.
Qed.

(** The rows of the orders from [o] on, for the customers [ids]. *)
Definition orders_part (w d o : Z) (ids : list Z) (t : tbl) : list obj :=
  match t with
  | order => zip_with (order_record D w d) (seqZ o (Z.of_nat (length ids))) ids
  | order_line => seqZ o (Z.of_nat (length ids)) ≫= line_records D w d
  | _ => []
  end.

Lemma load_orders_ok known w d o ids :
  0 <= w < cnt -> 0 <= d < DISTRICT_SCALE -> 0 <= o ->
  o + Z.of_nat (length ids) <= CUSTOMER_SCALE -> ids = drop (Z.to_nat o) (dr_shuffle D w d) ->
  loads known (load_orders D w d (dr_time D w d) o ids)
    (fun g => exists o' c, o <= o' /\ dr_shuffle D w d !! Z.to_nat o' = Some c /\ order_targets w d o' c g)
    (orders_part w d o ids).
Proof using HD Hcnt TS.
  intros Hw Hd. revert o. induction ids as [|c ids IH]; intros o Ho Hl Hids; cbn [load_orders length] in *.
  - eapply loads_mono; [apply loads_ret| |intros []; done]. intros g (o' & c & Ho' & Hc & _).
    assert (Hlen : (length (dr_shuffle D w d) <= Z.to_nat o)%nat).
    { pose proof (f_equal length Hids) as Hn. rewrite length_drop in Hn. simpl in Hn. lia. }
    apply lookup_lt_Some in Hc. lia.
  - assert (Hc : dr_shuffle D w d !! Z.to_nat o = Some c).
    { rewrite <-(Nat.add_0_r (Z.to_nat o)), <-lookup_drop, <-Hids. done. }
    eapply loads_mono; [apply loads_seq; [apply load_one_order_ok; try done; lia|apply IH]| |].
    + lia.
    + lia.
    + replace (Z.to_nat (o + 1)) with (Datatypes.S (Z.to_nat o)) by lia.
      rewrite <-Nat.add_1_r, <-drop_drop, <-Hids. done.
    + intros g (o' & c' & Ho' & Hc' & Hg). destruct (decide (o' = o)) as [->|Hne].
      * left. rewrite Hc in Hc'. by injection Hc' as <-.
      * right. exists o', c'. split; [lia|done].
    + intros []; cbn [orders_part length]; try done; rewrite (seqZ_cons o) by lia;
        replace (Z.pred (Z.of_nat (Datatypes.S (length ids)))) with (Z.of_nat (length ids)) by lia; done.
Qed.

(** All orders of a district. *)
Lemma load_order_ok known w d :
  0 <= w < cnt -> 0 <= d < DISTRICT_SCALE ->
  loads known (load_order D w d (dr_time D w d))
    (fun g => exists o c, 0 <= o < CUSTOMER_SCALE /\ dr_shuffle D w d !! Z.to_nat o = Some c /\ order_targets w d o c g)
    (fun t => match t with order | order_line => district_part D w d t | _ => [] end).
Proof using HD Hcnt TS.
  intros Hw Hd. assert (Hlen : length (dr_shuffle D w d) = Z.to_nat CUSTOMER_SCALE)
    by by rewrite (Permutation_length (ok_shuffle D HD w d)), length_seqZ.
  eapply loads_mono; [apply (load_orders_ok known w d 0); [done|done|lia|rewrite Hlen; scale|done]| |].
  - intros g (o & c & Ho & Hc & Hg). exists o, c. split; [lia|done].
  - intros []; cbn [orders_part district_part]; rewrite ?Hlen, ?Z2Nat.id by scale; done.
Qed.

(** The part of a table, piece by piece. *)
Ltac part_tac :=
  cbn [district_part warehouse_part all_records]; repeat (case_decide; [|]); try congruence;
  cbn [from_ret app]; rewrite ?bind_none, ?app_nil_r; reflexivity.

Lemma load_district_ok known w d :
  0 <= w < cnt -> 0 <= d < DISTRICT_SCALE ->
  loads known (load_district D w d) (district_targets w d) (district_part D w d).
Proof using HD Hcnt TS.
  intros Hw Hd. destruct (district_row D cnt HD Hcnt w d Hw Hd) as (x & k & Ex & Hx & Hk & Hk').
  unfold load_district. eapply loads_ok; [exact Ex|].
  eapply loads_mono; [eapply loads_record; [done|done|]| |].
  - intros r. cbv zeta. apply loads_seq; [apply loads_for|by apply load_order_ok].
    intros c Hc. rewrite Z2Nat.id in Hc by scale. apply load_one_customer_ok; try done; lia.
  - intros g [(k' & Ek & ->)|[(c & Hc & Hg)|(o & c & Ho & Hc & Hg)]].
    + left. congruence.
    + right. left. exists c. split; [|done]. rewrite Z2Nat.id by scale. lia.
    + do 2 right. exists o, c. split; [lia|done].
  - intros t. rewrite Z2Nat.id by scale. destruct t; cbn [district_part warehouse_part]; rewrite ?Ex; part_tac.
Qed.

Context (HC : forall w i, 0 <= w < cnt -> 0 <= i < ITEM_SCALE -> original_late D w i -> C).

Lemma items_id : Z.of_nat (Z.to_nat ITEM_SCALE) = ITEM_SCALE.
Proof using Type. apply Z2Nat.id. scale. Qed.

Lemma load_stock_ok known w :
  0 <= w < cnt ->
  loads known (load_stock D w) (fun g => exists i k, 0 <= i < ITEM_SCALE /\ Stock_make_key w i = Ret k /\ g = Keyed stock k)
    (fun t => match t with stock => warehouse_part D w stock | _ => [] end).
Proof using HD Hcnt TS HC.
  intros Hw. unfold load_stock. eapply loads_mono; [apply loads_for with
    (T := fun i g => exists k, Stock_make_key w i = Ret k /\ g = Keyed stock k)
    (R := fun i t => if decide (stock = t) then from_ret (load_stock_tuple (dr_stock D w i) w i) else [])| |].
  - intros i Hi. rewrite Z2Nat.id in Hi by scale. pose proof (stock_row D cnt HD Hcnt w i Hw Hi) as Hrow.
    apply emits_lift.
    + intros x Ex. rewrite Ex in Hrow |- *. destruct Hrow as (Hx & k & Hk & Hk').
      eapply loads_mono; [eapply loads_record; [exact Hx|exact Hk|intros r; apply loads_ret]| |].
      * intros g (k' & Ek & ->). left. congruence.
      * intros t. simpl. by rewrite app_nil_r.
    + intros Hn. apply (HC w i Hw Hi). destruct (load_stock_tuple _ w i) as [x| | |]; [by destruct (Hn x)|done..].
  - intros g (i & k & Hi & Hk & ->). exists i. split; [rewrite Z2Nat.id by scale; lia|by exists k].
  - intros t. rewrite items_id. destruct t; part_tac.
Qed.

Lemma load_warehouse_ok known w :
  0 <= w < cnt -> loads known (load_warehouse D w) (warehouse_targets w) (warehouse_part D w).
Proof using HD Hcnt TS HC.
  intros Hw. destruct (warehouse_row D cnt HD Hcnt w Hw) as (x & Ex & Hx & Hk). unfold load_warehouse.
  eapply loads_ok; [exact Ex|]. eapply loads_mono; [eapply loads_record; [exact Hx|exact Hk|]| |].
  - intros r. apply loads_seq; [apply loads_for|by apply load_stock_ok].
    intros d Hd. rewrite Z2Nat.id in Hd by scale. apply load_district_ok; [done|lia].
  - intros g [->|[(d & Hd & Hg)|Hg]]; [by left|right; left|by do 2 right].
    exists d. split; [rewrite Z2Nat.id by scale; lia|done].
  - intros t. rewrite Z2Nat.id by scale. destruct t; cbn [district_part warehouse_part]; rewrite ?Ex; part_tac.
Qed.

Lemma load_item_ok known :
  loads known (load_item D) (fun g => exists i, 0 <= i < ITEM_SCALE /\ g = Keyed item i)
    (fun t => match t with item => all_records D cnt item | _ => [] end).
Proof using HD Hcnt TS.
  unfold load_item. eapply loads_mono; [apply loads_for with (T := fun i g => g = Keyed item i)
    (R := fun i t => if decide (item = t) then from_ret (load_item_tuple (dr_item D i) i) else [])| |].
  - intros i Hi. rewrite Z2Nat.id in Hi by scale. destruct (item_row D cnt HD i) as (x & Ex & Hx & Hk); [lia|].
    rewrite Ex. eapply loads_ok; [done|].
    eapply loads_mono; [eapply loads_record; [exact Hx|exact Hk|intros r; apply loads_ret]| |].
    + intros g ->. by left.
    + intros t. simpl. by rewrite app_nil_r.
  - intros g (i & Hi & ->). exists i. split; [rewrite Z2Nat.id by scale; lia|done].
  - intros t. rewrite items_id. destruct t; part_tac.
Qed.

Lemma load_thread_ok known per tid :
  cnt = per * 32 -> 0 <= tid < 32 ->
  loads known (load_thread D per tid) (fun g => exists w, per * tid <= w < per * (tid + 1) /\ warehouse_targets w g)
    (fun t => seqZ (per * tid) per ≫= fun w => warehouse_part D w t).
Proof using HD Hcnt TS HC.
  intros Hper Htid. assert (Hp : 0 <= per) by lia.
  assert (Hlo : 0 <= per * tid) by nia. assert (Hhi : per * (tid + 1) <= cnt) by nia.
  unfold load_thread. eapply loads_ok; [apply chk_ok; unfold fits; nia|]. eapply loads_ok; [apply chk_ok; unfold fits; nia|].
  replace (per * (tid + 1) - per * tid) with per by lia.
  eapply loads_mono; [apply loads_for; intros w Hw; apply load_warehouse_ok| |].
  - rewrite Z2Nat.id in Hw by nia. lia.
  - intros g (w & Hw & Hg). exists w. split; [rewrite Z2Nat.id by nia; lia|done].
  - intros t. by rewrite Z2Nat.id by done.
Qed.
End logs.
