(* ===== verification/TpccReal.v ===== *)
(** * TPC-C on the attribute cache

    The tables of the benchmark are [DbTable]s over a radix tree: they keep the
    promises of Guarded.v, so the theorems of TpccRuns.v hold of them.  A
    database that has just been built is at rest and empty. *)

From Stdlib Require Import QArith.
From S2P Require Import Prelude Query Schema Layout External ObjAlloc ClockCache CacheMachine Table Guarded Txn TxnView SpecTable.
From S2P Require Import TpccTables TpccSchemas TpccTxn TpccView NewOrder TpccRuns.
Open Scope Z_scope.

(** The tables are seven. *)
Lemma tbl_choice {B} (P : tbl -> B -> Prop) : (forall t, exists x, P t x) -> exists f, forall t, P t (f t).
Proof.
  intros HP. destruct (HP warehouse) as [w ?], (HP district) as [d ?], (HP customer) as [c ?], (HP item) as [i ?],
    (HP stock) as [s ?], (HP order) as [o ?], (HP order_line) as [l ?].
  exists (fun t => match t with
            | warehouse => w | district => d | customer => c | item => i
            | stock => s | order => o | order_line => l
            end).
  by intros [].
Qed.

Section real.
Context {A : Type} `{ArtRaw A} `{!KvMapLaws Rid A} `{!RangeIndexLaws (Art A)}.
Context {T M : Type} `{KvMapLaws Z T} `{KvMapLaws TlsAllocator M}.
Context (S : tbl -> Schema) `{TS : !TpccSchemas S}.
Abbreviation table := (DbTable (Art A) T M).

Definition real_ops (t : tbl) : GuardedTable (Art A) table QueryValue := @DbTable_guarded A _ T M _ _ (S t).

Definition real_laws (t : tbl) :
    @GuardedTableLaws (S t) (tpcc_columns t) (tpcc_written t) (Art A) table QueryValue _ _ (real_ops t) :=
  DbTable_laws (L := ts_laws t).

(** [TpccWorkload::new]: a table each, and the two bare indexes. *)
Definition new_database (tables : tbl -> table) : Txn.db tbl index_name (Art A) table QueryValue :=
  mkDb tables (fun _ => index_new) (fun _ => None) [].

Definition empty_adb (tables : tbl -> table) : adb tbl index_name (Art A) :=
  mkAdb (fun _ => ∅) (fun t => tb_index (tables t)) (fun _ => index_new) (fun _ => None) [].

Definition empty_view (tables : tbl -> table) : view tbl index_name (Art A) :=
  mkView (fun _ => ∅) (fun t => tb_index (tables t)) (fun _ => index_new) (fun _ => None) [].

(** [tb] is what a builder with these sizes gives for table [t] on this machine. *)
Definition built (node_size cache_size storage_size ptr : Z) (init : Z -> list obj) (t : tbl) (tb : table) : Prop :=
  exists b, configured b cache_size storage_size /\ @build (Art A) _ (S t) T M _ _ node_size ptr init b = Ret tb.

(** The tables just built, and no guard. *)
Lemma new_database_rest (ns cs ss ptr : tbl -> Z) (init : tbl -> Z -> list obj) (tables : tbl -> table) :
  (forall t, @sizes_ok (S t) (ns t) (cs t) (ss t) (ptr t) (init t)) ->
  (forall t, built (ns t) (cs t) (ss t) (ptr t) (init t) t (tables t)) ->
  rest real_ops S real_laws (new_database tables) (empty_adb tables) (empty_view tables) /\
  (forall t k, index_get (v_index (empty_view tables) t) k = None).
Proof.
  intros Hsizes Hbuilt.
  assert (Ht : forall t, cache_inv (Sc := S t) (tpcc_columns t) (tb_cache (tables t)) /\
            (forall r, ~ allocated_rid (tb_cache (tables t)) r) /\
            forall k, index_get (tb_index (tables t)) k = None).
  { intros t. destruct (Hbuilt t) as (b & Hb & Et).
    destruct (build_ok (I := Art A) (T := T) (M := M) (Sc := S t) (columns := tpcc_columns t) b _ _ _ _ _ (Hsizes t) Hb)
      as (tb & cap & E & Hix & Hinv & Hna & _).
    rewrite Et in E. injection E as ->.
    split; [done|]. split; [done|]. intros k. rewrite Hix. apply index_get_with_capacity. }
  split; [|intros t k; apply Ht]. split; [|split; [|done]].
  - split; [|split; [done|split; [done|by intros t r]]]. intros t. destruct (Ht t) as (Hinv & Hna & _).
    split; [|by split]. split; [done|]. split.
    + intros r. split; [intros Ha; by apply Hna in Ha|]. simpl. rewrite lookup_empty. by intros [].
    + intros r x n. simpl. by rewrite lookup_empty.
  - split; [by repeat split; simpl; intros; rewrite ?fmap_empty|]. split; [by intros t r|]. split.
    + intros t r l. unfold others_lock. simpl. by rewrite lookup_empty.
    + split; [intros t k r Hr; pose proof (proj2 (proj2 (Ht t)) k); simpl in *; congruence|].
      intros t r x. simpl. by rewrite lookup_empty.
Qed.

(** The tables that the benchmark's builders give form a database at rest: no
    record, no guard, every index empty; whatever holds of runs from a
    database at rest holds from here on. *)
Theorem new_database_at_rest (ns cs ss ptr : tbl -> Z) (init : tbl -> Z -> list obj) (tables : tbl -> table) :
  (forall t, @sizes_ok (S t) (ns t) (cs t) (ss t) (ptr t) (init t)) ->
  (forall t, built (ns t) (cs t) (ss t) (ptr t) (init t) t (tables t)) ->
  rest real_ops S real_laws (new_database tables) (empty_adb tables) (empty_view tables) /\
  (forall t k, index_get (v_index (empty_view tables) t) k = None).
Proof. apply new_database_rest. Qed.
End real.

(** *** Tables on concrete machines *)
Definition some_tuples (t : tbl) (cap : Z) : list obj := replicate (Z.to_nat cap) (replicate (size_of_table t) 0).

Lemma some_sizes t : @sizes_ok (cached_schemas t) 64 640 10000 4096 (some_tuples t).
Proof.
  unfold sizes_ok. split; [lia|]. split; [split; reflexivity|]. split; [lia|].
  split; [destruct t; (split; [vm_compute; discriminate|vm_compute; reflexivity])|]. split; [lia|].
  split; [destruct t; vm_compute; reflexivity|]. intros cap Hc. unfold some_tuples. rewrite length_replicate.
  split; [done|]. apply Forall_replicate. rewrite length_replicate. by destruct t.
Qed.

Abbreviation real_table := (DbTable (Art (gmap Z Rid)) (gmap Z Z) (gmap Z TlsAllocator)).

Lemma some_tables (t : tbl) : exists tb : real_table, built cached_schemas 64 640 10000 4096 (some_tuples t) t tb.
Proof.
  destruct (build_ok (I := Art (gmap Z Rid)) (T := gmap Z Z) (M := gmap Z TlsAllocator)
              (Sc := cached_schemas t) (columns := tpcc_columns t) _ _ _ _ _ _ (some_sizes t)
              (configured_probe_len None _ _)) as (tb & cap & E & _).
  exists tb. eexists. split; [apply (configured_probe_len None)|exact E].
Qed.

Lemma some_database : exists tables : tbl -> real_table,
  forall t, built cached_schemas 64 640 10000 4096 (some_tuples t) t (tables t).
Proof. apply (tbl_choice (fun t tb => built cached_schemas 64 640 10000 4096 (some_tuples t) t tb)), some_tables. Qed.

Lemma new_database_at_rest_witness :
  exists tables : tbl -> real_table,
    rest (real_ops cached_schemas) cached_schemas (real_laws cached_schemas) (new_database tables) (empty_adb tables)
      (empty_view tables).
Proof.
  destruct some_database as [tables Hb]. exists tables.
  destruct (new_database_at_rest cached_schemas (fun _ => 64) (fun _ => 640) (fun _ => 10000) (fun _ => 4096)
              some_tuples tables some_sizes Hb) as [H _].
  exact H.
Defined.
