(* ===== verification/TpccLoaded.v ===== *)
(** * What loading the TPC-C database establishes

    Every interleaving of the loading threads gives a database from which the
    transactions' theorems can start: its records are as [row_ok] says, every
    record is found by its key, and the two bare indexes lead to records. *)

From Stdlib Require Import QArith.
From S2P Require Import Prelude Query Schema Layout External ObjAlloc CacheMachine Table Guarded Txn TxnView LoadLog SpecTable Float64.
From S2P Require Import TpccTables TpccSchemas TpccUtils TpccTxn TpccView NewOrder Payment TpccReads Delivery TpccRuns TpccReal.
From S2P Require Import TpccLoad TpccRows TpccLoading.
Open Scope string_scope.
Open Scope list_scope.
Open Scope Z_scope.

Section loaded.
Context {Ix : Type} `{DbIndexLaws Ix} `{!RangeIndex Ix} `{!RangeIndexLaws Ix}.
Context (D : Draws) (cnt : Z) (HD : draws_ok D) (Hcnt : 0 <= cnt <= 2 ^ 15).
Abbreviation view := (view tbl index_name Ix).
Implicit Types (v : view).

(** No record, and nothing in an index. *)
Definition blank v : Prop :=
  (forall t, v_tab v t = ∅) /\ (forall t k, index_get (v_index v t) k = None) /\
  (forall j k, index_get (v_idx v j) k = None).

(** Everything that is loaded. *)
Definition load_targets (g : target) : Prop :=
  (exists w, 0 <= w < cnt /\ warehouse_targets D w g) \/ (exists i, 0 <= i < ITEM_SCALE /\ g = Keyed item i).

(** The tables after loading: exactly the records that the loader makes of the
    draws, each of whose keys is found and leads to a record with the key; the
    index of last names leads to customers with the name, that of new orders to
    undelivered orders, and the [load_targets] are found. *)
Record loaded_view v : Prop := mkLoaded {
  lv_all t : (map_to_list (v_tab v t)).*2 ≡ₚ all_records D cnt t;
  lv_reached t r x : v_tab v t !! r = Some x -> exists k, key_of t x = Ret k /\ is_Some (index_get (v_index v t) k);
  lv_rows t r x : v_tab v t !! r = Some x -> row_ok D cnt t x;
  lv_keyed t k r : index_get (v_index v t) k = Some r -> exists x, v_tab v t !! r = Some x /\ key_of t x = Ret k;
  lv_found g : load_targets g ->
    match g with
    | Keyed t k => is_Some (index_get (v_index v t) k)
    | Indexed j k => is_Some (index_get (v_idx v j) k)
    end;
  lv_names k r : index_get (v_idx v c_last_idx) k = Some r -> exists x, v_tab v customer !! r = Some x /\ named D k x;
  lv_announced k r : index_get (v_idx v new_order_idx) k = Some r ->
    r = k /\ exists o x, v_tab v order !! o = Some x /\ announces k x;
}.

(** ** The program *)
Context (S : tbl -> Schema) `{TS : !TpccSchemas S}.
Abbreviation vwp := (vwp S tpcc_columns tpcc_written).

(** Why loading may panic: a number of warehouses that 32 does not divide, or
    an "ORIGINAL" that does not fit the data of a stock. *)
Definition load_panics : Prop :=
  cnt mod 32 <> 0 \/ exists w i, 0 <= w < cnt /\ 0 <= i < ITEM_SCALE /\ original_late D w i.

Definition thread_targets (tid : Z) (g : target) : Prop :=
  exists w, cnt / 32 * tid <= w < cnt / 32 * (tid + 1) /\ warehouse_targets D w g.

Definition item_targets (g : target) : Prop := exists i, 0 <= i < ITEM_SCALE /\ g = Keyed item i.

Definition thread_part (tid : Z) (t : tbl) : list obj :=
  seqZ (cnt / 32 * tid) (cnt / 32) ≫= fun w => warehouse_part D w t.

Definition item_part (t : tbl) : list obj := match t with item => all_records D cnt item | _ => [] end.

(** What the logs of the threads, and of the items, hold. *)
Definition thread_logs : list (list (event tbl index_name) -> Prop) :=
  (fun tid => logs D cnt [] (thread_targets tid) (thread_part tid)) <$> seqZ 0 32.

Definition all_logs : list (list (event tbl index_name) -> Prop) :=
  thread_logs ++ [logs D cnt [] item_targets item_part].

Lemma nothing_logged v : logged S v [] v.
Proof.
  split; [|split; [|split; [|split]]].
  - intros t. by rewrite app_nil_r.
  - by left.
  - intros t k [?|(x & r & ?%not_elem_of_nil & _)]; done.
  - by left.
  - intros j k [?|[r ?%not_elem_of_nil]]; done.
Qed.

Lemma load_runs sched v :
  v_held v = [] ->
  vwp (load D sched cnt) v (all_ended S v load_panics all_logs).
Proof using H0 HD Hcnt TS.
  intros Hh. unfold load. cbv zeta. destruct (Z.eqb_spec (cnt mod 32) 0) as [Hm|Hm]; [|by left].
  apply (vwp_lift _ _ _ _ _ tt); [done|].
  assert (Hper : cnt = cnt / 32 * 32) by (pose proof (Z.div_mod cnt 32); lia).
  assert (HC : forall w i, 0 <= w < cnt -> 0 <= i < ITEM_SCALE -> original_late D w i -> load_panics) by (right; eauto).
  apply vwp_bind. eapply vwp_mono; [|apply (interleave_emits S _ _ v load_panics sched _ thread_logs);
    [by apply nothing_logged|done|]].
  - intros [[[]|e]|] v'; [|done..]. intros Hl. unfold all_logs. apply (loaded_then S); [exact Hl|].
    by apply (load_item_ok D cnt S).
  - apply Forall2_fmap. apply Forall_Forall2_diag, Forall_forall. intros tid Htid%elem_of_seqZ.
    by apply (load_thread_ok D cnt S); [..|lia].
Qed.

(** The warehouses of the threads are all. *)
Lemma thread_of_warehouse w :
  cnt mod 32 = 0 -> 0 <= w < cnt -> exists tid, 0 <= tid < 32 /\ cnt / 32 * tid <= w < cnt / 32 * (tid + 1).
Proof using Type.
  intros Hm Hw. assert (Hper : cnt = cnt / 32 * 32) by (pose proof (Z.div_mod cnt 32); lia).
  exists (w / (cnt / 32)). split; [split; [apply Z.div_pos; lia|apply Z.div_lt_upper_bound; lia]|].
  split; [apply Z.mul_div_le; lia|]. rewrite Z.mul_add_distr_l, Z.mul_1_r.
  pose proof (Z.div_mod w (cnt / 32) ltac:(lia)). pose proof (Z.mod_pos_bound w (cnt / 32) ltac:(lia)). lia.
Qed.

Lemma all_logs_targets Es :
  cnt mod 32 = 0 -> Forall2 (fun R es => R es) all_logs Es -> logs D cnt [] load_targets (all_records D cnt) (concat Es).
Proof using Hcnt.
  intros Hm HEs.
  set (parts := ((fun tid => (thread_targets tid, thread_part tid)) <$> seqZ 0 32) ++ [(item_targets, item_part)]).
  assert (Eall : all_logs = (fun p => logs D cnt [] p.1 p.2) <$> parts).
  { unfold all_logs, thread_logs, parts. by rewrite fmap_app, <-list_fmap_compose. }
  rewrite Eall in HEs. apply Forall2_fmap_l in HEs.
  change (Forall2 (fun p es => logs D cnt [] p.1 p.2 es) parts Es) in HEs.
  eapply logs_mono; [| |exact (logs_concat D cnt [] fst snd _ _ HEs)].
  - intros g [(w & Hw & Hg)|Hi].
    + destruct (thread_of_warehouse w Hm Hw) as (tid & Htid & Hw').
      exists (thread_targets tid, thread_part tid). split; [|by exists w].
      apply elem_of_app. left. apply list_elem_of_fmap. exists tid. split; [done|]. by apply elem_of_seqZ.
    + exists (item_targets, item_part). split; [|done]. apply elem_of_app. right. by apply list_elem_of_singleton.
  - intros t. unfold parts. rewrite bind_app, bind_fmap, bind_singleton. cbn [snd]. unfold thread_part.
    rewrite (bind_chunks (fun w => warehouse_part D w t)) by (apply Z.div_pos; lia).
    replace (cnt / 32 * 32) with cnt by (pose proof (Z.div_mod cnt 32); lia).
    destruct (decide (t = item)) as [->|Ht].
    + rewrite (bind_ext _ (fun _ => [])), bind_none; [reflexivity|].
      intros w _. cbn [warehouse_part district_part]. by rewrite bind_none.
    + destruct t; try (by destruct Ht); cbn [item_part all_records]; rewrite app_nil_r; reflexivity.
Qed.

(** What was there, the rows [R], and entries with the [targets] among them. *)
Record loaded_over (base : view) (targets : target -> Prop) (R : tbl -> list obj) v : Prop := mkLoadedOver {
  lo_all t : (map_to_list (v_tab v t)).*2 ≡ₚ (map_to_list (v_tab base t)).*2 ++ R t;
  lo_reached t r x : v_tab v t !! r = Some x ->
    v_tab base t !! r = Some x \/ exists k, key_of t x = Ret k /\ is_Some (index_get (v_index v t) k);
  lo_rows t r x : v_tab v t !! r = Some x -> v_tab base t !! r = Some x \/ row_ok D cnt t x;
  lo_kept t r x : v_tab base t !! r = Some x -> v_tab v t !! r = Some x;
  lo_keyed t k r : index_get (v_index v t) k = Some r ->
    index_get (v_index base t) k = Some r \/ exists x, v_tab v t !! r = Some x /\ key_of t x = Ret k;
  lo_found g : targets g ->
    match g with
    | Keyed t k => is_Some (index_get (v_index v t) k)
    | Indexed j k => is_Some (index_get (v_idx v j) k)
    end;
  lo_names k r : index_get (v_idx v c_last_idx) k = Some r ->
    index_get (v_idx base c_last_idx) k = Some r \/ exists x, v_tab v customer !! r = Some x /\ named D k x;
  lo_announced k r : index_get (v_idx v new_order_idx) k = Some r ->
    index_get (v_idx base new_order_idx) k = Some r \/
    r = k /\ exists o x, v_tab v order !! o = Some x /\ announces k x;
}.

Lemma loaded_over_ok base Rs targets R v :
  (forall Es, Forall2 (fun R es => R es) Rs Es -> logs D cnt [] targets R (concat Es)) ->
  loaded S base Rs v -> loaded_over base targets R v /\ v_held v = [].
Proof using HD Hcnt TS.
  intros HRs (E & Es & HE & Hh & HEs & Hperm). split; [|done].
  destruct (HRs Es HEs) as ([Hrow Hent] & Htgt & HR).
  assert (Hin : forall e, e ∈ E <-> e ∈ concat Es) by (intros e; by rewrite Hperm).
  assert (Htab : forall t r x, v_tab v t !! r = Some x <-> v_tab base t !! r = Some x \/ Row t x r ∈ E)
    by (intros; by apply (logged_lookup S base)).
  assert (Hput : forall t x r, Row t x r ∈ concat Es -> v_tab v t !! r = Some x) by (intros t x r Hx; apply Htab; right; by apply Hin).
  destruct HE as (H1 & H2 & H3 & H4 & H5).
  split.
  - intros t. rewrite (H1 t), fmap_app. unfold rows_in. rewrite Hperm. by rewrite <-(HR t).
  - intros t r x [?|Hx]%Htab; [by left|right]. destruct (Hrow t x r) as [_ _]; [by apply Hin|].
    assert (Hk : exists k, key_of t x = Ret k) by (apply (row_key D cnt HD Hcnt), (Hrow t x r), Hin, Hx).
    destruct Hk as [k Hk]. exists k. split; [done|]. apply H3. right. exists x, r. by rewrite ts_key.
  - intros t r x [?|Hx%Hin]%Htab; [by left|right]. by eapply Hrow.
  - intros t r x Hx. apply Htab. by left.
  - intros t k r [?|(x & Hx & Ek)]%H2; [by left|right]. exists x. rewrite ts_key in Ek. split; [by apply Hput, Hin|done].
  - intros g Hg. specialize (Htgt g Hg). destruct g as [t k|j k]; simpl in Htgt.
    + destruct Htgt as (x & r & Hx & Hk). apply H3. right. exists x, r. rewrite ts_key. split; [by apply Hin|done].
    + destruct Htgt as (r & Hr). apply H5. right. exists r. by apply Hin.
  - intros k r [?|Hk%Hin%Hent]%H4; [by left|right]. destruct Hk as (x & Hx & Hn). exists x. split; [by apply Hput|done].
  - intros k r [?|Hk%Hin%Hent]%H4; [by left|right]. destruct Hk as (-> & x & o & Hx & Ha). split; [done|]. exists o, x.
    split; [by apply Hput|done].
Qed.

Lemma loaded_all base v : blank base -> cnt mod 32 = 0 -> loaded S base all_logs v -> loaded_view v.
Proof using HD Hcnt TS.
  intros (Ht & Hi & Hj) Hm Hl.
  destruct (loaded_over_ok base all_logs load_targets _ v (fun Es => all_logs_targets Es Hm) Hl) as [[Ha Hr H1 H2 H3 H4 H5 H6] _].
  split.
  - intros t. by rewrite Ha, Ht, map_to_list_empty.
  - intros t r x [Hx|?]%Hr; [|done]. by rewrite Ht, lookup_empty in Hx.
  - intros t r x [Hx|?]%H1; [|done]. by rewrite Ht, lookup_empty in Hx.
  - intros t k r [Hk|?]%H3; [|done]. by rewrite Hi in Hk.
  - exact H4.
  - intros k r [Hk|?]%H5; [|done]. by rewrite Hj in Hk.
  - intros k r [Hk|?]%H6; [|done]. by rewrite Hj in Hk.
Qed.

Definition load_ends (res : option (result unit TransactionError)) v : Prop :=
  match res with Some (Ok _) => loaded_view v | Some (Err _) => False | None => load_panics end.

Lemma load_loads sched v : blank v -> v_held v = [] -> vwp (load D sched cnt) v load_ends.
Proof using H0 HD Hcnt TS.
  intros Hb Hh. destruct (decide (cnt mod 32 = 0)) as [Hm|Hm].
  - eapply vwp_mono; [|by apply load_runs]. intros [[[]|e]|] v' Hl; [|done..]. by eapply loaded_all.
  - unfold load. cbv zeta. apply (vwp_lift_or S _ _ load_ends); [|by left]. intros b Eb.
    rewrite (proj2 (Z.eqb_neq _ _) Hm) in Eb. discriminate Eb.
Qed.

(** ** What the transactions rely on *)

(** The assumptions of the transactions' theorems, and that order status and
    delivery have no reason to panic. *)
Record serviceable v : Prop := mkServiceable {
  sv_stock : all_stock 0 v;
  sv_districts : all_districts v;
  sv_twenty : twenty_orders v;
  sv_lines : lines_keyed v;
  sv_ids : ids_ok v;
  sv_counts : customers_count v;
  sv_customers : all_customers v;
  sv_orders i c x : 0 <= os_w_id i < cnt -> 0 <= os_d_id i < DISTRICT_SCALE -> v_tab v customer !! c = Some x ->
    orders_of i v x <> [];
  sv_announced i d_id key o x : delivery_ok i -> 0 <= d_id < DISTRICT_SCALE -> 0 <= key -> announced i d_id key v o x ->
    column OrderTuple "o_c_id" x = (o_c_id_from_key key).2;
}.

Lemma loaded_unchanged v v' : unchanged v v' -> loaded_view v -> loaded_view v'.
Proof.
  intros (Ht & Hi & Hj) [Ha Hr H1 H2 H3 H4 H5]. split.
  - intros t. by rewrite Ht.
  - intros t r x. rewrite Ht, Hi. apply Hr.
  - intros t r x. rewrite Ht. apply H1.
  - intros t k r. rewrite Hi, Ht. apply H2.
  - intros [t k|j k] Hg; [rewrite Hi|rewrite Hj]; by apply H3 in Hg.
  - intros k r. rewrite Hj, Ht. apply H4.
  - intros k r. rewrite Hj, Ht. apply H5.
Qed.

Lemma loaded_orders v i c x :
  loaded_view v -> 0 <= os_w_id i < cnt -> 0 <= os_d_id i < DISTRICT_SCALE -> v_tab v customer !! c = Some x ->
  orders_of i v x <> [].
Proof using HD Hcnt RangeIndexLaws0.
  intros Hv Hw Hd Hx. destruct (lv_rows v Hv _ _ _ Hx) as (_ & _ & _ & Hc & _).
  set (w := os_w_id i) in *. set (d := os_d_id i) in *. set (c_id := column CustomerTuple "c_id" x) in *.
  assert (Hin : c_id ∈ dr_shuffle D w d) by (rewrite (ok_shuffle D HD w d); apply elem_of_seqZ; lia).
  apply list_elem_of_lookup in Hin as [o Ho].
  assert (Hlt : (o < Z.to_nat CUSTOMER_SCALE)%nat).
  { apply lookup_lt_Some in Ho. by rewrite (Permutation_length (ok_shuffle D HD w d)), length_seqZ in Ho. }
  assert (Ek := Order_key_value w d c_id (Z.of_nat o) ltac:(lia) ltac:(scale) ltac:(scale) ltac:(scale)).
  destruct (lv_found v Hv (Keyed order (w * 2 ^ 48 + d * 2 ^ 32 + c_id * 2 ^ 16 + Z.of_nat o))) as [r Hr].
  { left. exists w. split; [done|]. right. left. exists d. split; [done|]. do 2 right. exists (Z.of_nat o), c_id.
    split; [scale|]. rewrite Nat2Z.id. split; [done|]. left. by eexists. }
  intros E. pose proof (ix_range_none _ _ _ 12 (w * 2 ^ 48 + d * 2 ^ 32 + c_id * 2 ^ 16 + Z.of_nat o) E ltac:(lia)
    ltac:(fold w d c_id; scale)) as Hno. simpl in Hr. congruence.
Qed.

Lemma order_key_customer w d c o w' d' c' o' :
  w * 2 ^ 48 + d * 2 ^ 32 + c * 2 ^ 16 + o = w' * 2 ^ 48 + d' * 2 ^ 32 + c' * 2 ^ 16 + o' ->
  0 <= d < 2 ^ 16 -> 0 <= c < 2 ^ 16 -> 0 <= o < 2 ^ 16 ->
  0 <= d' < 2 ^ 16 -> 0 <= c' < 2 ^ 16 -> 0 <= o' < 2 ^ 16 -> c = c'.
Proof. lia. Qed.

Lemma loaded_announced v i d_id key o x :
  loaded_view v -> delivery_ok i -> 0 <= d_id < DISTRICT_SCALE -> 0 <= key -> announced i d_id key v o x ->
  column OrderTuple "o_c_id" x = (o_c_id_from_key key).2.
Proof using HD Hcnt.
  intros Hv [Hw _] Hd Hk (ok & Ek & Ho & Hx). destruct (key_parts key Hk) as [H1 H2].
  destruct (lv_keyed v Hv _ _ _ Ho) as (y & Hy & Ey). rewrite Hx in Hy. injection Hy as <-.
  destruct (lv_rows v Hv _ _ _ Hx) as (_ & Hrow). cbv zeta in Hrow. destruct Hrow as (Hw' & Hd' & Ho' & Hc' & _).
  apply list_elem_of_lookup_2 in Hc'. rewrite (ok_shuffle D HD) in Hc'. apply elem_of_seqZ in Hc'.
  simpl in Ey. unfold Order_key in Ey. rewrite Order_key_value in Ey by scale. rewrite Order_key_value in Ek by scale.
  rewrite <-Ek in Ey. injection Ey as Ey. eapply order_key_customer; [exact Ey|..]; first [exact H1|scale].
Qed.

Lemma loaded_serviceable v : loaded_view v -> serviceable v.
Proof using HD Hcnt RangeIndexLaws0.
  intros Hv. split.
  - intros r x Hx. destruct (lv_rows v Hv _ _ _ Hx) as (Hl & _ & _ & Hq & Hy & Ho & Hr). split; [done|]. lia.
  - intros r x Hx. destruct (lv_rows v Hv _ _ _ Hx) as (_ & _ & _ & Hn). unfold district_ok. lia.
  - intros r x Hx. destruct (lv_rows v Hv _ _ _ Hx) as (_ & _ & _ & Hn). lia.
  - intros r x Hx. destruct (lv_rows v Hv _ _ _ Hx) as (_ & _ & _ & Ho & Hi & _). scale.
  - split; intros r x Hx.
    + destruct (lv_rows v Hv _ _ _ Hx) as (_ & _ & _ & Hc & _). scale.
    + destruct (lv_rows v Hv _ _ _ Hx) as (_ & _ & _ & Ho & _). scale.
  - intros r x Hx. destruct (lv_rows v Hv _ _ _ Hx) as (Hl & _ & _ & _ & _ & _ & _ & Hdc). split; [done|]. lia.
  - intros r x Hx. destruct (lv_rows v Hv _ _ _ Hx) as (Hl & _ & _ & _ & Hoe & Hdisc & Hp & _).
    split; [exact Hl|]. split; [exact Hoe|]. rewrite Hp. done.
  - intros i c x. by apply loaded_orders.
  - intros i d_id key o x. by apply loaded_announced.
Qed.
End loaded.

(** ** Runs *)
Section runs.
Context {Ix Tb V : Type} `{DbIndexLaws Ix} `{!RangeIndex Ix} `{!RangeIndexLaws Ix}.
Context (ops : tbl -> GuardedTable Ix Tb V) (S : tbl -> Schema) `{TS : !TpccSchemas S}.
Context (laws : forall t, @GuardedTableLaws (S t) (tpcc_columns t) (tpcc_written t) Ix Tb V _ _ (ops t)).
Context (D : Draws) (cnt : Z).
Abbreviation rest := (rest ops S laws).
Abbreviation run_ok := (run_ok ops S laws).
Implicit Types (v : view tbl index_name Ix) (ds : nat -> draws).

(** The ids of records are ids. *)
Lemma rest_rid_ok s a v t r : rest s a v -> is_Some (v_tab v t !! r) -> Rid_ok r.
Proof.
  intros ((Ht & _) & (Hsh & _) & _) Hr. apply (shows_some v a) in Hr; [|done]. destruct (Ht t) as (Hsim & _).
  by eapply gt_rid_ok.
Qed.

Lemma load_ready s a v sched ds :
  rest s a v -> blank v -> draws_ok D -> 0 <= cnt <= 2 ^ 15 ->
  run_ok (load D sched cnt) ds s a
    (fun r v' => r = Ok tt /\ loaded_view D cnt v' /\ serviceable cnt v' /\ names_linked v') (load_panics D cnt).
Proof.
  intros Hr Hb HD Hcnt. destruct (rest_linked ops S laws _ _ _ Hr) as [Hh _].
  destruct (run_view ops S laws (load D sched cnt) ds s a v (load_ends D cnt)
              (fun r v' => r = Ok tt /\ loaded_view D cnt v') (load_panics D cnt))
    as [(r & s' & a' & v' & E & Hr' & Hk & -> & Hv)|Hp]; [done|by apply load_loads| |done| |by right].
  - intros [[]|e] v1 v2 Hl Hu; [|done]. split; [done|]. by eapply loaded_unchanged.
  - left. exists (Ok tt), s', a', v'. split; [done|]. split; [done|]. split; [done|]. split; [done|].
    split; [done|]. split; [by apply (loaded_serviceable D cnt)|]. intros k r Hr1. apply (lv_names D cnt v' Hv) in Hr1.
    destruct Hr1 as (x & Hx & _). split; [eapply rest_rid_ok; [exact Hr'|]|]; by exists x.
Qed.

(** C5: Loading a new database, whatever is drawn and however the calls of the 32
    threads interleave, returns a database at rest whose tables hold exactly the
    records made of the draws for [cnt] warehouses, order lines included, as
    many times as they are made; the key of every record is found and leads to
    a record with it, every last name leads to a customer of that name and every
    announced order is an undelivered one.  The assumptions of the five
    transactions hold: among them that every customer has an order and every
    announced order is its customer's, so that neither order status nor delivery
    panics; payment still panics for a customer whose discount is not drawn
    strictly between 0 and 0.5.  Loading panics only for want of record ids, if 32 does not divide
    [cnt], or when the place drawn for "ORIGINAL" in the data of a stock is 16 or
    more. *)
Theorem load_prepares s a v sched ds :
  rest s a v -> blank v -> draws_ok D -> 0 <= cnt <= 2 ^ 15 ->
  run_ok (load D sched cnt) ds s a
    (fun r v' => r = Ok tt /\ loaded_view D cnt v' /\ serviceable cnt v' /\ names_linked v') (load_panics D cnt).
Proof. apply load_ready. Qed.
End runs.

(** *** Loading the new database of TpccReal.v *)
Definition steady_place : PlaceDraw := mkPlaceDraw (fun _ _ => 65) 5000 0.

(** A quarter. *)
Definition f64_quarter : Z := 0x3fd0000000000000.

Definition steady : Draws := {|
  dr_c255 := 7;
  dr_warehouse := fun _ => steady_place;
  dr_district := fun _ _ => steady_place;
  dr_time := fun _ _ => 1000;
  dr_customer := fun _ _ _ => mkCustomerDraw 123 200 900 false (fun _ _ => 66) 1234 f64_quarter;
  dr_shuffle := fun _ _ => seqZ 0 CUSTOMER_SCALE;
  dr_order := fun _ _ _ => mkOrderDraw 3 10 777 (fun _ => f64_quarter) (fun _ _ => 67);
  dr_stock := fun _ _ => mkStockDraw (Some 15) 50 (fun _ _ => 68);
  dr_item := fun _ => mkItemDraw 42 f64_quarter None (fun _ _ => 69);
|}.

Lemma steady_ok : draws_ok steady.
Proof.
  split; simpl; try (unfold fits; lia).
  - intros _ _ _. unfold customer_draw_ok. simpl. split_and!; try lia; try (vm_compute; reflexivity).
    unfold fits, f64_quarter. lia.
  - done.
  - intros _ _ _. unfold order_draw_ok. simpl. scale.
  - intros _ _. split; [by intros start [= <-]|lia].
  - intros _. split; [by intros start|lia].
Qed.

(** Any interleaving [sched] of the loading threads, on the attribute cache. *)
Lemma load_prepares_witness :
  exists tables : tbl -> real_table, forall sched ds,
    run_ok (real_ops cached_schemas) cached_schemas (real_laws cached_schemas) (load steady sched 64) ds
      (new_database tables) (empty_adb tables)
      (fun r v' => r = Ok tt /\ loaded_view steady 64 v' /\ serviceable 64 v' /\ names_linked v')
      (load_panics steady 64).
Proof.
  destruct some_database as [tables Hb]. exists tables. intros sched ds.
  destruct (new_database_rest cached_schemas (fun _ => 64) (fun _ => 640) (fun _ => 10000) (fun _ => 4096)
              some_tuples tables some_sizes Hb) as [Hr Hi].
  apply (load_prepares (real_ops cached_schemas) cached_schemas (real_laws cached_schemas) steady 64
           (new_database tables) (empty_adb tables) (empty_view tables)); [exact Hr| |exact steady_ok|lia].
  split; [done|]. split; [exact Hi|]. intros j k. apply index_get_new.
Defined.
