(* ===== verification/TpccNew.v ===== *)
(** * Creating the TPC-C database (src/benchmark/src/tpcc/workload.rs)

    [TpccWorkload::new]: how much memory each table gets, and the tables built
    with it; [thread_init]: a thread's clock hands; [reset_order]: the orders of a database cleared and loaded again.
    The machine (the size of a cache entry, the address of a table's ids and
    what its mapped tuples hold) is a parameter for each table. *)

From Stdlib Require Import QArith.
From S2P Require Import Prelude Query Schema Layout External ObjAlloc ClockCache Table Guarded Txn LoadLog TxnReset Float64.
From S2P Require Import TpccTables TpccSchemas TpccTxn TpccReal TpccLoad.
Open Scope string_scope.
Open Scope Z_scope.

Definition MB : Z := 2 ^ 20.

(** A scale to estimate the number of orders, an [f64]. *)
Definition scale_factor (thread_cnt : Z) : Z :=
  f64_sub (f64_of_int 1) (f64_mul (f64_div (f64_of_int 1) (f64_of_int 50)) (f64_of_int thread_cnt)).

Definition order_per_thread : Z := 1100000.

(** The number of orders there is room for, [o_cnt]. *)
Definition order_cnt (warehouse_cnt thread_cnt : Z) : outcome Z :=
  districts ← chk 64 (warehouse_cnt * DISTRICT_SCALE);
  initial_cnt ← chk 64 (districts * CUSTOMER_SCALE);
  orders ← chk 64 (order_per_thread * thread_cnt);
  Ret (f64_to_usize (f64_add (f64_mul (f64_of_int orders) (scale_factor thread_cnt)) (f64_of_int initial_cnt))).

(** Memory for [cnt] tuples, in whole megabytes. *)
Definition storage_size (t : tbl) (cnt : Z) : outcome Z :=
  size ← chk 64 (cnt * size_of (tuple_of t));
  align_up size MB.

(** The memory of every table. *)
Definition storage_sizes (warehouse_cnt thread_cnt : Z) (t : tbl) : outcome Z :=
  match t with
  | warehouse => storage_size warehouse warehouse_cnt
  | district => cnt ← chk 64 (warehouse_cnt * DISTRICT_SCALE); storage_size district cnt
  | customer =>
      cnt ← chk 64 (warehouse_cnt * DISTRICT_SCALE);
      cnt ← chk 64 (cnt * CUSTOMER_SCALE);
      storage_size customer cnt
  | item => storage_size item ITEM_SCALE
  | stock => cnt ← chk 64 (warehouse_cnt * ITEM_SCALE); storage_size stock cnt
  | order => o_cnt ← order_cnt warehouse_cnt thread_cnt; storage_size order o_cnt
  | order_line =>
      o_cnt ← order_cnt warehouse_cnt thread_cnt;
      ol_cnt ← chk 64 (o_cnt * 12);
      storage_size order_line ol_cnt
  end.

(** The sizes of the caches that the caller of [new] gives, in megabytes; order
    lines always get 10. *)
Record CacheSizes := mkCacheSizes {
  w_cache_size_mb : Z; d_cache_size_mb : Z; c_cache_size_mb : Z;
  i_cache_size_mb : Z; s_cache_size_mb : Z; o_cache_size_mb : Z;
}.

Definition cache_mb (c : CacheSizes) (t : tbl) : Z :=
  match t with
  | warehouse => w_cache_size_mb c | district => d_cache_size_mb c | customer => c_cache_size_mb c
  | item => i_cache_size_mb c | stock => s_cache_size_mb c | order => o_cache_size_mb c
  | order_line => 10
  end.

(** The probability of a probe, and its length: orders and their lines are not
    worth caching. *)
Definition probe_rng_of (t : tbl) : Q :=
  match t with item => 9 # 10 | order | order_line => 0 | _ => 1 # 2 end.

Definition probe_len_of (probe_len : option Z) (t : tbl) : option Z :=
  match t with order | order_line => Some 0 | _ => probe_len end.

Section workload.
Context {A : Type} `{ArtRaw A} {T M : Type} `{KvMap Z T} `{KvMap TlsAllocator M}.
Context (S : tbl -> Schema).
Context (node_size ptr : tbl -> Z) (init : tbl -> Z -> list obj).
Abbreviation table := (DbTable (Art A) T M).
Abbreviation database := (Txn.db tbl index_name (Art A) table QueryValue).

Record TpccWorkload := mkWorkload { wl_warehouse_cnt : Z; wl_db : database }.

(** One table: its storage, its cache, and [builder()...build()]. *)
Definition new_table (warehouse_cnt thread_cnt : Z) (probe_len : option Z) (caches : CacheSizes) (t : tbl)
    : outcome table :=
  storage ← storage_sizes warehouse_cnt thread_cnt t;
  cache ← chk 64 (cache_mb caches t * MB);
  @build (Art A) _ (S t) T M _ _ (node_size t) (ptr t) (init t)
    (builder_probe_len
       (builder_probe_rng (builder_schema (builder_storage (builder_cache DbTableBuilder_new cache) storage))
          (probe_rng_of t))
       (probe_len_of probe_len t)).

Definition TpccWorkload_new (warehouse_cnt thread_cnt : Z) (probe_len : option Z) (caches : CacheSizes)
    : outcome TpccWorkload :=
  let new_table := new_table warehouse_cnt thread_cnt probe_len caches in
  tb_w ← new_table warehouse;
  tb_d ← new_table district;
  tb_c ← new_table customer;
  tb_i ← new_table item;
  tb_s ← new_table stock;
  tb_o ← new_table order;
  tb_ol ← new_table order_line;
  Ret (mkWorkload (wrap 32 warehouse_cnt)
         (new_database (fun t =>
            match t with
            | warehouse => tb_w | district => tb_d | customer => tb_c | item => tb_i
            | stock => tb_s | order => tb_o | order_line => tb_ol
            end))).

(** [thread_init] of thread [tid]: [draw t] is where its clock hand of table [t]
    starts. *)
Definition TpccWorkload_thread_init (tid : Z) (draw : tbl -> Z) (s : database) : outcome database :=
  s ← init_table tid (draw warehouse) warehouse s;
  s ← init_table tid (draw district) district s;
  s ← init_table tid (draw customer) customer s;
  s ← init_table tid (draw item) item s;
  s ← init_table tid (draw stock) stock s;
  s ← init_table tid (draw order) order s;
  init_table tid (draw order_line) order_line s.

(** ** [reset_order] *)

(** Orders, order lines and announced orders are dropped. *)
Definition clear_orders (s : database) : outcome database :=
  s ← reset_table order_line s;
  s ← reset_table order s;
  Ret (set_idx s new_order_idx index_new).
End workload.

Definition reload_thread (D : Draws) (warehouse_per_thread tid : Z) : txn unit :=
  first ← lift (chk 32 (warehouse_per_thread * tid));
  last ← lift (chk 32 (warehouse_per_thread * (tid + 1)));
  for_range (Z.to_nat (last - first)) first (fun w_id =>
    for_range (Z.to_nat DISTRICT_SCALE) 0 (fun d_id => load_order D w_id d_id (dr_time D w_id d_id))).

(** What [reset_order] does after [clear_orders]. *)
Definition reload_orders (D : Draws) (sched : list nat) (warehouse_cnt : Z) : txn unit :=
  let warehouse_per_thread := warehouse_cnt / 32 in
  _ ← lift (rassert (warehouse_cnt mod 32 =? 0));
  interleave sched (reload_thread D warehouse_per_thread <$> seqZ 0 32).

(** From 50 threads on there is no room for orders beyond those loaded, and
    then less than for these. *)
Example order_cnt_by_threads :
  order_cnt 64 1 = Ret 2998000 /\ order_cnt 64 25 = Ret 15670000 /\ order_cnt 64 50 = Ret 1920000 /\
  order_cnt 64 51 = Ret 797999 /\ order_cnt 64 52 = Ret 0.
Proof. vm_compute. repeat split. Qed.
