(* ===== verification/TpccRoom.v ===== *)
(** * Room for the TPC-C database

    How many records loading inserts into each table, and that the tables that
    [TpccWorkload::new] builds have room for them. *)

From Stdlib Require Import QArith.
From S2P Require Import Prelude Query Schema Layout External ObjAlloc OidArray ClockCache CacheMachine Table Capacity.
From S2P Require Import Guarded Txn TxnView LoadLog TxnRoom SpecTable Float64.
From S2P Require Import TpccTables TpccSchemas TpccUtils TpccTxn TpccView NewOrder Payment TpccReads Delivery TpccRuns TpccReal.
From S2P Require Import TpccLoad TpccRows TpccLoading TpccLoaded TpccNew.
Open Scope string_scope.
Open Scope Z_scope.

(** ** Inserts of the loading threads *)
Lemma at_most_for_each {N J} `{EqDecision N, EqDecision J} n first (body : Z -> prog N J unit) (b : Z -> N -> nat) :
  (forall i, at_most (body i) (b i)) -> at_most (for_range n first body) (sums (b <$> seqZ first (Z.of_nat n))).
Proof.
  intros Hb. revert first. induction n as [|n IH]; intros first; [done|]. cbn [for_range].
  rewrite seqZ_cons by lia. change (Z.succ first) with (first + 1). replace (Z.pred (Z.of_nat (S n))) with (Z.of_nat n) by lia.
  eapply at_most_within; [|apply at_most_bind; [apply Hb|intros _; apply IH]]. intros t. apply Nat.le_refl.
Qed.

Section load_budget.
Context (D : Draws).
Abbreviation budget := (tbl -> nat).

Definition order_lines (w d o : Z) : nat := Z.to_nat (od_ol_cnt (dr_order D w d o)).

(** The lines of [n] orders of a district, from [o] on. *)
Definition lines_from (w d o : Z) (n : nat) : nat := sum_list (order_lines w d <$> seqZ o (Z.of_nat n)).

Lemma lines_from_S w d o n : lines_from w d o (S n) = (order_lines w d o + lines_from w d (o + 1) n)%nat.
Proof.
  unfold lines_from. rewrite seqZ_cons by lia. change (Z.succ o) with (o + 1).
  by replace (Z.pred (Z.of_nat (S n))) with (Z.of_nat n) by lia.
Qed.

Definition district_lines (w d : Z) : nat := lines_from w d 0 (length (dr_shuffle D w d)).
Definition warehouse_lines (w : Z) : nat := sum_list (district_lines w <$> seqZ 0 DISTRICT_SCALE).

(** All order lines drawn. *)
Definition lines_drawn (cnt : Z) : nat := sum_list (warehouse_lines <$> seqZ 0 cnt).

Definition orders_budget (w d o : Z) (n : nat) : budget :=
  fun t => match t with order => n | order_line => lines_from w d o n | _ => O end.

Definition district_orders_budget (w d : Z) : budget := orders_budget w d 0 (length (dr_shuffle D w d)).

Definition district_budget (w d : Z) : budget :=
  fun t => match t with
    | district => 1%nat | customer => Z.to_nat CUSTOMER_SCALE
    | order => length (dr_shuffle D w d) | order_line => district_lines w d | _ => O
    end.

Definition warehouse_budget (w : Z) : budget :=
  plus (plus (only warehouse 1) (only stock (Z.to_nat ITEM_SCALE))) (sums (district_budget w <$> seqZ 0 DISTRICT_SCALE)).

Ltac within :=
  let t := fresh in
  intros t; unfold plus, times, only, none, upd, district_budget, orders_budget;
  repeat case_decide; destruct t; try discriminate; try lia.

Lemma load_lines_budget w d time o :
  at_most (load_lines (dr_order D w d o) w d time o) (times (order_lines w d o) (only order_line 1)).
Proof.
  unfold load_lines. apply at_most_lift. intros items _. apply at_most_lift. intros start _. apply at_most_for. intros ol.
  apply at_most_lift. intros i _. eapply at_most_within; [|apply (at_most_record _ _ _ none); done]. within.
Qed.

Lemma load_one_order_budget w d time o c :
  at_most (load_one_order (dr_order D w d o) w d time o c) (orders_budget w d o 1).
Proof.
  unfold load_one_order.
  eapply at_most_within; [|apply at_most_record; intros r; apply at_most_bind; [apply load_lines_budget|]].
  2: { intros _. case_match; [|done]. apply at_most_lift. intros key _. apply (at_most_call _ mret none); done. }
  within. rewrite lines_from_S. change (lines_from w d (o + 1) 0) with O. lia.
Qed.

Lemma load_orders_budget w d time o cs :
  at_most (load_orders D w d time o cs) (orders_budget w d o (length cs)).
Proof.
  revert o. induction cs as [|c cs IH]; intros o; [done|]. cbn [load_orders].
  eapply at_most_within; [|apply at_most_bind; [apply load_one_order_budget|intros _; apply IH]].
  change (length (c :: cs)) with (S (length cs)). within. rewrite !lines_from_S. change (lines_from w d (o + 1) 0) with O. lia.
Qed.

Lemma load_customers_budget w d time first n :
  at_most (for_range n first (fun c => load_one_customer (dr_c255 D) (dr_customer D w d c) c d w time))
    (times n (only customer 1)).
Proof.
  apply at_most_for. intros c. unfold load_one_customer. do 3 (apply at_most_lift; intros ? _).
  eapply at_most_within; [|apply (at_most_record _ _ _ none); intros r; by apply (at_most_call _ mret none)]. within.
Qed.

Lemma load_district_budget w d : at_most (load_district D w d) (district_budget w d).
Proof.
  unfold load_district. apply at_most_lift. intros row _.
  eapply at_most_within; [|apply at_most_record; intros r; apply at_most_bind; [apply load_customers_budget|]].
  2: { intros _. apply load_orders_budget. }
  within. unfold district_lines. lia.
Qed.

Lemma load_stock_budget w : at_most (load_stock D w) (only stock (Z.to_nat ITEM_SCALE)).
Proof.
  unfold load_stock. eapply at_most_within; [|apply (at_most_for _ _ _ (only stock 1))]; [within|].
  intros i. apply at_most_lift. intros row _. eapply at_most_within; [|apply (at_most_record _ _ _ none); done]. within.
Qed.

Lemma load_item_budget : at_most (load_item D) (only item (Z.to_nat ITEM_SCALE)).
Proof.
  unfold load_item. eapply at_most_within; [|apply (at_most_for _ _ _ (only item 1))]; [within|].
  intros i. apply at_most_lift. intros row _. eapply at_most_within; [|apply (at_most_record _ _ _ none); done]. within.
Qed.

Lemma load_warehouse_budget w : at_most (load_warehouse D w) (warehouse_budget w).
Proof.
  unfold load_warehouse. apply at_most_lift. intros row _.
  eapply at_most_within; [|apply at_most_record; intros r; apply at_most_bind].
  2: { apply (at_most_for_each _ _ _ (district_budget w)). intros d. apply load_district_budget. }
  2: { intros _. apply load_stock_budget. }
  intros t. rewrite Z2Nat.id by (unfold DISTRICT_SCALE; lia). unfold warehouse_budget, plus. lia.
Qed.

(** ** All of [load] *)
Definition load_budget (cnt : Z) : budget :=
  plus (sums (warehouse_budget <$> seqZ 0 cnt)) (only item (Z.to_nat ITEM_SCALE)).

Lemma load_thread_budget per tid :
  0 <= per -> at_most (load_thread D per tid) (sums (warehouse_budget <$> seqZ (per * tid) per)).
Proof.
  intros Hper. unfold load_thread. apply at_most_lift. intros first [-> _]%chk_Ret. apply at_most_lift.
  intros last [-> _]%chk_Ret. replace (per * (tid + 1) - per * tid) with per by lia.
  eapply at_most_within; [|apply at_most_for_each; intros w; apply load_warehouse_budget].
  rewrite Z2Nat.id by done. by intros t.
Qed.

Lemma sums_fmap {B} (b : B -> budget) l t : sums (b <$> l) t = sum_list ((fun i => b i t) <$> l).
Proof. induction l as [|i l IH]; [done|]. rewrite !fmap_cons. unfold sums in *. simpl. by rewrite IH. Qed.

Lemma sums_concat {B} (b : B -> budget) (f : Z -> list B) l t :
  sums ((fun i => sums (b <$> f i)) <$> l) t = sums (b <$> concat (f <$> l)) t.
Proof.
  induction l as [|i l IH]; [done|]. rewrite !fmap_cons. simpl. rewrite fmap_app, sums_app, <-IH. done.
Qed.

Lemma load_at_most sched cnt : 0 <= cnt -> at_most (load D sched cnt) (load_budget cnt).
Proof.
  intros Hcnt. unfold load. cbv zeta. apply at_most_lift. intros [] Hm.
  assert (Em : cnt = cnt / 32 * 32).
  { unfold rassert in Hm. destruct (Z.eqb_spec (cnt mod 32) 0); [|done]. pose proof (Z.div_mod cnt 32). lia. }
  eapply at_most_within; [|apply at_most_bind; [apply (at_most_interleave sched _
    ((fun tid => sums (warehouse_budget <$> seqZ (cnt / 32 * tid) (cnt / 32))) <$> seqZ 0 32))|intros _; apply load_item_budget]].
  - intros t. unfold load_budget, plus. rewrite sums_concat. change 32 with (Z.of_nat 32) at 3.
    rewrite seqZ_chunks by (apply Z.div_pos; lia). change (Z.of_nat 32) with 32. by rewrite <-Em.
  - apply Forall2_fmap, Forall_Forall2_diag, Forall_forall. intros tid _. apply load_thread_budget. apply Z.div_pos; lia.
Qed.
End load_budget.

(** ** How many records that is *)
Section records.
Context (D : Draws) (HD : draws_ok D).

(** The records of a warehouse, and all that are loaded. *)
Definition warehouse_records (w : Z) (t : tbl) : nat :=
  match t with
  | warehouse => 1
  | district => Z.to_nat DISTRICT_SCALE
  | customer | order => Z.to_nat DISTRICT_SCALE * Z.to_nat CUSTOMER_SCALE
  | item => 0
  | stock => Z.to_nat ITEM_SCALE
  | order_line => warehouse_lines D w
  end%nat.

Definition load_records (cnt : Z) (t : tbl) : Z :=
  match t with
  | warehouse => cnt
  | district => cnt * DISTRICT_SCALE
  | customer | order => cnt * DISTRICT_SCALE * CUSTOMER_SCALE
  | item => ITEM_SCALE
  | stock => cnt * ITEM_SCALE
  | order_line => Z.of_nat (lines_drawn D cnt)
  end.

Lemma length_shuffle w d : length (dr_shuffle D w d) = Z.to_nat CUSTOMER_SCALE.
Proof using HD. by rewrite (Permutation_length (ok_shuffle D HD w d)), length_seqZ. Qed.

Lemma sum_list_ext {B} (f g : B -> nat) l : (forall i, f i = g i) -> sum_list (f <$> l) = sum_list (g <$> l).
Proof. intros E. f_equal. by apply list_fmap_ext. Qed.

Lemma sum_list_most {B} (f : B -> nat) m l : (forall i, f i <= m)%nat -> (sum_list (f <$> l) <= length l * m)%nat.
Proof. intros Hf. induction l as [|i l IH]; [done|]. rewrite fmap_cons. simpl. specialize (Hf i). lia. Qed.

Lemma warehouse_budget_records w t : warehouse_budget D w t = warehouse_records w t.
Proof using HD.
  unfold warehouse_budget, plus, only, none, upd. rewrite sums_fmap.
  destruct t; repeat (case_decide; try discriminate); cbn [district_budget warehouse_records];
    rewrite ?sum_list_fmap_const, ?length_seqZ, ?Nat.mul_0_r, ?Nat.mul_1_r, ?Nat.add_0_r; try done.
  - by rewrite (sum_list_ext _ (fun _ => Z.to_nat CUSTOMER_SCALE)), sum_list_fmap_const, length_seqZ by apply length_shuffle.
Qed.

Lemma load_budget_records cnt t : 0 <= cnt -> Z.of_nat (load_budget D cnt t) = load_records cnt t.
Proof using HD.
  intros Hcnt. unfold load_budget, plus, only, none, upd. rewrite sums_fmap.
  rewrite (sum_list_ext _ (fun w => warehouse_records w t)) by (intros w; apply warehouse_budget_records).
  destruct t; repeat (case_decide; try discriminate); cbn [load_records warehouse_records];
    rewrite ?sum_list_fmap_const, ?length_seqZ, ?Nat2Z.inj_add, ?Nat2Z.inj_mul, ?Z2Nat.id by (done || scale);
    try congruence; try lia; by rewrite Z.add_0_r.
Qed.

(** At most 15 lines an order. *)
Lemma lines_drawn_most cnt : 0 <= cnt -> Z.of_nat (lines_drawn D cnt) <= 15 * (cnt * DISTRICT_SCALE * CUSTOMER_SCALE).
Proof using HD.
  intros Hcnt. assert (Hd : forall w d, (district_lines D w d <= Z.to_nat CUSTOMER_SCALE * 15)%nat).
  { intros w d. unfold district_lines, lines_from. rewrite length_shuffle. etransitivity; [apply (sum_list_most _ 15)|].
    - intros o. unfold order_lines. pose proof (ok_order D HD w d o) as (_ & Ho & _). lia.
    - by rewrite length_seqZ, Nat2Z.id. }
  assert (Hw : forall w, (warehouse_lines D w <= Z.to_nat DISTRICT_SCALE * (Z.to_nat CUSTOMER_SCALE * 15))%nat).
  { intros w. unfold warehouse_lines. etransitivity; [apply (sum_list_most _ _ _ (Hd w))|]. by rewrite length_seqZ. }
  unfold lines_drawn. pose proof (sum_list_most _ _ (seqZ 0 cnt) Hw) as H. rewrite length_seqZ in H.
  apply Nat2Z.inj_le in H. rewrite !Nat2Z.inj_mul, !Z2Nat.id in H by (done || scale). lia.
Qed.
End records.
