(* ===== verification/TpccBuilt.v ===== *)
(** * The TPC-C database that [TpccWorkload::new] creates

    The tables are at rest and empty, and have room for the records of the
    warehouses and for the orders estimated: loading finds its way to the end. *)

From Stdlib Require Import QArith.
From S2P Require Import Prelude Query Schema Layout External ObjAlloc OidArray ClockCache CacheMachine Table Capacity.
From S2P Require Import Guarded Txn TxnView LoadLog TxnRoom SpecTable Float64.
From S2P Require Import TpccTables TpccSchemas TpccUtils TpccTxn TpccView NewOrder Payment TpccReads Delivery TpccRuns TpccReal.
From S2P Require Import TpccLoad TpccRows TpccLoading TpccLoaded TpccNew TpccRoom.
Open Scope string_scope.
Open Scope Z_scope.

(** ** Sizes *)

(** Records there is room for, with [o_cnt] orders. *)
Definition room_for (cnt o_cnt : Z) (t : tbl) : Z :=
  match t with
  | warehouse => cnt
  | district => cnt * DISTRICT_SCALE
  | customer => cnt * DISTRICT_SCALE * CUSTOMER_SCALE
  | item => ITEM_SCALE
  | stock => cnt * ITEM_SCALE
  | order => o_cnt
  | order_line => o_cnt * 12
  end.

(** Numbers of warehouses and orders, and sizes of caches, that the machine has
    room for. *)
Definition scale_ok (cnt o_cnt : Z) (caches : CacheSizes) : Prop :=
  0 < cnt <= 2 ^ 14 /\ 0 <= o_cnt <= 2 ^ 27 /\ forall t, 1 <= cache_mb caches t < 2 ^ 12.

Lemma tuple_sizes t : 1 <= size_of (tuple_of t) < 2 ^ 10.
Proof. by destruct t. Qed.

(** [s] bytes are in whole megabytes what [n] tuples need. *)
Definition holds_tuples (t : tbl) (n s : Z) : Prop := n * size_of (tuple_of t) <= s < n * size_of (tuple_of t) + MB.

Lemma holds_tuples_cnt t n s : 0 <= n < 2 ^ 31 - MB -> holds_tuples t n s -> 0 <= s /\ n <= s / size_of (tuple_of t) < 2 ^ 31.
Proof.
  unfold holds_tuples. pose proof (tuple_sizes t) as Hk. set (k := size_of (tuple_of t)) in *. intros Hn [H1 H2].
  assert (0 <= n * k) by nia. assert (n * k <= (2 ^ 31 - MB - 1) * k) by (apply Z.mul_le_mono_nonneg_r; lia).
  unfold MB in *. split; [lia|]. split; [apply Z.div_le_lower_bound; lia|]. apply Z.div_lt_upper_bound; lia.
Qed.

Lemma storage_size_ok t cnt : 0 <= cnt < 2 ^ 31 - MB -> exists s, storage_size t cnt = Ret s /\ holds_tuples t cnt s.
Proof.
  intros Hc. unfold storage_size, holds_tuples. pose proof (tuple_sizes t) as Hs. set (k := size_of (tuple_of t)) in *.
  assert (Hm : cnt * k <= 2 ^ 31 * 2 ^ 10) by (apply Z.mul_le_mono_nonneg; unfold MB in *; lia).
  assert (H0 : 0 <= cnt * k) by nia. rewrite chk_ok by (unfold fits; lia). runm.
  destruct (align_up_ok (cnt * k) 20) as (s & E & Hle & _); [lia..|]. exists s. split; [exact E|]. exact Hle.
Qed.

Lemma room_for_fits cnt o_cnt caches t : scale_ok cnt o_cnt caches -> 0 <= room_for cnt o_cnt t < 2 ^ 31 - MB.
Proof. intros (Hc & Ho & _). unfold MB. destruct t; simpl; scale. Qed.

Lemma storage_sizes_ok cnt thread_cnt o_cnt caches t :
  scale_ok cnt o_cnt caches -> order_cnt cnt thread_cnt = Ret o_cnt ->
  exists s, storage_sizes cnt thread_cnt t = Ret s /\ holds_tuples t (room_for cnt o_cnt t) s.
Proof.
  intros Hs Eo. pose proof (room_for_fits _ _ _ t Hs) as Hr. destruct Hs as (Hc & Ho & _).
  destruct t; cbn [storage_sizes room_for] in *; rewrite ?Eo; runm;
    repeat (rewrite chk_ok by (unfold fits; scale); runm); by apply storage_size_ok.
Qed.

(** ** Orders take up memory *)

(** Different numbers below [cap] are at most [cap] many. *)
Lemma distinct_below (l : list Z) cap : 0 <= cap -> NoDup l -> (forall r, r ∈ l -> 0 <= r < cap) -> Z.of_nat (length l) <= cap.
Proof.
  intros Hc Hl Hr. assert (Hs : l ⊆+ seqZ 0 cap) by (apply NoDup_submseteq; [done|]; intros r Hin; apply elem_of_seqZ, Hr, Hin).
  apply submseteq_length in Hs. rewrite length_seqZ in Hs. lia.
Qed.

(** Different things are in different places. *)
Lemma distinct_places (P : Z -> Z -> Prop) l :
  NoDup l -> (forall i, i ∈ l -> exists r, P i r) -> (forall i j r, P i r -> P j r -> i = j) ->
  exists rs, length rs = length l /\ NoDup rs /\ forall r, r ∈ rs -> exists i, i ∈ l /\ P i r.
Proof.
  intros Hl HP Hinj. induction Hl as [|i l Hi _ IH]; [exists []; split; [done|]; split; [constructor|]; by intros r ?%not_elem_of_nil|].
  destruct IH as (rs & Hlen & Hrs & Hr); [intros j Hj; apply HP; by right|]. destruct (HP i) as [r Hir]; [by left|].
  exists (r :: rs). split; [simpl; by rewrite Hlen|]. split.
  - constructor; [|done]. intros (j & Hj & Hjr)%Hr. by rewrite (Hinj i j r Hir Hjr) in Hi.
  - intros r' [->|(j & Hj & Hjr)%Hr]%elem_of_cons; [exists i; split; [by left|done]|exists j; split; [by right|done]].
Qed.

Section orders.
Context {Ix : Type} `{DbIndexLaws Ix} `{!RangeIndex Ix} `{!RangeIndexLaws Ix}.
Context (D : Draws) (cnt : Z) (HD : draws_ok D) (Hcnt : 0 <= cnt <= 2 ^ 15).

(** The key of the [n]-th order loaded. *)
Definition nth_order_key (n : Z) : Z :=
  let w := n / (DISTRICT_SCALE * CUSTOMER_SCALE) in
  let d := n / CUSTOMER_SCALE mod DISTRICT_SCALE in
  let o := n mod CUSTOMER_SCALE in
  w * 2 ^ 48 + d * 2 ^ 32 + (dr_shuffle D w d !!! Z.to_nat o) * 2 ^ 16 + o.

Lemma shuffled w d o : 0 <= o < CUSTOMER_SCALE ->
  dr_shuffle D w d !! Z.to_nat o = Some (dr_shuffle D w d !!! Z.to_nat o) /\
  0 <= dr_shuffle D w d !!! Z.to_nat o < CUSTOMER_SCALE.
Proof using HD.
  intros Ho. assert (E : dr_shuffle D w d !! Z.to_nat o = Some (dr_shuffle D w d !!! Z.to_nat o)).
  { apply list_lookup_lookup_total_lt. rewrite (Permutation_length (ok_shuffle D HD w d)), length_seqZ. lia. }
  split; [exact E|]. revert E. generalize (dr_shuffle D w d !!! Z.to_nat o). intros c Hc%list_elem_of_lookup_2.
  rewrite (ok_shuffle D HD) in Hc. by apply elem_of_seqZ in Hc.
Qed.

Lemma order_parts n : 0 <= n < cnt * DISTRICT_SCALE * CUSTOMER_SCALE ->
  0 <= n / (DISTRICT_SCALE * CUSTOMER_SCALE) < cnt /\ 0 <= n / CUSTOMER_SCALE mod DISTRICT_SCALE < DISTRICT_SCALE /\
  0 <= n mod CUSTOMER_SCALE < CUSTOMER_SCALE /\
  n = n / (DISTRICT_SCALE * CUSTOMER_SCALE) * (DISTRICT_SCALE * CUSTOMER_SCALE) +
      n / CUSTOMER_SCALE mod DISTRICT_SCALE * CUSTOMER_SCALE + n mod CUSTOMER_SCALE.
Proof. unfold DISTRICT_SCALE, CUSTOMER_SCALE. intros Hn. change (10 * 3000) with 30000. Z.div_mod_to_equations. lia. Qed.

Lemma same_key w d c o w' d' c' o' :
  w * 2 ^ 48 + d * 2 ^ 32 + c * 2 ^ 16 + o = w' * 2 ^ 48 + d' * 2 ^ 32 + c' * 2 ^ 16 + o' ->
  0 <= d < 2 ^ 16 -> 0 <= c < 2 ^ 16 -> 0 <= o < 2 ^ 16 ->
  0 <= d' < 2 ^ 16 -> 0 <= c' < 2 ^ 16 -> 0 <= o' < 2 ^ 16 -> w = w' /\ d = d' /\ o = o'.
Proof. lia. Qed.

Lemma nth_order_key_inj n m :
  0 <= n < cnt * DISTRICT_SCALE * CUSTOMER_SCALE -> 0 <= m < cnt * DISTRICT_SCALE * CUSTOMER_SCALE ->
  nth_order_key n = nth_order_key m -> n = m.
Proof using HD.
  intros Hn Hm E. destruct (order_parts n Hn) as (? & Hd & Ho & En), (order_parts m Hm) as (? & Hd' & Ho' & Em).
  unfold nth_order_key in E. rewrite En, Em. pose proof (shuffled (n / (DISTRICT_SCALE * CUSTOMER_SCALE))
    (n / CUSTOMER_SCALE mod DISTRICT_SCALE) _ Ho) as [_ Hc]. pose proof (shuffled (m / (DISTRICT_SCALE * CUSTOMER_SCALE))
    (m / CUSTOMER_SCALE mod DISTRICT_SCALE) _ Ho') as [_ Hc'].
  destruct (same_key _ _ _ _ _ _ _ _ E) as (-> & -> & ->); [..|done];
    clear - Hd Ho Hd' Ho' Hc Hc'; unfold DISTRICT_SCALE, CUSTOMER_SCALE in *; lia.
Qed.

Lemma order_found (v : view tbl index_name Ix) n :
  loaded_view D cnt v -> 0 <= n < cnt * DISTRICT_SCALE * CUSTOMER_SCALE ->
  exists r x, v_tab v order !! r = Some x /\ key_of order x = Ret (nth_order_key n).
Proof using HD Hcnt.
  intros Hv Hn. destruct (order_parts n Hn) as (Hw & Hd & Ho & _). destruct (shuffled (n / (DISTRICT_SCALE * CUSTOMER_SCALE)) (n / CUSTOMER_SCALE mod DISTRICT_SCALE) _ Ho) as [Es Hc].
  set (w := n / (DISTRICT_SCALE * CUSTOMER_SCALE)) in *. set (d := n / CUSTOMER_SCALE mod DISTRICT_SCALE) in *.
  set (o := n mod CUSTOMER_SCALE) in *.
  destruct (lv_found D cnt v Hv (Keyed order (nth_order_key n))) as [r Hr].
  { left. exists w. split; [done|]. right. left. exists d. split; [done|]. do 2 right. exists o. eexists.
    split; [done|]. split; [exact Es|]. left. eexists. split; [|reflexivity]. apply Order_key_value; scale. }
  exists r. exact (lv_keyed D cnt v Hv _ _ _ Hr).
Qed.

(** So many records has the table of orders. *)
Lemma orders_many (v : view tbl index_name Ix) :
  loaded_view D cnt v ->
  exists rs, Z.of_nat (length rs) = cnt * DISTRICT_SCALE * CUSTOMER_SCALE /\ NoDup rs /\
    forall r, r ∈ rs -> is_Some (v_tab v order !! r).
Proof using HD Hcnt.
  intros Hv. destruct (distinct_places
    (fun n r => 0 <= n < cnt * DISTRICT_SCALE * CUSTOMER_SCALE /\
                exists x, v_tab v order !! r = Some x /\ key_of order x = Ret (nth_order_key n))
    (seqZ 0 (cnt * DISTRICT_SCALE * CUSTOMER_SCALE))) as (rs & Hlen & Hrs & Hr).
  - apply NoDup_seqZ.
  - intros n Hn%elem_of_seqZ. destruct (order_found v n Hv) as (r & x & Hx & Hk); [done|]. exists r. split; [done|by exists x].
  - intros i j r [Hi (x & Hx & Hk)] [Hj (y & Hy & Hk')]. apply nth_order_key_inj; [done..|]. congruence.
  - exists rs. split; [rewrite Hlen, length_seqZ; scale|]. split; [done|]. intros r (n & _ & _ & x & Hx & _)%Hr. by exists x.
Qed.
End orders.

(** ** Tables *)
Section built.
Context {A : Type} `{ArtRaw A} `{!KvMapLaws Rid A} `{!RangeIndexLaws (Art A)}.
Context {T M : Type} `{KvMapLaws Z T} `{KvMapLaws TlsAllocator M}.
Context (S : tbl -> Schema) `{TS : !TpccSchemas S}.
Context (node_size ptr : tbl -> Z) (init : tbl -> Z -> list obj).
Abbreviation table := (DbTable (Art A) T M).
Abbreviation new_table := (new_table (A := A) (T := T) (M := M) S node_size ptr init).
Abbreviation TpccWorkload_new := (TpccWorkload_new (A := A) (T := T) (M := M) S node_size ptr init).

(** A cache entry is no larger than a megabyte, and mapped memory holds tuples. *)
Definition machine_ok : Prop := forall t,
  0 < node_size t <= MB /\ 0 < ptr t < 2 ^ 63 /\
  forall cap, 0 <= cap -> length (init t cap) = Z.to_nat cap /\
    Forall (fun x => length x = size_of_table t) (init t cap).

Lemma cache_size_ok mb n : 1 <= mb < 2 ^ 12 -> 0 < n <= MB -> 0 < mb * MB / n < 2 ^ 32 /\ mb * MB < 2 ^ 62.
Proof.
  intros Hmb Hn. unfold MB in *. split; [|lia]. split; [apply Z.div_str_pos; lia|].
  apply Z.div_lt_upper_bound; [lia|]. nia.
Qed.

(** One table that is as [new] builds it. *)
Definition has_room (cnt o_cnt : Z) (t : tbl) (tb : table) : Prop :=
  exists cs ss, @sizes_ok (S t) (node_size t) cs ss (ptr t) (init t) /\
    built S (node_size t) cs ss (ptr t) (init t) t tb /\ holds_tuples t (room_for cnt o_cnt t) ss.

Lemma new_table_ok cnt thread_cnt o_cnt probe_len caches t :
  machine_ok -> scale_ok cnt o_cnt caches -> order_cnt cnt thread_cnt = Ret o_cnt ->
  exists tb, new_table cnt thread_cnt probe_len caches t = Ret tb /\ has_room cnt o_cnt t tb.
Proof.
  intros Hm Hs Eo. destruct (storage_sizes_ok cnt thread_cnt o_cnt caches t Hs Eo) as (ss & Es & Hroom).
  destruct (holds_tuples_cnt t _ ss (room_for_fits _ _ _ t Hs) Hroom) as [Hss Hcnt]. destruct Hs as (_ & _ & Hmb). destruct (Hm t) as (Hn & Hp & Hi), (cache_size_ok _ _ (Hmb t) (proj1 (Hm t))) as [Hc Hc2].
  pose proof (tuple_sizes t) as Hk. specialize (Hmb t).
  assert (Ek : Z.of_nat (@tuple_size (S t)) = size_of (tuple_of t)) by (rewrite ts_size; lia).
  assert (Hsz : @sizes_ok (S t) (node_size t) (cache_mb caches t * MB) ss (ptr t) (init t)).
  { pose proof (Z.div_pos ss (size_of (tuple_of t)) Hss ltac:(lia)). unfold sizes_ok. rewrite Ek. repeat (split; [lia|]). rewrite ts_size. exact Hi. }
  unfold TpccNew.new_table. rewrite Es. runm. rewrite chk_ok by (unfold fits, MB in *; lia). runm.
  set (b := builder_probe_len _ _).
  assert (Hb : configured b (cache_mb caches t * MB) ss) by (repeat split; destruct t; unfold Qle; simpl; lia).
  destruct (build_ok (I := Art A) (T := T) (M := M) (Sc := S t) (columns := tpcc_columns t) b _ _ _ _ _ Hsz Hb) as (tb & cap & E & _).
  exists tb. split; [exact E|]. do 2 eexists. split; [exact Hsz|]. split; [by exists b|exact Hroom].
Qed.

Lemma new_tables_ok cnt thread_cnt o_cnt probe_len caches :
  machine_ok -> scale_ok cnt o_cnt caches -> order_cnt cnt thread_cnt = Ret o_cnt ->
  exists tables : tbl -> table,
    TpccWorkload_new cnt thread_cnt probe_len caches = Ret (mkWorkload cnt (new_database tables)) /\
    forall t, has_room cnt o_cnt t (tables t).
Proof.
  intros Hm Hs Eo.
  destruct (tbl_choice _ (fun t => new_table_ok cnt thread_cnt o_cnt probe_len caches t Hm Hs Eo)) as [tables Ht].
  unfold TpccNew.TpccWorkload_new.
  rewrite (proj1 (Ht warehouse)), (proj1 (Ht district)), (proj1 (Ht customer)), (proj1 (Ht item)), (proj1 (Ht stock)),
    (proj1 (Ht order)), (proj1 (Ht order_line)). runm. destruct Hs as (Hcnt & _).
  rewrite wrap_small by (unfold fits; lia). eexists. split; [done|]. intros []; apply Ht.
Qed.

(** A database at rest, with room. *)
Lemma has_room_rest cnt o_cnt (tables : tbl -> table) :
  (forall t, has_room cnt o_cnt t (tables t)) ->
  rest (real_ops S) S (real_laws S) (new_database tables) (empty_adb tables) (empty_view tables) /\ blank (empty_view tables).
Proof using KvMapLaws0 TS.
  intros [cs [ss Ht]%tbl_choice]%tbl_choice.
  destruct (new_database_rest S node_size cs ss ptr init tables) as [Hr Hix]; [by intros t; apply Ht..|].
  split; [exact Hr|]. split; [done|]. split; [exact Hix|]. intros j k. apply index_get_new.
Qed.

Lemma has_room_db cnt o_cnt (tables : tbl -> table) ts b :
  (forall t, has_room cnt o_cnt t (tables t)) -> (forall t, Z.of_nat (b t) <= room_for cnt o_cnt t) ->
  (length ts <= 129)%nat -> db_room ts b (new_database tables).
Proof.
  intros Ht Hb Hts t _. destruct (Ht t) as (cs & ss & Hs & (bd & Hbd & E) & [Hr _]). simpl. specialize (Hb t).
  eapply (build_room (Sc := S t)); [exact Hs|exact Hbd|exact E|exact Hts|]. pose proof (tuple_sizes t).
  rewrite ts_size, Z2Nat.id by lia. apply Z.div_le_lower_bound; [lia|]. nia.
Qed.

(** The memory of a table. *)
Lemma has_room_cap cnt o_cnt (tables : tbl -> table) t :
  has_room cnt o_cnt t (tables t) -> room_for cnt o_cnt t + 128 * 64 <= tab_cap (new_database tables) t.
Proof.
  intros (cs & ss & Hs & (bd & Hbd & E) & [Hr _]). pose proof (proj1 (build_cap _ _ _ _ _ _ _ Hs Hbd E)) as Hcap.
  pose proof (tuple_sizes t). rewrite ts_size, Z2Nat.id in Hcap by lia. unfold tab_cap. simpl.
  assert (room_for cnt o_cnt t <= ss / size_of (tuple_of t)) by (apply Z.div_le_lower_bound; lia). lia.
Qed.

(** No more orders than estimated fit, but for the rounding to megabytes and
    the arenas of 129 threads. *)
Lemma orders_cap cnt o_cnt (tables : tbl -> table) :
  has_room cnt o_cnt order (tables order) -> tab_cap (new_database tables) order < o_cnt + 2 ^ 14 + 129 * 64.
Proof.
  intros (cs & ss & Hs & (bd & Hbd & E) & [_ Hr]). pose proof (proj2 (build_cap _ _ _ _ _ _ _ Hs Hbd E)) as Hcap.
  rewrite ts_size, Z2Nat.id in Hcap by done. cbn [room_for tuple_of] in *. change (size_of OrderTuple) with 64 in *.
  unfold MB in Hr. unfold tab_cap. simpl. assert (ss / 64 < o_cnt + 2 ^ 14) by (apply Z.div_lt_upper_bound; lia). lia.
Qed.

(** A run of [load] from there does not run out of ids. *)
Lemma load_has_room D cnt o_cnt (tables : tbl -> table) sched ds ts :
  draws_ok D -> 0 <= cnt <= 2 ^ 15 -> (forall t, has_room cnt o_cnt t (tables t)) ->
  cnt * DISTRICT_SCALE * CUSTOMER_SCALE <= o_cnt -> Z.of_nat (lines_drawn D cnt) <= o_cnt * 12 ->
  (length ts <= 129)%nat -> (forall k, d_tid (ds k) ∈ ts) ->
  ~ runs_out (real_ops S) S tpcc_columns tpcc_written (real_laws S) (load D sched cnt) ds 0 (new_database tables).
Proof using KvMapLaws0 RangeIndexLaws0 TS H1 H3.
  intros HD Hcnt Ht Ho Hl Hlen Hts. destruct (has_room_rest _ _ _ Ht) as [Hr Hb].
  refine (at_rest_runs S tpcc_columns tpcc_written (fun t => ts_laws t) _ _ ds _ _ _ (load_budget D cnt) ts Hr _ _ _ Hts).
  - by apply (load_loads D cnt HD Hcnt S).
  - apply load_at_most. lia.
  - eapply has_room_db; [exact Ht| |exact Hlen]. intros t. rewrite (load_budget_records D HD) by lia. destruct t; simpl; lia.
Qed.

Lemma new_ready D cnt thread_cnt o_cnt probe_len caches sched ds ts :
  machine_ok -> scale_ok cnt o_cnt caches -> order_cnt cnt thread_cnt = Ret o_cnt -> draws_ok D ->
  cnt * DISTRICT_SCALE * CUSTOMER_SCALE <= o_cnt -> Z.of_nat (lines_drawn D cnt) <= o_cnt * 12 ->
  (length ts <= 129)%nat -> (forall k, d_tid (ds k) ∈ ts) -> ~ load_panics D cnt ->
  exists wl s' a' v',
    TpccWorkload_new cnt thread_cnt probe_len caches = Ret wl /\
    transact (real_ops S) (load D sched (wl_warehouse_cnt wl)) ds (wl_db wl) = Ret (Ok tt, s') /\
    rest (real_ops S) S (real_laws S) s' a' v' /\ loaded_view D cnt v' /\ serviceable cnt v'.
Proof using KvMapLaws0 RangeIndexLaws0 TS H1 H3.
  intros Hm Hs Eo HD Ho Hl Hlen Hts Hp.
  destruct (new_tables_ok cnt thread_cnt o_cnt probe_len caches Hm Hs Eo) as (tables & E & Ht).
  destruct (has_room_rest _ _ _ Ht) as [Hr Hb], Hs as (Hcnt & _).
  destruct (load_ready (real_ops S) S (real_laws S) D cnt (new_database tables) (empty_adb tables) (empty_view tables) sched ds)
    as [(r & s' & a' & v' & Er & Hr' & _ & -> & Hv & Hsv & _)|[_ [Hc|Hout]]]; [done|done|done|lia| |done|].
  - by exists (mkWorkload cnt (new_database tables)), s', a', v'.
  - exfalso. eapply (load_has_room D cnt o_cnt tables sched ds ts); [done|lia|done..].
Qed.


(** C28: Where the estimate of [new] falls short of an order for each customer by
    more than the slack of a table, as it does from 51 threads on, loading
    panics, whatever is drawn and however the threads interleave. *)
Theorem new_too_small D cnt thread_cnt o_cnt probe_len caches sched ds :
  machine_ok -> scale_ok cnt o_cnt caches -> order_cnt cnt thread_cnt = Ret o_cnt -> draws_ok D ->
  o_cnt + 2 ^ 14 + 129 * 64 <= cnt * DISTRICT_SCALE * CUSTOMER_SCALE ->
  exists wl, TpccWorkload_new cnt thread_cnt probe_len caches = Ret wl /\
    transact (real_ops S) (load D sched (wl_warehouse_cnt wl)) ds (wl_db wl) = Panic.
Proof using KvMapLaws0 RangeIndexLaws0 TS H1 H3.
  intros Hm Hs Eo HD Hfew. destruct (new_tables_ok cnt thread_cnt o_cnt probe_len caches Hm Hs Eo) as (tables & E & Ht).
  exists (mkWorkload cnt (new_database tables)). split; [exact E|]. simpl.
  destruct (has_room_rest _ _ _ Ht) as [Hr Hb], Hs as (Hcnt & _). pose proof (orders_cap _ _ _ (Ht order)) as Hcap.
  destruct (load_ready (real_ops S) S (real_laws S) D cnt (new_database tables) (empty_adb tables) (empty_view tables) sched ds)
    as [(r & s' & a' & v' & Er & Hr' & _ & _ & Hv & _)|[Ep _]]; [done|done|done|lia| |exact Ep].
  exfalso. destruct (orders_many D cnt HD ltac:(lia) v' Hv) as (rs & Hlen & Hrs & Hin).
  assert (Hc : tab_cap s' order = tab_cap (new_database tables) order) by exact (transact_cap S _ _ _ _ _ order Er).
  assert (Hlt : forall r, r ∈ rs -> 0 <= r < tab_cap s' order).
  { intros r0 Hr0. exact (rows_cap S tpcc_columns tpcc_written (fun t => ts_laws t) s' a' v' order r0 Hr' (Hin r0 Hr0)). }
  destruct rs as [|r0 rs]; [simpl in Hlen; scale|].
  pose proof (distinct_below _ (tab_cap s' order) ltac:(pose proof (Hlt r0 ltac:(by left)); lia) Hrs Hlt). lia.
Qed.
End built.

(** *** 64 warehouses, an estimate for one thread *)
Definition some_caches : CacheSizes := mkCacheSizes 25 25 256 25 256 25.

Lemma some_machine : machine_ok (fun _ => 64) (fun _ => 4096) some_tuples.
Proof.
  intros t. split; [unfold MB; lia|]. split; [lia|]. intros cap Hc. unfold some_tuples. rewrite length_replicate.
  split; [done|]. apply Forall_replicate, length_replicate.
Qed.

Lemma steady_no_panic : ~ load_panics steady 64.
Proof. intros [H|(w & i & _ & _ & start & [= <-] & H)]; [by vm_compute in H|lia]. Qed.

Definition some_thread (k : nat) : draws := CapacityDemo.by_thread (Z.of_nat k mod 33).


(** 64 warehouses, 51 threads. *)
Lemma new_too_small_witness :
  exists wl : TpccWorkload (A := gmap Z Rid) (T := gmap Z Z) (M := gmap Z TlsAllocator),
    TpccWorkload_new cached_schemas (fun _ => 64) (fun _ => 4096) some_tuples 64 51 None some_caches = Ret wl /\
    transact (real_ops cached_schemas) (load steady [] (wl_warehouse_cnt wl)) some_thread (wl_db wl) = Panic.
Proof.
  apply (new_too_small cached_schemas (fun _ => 64) (fun _ => 4096) some_tuples steady 64 51 797999 None some_caches
           [] some_thread some_machine).
  - split; [lia|]. split; [lia|]. intros []; simpl; lia.
  - vm_compute. reflexivity.
  - exact steady_ok.
  - scale.
Defined.
