(* ===== verification/TpccReset.v ===== *)
(** * Loading the orders again (src/benchmark/src/tpcc/workload.rs)

    [reset_order] between two runs of the benchmark: the orders, their lines and
    the announced orders are those of a database that has just been loaded, in
    every interleaving of the threads; all else is as it was.  [thread_init] of a
    thread changes nothing but its clock hands. *)

From Stdlib Require Import QArith.
From S2P Require Import Prelude Query Schema Layout External ObjAlloc CacheInner ClockCache CacheMachine Table Guarded Txn TxnView LoadLog.
From S2P Require Import TxnRoom SpecTable TxnReset Float64.
From S2P Require Import TpccTables TpccSchemas TpccUtils TpccTxn TpccView NewOrder Payment TpccReads Delivery TpccRuns TpccReal.
From S2P Require Import TpccLoad TpccRows TpccLoading TpccLoaded TpccNew TpccRoom TpccBuilt.
Open Scope string_scope.
Open Scope Z_scope.

Section reload.
Context (D : Draws) (cnt : Z) (HD : draws_ok D) (Hcnt : 0 <= cnt <= 2 ^ 15).

(** The keys of the orders of a warehouse, and of all. *)
Definition warehouse_orders (w : Z) (g : target) : Prop :=
  exists d o c, 0 <= d < DISTRICT_SCALE /\ 0 <= o < CUSTOMER_SCALE /\ dr_shuffle D w d !! Z.to_nat o = Some c /\
    order_targets D w d o c g.

(** All orders and lines, by table. *)
Definition reload_part (t : tbl) : list obj :=
  seqZ 0 cnt ≫= fun w => seqZ 0 DISTRICT_SCALE ≫= fun d =>
    match t with order | order_line => district_part D w d t | _ => [] end.

Definition reload_targets (g : target) : Prop := exists w, 0 <= w < cnt /\ warehouse_orders w g.

(** ** The threads *)
Section threads.
Context (S : tbl -> Schema) `{TS : !TpccSchemas S} (C : Prop).
Abbreviation loads := (loads D cnt S C).

(** The orders of a warehouse, with their lines. *)
Definition orders_of_warehouse (w : Z) (t : tbl) : list obj :=
  seqZ 0 DISTRICT_SCALE ≫= fun d => match t with order | order_line => district_part D w d t | _ => [] end.

Lemma reload_thread_ok known per tid :
  cnt = per * 32 -> 0 <= tid < 32 ->
  loads known (reload_thread D per tid) (fun g => exists w, per * tid <= w < per * (tid + 1) /\ warehouse_orders w g)
    (fun t => seqZ (per * tid) per ≫= fun w => orders_of_warehouse w t).
Proof using HD Hcnt TS.
  intros Hper Htid. assert (Hp : 0 <= per) by lia.
  assert (Hlo : 0 <= per * tid) by nia. assert (Hhi : per * (tid + 1) <= cnt) by nia.
  unfold reload_thread. eapply loads_ok; [apply chk_ok; unfold fits; nia|]. eapply loads_ok; [apply chk_ok; unfold fits; nia|].
  replace (per * (tid + 1) - per * tid) with per by lia.
  eapply loads_mono; [apply loads_for; intros w Hw; apply loads_for; intros d Hd; apply load_order_ok| |].
  - done.
  - exact HD.
  - exact Hcnt.
  - rewrite Z2Nat.id in Hw by nia. lia.
  - rewrite Z2Nat.id in Hd by scale. lia.
  - intros g (w & Hw & d & o & c & Hd & Hg). exists w. split; [rewrite Z2Nat.id by nia; lia|]. exists d.
    split; [rewrite Z2Nat.id by scale; lia|]. by exists o, c.
  - intros t. rewrite (Z2Nat.id per) by done. match goal with |- ?l ≡ₚ ?l' => enough (E : l = l') by (by rewrite E) end.
    apply bind_ext. intros w _. rewrite Z2Nat.id by scale. reflexivity.
Qed.
End threads.

(** Only orders are written. *)
Definition order_tables (t : tbl) : Prop := t = order \/ t = order_line.
Definition order_indexes (j : index_name) : Prop := j = new_order_idx.
Abbreviation writes_orders := (may_write order_tables order_indexes).

Lemma load_order_writes w d time : writes_orders (load_order D w d time).
Proof.
  unfold load_order. generalize 0. induction (dr_shuffle D w d) as [|c cs IH]; intros o; cbn [load_orders]; [done|].
  apply writes_bind; [|done]. unfold load_one_order. apply writes_record; [by left|]. intros _. apply writes_bind.
  - unfold load_lines. apply writes_lift. intros items. apply writes_lift. intros start. apply writes_for. intros ol.
    apply writes_lift. intros i. apply writes_record; [by right|done].
  - intros _. case_match; [|done]. apply writes_lift. intros key. by apply writes_call.
Qed.

Lemma reload_writes sched : writes_orders (reload_orders D sched cnt).
Proof.
  unfold reload_orders. cbv zeta. apply writes_lift. intros _. apply writes_interleave, Forall_fmap, Forall_forall.
  intros tid _. unfold compose, reload_thread. apply writes_lift. intros first. apply writes_lift. intros last.
  apply writes_for. intros w. apply writes_for. intros d. apply load_order_writes.
Qed.

(** ** The tables afterwards *)
Section view.
Context {Ix : Type} `{DbIndexLaws Ix} `{!RangeIndex Ix} `{!RangeIndexLaws Ix}.
Abbreviation view := (view tbl index_name Ix).
Implicit Types (v : view).

(** [v] with the orders, their lines and what is announced dropped. *)
Definition v_cleared v : view := v_set_idx (v_emptied order (v_emptied order_line v)) new_order_idx index_new.

(** [v'] is [v] with the orders loaded again: the tables of orders and lines hold
    exactly the records that the loader makes of the draws, each found by its
    key. *)
Record reloaded v v' : Prop := mkReloaded {
  rl_all t : order_tables t -> (map_to_list (v_tab v' t)).*2 ≡ₚ all_records D cnt t;
  rl_reached t r x : order_tables t -> v_tab v' t !! r = Some x ->
    exists k, key_of t x = Ret k /\ is_Some (index_get (v_index v' t) k);
  rl_kept t : ~ order_tables t -> v_tab v' t = v_tab v t /\ v_index v' t = v_index v t;
  rl_names : v_idx v' c_last_idx = v_idx v c_last_idx;
  rl_rows t r x : order_tables t -> v_tab v' t !! r = Some x -> row_ok D cnt t x;
  rl_keyed t k r : order_tables t -> index_get (v_index v' t) k = Some r ->
    exists x, v_tab v' t !! r = Some x /\ key_of t x = Ret k;
  rl_found g : reload_targets g ->
    match g with
    | Keyed t k => is_Some (index_get (v_index v' t) k)
    | Indexed j k => is_Some (index_get (v_idx v' j) k)
    end;
  rl_announced k r : index_get (v_idx v' new_order_idx) k = Some r ->
    r = k /\ exists o x, v_tab v' order !! o = Some x /\ announces k x;
}.

Lemma cleared_kept v t : ~ order_tables t -> v_tab (v_cleared v) t = v_tab v t /\ v_index (v_cleared v) t = v_index v t.
Proof. unfold order_tables. intros Ht. destruct t; try done; exfalso; tauto. Qed.

Lemma cleared_orders v t : order_tables t -> v_tab (v_cleared v) t = ∅ /\ v_index (v_cleared v) t = index_new.
Proof. by intros [->| ->]. Qed.

Lemma loaded_over_reloaded v v' :
  loaded_over D cnt (v_cleared v) reload_targets reload_part v' -> framed order_tables order_indexes (v_cleared v) v' -> reloaded v v'.
Proof.
  intros [Ha Hr H1 _ H3 H4 _ H6] [Hf Hj]. split.
  - intros t Ht. rewrite Ha, (proj1 (cleared_orders v t Ht)), map_to_list_empty. destruct Ht as [-> | ->]; reflexivity.
  - intros t r x Ht Hx. destruct (Hr t r x Hx) as [Hx'|]; [|done]. by rewrite (proj1 (cleared_orders v t Ht)), lookup_empty in Hx'.
  - intros t Ht. destruct (Hf t Ht) as [-> ->]. by apply cleared_kept.
  - by rewrite Hj.
  - intros t r x Ht Hx. destruct (H1 t r x Hx) as [Hx'|]; [|done]. by rewrite (proj1 (cleared_orders v t Ht)), lookup_empty in Hx'.
  - intros t k r Ht Hk. destruct (H3 t k r Hk) as [Hk'|]; [|done]. by rewrite (proj2 (cleared_orders v t Ht)), index_get_new in Hk'.
  - exact H4.
  - intros k r Hk. destruct (H6 k r Hk) as [Hk'|]; [|done].
    change (index_get (index_new (I := Ix)) k = Some r) in Hk'. by rewrite index_get_new in Hk'.
Qed.

Lemma reloaded_unchanged v v1 v2 : reloaded v v1 -> unchanged v1 v2 -> reloaded v v2.
Proof.
  intros [Ha Hr H1 H2 H3 H4 H5 H6] (Ht & Hi & Hj). split.
  - intros t Hn. rewrite Ht. by apply Ha.
  - intros t r x Hn. rewrite Ht, Hi. by apply Hr.
  - intros t Hn. rewrite Ht, Hi. by apply H1.
  - by rewrite Hj.
  - intros t r x. rewrite Ht. apply H3.
  - intros t k r Hn Hk. rewrite Hi in Hk. rewrite Ht. by apply H4.
  - intros [t k|j k] Hg; [rewrite Hi|rewrite Hj]; exact (H5 _ Hg).
  - intros k r Hk. rewrite Hj in Hk. rewrite Ht. by apply H6.
Qed.

(** ** The program *)
Context (S : tbl -> Schema) `{TS : !TpccSchemas S}.

Definition reload_logs : list (list (event tbl index_name) -> Prop) :=
  (fun tid => logs D cnt [] (fun g => exists w, cnt / 32 * tid <= w < cnt / 32 * (tid + 1) /\ warehouse_orders w g)
     (fun t => seqZ (cnt / 32 * tid) (cnt / 32) ≫= fun w => orders_of_warehouse w t)) <$> seqZ 0 32.

Lemma reload_logs_targets Es :
  cnt mod 32 = 0 -> Forall2 (fun R es => R es) reload_logs Es -> logs D cnt [] reload_targets reload_part (concat Es).
Proof using Hcnt.
  intros Hm HEs. apply Forall2_fmap_l in HEs.
  eapply logs_mono; [| |exact (logs_concat D cnt []
    (fun tid g => exists w, cnt / 32 * tid <= w < cnt / 32 * (tid + 1) /\ warehouse_orders w g)
    (fun tid t => seqZ (cnt / 32 * tid) (cnt / 32) ≫= fun w => orders_of_warehouse w t) _ _ HEs)].
  2: { intros t. cbv beta. rewrite (bind_chunks (fun w => orders_of_warehouse w t)) by (apply Z.div_pos; lia).
       by replace (cnt / 32 * 32) with cnt by (pose proof (Z.div_mod cnt 32); lia). }
  intros g (w & Hw & Hg). destruct (thread_of_warehouse cnt w Hm Hw) as (tid & Htid & Hw'). exists tid.
  split; [by apply elem_of_seqZ|by exists w].
Qed.

Lemma reload_runs sched v :
  v_held v = [] ->
  vwp S tpcc_columns tpcc_written (reload_orders D sched cnt) (v_cleared v) (fun res v' =>
    match res with Some (Ok _) => reloaded v v' | Some (Err _) => False | None => cnt mod 32 <> 0 end).
Proof using H0 HD Hcnt TS.
  intros Hh. destruct (Z.eqb_spec (cnt mod 32) 0) as [Hm|Hm]; [|unfold reload_orders; cbv zeta].
  - eapply vwp_mono; [|eapply (vwp_framed order_tables order_indexes); [apply reload_writes|]].
    2: { unfold reload_orders. cbv zeta. apply (vwp_lift _ _ _ _ _ tt); [by rewrite Hm|].
         apply (interleave_emits S _ _ (v_cleared v) (cnt mod 32 <> 0) sched _ reload_logs); [by apply nothing_logged|done|].
         apply Forall2_fmap, Forall_Forall2_diag, Forall_forall. intros tid Htid%elem_of_seqZ.
         apply (reload_thread_ok S); [pose proof (Z.div_mod cnt 32); lia|lia]. }
    intros [[[]|e]|] v' [Hl Hf]; [|done..]. apply loaded_over_reloaded; [|done].
    eapply (loaded_over_ok D cnt HD Hcnt S); [|exact Hl]. intros Es. by apply reload_logs_targets.
  - apply (vwp_lift_or S _ _ (fun res v' =>
      match res with Some (Ok _) => reloaded v v' | Some (Err _) => False | None => cnt mod 32 <> 0 end)); [|done].
    intros b Eb. rewrite (proj2 (Z.eqb_neq _ _) Hm) in Eb. discriminate Eb.
Qed.
End view.

(** ** Inserts *)
Definition reload_records (t : tbl) : Z :=
  match t with
  | order => cnt * DISTRICT_SCALE * CUSTOMER_SCALE
  | order_line => Z.of_nat (lines_drawn D cnt)
  | _ => 0
  end.

Definition warehouse_orders_budget (w : Z) : tbl -> nat := sums (district_orders_budget D w <$> seqZ 0 DISTRICT_SCALE).

Lemma reload_thread_budget per tid :
  0 <= per -> at_most (reload_thread D per tid) (sums (warehouse_orders_budget <$> seqZ (per * tid) per)).
Proof.
  intros Hper. unfold reload_thread. apply at_most_lift. intros first [-> _]%chk_Ret. apply at_most_lift.
  intros last [-> _]%chk_Ret. replace (per * (tid + 1) - per * tid) with per by lia.
  eapply at_most_within; [|apply (at_most_for_each _ _ _ warehouse_orders_budget); intros w].
  - rewrite Z2Nat.id by done. by intros t.
  - eapply at_most_within; [|apply (at_most_for_each _ _ _ (district_orders_budget D w)); intros d; apply load_orders_budget].
    rewrite Z2Nat.id by scale. by intros t.
Qed.

Lemma reload_at_most sched :
  cnt mod 32 = 0 -> at_most (reload_orders D sched cnt) (sums (warehouse_orders_budget <$> seqZ 0 cnt)).
Proof using Hcnt.
  intros Hm. assert (Em : cnt = cnt / 32 * 32) by (pose proof (Z.div_mod cnt 32); lia).
  unfold reload_orders. cbv zeta. apply at_most_lift. intros [] _.
  eapply at_most_within; [|apply (at_most_interleave sched _
    ((fun tid => sums (warehouse_orders_budget <$> seqZ (cnt / 32 * tid) (cnt / 32))) <$> seqZ 0 32))].
  - intros t. rewrite sums_concat. change 32 with (Z.of_nat 32) at 3.
    rewrite seqZ_chunks by (apply Z.div_pos; lia). change (Z.of_nat 32) with 32. by rewrite <-Em.
  - apply Forall2_fmap, Forall_Forall2_diag, Forall_forall. intros tid _. apply reload_thread_budget. apply Z.div_pos; lia.
Qed.

Lemma warehouse_orders_records w t :
  warehouse_orders_budget w t = match t with order | order_line => warehouse_records D w t | _ => O end.
Proof using HD.
  unfold warehouse_orders_budget. rewrite sums_fmap. destruct t; cbn [district_orders_budget orders_budget warehouse_records];
    rewrite ?sum_list_fmap_const, ?length_seqZ, ?Nat.mul_0_r; try done.
  by rewrite (sum_list_ext _ (fun _ => Z.to_nat CUSTOMER_SCALE)), sum_list_fmap_const, length_seqZ by apply (length_shuffle D HD).
Qed.

Lemma reload_budget_records t : Z.of_nat (sums (warehouse_orders_budget <$> seqZ 0 cnt) t) = reload_records t.
Proof using HD Hcnt.
  rewrite sums_fmap, (sum_list_ext _ _ _ (fun w => warehouse_orders_records w t)).
  destruct t; cbn [reload_records warehouse_records]; rewrite ?sum_list_fmap_const, ?length_seqZ; try lia.
  - rewrite !Nat2Z.inj_mul, !Z2Nat.id by scale. lia.
  - done.
Qed.
End reload.

(** ** On the attribute cache *)
Section real.
Context {A : Type} `{ArtRaw A} `{!KvMapLaws Rid A} `{!RangeIndexLaws (Art A)}.
Context {T M : Type} `{KvMapLaws Z T} `{KvMapLaws TlsAllocator M}.
Context (S : tbl -> Schema) `{TS : !TpccSchemas S}.
Abbreviation table := (DbTable (Art A) T M).
Abbreviation database := (Txn.db tbl index_name (Art A) table QueryValue).
Abbreviation rest := (rest (real_ops S) S (real_laws S)).

(** [clear_orders] at rest: the orders are gone, their memory is free. *)
Lemma clear_orders_ok (s : database) a v :
  rest s a v -> exists s1 a1, clear_orders s = Ret s1 /\ rest s1 a1 (v_cleared v) /\
    forall ts n t, order_tables t -> Z.of_nat n + 64 * (Z.of_nat (length ts) - 1) <= tab_cap s t ->
      Capacity.room ts n (tb_cache (db_tabs s1 t)).
Proof.
  intros Hr.
  destruct (reset_table_ok S tpcc_columns tpcc_written (fun t => ts_laws t) s a v order_line Hr)
    as (s1 & E1 & Hr1 & Ht1 & Hc1 & Hroom1).
  destruct (reset_table_ok S tpcc_columns tpcc_written (fun t => ts_laws t) s1 _ _ order Hr1)
    as (s2 & E2 & Hr2 & Ht2 & Hc2 & Hroom2).
  pose proof (reset_idx_ok S tpcc_columns tpcc_written (fun t => ts_laws t) s2 _ _ new_order_idx Hr2) as Hr3.
  unfold clear_orders. rewrite E1. runm. rewrite E2. runm. do 2 eexists. split; [done|]. split; [exact Hr3|].
  intros ts n t [->| ->] Hn; cbn [set_idx db_tabs].
  - apply Hroom2. by rewrite Hc1.
  - rewrite Ht2 by done. by apply Hroom1.
Qed.

(** C27: [reset_order] between runs, on any database at rest, if the tables of
    orders and lines were created with memory for the records to load and 128
    arenas, and at most 129 threads take part: it returns a database at rest in
    which these tables hold exactly the orders and lines that the loader makes of
    the draws, as many times as it makes them, each found by its key, and the
    orders announced are the undelivered ones, in every interleaving of the
    threads; warehouses, districts, customers, items and stock, and the index of
    last names, are as they were, with all that transactions changed in them. *)
Theorem reset_order_reloads D cnt (s : database) a v sched ds ts :
  rest s a v -> draws_ok D -> 0 <= cnt <= 2 ^ 15 -> cnt mod 32 = 0 ->
  (forall t, order_tables t -> reload_records D cnt t + 128 * 64 <= tab_cap s t) ->
  (length ts <= 129)%nat -> (forall k, d_tid (ds k) ∈ ts) ->
  exists s1 s' a' v',
    clear_orders s = Ret s1 /\ transact (real_ops S) (reload_orders D sched cnt) ds s1 = Ret (Ok tt, s') /\
    rest s' a' v' /\ reloaded D cnt v v'.
Proof using KvMapLaws0 RangeIndexLaws0 TS H1 H3.
  intros Hr HD Hcnt Hm Hcap Hlen Hts. destruct (clear_orders_ok s a v Hr) as (s1 & a1 & E1 & Hr1 & Hroom).
  pose proof (reload_runs D cnt HD Hcnt S sched v (proj2 (proj2 Hr))) as Hp.
  destruct (run_view (real_ops S) S (real_laws S) (reload_orders D sched cnt) ds s1 a1 (v_cleared v) _
              (fun r v' => r = Ok tt /\ reloaded D cnt v v') (cnt mod 32 <> 0) Hr1 Hp)
    as [(r & s' & a' & v' & E & Hr' & _ & -> & Hv)|[_ [Hc|Hout]]].
  - intros [[]|e] v1 v2 Hl Hu; [|done]. split; [done|]. by eapply reloaded_unchanged.
  - done.
  - by exists s1, s', a', v'.
  - done.
  - exfalso. revert Hout. eapply (at_rest_runs S tpcc_columns tpcc_written (fun t => ts_laws t)); [exact Hr1|exact Hp| | |exact Hts].
    { by apply (reload_at_most D cnt Hcnt). }
    intros t Ht. assert (Hot : order_tables t).
    { pose proof (reload_budget_records D cnt HD Hcnt t) as Eb. unfold order_tables. destruct t; simpl in Eb; try lia; tauto. }
    apply Hroom; [exact Hot|]. rewrite (reload_budget_records D cnt HD Hcnt). specialize (Hcap t Hot). lia.
Qed.

(** [thread_init] at rest: it returns, every table has a clock hand for the
    thread, and nothing that a transaction can see has changed. *)
Lemma thread_init_ok tid draw (s : database) a v :
  rest s a v -> (forall t, 0 <= draw t < slots s t) ->
  exists s', TpccWorkload_thread_init tid draw s = Ret s' /\ rest s' a v /\
    (forall t, tab_cap s' t = tab_cap s t) /\
    forall t, is_Some (kv_get (ci_tls (cc_inner (tb_cache (db_tabs s' t)))) tid).
Proof using TS H1 H3.
  intros Hr Hd. unfold TpccWorkload_thread_init.
  assert (Hstep : forall t s, rest s a v -> (forall t, 0 <= draw t < slots s t) ->
    exists s', init_table tid (draw t) t s = Ret s' /\ rest s' a v /\ (forall t, 0 <= draw t < slots s' t) /\
      (forall t', tab_cap s' t' = tab_cap s t') /\
      is_Some (kv_get (ci_tls (cc_inner (tb_cache (db_tabs s' t)))) tid) /\
      (forall t', t' <> t -> db_tabs s' t' = db_tabs s t')).
  { intros t s0 Hr0 Hd0. destruct (init_table_ok S tpcc_columns tpcc_written (fun t => ts_laws t) tid (draw t) t s0 a v Hr0 (Hd0 t))
      as (s1 & E & Hr1 & Hs1 & Hc1 & Ht1 & Ho1).
    exists s1. split; [exact E|]. split; [exact Hr1|]. split; [|by split]. intros t'. by rewrite Hs1. }
  destruct (Hstep warehouse s Hr Hd) as (s1 & -> & R1 & D1 & C1 & T1 & O1). runm.
  destruct (Hstep district s1 R1 D1) as (s2 & -> & R2 & D2 & C2 & T2 & O2). runm.
  destruct (Hstep customer s2 R2 D2) as (s3 & -> & R3 & D3 & C3 & T3 & O3). runm.
  destruct (Hstep item s3 R3 D3) as (s4 & -> & R4 & D4 & C4 & T4 & O4). runm.
  destruct (Hstep stock s4 R4 D4) as (s5 & -> & R5 & D5 & C5 & T5 & O5). runm.
  destruct (Hstep order s5 R5 D5) as (s6 & -> & R6 & D6 & C6 & T6 & O6). runm.
  destruct (Hstep order_line s6 R6 D6) as (s7 & -> & R7 & D7 & C7 & T7 & O7).
  exists s7. split; [done|]. split; [done|]. split; [intros t; by rewrite C7, C6, C5, C4, C3, C2, C1|].
  intros []; rewrite ?O7, ?O6, ?O5, ?O4, ?O3, ?O2, ?O1 by done; done.
Qed.
End real.

(** *** The database for 64 warehouses, before any order *)
Lemma reset_order_reloads_witness :
  exists (tables : tbl -> real_table) s1 s' a' v',
    clear_orders (new_database tables) = Ret s1 /\
    transact (real_ops cached_schemas) (reload_orders steady [3; 1; 3]%nat 64) some_thread s1 = Ret (Ok tt, s') /\
    rest (real_ops cached_schemas) cached_schemas (real_laws cached_schemas) s' a' v' /\
    reloaded steady 64 (empty_view tables) v'.
Proof.
  destruct (new_tables_ok (A := gmap Z Rid) (T := gmap Z Z) (M := gmap Z TlsAllocator) cached_schemas (fun _ => 64)
              (fun _ => 4096) some_tuples 64 1 2998000 None some_caches some_machine) as (tables & _ & Ht).
  { split; [lia|]. split; [lia|]. intros []; simpl; lia. }
  { vm_compute. reflexivity. }
  destruct (has_room_rest cached_schemas _ _ _ _ _ tables Ht) as [Hr _]. exists tables.
  apply (reset_order_reloads cached_schemas steady 64 (new_database tables) (empty_adb tables) (empty_view tables)
           [3; 1; 3]%nat some_thread (seqZ 0 33) Hr steady_ok ltac:(lia) eq_refl).
  - intros t Hot. pose proof (has_room_cap _ _ _ _ _ _ tables t (Ht t)) as Hcap.
    pose proof (lines_drawn_most steady steady_ok 64 ltac:(lia)). destruct Hot as [->| ->]; cbn [reload_records room_for] in *; scale.
  - vm_compute. lia.
  - intros k. apply elem_of_seqZ. unfold some_thread. simpl. pose proof (Z.mod_pos_bound (Z.of_nat k) 33 ltac:(lia)). lia.
Defined.
