(* ===== verification/TpccGen.v ===== *)
(** * Generating the inputs of the TPC-C transactions (src/benchmark/src/tpcc/query)

    The [gen] functions of the five inputs.  What the random number generator
    returns and the time are arguments; a range that is empty panics.  Tasks
    share the warehouses out: the home warehouses of two tasks never meet. *)

From Stdlib Require Import QArith.
From S2P Require Import Prelude Query Schema External Table Guarded Txn TxnView Float64 TpccTables TpccSchemas TpccUtils TpccTxn.
From S2P Require Import TpccView NewOrder Payment TpccReads Delivery.
Open Scope string_scope.
Open Scope Z_scope.

(** [rng.gen_range(low..high)]. *)
Definition gen_below (low high draw : Z) : outcome Z :=
  if low <? high then Ret draw else Panic.

(** The draws of a call of [nu_rand]: its constant, if it is the first call with
    this [A], and two numbers. *)
Record NuDraw := mkNuDraw { nu_c : Z; nu_r1 : Z; nu_r2 : Z }.

Definition nu (A x y : Z) (dr : NuDraw) (cells : Cells) : outcome (Z * Cells) :=
  nu_rand A x y (nu_c dr) (nu_r1 dr) (nu_r2 dr) cells.

(** The home warehouse of an input of task [task_id]. *)
Definition gen_w_id (warehouse_cnt task_id task_cnt draw : Z) : outcome Z :=
  _ ← rassert (negb (task_cnt =? 0));
  let w_per_thread := warehouse_cnt / task_cnt in
  low ← chk 64 (w_per_thread * task_id);
  next ← chk 64 (task_id + 1);
  high ← chk 64 (w_per_thread * next);
  gen_below low (Z.min high warehouse_cnt) draw.

(** ** New order *)
Record LineDraw := mkLineDraw {
  id_remote : bool;      (** the item comes from the warehouse [id_supply] *)
  id_supply : Z;
  id_quantity : Z;
}.

Record NewOrderDraws := mkNewOrderDraws {
  nd_w_id : Z; nd_d_id : Z; nd_c_id : NuDraw; nd_ol_cnt : Z; nd_rbk : bool;
  nd_start : NuDraw;
  nd_item : nat -> LineDraw;
  nd_now : Z;            (** seconds since the epoch *)
}.

Definition OrderItem_default : OrderItem := mkOrderItem 0 0 0.

(** The loop over the slots of [orders], from slot [n] on. *)
Fixpoint gen_items (warehouse_cnt w_id ol_cnt i_id_start : Z) (dr : NewOrderDraws)
    (slots : list OrderItem) (n : nat) (all_local : bool) : outcome (list OrderItem * bool) :=
  match slots with
  | [] => Ret ([], all_local)
  | _ :: rest =>
      let i := Z.of_nat n in
      if i <? ol_cnt then
        last ← chk 64 (ol_cnt - 1);
        ol_i_id ← (if (i =? last) && nd_rbk dr then Ret (ITEM_SCALE + 1) else chk 64 (i_id_start + i));
        let id := nd_item dr n in
        ol_supply_w_id ← (if id_remote id then gen_below 0 warehouse_cnt (id_supply id) else Ret w_id);
        let all_local := if id_remote id then false else all_local in
        ol_quantity ← gen_range 1 10 (id_quantity id);
        '(rest, all_local) ← gen_items warehouse_cnt w_id ol_cnt i_id_start dr rest (S n) all_local;
        Ret (mkOrderItem (wrap 32 ol_i_id) (wrap 16 ol_supply_w_id) ol_quantity :: rest, all_local)
      else Ret (slots, all_local)
  end.

Definition NewOrderInput_gen (warehouse_cnt task_id task_cnt : Z) (dr : NewOrderDraws) (cells : Cells)
    : outcome (NewOrderInput * Cells) :=
  w_id ← gen_w_id warehouse_cnt task_id task_cnt (nd_w_id dr);
  d_id ← gen_below 0 DISTRICT_SCALE (nd_d_id dr);
  '(c_id, cells) ← nu 1023 0 (CUSTOMER_SCALE - 1) (nd_c_id dr) cells;
  ol_cnt ← gen_range 5 15 (nd_ol_cnt dr);
  '(i_id_start, cells) ← nu 8191 0 (ITEM_SCALE - 1) (nd_start dr) cells;
  '(orders, all_local) ← gen_items warehouse_cnt w_id ol_cnt i_id_start dr (replicate 15 OrderItem_default) 0 true;
  Ret (mkNewOrder (wrap 32 w_id) (wrap 32 d_id) (wrap 32 c_id) (Z.to_nat (wrap 32 ol_cnt)) orders (nd_now dr) all_local, cells).

(** ** Payment *)

(** Whom a payment or an order status asks for: 60 of 100 by last name. *)
Record QueryDraws := mkQueryDraws { qd_percent : Z; qd_nu : NuDraw }.

Definition CustomerQuery_gen (dr : QueryDraws) (cells : Cells) : outcome (CustomerQuery * Cells) :=
  p ← gen_below 0 100 (qd_percent dr);
  if p <? 60 then
    '(seed, cells) ← nu 255 0 999 (qd_nu dr) cells;
    Ret (LastName (wrap 32 seed), cells)
  else
    '(c_id, cells) ← nu 1023 0 (CUSTOMER_SCALE - 1) (qd_nu dr) cells;
    Ret (Id (wrap 32 c_id), cells).

Record PaymentDraws := mkPaymentDraws {
  pd_w_id : Z; pd_d_id : Z; pd_query : QueryDraws;
  pd_h_amount : Z;       (** an [f64] of [1.0..5000.0] *)
  pd_now : Z;
  pd_percent : Z; pd_c_w_id : Z; pd_c_d_id : Z;
}.

Definition PaymentInput_gen (warehouse_cnt task_id task_cnt : Z) (dr : PaymentDraws) (cells : Cells)
    : outcome (PaymentInput * Cells) :=
  w_id ← gen_w_id warehouse_cnt task_id task_cnt (pd_w_id dr);
  d_id ← gen_below 0 DISTRICT_SCALE (pd_d_id dr);
  '(c_query, cells) ← CustomerQuery_gen (pd_query dr) cells;
  p ← gen_below 0 100 (pd_percent dr);
  '(c_w_id, c_d_id) ←
    (if p <? 85 then Ret (w_id, d_id)
     else
       c_w_id ← gen_below 0 warehouse_cnt (pd_c_w_id dr);
       c_d_id ← gen_below 0 DISTRICT_SCALE (pd_c_d_id dr);
       Ret (c_w_id, c_d_id));
  Ret (mkPayment (wrap 32 w_id) (wrap 32 d_id) (wrap 32 c_w_id) (wrap 32 c_d_id) c_query (pd_h_amount dr) (pd_now dr), cells).

(** ** Order status, delivery and stock level *)
Record OrderStatusDraws := mkOrderStatusDraws { sd_w_id : Z; sd_d_id : Z; sd_query : QueryDraws }.

Definition OrderStatusInput_gen (warehouse_cnt task_id task_cnt : Z) (dr : OrderStatusDraws) (cells : Cells)
    : outcome (OrderStatusInput * Cells) :=
  w_id ← gen_w_id warehouse_cnt task_id task_cnt (sd_w_id dr);
  d_id ← gen_below 0 DISTRICT_SCALE (sd_d_id dr);
  '(c_query, cells) ← CustomerQuery_gen (sd_query dr) cells;
  Ret (mkOrderStatus (wrap 32 w_id) (wrap 32 d_id) c_query, cells).

Record DeliveryDraws := mkDeliveryDraws { dd_w_id : Z; dd_carrier_id : Z }.

Definition DeliveryInput_gen (warehouse_cnt task_id task_cnt : Z) (dr : DeliveryDraws) : outcome DeliveryInput :=
  w_id ← gen_w_id warehouse_cnt task_id task_cnt (dd_w_id dr);
  o_carrier_id ← gen_range 1 10 (dd_carrier_id dr);
  Ret (mkDelivery (wrap 32 w_id) o_carrier_id).

Record StockLevelDraws := mkStockLevelDraws { ld_w_id : Z; ld_d_id : Z; ld_threshold : Z }.

Definition StockLevelInput_gen (warehouse_cnt task_id task_cnt : Z) (dr : StockLevelDraws) : outcome StockLevelInput :=
  w_id ← gen_w_id warehouse_cnt task_id task_cnt (ld_w_id dr);
  d_id ← gen_below 0 DISTRICT_SCALE (ld_d_id dr);
  threshold ← gen_range 10 20 (ld_threshold dr);
  Ret (mkStockLevel (wrap 32 w_id) (wrap 32 d_id) threshold).

(** ** What is generated *)

(** The home warehouses of a task. *)
Definition home (warehouse_cnt task_id task_cnt w : Z) : Prop :=
  let w_per_thread := warehouse_cnt / task_cnt in
  w_per_thread * task_id <= w < Z.min (w_per_thread * (task_id + 1)) warehouse_cnt.

(** Two tasks share no home warehouse. *)
Lemma homes_disjoint cnt tasks id1 id2 w :
  0 <= cnt -> 0 < tasks -> home cnt id1 tasks w -> home cnt id2 tasks w -> id1 = id2.
Proof.
  unfold home. cbv zeta. intros Hc Ht H1 H2. pose proof (Z.div_pos cnt tasks Hc Ht) as Hp.
  destruct (Z.lt_trichotomy id1 id2) as [Hlt|[?|Hlt]]; [|done|]; exfalso; revert H1 H2;
    generalize dependent (cnt / tasks); intros p Hp; nia.
Qed.

(** With more tasks than warehouses no input can be generated. *)
Lemma gen_w_id_crowded cnt id tasks draw :
  0 <= cnt < tasks -> 0 <= id < 2 ^ 64 - 1 -> gen_w_id cnt id tasks draw = Panic.
Proof.
  intros Hc Hi. unfold gen_w_id. rewrite (proj2 (Z.eqb_neq _ 0)) by lia. runm. rewrite Z.div_small by lia.
  do 3 (rewrite chk_ok by (unfold fits; lia); runm). unfold gen_below. by rewrite (proj2 (Z.ltb_ge _ _)) by lia.
Qed.

Definition nu_draw_ok (A x y : Z) (dr : NuDraw) : Prop :=
  0 <= nu_c dr <= A /\ 0 <= nu_r1 dr <= A /\ x <= nu_r2 dr <= y.

Lemma nu_ok A x y dr cells :
  A = 255 \/ A = 1023 \/ A = 8191 -> 0 <= x <= y -> y < 2 ^ 62 -> nu_draw_ok A x y dr -> cells_ok cells ->
  exists v cells', nu A x y dr cells = Ret (v, cells') /\ x <= v <= y /\ cells_ok cells'.
Proof.
  intros HA Hxy Hy (H1 & H2 & H3) Hc. unfold nu.
  destruct (nu_rand_range A x y (nu_c dr) (nu_r1 dr) (nu_r2 dr) cells) as (v & cells' & c & E & Hv & Hc' & _); [done..|].
  eauto.
Qed.

(** The item of slot [n]. *)
Definition item_of (w_id start : Z) (ol_cnt : nat) (dr : NewOrderDraws) (n : nat) : OrderItem :=
  let id := nd_item dr n in
  mkOrderItem (if (S n =? ol_cnt)%nat && nd_rbk dr then ITEM_SCALE + 1 else start + Z.of_nat n)
    (if id_remote id then id_supply id else w_id) (id_quantity id).

Definition line_draw_ok (warehouse_cnt : Z) (id : LineDraw) : Prop :=
  0 <= id_supply id < warehouse_cnt /\ 1 <= id_quantity id <= 10.

Lemma gen_items_ok cnt w_id L start dr slots n all_local :
  0 <= cnt <= 2 ^ 15 -> 0 <= w_id < cnt -> 0 <= start < ITEM_SCALE -> (1 <= L <= 15)%nat ->
  (n + length slots <= 15)%nat -> (forall k, line_draw_ok cnt (nd_item dr k)) ->
  gen_items cnt w_id (Z.of_nat L) start dr slots n all_local =
  Ret ((item_of w_id start L dr <$> seq n (Nat.min (length slots) (L - n))) ++ drop (L - n) slots,
       all_local && forallb (fun k => negb (id_remote (nd_item dr k))) (seq n (Nat.min (length slots) (L - n))))%list.
Proof.
  intros Hcnt Hw Hs HL Hn Hdr. revert n all_local Hn.
  induction slots as [|x slots IH]; intros n all_local Hn; cbn [gen_items length Nat.min].
  { by rewrite drop_nil, andb_true_r. }
  destruct (Z.ltb_spec (Z.of_nat n) (Z.of_nat L)) as [Hlt|Hge].
  2:{ replace (L - n)%nat with 0%nat by lia. cbn. by rewrite andb_true_r. }
  destruct (Hdr n) as [Hsup Hq]. unfold ITEM_SCALE in *.
  rewrite (chk_ok 64 (Z.of_nat L - 1)) by (unfold fits; lia). runm.
  assert (E : forall b : bool, (if b then Ret (100000 + 1) else chk 64 (start + Z.of_nat n)) =
                Ret (if b then 100000 + 1 else start + Z.of_nat n)).
  { intros [|]; [done|]. by rewrite chk_ok by (unfold fits; simpl in Hn; lia). }
  rewrite E. runm.
  assert (E2 : (if id_remote (nd_item dr n) then gen_below 0 cnt (id_supply (nd_item dr n)) else Ret w_id) =
               Ret (if id_remote (nd_item dr n) then id_supply (nd_item dr n) else w_id)).
  { destruct (id_remote _); [|done]. unfold gen_below. by rewrite (proj2 (Z.ltb_lt _ _)) by lia. }
  rewrite E2. runm. unfold gen_range. rewrite (proj2 (Z.leb_le _ _)) by lia. runm. simpl in Hn.
  rewrite IH by lia. runm. replace (L - n)%nat with (S (L - S n)) by lia. cbn [Nat.min seq fmap list_fmap drop forallb app].
  f_equal. f_equal.
  - f_equal. unfold item_of.
    assert (Eb : (Z.of_nat n =? Z.of_nat L - 1) = (S n =? L)%nat).
    { destruct (Nat.eqb_spec (S n) L); [apply Z.eqb_eq|apply Z.eqb_neq]; lia. }
    rewrite Eb. clear E E2. f_equal; apply wrap_small; unfold fits, ITEM_SCALE; case_match; lia.
  - by destruct (id_remote _), all_local.
Qed.

(** A generated input, column by column. *)
Definition new_order_draws_ok (warehouse_cnt : Z) (dr : NewOrderDraws) : Prop :=
  0 <= nd_d_id dr < DISTRICT_SCALE /\ nu_draw_ok 1023 0 (CUSTOMER_SCALE - 1) (nd_c_id dr) /\ 5 <= nd_ol_cnt dr <= 15 /\
  nu_draw_ok 8191 0 (ITEM_SCALE - 1) (nd_start dr) /\ (forall n, line_draw_ok warehouse_cnt (nd_item dr n)) /\
  0 <= nd_now dr < 2 ^ 64.

Definition new_order_input (dr : NewOrderDraws) (c_id start : Z) : NewOrderInput :=
  let ol_cnt := Z.to_nat (nd_ol_cnt dr) in
  mkNewOrder (nd_w_id dr) (nd_d_id dr) c_id ol_cnt
    ((item_of (nd_w_id dr) start ol_cnt dr <$> seq 0 ol_cnt) ++ replicate (15 - ol_cnt) OrderItem_default)%list
    (nd_now dr) (forallb (fun n => negb (id_remote (nd_item dr n))) (seq 0 ol_cnt)).

Definition query_draws_ok (dr : QueryDraws) : Prop :=
  0 <= qd_percent dr < 100 /\
  if qd_percent dr <? 60 then nu_draw_ok 255 0 999 (qd_nu dr) else nu_draw_ok 1023 0 (CUSTOMER_SCALE - 1) (qd_nu dr).

(** A customer who exists, or the seed of a last name. *)
Definition query_in (q : CustomerQuery) : Prop :=
  match q with Id c => 0 <= c < CUSTOMER_SCALE | LastName seed => 0 <= seed <= 999 end.

Section gen.
Context (cnt id tasks : Z) (Hcnt : 0 <= cnt <= 2 ^ 15) (Htasks : 0 < tasks < 2 ^ 62) (Hid : 0 <= id < tasks).

Lemma home_bounds w : home cnt id tasks w -> 0 <= w < cnt.
Proof using Hcnt Htasks Hid.
  unfold home. cbv zeta. pose proof (Z.div_pos cnt tasks ltac:(lia) ltac:(lia)). intros [H1 H2].
  split; [|lia]. set (p := cnt / tasks) in *. clearbody p. nia.
Qed.

Lemma gen_w_id_ok w : home cnt id tasks w -> gen_w_id cnt id tasks w = Ret w.
Proof using Hcnt Htasks Hid.
  intros Hw. pose proof Hw as [H1 H2]. cbv zeta in H1, H2. unfold gen_w_id.
  rewrite (proj2 (Z.eqb_neq _ 0)) by lia. runm.
  pose proof (Z.mul_div_le cnt tasks ltac:(lia)). pose proof (Z.div_pos cnt tasks ltac:(lia) ltac:(lia)).
  set (p := cnt / tasks) in *. clearbody p.
  rewrite (chk_ok 64 (p * id)) by (unfold fits; nia). runm. rewrite (chk_ok 64 (id + 1)) by (unfold fits; lia). runm.
  rewrite chk_ok by (unfold fits; nia). runm. unfold gen_below. by rewrite (proj2 (Z.ltb_lt _ _)) by lia.
Qed.

Lemma gen_below_ok x draw : 0 <= draw < x -> gen_below 0 x draw = Ret draw.
Proof using Type. intros Hd. unfold gen_below. by rewrite (proj2 (Z.ltb_lt _ _)) by lia. Qed.

Lemma gen_range_ok x y draw : x <= draw <= y -> gen_range x y draw = Ret draw.
Proof using Type. intros Hd. unfold gen_range. by rewrite (proj2 (Z.leb_le _ _)) by lia. Qed.

Lemma new_order_gen_ok dr cells :
  home cnt id tasks (nd_w_id dr) -> new_order_draws_ok cnt dr -> cells_ok cells ->
  exists c_id start cells', 0 <= c_id < CUSTOMER_SCALE /\ 0 <= start < ITEM_SCALE /\ cells_ok cells' /\
    NewOrderInput_gen cnt id tasks dr cells = Ret (new_order_input dr c_id start, cells').
Proof using Hcnt Htasks Hid.
  intros Hw (Hd & Hc & Hl & Hs & Hi & Hn) Hcs. pose proof (home_bounds _ Hw). unfold NewOrderInput_gen.
  rewrite gen_w_id_ok by done. runm. rewrite gen_below_ok by done. runm.
  destruct (nu_ok 1023 0 (CUSTOMER_SCALE - 1) (nd_c_id dr) cells) as (c_id & cells1 & -> & Hc1 & Hcs1);
    [by right; left|unfold CUSTOMER_SCALE; lia|unfold CUSTOMER_SCALE; lia|done|done|]. runm.
  rewrite gen_range_ok by done. runm.
  destruct (nu_ok 8191 0 (ITEM_SCALE - 1) (nd_start dr) cells1) as (start & cells2 & -> & Hs1 & Hcs2);
    [by right; right|unfold ITEM_SCALE; lia|unfold ITEM_SCALE; lia|done|done|]. runm.
  pose proof (gen_items_ok cnt (nd_w_id dr) (Z.to_nat (nd_ol_cnt dr)) start dr (replicate 15 OrderItem_default) 0 true) as E.
  rewrite Z2Nat.id in E by lia. unfold CUSTOMER_SCALE, DISTRICT_SCALE in *.
  rewrite E by (simpl; first [done|lia]). runm. exists c_id, start, cells2. split; [lia|]. split; [lia|]. split; [done|].
  rewrite !wrap_small by (unfold fits; lia). unfold new_order_input.
  rewrite length_replicate, Nat.sub_0_r, drop_replicate, Nat.min_r by lia. done.
Qed.

Lemma query_gen_ok dr cells :
  query_draws_ok dr -> cells_ok cells ->
  exists q cells', CustomerQuery_gen dr cells = Ret (q, cells') /\ query_in q /\ cells_ok cells'.
Proof using Type.
  intros [Hp Hq] Hcs. unfold CustomerQuery_gen. rewrite gen_below_ok by done. runm.
  destruct (qd_percent dr <? 60).
  - destruct (nu_ok 255 0 999 (qd_nu dr) cells) as (v & cells' & -> & Hv & Hcs'); [by left|lia|lia|done|done|]. runm.
    rewrite wrap_small by (unfold fits; lia). exists (LastName v), cells'. done.
  - unfold CUSTOMER_SCALE in *.
    destruct (nu_ok 1023 0 (3000 - 1) (qd_nu dr) cells) as (v & cells' & -> & Hv & Hcs'); [by right; left|lia|lia|done|done|].
    runm. rewrite wrap_small by (unfold fits; lia). exists (Id v), cells'. split; [done|]. split; [|done].
    unfold query_in, CUSTOMER_SCALE. lia.
Qed.

Definition payment_draws_ok (dr : PaymentDraws) : Prop :=
  0 <= pd_d_id dr < DISTRICT_SCALE /\ query_draws_ok (pd_query dr) /\ 0 <= pd_percent dr < 100 /\
  0 <= pd_c_w_id dr < cnt /\ 0 <= pd_c_d_id dr < DISTRICT_SCALE.

(** The customer's warehouse and district: 85 of 100 pay at home. *)
Lemma payment_gen_ok dr cells :
  home cnt id tasks (pd_w_id dr) -> payment_draws_ok dr -> cells_ok cells ->
  exists q cells', query_in q /\ cells_ok cells' /\
    PaymentInput_gen cnt id tasks dr cells =
    Ret (mkPayment (pd_w_id dr) (pd_d_id dr)
           (if pd_percent dr <? 85 then pd_w_id dr else pd_c_w_id dr)
           (if pd_percent dr <? 85 then pd_d_id dr else pd_c_d_id dr) q (pd_h_amount dr) (pd_now dr), cells').
Proof using Hcnt Htasks Hid.
  intros Hw (Hd & Hq & Hp & Hcw & Hcd) Hcs. pose proof (home_bounds _ Hw). unfold PaymentInput_gen.
  rewrite gen_w_id_ok by done. runm. rewrite !gen_below_ok by done. runm.
  destruct (query_gen_ok (pd_query dr) cells) as (q & cells' & -> & Hq' & Hcs'); [done..|]. runm.
  exists q, cells'. split; [done|]. split; [done|]. unfold DISTRICT_SCALE in *.
  destruct (pd_percent dr <? 85); runm; by rewrite !wrap_small by (unfold fits; lia).
Qed.

Lemma order_status_gen_ok dr cells :
  home cnt id tasks (sd_w_id dr) -> 0 <= sd_d_id dr < DISTRICT_SCALE -> query_draws_ok (sd_query dr) -> cells_ok cells ->
  exists q cells', query_in q /\ cells_ok cells' /\
    OrderStatusInput_gen cnt id tasks dr cells = Ret (mkOrderStatus (sd_w_id dr) (sd_d_id dr) q, cells').
Proof using Hcnt Htasks Hid.
  intros Hw Hd Hq Hcs. pose proof (home_bounds _ Hw). unfold OrderStatusInput_gen.
  rewrite gen_w_id_ok by done. runm. rewrite gen_below_ok by done. runm.
  destruct (query_gen_ok (sd_query dr) cells) as (q & cells' & -> & Hq' & Hcs'); [done..|]. runm.
  exists q, cells'. unfold DISTRICT_SCALE in *. by rewrite !wrap_small by (unfold fits; lia).
Qed.

Lemma delivery_gen_ok dr :
  home cnt id tasks (dd_w_id dr) -> 1 <= dd_carrier_id dr <= 10 ->
  DeliveryInput_gen cnt id tasks dr = Ret (mkDelivery (dd_w_id dr) (dd_carrier_id dr)).
Proof using Hcnt Htasks Hid.
  intros Hw Hc. pose proof (home_bounds _ Hw). unfold DeliveryInput_gen.
  rewrite gen_w_id_ok by done. runm. rewrite gen_range_ok by done. runm. by rewrite wrap_small by (unfold fits; lia).
Qed.

Lemma stock_level_gen_ok dr :
  home cnt id tasks (ld_w_id dr) -> 0 <= ld_d_id dr < DISTRICT_SCALE -> 10 <= ld_threshold dr <= 20 ->
  StockLevelInput_gen cnt id tasks dr = Ret (mkStockLevel (ld_w_id dr) (ld_d_id dr) (ld_threshold dr)).
Proof using Hcnt Htasks Hid.
  intros Hw Hd Ht. pose proof (home_bounds _ Hw). unfold StockLevelInput_gen, DISTRICT_SCALE in *.
  rewrite gen_w_id_ok by done. runm. rewrite gen_below_ok by done. runm. rewrite gen_range_ok by done. runm.
  by rewrite !wrap_small by (unfold fits; lia).
Qed.
End gen.
