(* ===== verification/TpccTasks.v ===== *)
(** * The inputs of a task on a loaded database

    What the transactions of TpccRuns.v do for the inputs that TpccGen.v
    generates: on a database as it is loaded none of them panics but for want
    of record ids or, in a payment, for a discount at the end of its range, and a
    new order can commit only if all its items exist. *)

From Stdlib Require Import QArith.
From S2P Require Import Prelude Query Schema Layout External CacheMachine Table Guarded Txn TxnView SpecTable Float64.
From S2P Require Import TpccTables TpccSchemas TpccUtils TpccTxn TpccView NewOrder Payment TpccReads Delivery TpccDemo TpccRuns.
From S2P Require Import TpccReal TpccLoad TpccRows TpccLoading TpccLoaded TpccNew TpccRoom TpccBuilt TpccGen.
Open Scope string_scope.
Open Scope Z_scope.

(** The stock index knows the items of the benchmark only. *)
Definition items_known {Ix} `{DbIndex Ix} (v : view tbl index_name Ix) : Prop :=
  forall k s, index_get (v_index v stock) k = Some s ->
    exists w i, 0 <= w < 2 ^ 16 /\ 0 <= i < ITEM_SCALE /\ Stock_make_key w i = Ret k.

(** Items that exist. *)
Definition items_exist (i : NewOrderInput) : Prop :=
  Forall (fun o => oi_i_id o < ITEM_SCALE) (take (n_ol_cnt i) (n_orders i)).

#[export] Instance items_exist_dec i : Decision (items_exist i).
Proof. unfold items_exist. apply _. Defined.

Section items.
Context {Ix : Type} `{DbIndex Ix} `{!RangeIndex Ix}.
Implicit Types (v : view tbl index_name Ix).

(** A new order that is in the database has existing items only. *)
Lemma ordered_items i v v' : input_ok i -> items_known v -> ordered i v v' -> items_exist i.
Proof.
  intros (_ & _ & _ & _ & _ & _ & Hitems) Hk Ho.
  destruct Ho as (d & x_d & o_id & ro & ok & nk & locks & lines & Ho).
  destruct Ho as (_ & _ & _ & _ & _ & _ & _ & _ & _ & _ & Hl & _). unfold items_exist. revert Hitems.
  induction Hl as [|o s os ls (k & Ek & Hs) Hl IH]; intros Hi; [done|].
  inversion Hi as [|? ? Hio Hi' E1]. clear E1. constructor; [|by apply IH].
  destruct (Hk _ _ Hs) as (w & i' & Hw & Hi'' & Ek'). destruct Hio as (Hid & Hsup & _).
  rewrite Stock_key_value in Ek by lia. unfold ITEM_SCALE in *. rewrite Stock_key_value in Ek' by lia.
  rewrite <-Ek in Ek'. injection Ek' as Ek'. lia.
Qed.

Lemma ordered_known i v v' : ordered i v v' -> items_known v -> items_known v'.
Proof.
  intros (d & x_d & o_id & ro & ok & nk & locks & lines & Ho) Hk k s.
  destruct Ho as (_ & _ & _ & _ & _ & _ & _ & _ & _ & _ & _ & _ & _ & _ & _ & _ & Hix & _).
  rewrite Hix by (rewrite !elem_of_cons, elem_of_nil; intuition discriminate). apply Hk.
Qed.

Lemma unchanged_known v v' : unchanged v v' -> items_known v -> items_known v'.
Proof. intros (_ & Hi & _) Hk k s. rewrite Hi. apply Hk. Qed.
End items.

(** ** The items of a generated order *)
Lemma new_order_items dr c_id start :
  5 <= nd_ol_cnt dr <= 15 ->
  take (Z.to_nat (nd_ol_cnt dr)) (n_orders (new_order_input dr c_id start)) =
  item_of (nd_w_id dr) start (Z.to_nat (nd_ol_cnt dr)) dr <$> seq 0 (Z.to_nat (nd_ol_cnt dr)).
Proof. intros Hl. simpl. by rewrite take_app_length' by by rewrite length_fmap, length_seq. Qed.

(** They exist if the order is not one to be rolled back and does not start
    too close to the last item. *)
Lemma generated_items dr c_id start :
  5 <= nd_ol_cnt dr <= 15 -> items_exist (new_order_input dr c_id start) ->
  nd_rbk dr = false /\ start + nd_ol_cnt dr <= ITEM_SCALE.
Proof.
  intros Hl Hi. unfold items_exist in Hi. change (n_ol_cnt _) with (Z.to_nat (nd_ol_cnt dr)) in Hi.
  rewrite new_order_items in Hi by done. rewrite Forall_fmap, Forall_forall in Hi.
  specialize (Hi (Z.to_nat (nd_ol_cnt dr) - 1)%nat). unfold compose, item_of in Hi. cbn [oi_i_id] in Hi.
  rewrite (proj2 (Nat.eqb_eq _ _)) in Hi by lia. cbn [andb] in Hi.
  destruct (nd_rbk dr); specialize (Hi ltac:(apply elem_of_seq; lia)); unfold ITEM_SCALE in *; lia.
Qed.

Lemma generated_input_ok cnt dr c_id start :
  0 <= cnt <= 2 ^ 15 -> 0 <= nd_w_id dr < cnt -> new_order_draws_ok cnt dr -> 0 <= c_id < CUSTOMER_SCALE ->
  0 <= start < ITEM_SCALE -> input_ok (new_order_input dr c_id start).
Proof.
  intros Hcnt Hw (Hd & _ & Hl & _ & Hi & Hn) Hc Hs. unfold DISTRICT_SCALE, CUSTOMER_SCALE, ITEM_SCALE in *.
  split; [simpl; lia|]. split; [simpl; lia|]. split; [simpl; lia|]. split; [done|].
  split; [simpl; rewrite length_app, length_fmap, length_seq, length_replicate; lia|]. split; [simpl; lia|].
  change (n_ol_cnt _) with (Z.to_nat (nd_ol_cnt dr)). rewrite new_order_items by done.
  rewrite Forall_fmap, Forall_forall. intros n Hn'%elem_of_seq. destruct (Hi n) as [Hsup Hq].
  unfold item_ok, item_of, ITEM_SCALE. simpl. split_and!; try lia; repeat case_match; lia.
Qed.

(** The draws of a task, for one input of each kind that is a transaction of its own. *)
Record TaskDraws := mkTaskDraws {
  td_new_order : NewOrderDraws; td_payment : PaymentDraws;
  td_order_status : OrderStatusDraws; td_delivery : DeliveryDraws; td_stock_level : StockLevelDraws;
}.

Record task_draws_ok (cnt id tasks : Z) (T : TaskDraws) : Prop := mkTaskOk {
  to_homes : Forall (home cnt id tasks) [nd_w_id (td_new_order T); pd_w_id (td_payment T);
                                         sd_w_id (td_order_status T); dd_w_id (td_delivery T); ld_w_id (td_stock_level T)];
  to_new_order : new_order_draws_ok cnt (td_new_order T);
  to_payment : payment_draws_ok cnt (td_payment T);
  to_order_status : 0 <= sd_d_id (td_order_status T) < DISTRICT_SCALE /\ query_draws_ok (sd_query (td_order_status T));
  to_delivery : 1 <= dd_carrier_id (td_delivery T) <= 10;
  to_stock_level : 0 <= ld_d_id (td_stock_level T) < DISTRICT_SCALE /\ 10 <= ld_threshold (td_stock_level T) <= 20;
}.

Section tasks.
Context {Ix Tb V : Type} `{DbIndexLaws Ix} `{!RangeIndex Ix} `{!RangeIndexLaws Ix}.
Context (ops : tbl -> GuardedTable Ix Tb V) (S : tbl -> Schema) `{TS : !TpccSchemas S}.
Context (laws : forall t, @GuardedTableLaws (S t) (tpcc_columns t) (tpcc_written t) Ix Tb V _ _ (ops t)).
Context (D : Draws) (cnt : Z) (HD : draws_ok D) (Hcnt : 0 <= cnt <= 2 ^ 15).
Abbreviation rest := (rest ops S laws).
Abbreviation run_ok := (run_ok ops S laws).
Implicit Types (v : view tbl index_name Ix) (ds : nat -> draws).

Lemma loaded_items v : loaded_view D cnt v -> items_known v.
Proof using Hcnt.
  intros Hv k s Hs. destruct (lv_keyed D cnt v Hv _ _ _ Hs) as (x & Hx & Ek).
  destruct (lv_rows D cnt v Hv _ _ _ Hx) as (_ & Hw & Hi & _).
  exists (column StockTuple "s_w_id" x), (column StockTuple "s_i_id" x). split; [lia|]. split; [done|]. exact Ek.
Qed.

(** A weaker account of a run. *)
Lemma run_mono {A} (p : prog tbl index_name A) ds s a P P' (C C' : Prop) :
  run_ok p ds s a P C -> (forall r v', P r v' -> P' r v') -> (C -> C') -> run_ok p ds s a P' C'.
Proof using Type.
  intros [(r & s' & a' & v' & E & Hr & Hk & HP)|[E HC]] HPP HCC.
  - left. exists r, s', a', v'. eauto 6.
  - right. split; [done|]. destruct HC as [HC|HC]; [left; auto|by right].
Qed.

Lemma loaded_names s a v : rest s a v -> loaded_view D cnt v -> names_linked v.
Proof using Type.
  intros Hr Hv k r Hk. apply (lv_names D cnt v Hv) in Hk as (x & Hx & _).
  split; [eapply rest_rid_ok; [exact Hr|]|]; by exists x.
Qed.

Lemma new_order_on_loaded s a v id tasks dr cells ds :
  rest s a v -> loaded_view D cnt v -> 0 < tasks < 2 ^ 62 -> 0 <= id < tasks ->
  home cnt id tasks (nd_w_id dr) -> new_order_draws_ok cnt dr -> cells_ok cells ->
  exists i cells', NewOrderInput_gen cnt id tasks dr cells = Ret (i, cells') /\ cells_ok cells' /\
     run_ok (new_order i) ds s a (fun r v' =>
       match r with
       | Ok _ => items_exist i /\ nd_rbk dr = false /\ ordered i v v' /\ all_stock 15 v' /\ items_known v'
       | Err _ => unchanged v v'
       end) False.
Proof using H0 HD Hcnt RangeIndexLaws0 TS.
  intros Hr Hv Ht Hid Hw Hdr Hcs. pose proof (loaded_serviceable D cnt HD Hcnt v Hv) as Hsv.
  destruct (new_order_gen_ok cnt id tasks Hcnt Ht Hid dr cells Hw Hdr Hcs) as (c_id & start & cells' & Hc & Hs & Hcs' & E).
  exists (new_order_input dr c_id start), cells'. split; [exact E|]. split; [exact Hcs'|].
  assert (Hi : input_ok (new_order_input dr c_id start)).
  { apply (generated_input_ok cnt); [done|by eapply home_bounds|done..]. }
  destruct (rest_linked ops S laws _ _ _ Hr) as [Hh _].
  eapply (run_view ops S laws).
  - exact Hr.
  - apply (@new_order_ok Ix _ _ S TS); [exact Hi|exact Hh|exact (sv_stock cnt v Hsv)|exact (sv_districts cnt v Hsv)].
  - intros [[]|e] v1 v2 HQ Hu; [|by eapply unchanged_trans]. destruct HQ as [Ho Hst].
    assert (Hie : items_exist (new_order_input dr c_id start)) by (eapply ordered_items; [done|by apply loaded_items|done]).
    destruct Hdr as (_ & _ & Hl & _). split; [done|]. split; [by eapply generated_items|].
    split; [by eapply ordered_unchanged|]. split.
    + intros r x Hx. eapply Hst. destruct Hu as [Hu _]. by rewrite <-Hu.
    + eapply unchanged_known; [done|]. eapply ordered_known; [done|]. by apply loaded_items.
  - done.
Qed.

Lemma payment_on_loaded s a v id tasks dr cells ds :
  rest s a v -> loaded_view D cnt v -> 0 < tasks < 2 ^ 62 -> 0 <= id < tasks -> home cnt id tasks (pd_w_id dr) -> payment_draws_ok cnt dr -> cells_ok cells ->
  exists i cells', PaymentInput_gen cnt id tasks dr cells = Ret (i, cells') /\ cells_ok cells' /\
    run_ok (payment i) ds s a (paid i v) (odd_discount i v).
Proof using H0 HD Hcnt RangeIndexLaws0 TS.
  intros Hr Hv Ht Hid Hw Hdr Hcs. pose proof (loaded_serviceable D cnt HD Hcnt v Hv) as Hsv.
  destruct (payment_gen_ok cnt id tasks Hcnt Ht Hid dr cells Hw Hdr Hcs) as (q & cells' & Hq & Hcs' & E).
  eexists _, cells'. split; [exact E|]. split; [exact Hcs'|]. pose proof (home_bounds cnt id tasks Hcnt Ht Hid _ Hw).
  destruct Hdr as (Hd & _ & _ & Hcw & Hcd). unfold DISTRICT_SCALE in *.
  apply payment_runs; [exact TS|exact Hr| |exact (sv_customers cnt v Hsv)|by eapply loaded_names].
  split; [simpl; lia|]. split; [simpl; lia|]. simpl. split_and!; try (case_match; lia).
  unfold query_ok, query_in, CUSTOMER_SCALE in *. destruct q; lia.
Qed.

Lemma order_status_on_loaded s a v id tasks dr cells ds :
  rest s a v -> loaded_view D cnt v -> 0 < tasks < 2 ^ 62 -> 0 <= id < tasks ->
  home cnt id tasks (sd_w_id dr) -> 0 <= sd_d_id dr < DISTRICT_SCALE -> query_draws_ok (sd_query dr) -> cells_ok cells ->
  exists i cells', OrderStatusInput_gen cnt id tasks dr cells = Ret (i, cells') /\ cells_ok cells' /\
    run_ok (order_status i) ds s a (fun _ v' => unchanged v v') False.
Proof using H0 HD Hcnt RangeIndexLaws0 TS.
  intros Hr Hv Ht Hid Hw Hd Hq Hcs. pose proof (loaded_serviceable D cnt HD Hcnt v Hv) as Hsv.
  destruct (order_status_gen_ok cnt id tasks Hcnt Ht Hid dr cells Hw Hd Hq Hcs) as (q & cells' & Hq' & Hcs' & E).
  eexists _, cells'. split; [exact E|]. split; [exact Hcs'|]. pose proof (home_bounds cnt id tasks Hcnt Ht Hid _ Hw).
  destruct (rest_linked ops S laws _ _ _ Hr) as [Hh Hl].
  eapply (run_view ops S laws).
  - exact Hr.
  - apply (order_status_runs S); [|exact Hh|exact Hl|exact (sv_ids cnt v Hsv)|by eapply loaded_names].
    unfold DISTRICT_SCALE in *. split; [simpl; lia|]. split; [simpl; lia|]. simpl.
    unfold query_ok, query_in, CUSTOMER_SCALE in *. destruct q; lia.
  - intros r v1 v2 [_ Hu1] Hu. by eapply unchanged_trans.
  - intros v1 [(c & x & _ & Hx & Hnone) _].
    exact (loaded_orders D cnt HD Hcnt v (mkOrderStatus (sd_w_id dr) (sd_d_id dr) q) c x Hv ltac:(simpl; lia) Hd Hx Hnone).
Qed.

Lemma stock_level_on_loaded s a v id tasks dr ds :
  rest s a v -> loaded_view D cnt v -> 0 < tasks < 2 ^ 62 -> 0 <= id < tasks ->
  home cnt id tasks (ld_w_id dr) -> 0 <= ld_d_id dr < DISTRICT_SCALE -> 10 <= ld_threshold dr <= 20 ->
  exists i, StockLevelInput_gen cnt id tasks dr = Ret i /\ run_ok (stock_level i) ds s a (fun _ v' => unchanged v v') False.
Proof using H0 HD Hcnt RangeIndexLaws0 TS.
  intros Hr Hv Ht Hid Hw Hd Hth. pose proof (loaded_serviceable D cnt HD Hcnt v Hv) as Hsv.
  eexists. split; [by apply stock_level_gen_ok|]. pose proof (home_bounds cnt id tasks Hcnt Ht Hid _ Hw).
  destruct (rest_linked ops S laws _ _ _ Hr) as [Hh Hl]. eapply (run_view ops S laws).
  - exact Hr.
  - apply stock_level_runs; [exact TS| |exact Hh|exact Hl|exact (sv_twenty cnt v Hsv)|exact (sv_lines cnt v Hsv)]. unfold DISTRICT_SCALE in *. split; simpl; lia.
  - intros r v1 v2 [_ Hu1] Hu. by eapply unchanged_trans.
  - by intros v1 [? _].
Qed.

Lemma delivery_on_loaded s a v id tasks dr time ds :
  rest s a v -> loaded_view D cnt v -> 0 < tasks < 2 ^ 62 -> 0 <= id < tasks ->
  home cnt id tasks (dd_w_id dr) -> 1 <= dd_carrier_id dr <= 10 ->
  exists i, DeliveryInput_gen cnt id tasks dr = Ret i /\
    run_ok (delivery i time) ds s a (fun r v' => proceeded i time (seqZ 0 DISTRICT_SCALE) v r v') False.
Proof using H0 HD Hcnt RangeIndexLaws0 TS.
  intros Hr Hv Ht Hid Hw Hc. pose proof (loaded_serviceable D cnt HD Hcnt v Hv) as Hsv.
  eexists. split; [by apply delivery_gen_ok|]. pose proof (home_bounds cnt id tasks Hcnt Ht Hid _ Hw).
  assert (Hok : delivery_ok (mkDelivery (dd_w_id dr) (dd_carrier_id dr))) by (split; simpl; lia).
  eapply run_mono; [apply delivery_runs; [exact TS|exact Hr|exact Hok|]|done|].
  - intros r x Hx. destruct (sv_counts cnt v Hsv _ _ Hx) as [Hl _]. split; [exact Hl|].
    destruct (lv_rows D cnt v Hv _ _ _ Hx) as (_ & Hrow). cbv zeta in Hrow. destruct Hrow as (_ & _ & _ & _ & _ & _ & Hdc). lia.
  - intros (d & key & o & x & Hd & Hk & Ha & Hne). apply Hne.
    exact (sv_announced cnt v Hsv _ d key o x Hok Hd Hk Ha).
Qed.

(** C26: A task's inputs on a loaded database, for draws within the ranges that the
    generators ask for, which needs a warehouse in the task's own range: each is
    generated, and the transaction it is for returns, with every lock released,
    unless an insert of the new order finds no record id, or the customer whom
    the payment finds has a discount that is not strictly between 0 and 0.5.  The
    new order commits only if every item exists (so never when it is drawn to be rolled
    back) and else leaves no trace; the payment's effect is as [paid] says, the
    delivery's as [proceeded] says; order status and stock level change nothing. *)
Theorem task_runs_on_loaded s a v id tasks T cells1 cells2 cells3 time ds1 ds2 ds3 ds4 ds5 :
  rest s a v -> loaded_view D cnt v -> 0 < tasks < 2 ^ 62 -> 0 <= id < tasks -> task_draws_ok cnt id tasks T ->
  cells_ok cells1 -> cells_ok cells2 -> cells_ok cells3 ->
  (exists i cells', NewOrderInput_gen cnt id tasks (td_new_order T) cells1 = Ret (i, cells') /\ cells_ok cells' /\
     run_ok (new_order i) ds1 s a (fun r v' =>
       match r with
       | Ok _ => items_exist i /\ nd_rbk (td_new_order T) = false /\ ordered i v v' /\ all_stock 15 v' /\ items_known v'
       | Err _ => unchanged v v'
       end) False) /\
  (exists i cells', PaymentInput_gen cnt id tasks (td_payment T) cells2 = Ret (i, cells') /\ cells_ok cells' /\
     run_ok (payment i) ds2 s a (paid i v) (odd_discount i v)) /\
  (exists i cells', OrderStatusInput_gen cnt id tasks (td_order_status T) cells3 = Ret (i, cells') /\ cells_ok cells' /\
     run_ok (order_status i) ds3 s a (fun _ v' => unchanged v v') False) /\
  (exists i, DeliveryInput_gen cnt id tasks (td_delivery T) = Ret i /\
     run_ok (delivery i time) ds4 s a (fun r v' => proceeded i time (seqZ 0 DISTRICT_SCALE) v r v') False) /\
  (exists i, StockLevelInput_gen cnt id tasks (td_stock_level T) = Ret i /\
     run_ok (stock_level i) ds5 s a (fun _ v' => unchanged v v') False).
Proof using H0 HD Hcnt RangeIndexLaws0 TS.
  intros Hr Hv Ht Hid [Hh Hn Hp [Hsd Hsq] Hdc [Hld Hlt]] Hc1 Hc2 Hc3.
  pose proof (loaded_serviceable D cnt HD Hcnt v Hv) as Hsv.
  apply Forall_cons in Hh as [H1' Hh]. apply Forall_cons in Hh as [H2' Hh]. apply Forall_cons in Hh as [H3' Hh].
  apply Forall_cons in Hh as [H4' Hh]. apply Forall_cons in Hh as [H5' _].
  split; [by apply new_order_on_loaded|]. split; [by apply payment_on_loaded|].
  split; [by apply order_status_on_loaded|]. split; [by apply delivery_on_loaded|by apply stock_level_on_loaded].
Qed.
End tasks.

(** *** A task of two on 64 loaded warehouses *)
Definition some_nu : NuDraw := mkNuDraw 7 1000 5.

Definition some_task : TaskDraws := {|
  td_new_order := mkNewOrderDraws 40 3 some_nu 5 false (mkNuDraw 11 22 33) (fun _ => mkLineDraw false 0 4) 1650000000;
  td_payment := mkPaymentDraws 41 9 (mkQueryDraws 80 some_nu) f64_half 1650000000 90 2 3;
  td_order_status := mkOrderStatusDraws 63 0 (mkQueryDraws 12 (mkNuDraw 1 2 3));
  td_delivery := mkDeliveryDraws 50 10;
  td_stock_level := mkStockLevelDraws 32 5 15;
|}.

Lemma some_task_ok : task_draws_ok 64 1 2 some_task.
Proof.
  split.
  - do 5 (apply Forall_cons; split; [unfold home; split; by vm_compute|]). by apply Forall_nil.
  - unfold new_order_draws_ok, nu_draw_ok, line_draw_ok. simpl. split_and!; scale.
  - unfold payment_draws_ok, query_draws_ok, nu_draw_ok. simpl. scale.
  - unfold query_draws_ok, nu_draw_ok. simpl. scale.
  - simpl. lia.
  - simpl. scale.
Qed.

Lemma task_runs_on_loaded_witness :
  exists s a v, rest (real_ops cached_schemas) cached_schemas (real_laws cached_schemas) s a v /\ loaded_view steady 64 v /\
    exists i cells', NewOrderInput_gen 64 1 2 (td_new_order some_task) (mkCells None None None) = Ret (i, cells') /\
      run_ok (real_ops cached_schemas) cached_schemas (real_laws cached_schemas) (new_order i) some_thread s a
        (fun r v' => match r with Ok _ => ordered i v v' | Err _ => unchanged v v' end) False.
Proof.
  destruct (new_ready cached_schemas (fun _ => 64) (fun _ => 4096) some_tuples steady 64 1 2998000 None some_caches
           [0; 1; 2; 1]%nat some_thread (seqZ 0 33)) as (wl & s & a & v & _ & _ & Hr & Hv & _).
  - exact some_machine.
  - split; [lia|]. split; [lia|]. intros []; simpl; lia.
  - vm_compute. reflexivity.
  - exact steady_ok.
  - scale.
  - pose proof (lines_drawn_most steady steady_ok 64 ltac:(lia)). scale.
  - vm_compute. lia.
  - intros k. apply elem_of_seqZ. unfold some_thread. simpl. pose proof (Z.mod_pos_bound (Z.of_nat k) 33 ltac:(lia)). lia.
  - exact steady_no_panic.
  - exists s, a, v. split; [exact Hr|]. split; [exact Hv|].
    destruct (task_runs_on_loaded (real_ops cached_schemas) cached_schemas (real_laws cached_schemas) steady 64 steady_ok
      ltac:(lia) s a v 1 2 some_task (mkCells None None None) (mkCells None None None) (mkCells None None None)
      2000 some_thread some_thread some_thread some_thread some_thread Hr Hv) as ((i & cells' & E & _ & Hrun) & _).
    + lia.
    + lia.
    + exact some_task_ok.
    + by split_and!.
    + by split_and!.
    + by split_and!.
    + exists i, cells'. split; [exact E|]. eapply run_mono; [exact Hrun|by intros [[]|e]; intuition|done].
Defined.
